(* ===== verification/_CoqProject ===== *)
-Q . S2P
Prelude.v
Json.v
Store.v
Time.v
Text.v
Outbox.v
Relay.v
Budget.v
Oauth.v
TokenClient.v
Connection.v
Normalize.v
Envelopes.v
Articles.v
Consumers.v
BrowserCapture.v
Social.v
Knowledge.v
PublicPost.v
PublicCapture.v
PublicCaptureSafety.v
Snapshot.v
SnapshotStaging.v
Compliance.v
Folders.v
Incremental.v
Writeback.v
WritebackSafety.v
Archive.v
WritebackGates.v
WritebackProvider.v
WritebackSamples.v
LegacySource.v
LegacyShadow.v
LegacyTransition.v
LegacyReview.v
Config.v
Service.v
TransitionCli.v
Operator.v
Footprints.v
System.v
