(* ===== verification/Prelude.v ===== *)
(** * A model of ratatoskr-x, and what holds of it

    ratatoskr-x is the X (Twitter) bounded context of a personal archive: a Rust service over one
    PostgreSQL schema, [x_archive] ([src/schema.sql]). It connects an owner's X account over OAuth,
    takes complete snapshots and incremental scans of the account's bookmarks and native folders,
    publishes what it stores as events through a transactional outbox, resolves posts captured
    explicitly in a browser, asks a sibling service for the articles posts link to, re-checks retained
    sources, and writes single bookmarks back under explicit consent. This library models those parts
    function by function and proves what makes each correct. It reads in the order of [_CoqProject];
    this file also holds the execution model everything else is written in.

    ** The execution model (this file)

    A handler is a [M D Ev E A]: it takes an environment [Env] and a [World] (database, step counter,
    log of external calls) and returns a [result] and the next world. What the program cannot choose is
    a function of the step at which it is consulted: whether a statement runs, fails, or takes effect
    while the caller sees an error ([e_fault]); the injected clock ([e_clock]) and the server's [now()]
    ([e_pgnow]); generated identifiers ([e_uuid]); and what other connections did to the database since
    ([e_other]). Other connections act where a pooled statement or a transaction starts: inside a
    transaction the rows the code locks are its own, so a transaction is one atomic unit, whose commit
    may still be lost ([transaction]; its [ending] is a commit, a rollback, or a dropped handle).
    Answers of the provider, the broker and the HTTP clients are functions of the step as well ([call],
    [call_observed]) and are logged as events.

    Three judgements speak of a handler. [guar env R m]: every run of [m], stopped anywhere by any
    fault, moves the database by [R], under a [rely] on what others do: this is how theorems about
    interleavings are stated. A service may run next to others when their guarantees satisfy its rely;
    [System] discharges that for all of them at once. [wp env m Q w]: the postcondition of one run, errors included.
    [yields]: the postcondition of the value, when one is returned. [guar_steps], [wp_steps],
    [yields_steps] and [keeps_steps] walk a handler; what they leave are the obligations of its
    statements, which the hint database [guar] discharges where a component has declared its lemmas.

    ** The files

    - [Json], [Time], [Text]: [serde_json] values, [chrono] instants (microseconds), and the byte-string
      operations of Rust the code uses, with their lemmas.
    - [Store]: the tables of [src/schema.sql] as one record [Db], the row types, and the events.
    - [Outbox] ([x-persistence/src/outbox.rs]), [Relay] ([x-capture/src/relay.rs]): queueing, the life of
      a queued row, resends of removals; the publisher is a class with laws, which the JetStream
      publisher discharges.
    - [Budget] ([x-budget/src/gate.rs], [x-persistence/src/budget_windows.rs]): the request budget.
    - [Oauth], [TokenClient], [Connection] ([x-oauth], [x-persistence/src/credentials.rs],
      [oauth_intents.rs], [bookmark_write_authorizations.rs]): scopes, PKCE, the token cipher, the token
      endpoint and its flat JSON reader, authorization intents, code exchange, refresh and revocation.
    - [Normalize] ([x-normalize]): the pure function from an API envelope to row-shaped records.
    - [Envelopes], [Articles], [Social] ([x-sync/src/envelopes.rs], [articles.rs],
      [social_sources.rs]): complete envelopes, linked articles, published source revisions.
    - [Consumers] ([services/x/src/deletion_acks.rs], [extractor_reports.rs]), [BrowserCapture]
      ([x-capture/src/lib.rs]): the pull loop of the bus consumers and its three handlers.
    - [Knowledge], [PublicPost], [PublicCapture], [Compliance] (the files of those names in
      [x-sync/src]): analysis links, the app-only lookup, the capture worker, revalidation.
      [PublicCaptureSafety] is the theory of captures and their reports.
    - [Snapshot] ([x-sync/src/lib.rs]), [SnapshotStaging], [Folders] ([folders.rs]), [Incremental]
      ([incremental.rs]): the services that read the archive from the provider.
    - [Writeback], [WritebackProvider] ([x-sync/src/writeback]): consented writes and the official
      adapter. [WritebackSafety], [WritebackGates] and [Archive] are the theory of write operations, of
      the gates, and of the archive under all four services; [WritebackSamples] runs them on a small
      database.
    - [LegacySource], [LegacyShadow], [LegacyTransition], [LegacyReview]
      ([x-sync/src/legacy_transition.rs] and its directory): the operator's transition from retired
      exports. In order: the validation of a source artifact ([source_validation.rs], [sources.rs]), the
      pure comparison of imported evidence with a snapshot ([shadow.rs]), the current identity of an
      account and the import transaction ([imports.rs], [service.rs]), and reports, checklists and owner
      decisions ([service.rs], [shadow.rs]). [TransitionCli] and [Operator]
      ([services/x/src/transition_cli.rs], [transition_main.rs]) are its command line and its run.
    - [Config] ([x-core/src/config.rs], [error.rs]): the configuration tree and its validation.
      [Service] ([x-http/src/admin.rs], [services/x/src/main.rs], [bootstrap.rs], [bus.rs]): the admin
      endpoints, the bootstrap sequence with its exit codes, and the life of the served process as a step
      relation over signals, stopped tasks, relay reports and timers.
    - [Footprints] groups the tables into parts, one for each invariant, and shows for every operation
      which parts it writes and which events it queues. [System] ([services/x/src/main.rs]) has the tasks
      the service spawns and all operations as one type, [perform] which runs one, and the histories of
      a database under them.

    A definition has the name of the Rust item it models, with a prefix where two items share one
    ([xc_], [bm_] and the like are the fields of one record). A statement of SQL is a function of the
    database next to the handler that runs it; its unique keys, foreign keys and checks are part of it
    where they can make it fail. The columns and constraints no modelled statement reads or can
    violate are left out. Integers are [Z]; the range of a column or of a Rust type is written where a
    value is stored or converted ([int4], [u32_max], saturation), and a Rust addition that cannot
    overflow there (a counter of a bounded batch) is plain.

    ** What is shown

    - Authority: a write reaches the provider only under one live consent, consumed atomically, and an
      idempotency key decides once; write operations and consents only move forward; a dry run predicts
      the live run; write authority is granted only to the owner, identity and scopes it was asked for
      ([WritebackSafety], [WritebackGates], [Connection]).
    - The archive: absence and authority rest on complete snapshots under any interleaving of snapshots,
      folder runs, scans and writes ([Archive]); completion reconciles exactly ([Snapshot], [Folders]);
      a run is stages followed by at most one completion (refinement); a scan only observes, and says
      when it lost the thread ([Incremental]).
    - Removal: a retained source is taken down only on an authoritative check ([Compliance]), the
      removal is announced until Knowledge itself acknowledges it ([Consumers], [Outbox], [Relay]).
    - Captures: a command is acknowledged only when it is durable, every capture is reported exactly as
      its state calls for, and a pass of the worker takes the captures that are due and ends each, or
      retries it on schedule, as the resolver's answer calls for ([BrowserCapture],
      [PublicCaptureSafety]).
    - Resources: budgets are never oversold and accounted exactly ([Budget]); page loops end within the
      caps ([Snapshot], [Incremental]); a compliance pass is bounded and thorough ([Compliance]).
    - Secrets and texts: the cipher opens exactly what was sealed for the same owner and purpose, and
      the URL and JSON readers are inverse to what they read ([Oauth], [TokenClient]); permalinks and
      the provider's outcomes are classified exactly ([BrowserCapture], [PublicPost],
      [WritebackProvider]).
    - Content: normalization is canonical and loses nothing ([Normalize]); sources and articles are
      published once per change ([Social], [Articles]); completions link one revision ([Knowledge]).
    - Transition: a preflighted batch comes from one unchanged artifact, and the CSV reader is inverse to
      a writer ([LegacySource]); a report classifies every row as its resolution and the snapshot call
      for, accounts for every post, and counts each class, in an order that does not depend on how they
      were read ([LegacyShadow]); an import records exactly its batch and the posts and counts it calls
      for, once, and stays in its tables ([LegacyTransition]); a decision is the owner's, about the very checklist of an
      authoritative report, one is current at a time, and a report is reviewable exactly while its
      current decision approves it ([LegacyReview]). Command lines read back, refuse credentials before
      anything else, and a refused one touches nothing ([TransitionCli], [Operator]).
    - The whole: every operation keeps the invariants of all components while the others do, faults
      included, and so does any history of operations from the empty database: the archive's claims,
      removals, articles, captures, budgets, reviews and analysis links are justified in whatever it
      leaves, and outbox rows, write operations and captures only move forward ([System]). Other
      connections take part in a history as operations run, to their end or to a fault, before any
      pooled statement or transaction; two operations that each stop half-way around the other are
      covered by the first statement, for any interference within the same relation. From any such
      database, and left alone, a relay whose messages are acknowledged publishes every row that is due,
      in as many passes as there are batches ([Relay]), and every capture none of whose reports is held
      back is then reported on the bus as far as it got ([System]).
    - Process: loading accepts exactly the configurations whose every rule holds, and those bound every
      resend delay ([Config], [Outbox]); the process serves only when everything it needs answered, is
      never ready while it drains, and leaves with status one after it joined a stopped task; a signal
      that arrives first wins, with status zero ([Service]).

    ** Parameters, fuel and bounds

    Code outside the repository is a class of operations: the contract crates ([Contracts],
    [EnvelopeCodec], [ArticleContracts], [SocialContracts], [CaptureContracts], [AckContracts],
    [KnowledgeContracts], [RemovalContracts]), cryptography ([Crypto]), time arithmetic ([Chrono]), the
    HTTP clients, the operator's artifacts, files and output ([LegacyInputs], [OperatorInputs]), UUID
    parsing ([UuidParser]) and base64, PEM and file reads of the configuration ([ConfigInputs]). Documented facts a theorem relies on are laws of such a class, and the samples
    instantiate every class and law concretely. The page loops of [Snapshot] and [Folders] take fuel and
    return [None] without it; [snapshot_run_terminates] shows the window's cap is enough, and the loop
    of [Incremental] computes its own ([scan_rounds]). A wait for a concurrent write polls
    [MAX_POLLS] times. A consumer session is the list of what its stream delivers, whose end is the
    shutdown signal; the iteration order of a [HashMap] is a parameter.

    ** Not modelled

    - Logging, metrics and sleeps between polls ([x-telemetry]), the pool and the application of the
      schema ([x-persistence/src/database.rs]), the HTTP and broker clients themselves, and how [figment]
      reads the environment: input and output around the operations modelled here. Time is not measured in
      [Service]: the grace period and the drain may end at any step.
    - Decoding derived by serde, test support, and the physical concurrency of PostgreSQL beyond the
      atomic units above. *)
From stdpp Require Export base option list gmap strings relations.
From Stdlib Require Export ZArith Lia Sorted.
Global Open Scope Z_scope.

(** ** Results *)

(** Rust's [Result]. *)
Inductive result (A E : Type) : Type :=
  | Ok (a : A)
  | Err (e : E).
Arguments Ok {A E} a.
Arguments Err {A E} e.

Definition result_map_err {A E F : Type} (f : E → F) (r : result A E) : result A F :=
  match r with Ok a => Ok a | Err e => Err (f e) end.

Definition is_ok {A E : Type} (r : result A E) : bool :=
  match r with Ok _ => true | Err _ => false end.

Definition ok_or {A E : Type} (o : option A) (e : E) : result A E :=
  match o with Some a => Ok a | None => Err e end.

(** The [?] operator, and loops that stop at the first error. *)
Definition result_bind {A B E : Type} (r : result A E) (k : A → result B E) : result B E :=
  match r with Ok a => k a | Err e => Err e end.

Definition try_each {A E : Type} (f : A → result unit E) : list A → result unit E :=
  fix go xs := match xs with [] => Ok tt | x :: xs' => result_bind (f x) (λ _, go xs') end.

Definition try_map {A B E : Type} (f : A → result B E) : list A → result (list B) E :=
  fix go xs :=
    match xs with
    | [] => Ok []
    | x :: xs' => result_bind (f x) (λ y, result_bind (go xs') (λ ys, Ok (y :: ys)))
    end.

Lemma result_map_err_Ok {A E F} (f : E → F) (r : result A E) a : result_map_err f r = Ok a → r = Ok a.
Proof. destruct r; [by intros [= ->]|done]. Qed.

Lemma result_bind_Ok {A B E : Type} (r : result A E) (k : A → result B E) b :
  result_bind r k = Ok b ↔ ∃ a, r = Ok a ∧ k a = Ok b.
Proof. destruct r as [a|e]; simpl; split; [eauto|by intros (? & [= <-] & ?)|done|by intros (? & ? & _)]. Qed.

Lemma ok_or_Ok {A E : Type} (o : option A) (e : E) a : ok_or o e = Ok a ↔ o = Some a.
Proof. destruct o; simpl; split; congruence. Qed.

Lemma try_each_Ok {A E : Type} (f : A → result unit E) xs :
  try_each f xs = Ok tt ↔ Forall (λ x, f x = Ok tt) xs.
Proof.
  induction xs as [|x xs IH]; simpl; [by split; constructor|].
  rewrite Forall_cons, <-IH. destruct (f x) as [[]|e]; simpl; naive_solver.
Qed.

Lemma try_map_Ok {A B E : Type} (f : A → result B E) xs ys :
  try_map f xs = Ok ys ↔ Forall2 (λ x y, f x = Ok y) xs ys.
Proof.
  revert ys. induction xs as [|x xs IH]; intros ys; simpl.
  - split; [by intros [= <-]|by inversion 1].
  - rewrite result_bind_Ok. split.
    + intros (y & Hy & (zs & Hzs & [= <-])%result_bind_Ok). constructor; [done|]. by apply IH.
    + inversion 1 as [|? y ? zs Hy Hzs]; subst. exists y. split; [done|]. apply result_bind_Ok.
      exists zs. by rewrite IH.
Qed.

(** Opens the [?]s of a hypothesis one at a time. *)
Ltac opens := repeat match goal with
  | H : result_bind _ _ = Ok _ |- _ => apply result_bind_Ok in H as (? & ? & H)
  | H : (let '(_, _) := ?e in _) = Ok _ |- _ => destruct e eqn:?; simpl in H
  | H : (if ?b then _ else _) = Ok _ |- _ => destruct b eqn:?; simplify_eq
  end.

(** ** Machine integers *)

Definition in_range (lo hi z : Z) : bool := bool_decide (lo ≤ z ∧ z ≤ hi).
Definition i32_max : Z := 2147483647.
Definition i32_min : Z := -2147483648.
Definition u32_max : Z := 4294967295.
Definition i64_max : Z := 9223372036854775807.

(** A value stored in an [integer] column, or the failure of the statement that stores it. *)
Definition int4 (z : Z) : option Z := if in_range i32_min i32_max z then Some z else None.

(** [i32::try_from]. *)
Definition i32_try_from (z : Z) : option Z := int4 z.

Lemma in_range_spec lo hi z : in_range lo hi z = true ↔ lo ≤ z ∧ z ≤ hi.
Proof. unfold in_range. by rewrite bool_decide_eq_true. Qed.

Lemma int4_Some z y : int4 z = Some y ↔ y = z ∧ i32_min ≤ z ≤ i32_max.
Proof.
  unfold int4. destruct (in_range _ _ z) eqn:H.
  - apply in_range_spec in H. split; [intros [= <-]; lia | intros [-> _]; done].
  - split; [done|]. intros [_ Hr]. apply not_true_iff_false in H.
    exfalso. apply H, in_range_spec. lia.
Qed.

(** ** Ordered selection

    [order by ... limit n] and the stable sorts of the program: insertion sort under a boolean
    total preorder. *)
Section Sorting.
Context {A : Type} (leb : A → A → bool).

Fixpoint insert_sorted (x : A) (xs : list A) : list A :=
  match xs with
  | [] => [x]
  | y :: ys => if leb x y then x :: xs else y :: insert_sorted x ys
  end.
Definition sort (xs : list A) : list A := foldr insert_sorted [] xs.

Lemma insert_sorted_perm x xs : insert_sorted x xs ≡ₚ x :: xs.
Proof.
  induction xs as [|y ys IH]; simpl; [done|]. destruct (leb x y); [done|].
  rewrite IH. apply Permutation_swap.
Qed.

Lemma sort_perm xs : sort xs ≡ₚ xs.
Proof. induction xs as [|x xs IH]; simpl; [done|]. by rewrite insert_sorted_perm, IH. Qed.

Lemma elem_of_sort x xs : x ∈ sort xs ↔ x ∈ xs.
Proof. by rewrite sort_perm. Qed.

Context (leb_total : ∀ x y, leb x y = true ∨ leb y x = true).
Context (leb_trans : ∀ x y z, leb x y = true → leb y z = true → leb x z = true).

Lemma insert_sorted_sorted x xs :
  StronglySorted (λ a b, leb a b = true) xs →
  StronglySorted (λ a b, leb a b = true) (insert_sorted x xs).
Proof.
  induction 1 as [|y ys Hs IH Hy]; simpl; [by repeat constructor|].
  destruct (leb x y) eqn:E.
  - constructor; [by constructor|]. constructor; [done|].
    eapply Forall_impl; [exact Hy|]. intros z Hz. by eapply leb_trans.
  - constructor; [done|]. rewrite insert_sorted_perm. constructor; [|done].
    destruct (leb_total x y); congruence.
Qed.

Lemma sort_sorted xs : StronglySorted (λ a b, leb a b = true) (sort xs).
Proof. induction xs as [|x xs IH]; simpl; [constructor|]. by apply insert_sorted_sorted. Qed.
End Sorting.

(** [Vec::dedup]: drops an element equal to the one before it. *)
Fixpoint dedup {A} `{EqDecision A} (xs : list A) : list A :=
  match xs with
  | [] => []
  | x :: rest =>
      match dedup rest with
      | y :: ys => if decide (x = y) then y :: ys else x :: y :: ys
      | [] => [x]
      end
  end.

(** The order without equality. *)
Definition strict {A} (leb : A → A → bool) (a b : A) : Prop := leb a b = true ∧ a ≠ b.

Lemma sorted_fmap {A B} (f : A → B) (R : B → B → Prop) xs :
  StronglySorted (λ a b, R (f a) (f b)) xs → StronglySorted R (f <$> xs).
Proof.
  induction 1 as [|x xs Hs IH Hx]; simpl; constructor; [done|].
  by apply Forall_fmap.
Qed.

Lemma sorted_weaken {A} (R R' : relation A) xs :
  (∀ a b, R a b → R' a b) → StronglySorted R xs → StronglySorted R' xs.
Proof.
  intros Hr. induction 1 as [|x xs _ IH Hx]; constructor; [done|]. by eapply Forall_impl; [exact Hx|auto].
Qed.

Lemma sorted_app_le {A} (R : relation A) xs ys x y :
  StronglySorted R (xs ++ ys) → x ∈ xs → y ∈ ys → R x y.
Proof.
  intros Hs Hx Hy. induction xs as [|z xs IH]; [by apply not_elem_of_nil in Hx|].
  apply StronglySorted_inv in Hs as [Hs Hz]. apply elem_of_cons in Hx as [->|Hx]; [|by apply IH].
  rewrite Forall_forall in Hz. apply Hz, elem_of_app. by right.
Qed.

Lemma sorted_nodup_strict {A} (leb : A → A → bool) xs :
  StronglySorted (λ a b, leb a b = true) xs → NoDup xs → StronglySorted (strict leb) xs.
Proof.
  induction 1 as [|x xs Hs IH Hx]; intros Hnd; constructor; apply NoDup_cons in Hnd as [Hn Hnd].
  - by apply IH.
  - apply Forall_forall. intros y Hy. rewrite Forall_forall in Hx. split; [by apply Hx|].
    by intros ->.
Qed.

Lemma elem_of_dedup {A} `{EqDecision A} (x : A) xs : x ∈ dedup xs ↔ x ∈ xs.
Proof.
  induction xs as [|y ys IH]; simpl; [done|].
  destruct (dedup ys) as [|z zs] eqn:E; [|case_decide; subst];
    rewrite (elem_of_cons ys), <-IH, ?elem_of_cons; tauto.
Qed.

Lemma dedup_strict {A} `{EqDecision A} (leb : A → A → bool) xs :
  (∀ a b, leb a b = true → leb b a = true → a = b) →
  StronglySorted (λ a b, leb a b = true) xs → StronglySorted (strict leb) (dedup xs).
Proof.
  intros Hanti. induction 1 as [|x xs Hs IH Hx]; simpl; [constructor|].
  destruct (dedup xs) as [|y ys] eqn:E; [by repeat constructor|].
  case_decide as Hxy; [done|]. rewrite Forall_forall in Hx.
  assert (Hin : ∀ z, z ∈ y :: ys → leb x z = true).
  { intros z. rewrite <-E, elem_of_dedup. apply Hx. }
  constructor; [done|]. apply Forall_forall. intros z Hz. split; [by apply Hin|].
  intros ->. apply elem_of_cons in Hz as [->|Hz]; [done|].
  inversion IH as [|? ? _ Hy]; subst. rewrite Forall_forall in Hy. destruct (Hy z Hz) as [Hle _].
  apply Hxy, Hanti; [apply Hin; by left | done].
Qed.

(** ** The world a statement runs in

    [D] is the database, [Ev] the type of externally visible calls. *)

(** What the environment does to one database statement: it runs, it fails, or it takes effect
    and the caller still sees an error (a connection lost after the server applied it). *)
Inductive fault := NoFault | Failed | Lost.

#[export] Instance fault_eq_dec : EqDecision fault.
Proof. solve_decision. Defined.

(** Everything the program cannot choose, indexed by the step at which it is consulted. *)
Record Env (D : Type) := mkEnv {
  e_fault : nat → fault;        (* what happens to the statement of this step *)
  e_clock : nat → Z;            (* the injected clock *)
  e_pgnow : nat → Z;            (* the server's [now()] *)
  e_uuid  : nat → Z;            (* the identity a generator returns at this step *)
  e_other : nat → D → D;        (* what the other connections did before this step *)
}.
Arguments mkEnv {D} _ _ _ _ _.
Arguments e_fault {D} _ _. Arguments e_clock {D} _ _. Arguments e_pgnow {D} _ _.
Arguments e_uuid {D} _ _. Arguments e_other {D} _ _ _.

Record World (D Ev : Type) := mkWorld {
  w_db : D;
  w_tick : nat;
  w_log : list Ev;
}.
Arguments mkWorld {D Ev} _ _ _.
Arguments w_db {D Ev} _. Arguments w_tick {D Ev} _. Arguments w_log {D Ev} _.

Section Monad.
Context {D Ev : Type}.
Implicit Types (w : World D Ev) (env : Env D).

Definition set_db (d : D) (w : World D Ev) : World D Ev := mkWorld d (w_tick w) (w_log w).
Definition tick (w : World D Ev) : World D Ev := mkWorld (w_db w) (S (w_tick w)) (w_log w).
Definition emit (e : Ev) (w : World D Ev) : World D Ev :=
  mkWorld (w_db w) (w_tick w) (w_log w ++ [e]).

(** A computation that reads the environment, changes the world and may fail with an [E]. *)
Definition M (E A : Type) : Type := Env D → World D Ev → result A E * World D Ev.

Definition ret {E A} (a : A) : M E A := λ _ w, (Ok a, w).
Definition throw {E A} (e : E) : M E A := λ _ w, (Err e, w).
Definition of_result {E A} (r : result A E) : M E A := λ _ w, (r, w).

Definition bind {E A B} (m : M E A) (k : A → M E B) : M E B := λ env w,
  match m env w with
  | (Ok a, w') => k a env w'
  | (Err e, w') => (Err e, w')
  end.

(** Runs [m] and hands its result, success or failure, to the continuation. *)
Definition attempt {E F A} (m : M E A) : M F (result A E) := λ env w,
  let '(r, w') := m env w in (Ok r, w').

Definition map_err {E F A} (f : E → F) (m : M E A) : M F A := λ env w,
  let '(r, w') := m env w in (result_map_err f r, w').

(** The injected clock, the server clock and the identity generator. *)
Definition clock_now {E} : M E Z := λ env w, (Ok (e_clock env (w_tick w)), tick w).
Definition pg_now {E} : M E Z := λ env w, (Ok (e_pgnow env (w_tick w)), tick w).
Definition new_uuid {E} : M E Z := λ env w, (Ok (e_uuid env (w_tick w)), tick w).

(** A call to a collaborator outside the database: logged, and answered per step. *)
Definition call {E A} (ev : Ev) (answer : nat → A) : M E A := λ _ w,
  (Ok (answer (w_tick w)), tick (emit ev w)).

(** A call whose answer is part of what is observed. *)
Definition call_observed {E A} (ev : A → Ev) (answer : nat → A) : M E A := λ _ w,
  (Ok (answer (w_tick w)), tick (emit (ev (answer (w_tick w))) w)).

(** Other connections may run before a statement that starts on a pooled connection. *)
Definition interfere {E} : M E unit := λ env w,
  (Ok tt, set_db (e_other env (w_tick w) (w_db w)) (tick w)).

(** One SQL statement. [q] answers [None] when a constraint or a missing row refuses it. *)
Definition stmt {E A} (err : E) (q : D → option (A * D)) : M E A := λ env w,
  match e_fault env (w_tick w) with
  | NoFault =>
      match q (w_db w) with
      | Some (a, d) => (Ok a, set_db d (tick w))
      | None => (Err err, tick w)
      end
  | Failed => (Err err, tick w)
  | Lost =>
      match q (w_db w) with
      | Some (_, d) => (Err err, set_db d (tick w))
      | None => (Err err, tick w)
      end
  end.

(** Read-only statements and statements that never refuse. *)
Definition select {E A} (err : E) (q : D → A) : M E A := stmt err (λ d, Some (q d, d)).
Definition execute {E} (err : E) (u : D → D) : M E unit := stmt err (λ d, Some (tt, u d)).

(** A statement on a pooled connection, that is, its own transaction. *)
Definition on_pool {E A} (m : M E A) : M E A := bind interfere (λ _, m).

(** How a transaction body ends without failing: it commits, it rolls back explicitly, or the
    handle is dropped, which rolls back as well. *)
Inductive ending (A : Type) := Commit (a : A) | Rollback (a : A) | Dropped (a : A).
Arguments Commit {A} a. Arguments Rollback {A} a. Arguments Dropped {A} a.

(** [begin], the body, and [commit] or a rollback. A failing body drops the handle. *)
Definition transaction {E A} (err : E) (body : M E (ending A)) : M E A := λ env w0,
  let w1 := set_db (e_other env (w_tick w0) (w_db w0)) (tick w0) in
  match e_fault env (w_tick w1) with
  | NoFault =>
      let '(r, w2) := body env (tick w1) in
      match r with
      | Err e => (Err e, set_db (w_db w1) w2)
      | Ok (Dropped a) => (Ok a, set_db (w_db w1) w2)
      | Ok (Rollback a) =>
          match e_fault env (w_tick w2) with
          | NoFault => (Ok a, set_db (w_db w1) (tick w2))
          | _ => (Err err, set_db (w_db w1) (tick w2))
          end
      | Ok (Commit a) =>
          match e_fault env (w_tick w2) with
          | NoFault => (Ok a, tick w2)
          | Failed => (Err err, set_db (w_db w1) (tick w2))
          | Lost => (Err err, tick w2)
          end
      end
  | _ => (Err err, tick w1)
  end.

(** A [for] loop whose body may fail. *)
Fixpoint for_each {E A} (xs : list A) (body : A → M E unit) : M E unit :=
  match xs with
  | [] => ret tt
  | x :: xs => bind (body x) (λ _, for_each xs body)
  end.

Fixpoint fold_m {E A B} (f : B → A → M E B) (b : B) (xs : list A) : M E B :=
  match xs with
  | [] => ret b
  | x :: xs => bind (f b x) (λ b', fold_m f b' xs)
  end.
End Monad.
Arguments Commit {A} a. Arguments Rollback {A} a. Arguments Dropped {A} a.
Arguments M D Ev E A : clear implicits.

Declare Scope prog_scope.
Delimit Scope prog_scope with prog.
Notation "'let!' x ':=' m 'in' k" := (bind m (λ x, k))
  (at level 10, x pattern, m at level 100, k at level 200,
   format "'[v' 'let!'  x  ':='  m  'in' '/' k ']'") : prog_scope.
Notation "'do!' m 'in' k" := (bind m (λ _, k))
  (at level 10, m at level 100, k at level 200,
   format "'[v' 'do!'  m  'in' '/' k ']'") : prog_scope.
Notation "'let?' x ':=' r 'in' k" := (result_bind r (λ x, k))
  (at level 10, x pattern, r at level 100, k at level 200,
   format "'[v' 'let?'  x  ':='  r  'in' '/' k ']'") : prog_scope.
Notation "'do?' r 'in' k" := (result_bind r (λ _, k))
  (at level 10, r at level 100, k at level 200,
   format "'[v' 'do?'  r  'in' '/' k ']'") : prog_scope.
Global Open Scope prog_scope.

(** ** Guarantees

    A guarantee is a preorder on worlds that steps which only count time satisfy and that undoing
    the database changes of a computation cannot break. *)
Class Guarantee {D Ev} (R : relation (World D Ev)) : Prop := {
  guarantee_preorder :: PreOrder R;
  guarantee_tick w : R w (tick w);
  guarantee_undo w w' : R w w' → R w (set_db (w_db w) w');
}.

(** [guar env R m]: whatever [m] does from any world, it stays within [R]. *)
Record guar {D Ev E A} (env : Env D) (R : relation (World D Ev)) (m : M D Ev E A) : Prop :=
  Guar { guar_elim w : R w (m env w).2 }.
Arguments guar_elim {D Ev E A env R m} _ _.

(** The other connections respect [R] as well. *)
Definition rely {D Ev} (env : Env D) (R : relation (World D Ev)) : Prop :=
  ∀ n w, R w (set_db (e_other env n (w_db w)) w).

(** A guarantee about the database alone. *)
Definition on_db {D Ev} (R : relation D) : relation (World D Ev) :=
  λ w w', R (w_db w) (w_db w').

#[export] Instance on_db_guarantee {D Ev} (R : relation D) `{!PreOrder R} :
  Guarantee (@on_db D Ev R).
Proof.
  split.
  - split; unfold on_db; [intros w; reflexivity | intros w1 w2 w3 ??; by etrans].
  - intros w. unfold on_db. simpl. reflexivity.
  - intros w w' _. unfold on_db. simpl. reflexivity.
Qed.

(** Steps that call nobody outside the database. *)
Definition silent {D Ev} : relation (World D Ev) := λ w w', w_log w' = w_log w.

#[export] Instance silent_guarantee {D Ev} : Guarantee (@silent D Ev).
Proof. split; [split; [done|unfold silent; intros ???; congruence]|done|done]. Qed.

Lemma silent_rely {D Ev} (env : Env D) : rely env (@silent D Ev).
Proof. done. Qed.

(** Preservation of an invariant, as a guarantee. *)
Definition keeps {D} (I : D → Prop) : relation D := λ d d', I d → I d'.

#[export] Instance keeps_preorder {D} (I : D → Prop) : PreOrder (keeps I).
Proof. split; unfold keeps; [by intros d | intros d1 d2 d3; naive_solver]. Qed.

Create HintDb guar.

Section Guar.
Context {D Ev : Type} (env : Env D) (R : relation (World D Ev)) `{!Guarantee R}.

Lemma guar_ret {E A} (a : A) : guar env R (ret (E:=E) a).
Proof. split; intros w. simpl. reflexivity. Qed.

Lemma guar_throw {E A} (e : E) : guar env R (throw (A:=A) e).
Proof. split; intros w. simpl. reflexivity. Qed.

Lemma guar_of_result {E A} (r : result A E) : guar env R (of_result r).
Proof. split; intros w. simpl. reflexivity. Qed.

Lemma guar_bind {E A B} (m : M D Ev E A) (k : A → M D Ev E B) :
  guar env R m → (∀ a, guar env R (k a)) → guar env R (bind m k).
Proof.
  intros [Hm] Hk. split; intros w. unfold bind. specialize (Hm w). destruct (m env w) as [[a|e] w']; [|done].
  simpl in *. etrans; [exact Hm|]. apply (guar_elim (Hk a)).
Qed.

Lemma guar_attempt {E F A} (m : M D Ev E A) :
  guar env R m → guar env R (attempt (F:=F) m).
Proof. intros [Hm]. split; intros w. specialize (Hm w). unfold attempt. by destruct (m env w). Qed.

Lemma guar_map_err {E F A} (f : E → F) (m : M D Ev E A) :
  guar env R m → guar env R (map_err f m).
Proof. intros [Hm]. split; intros w. specialize (Hm w). unfold map_err. by destruct (m env w). Qed.

Lemma guar_clock_now {E} : guar env R (clock_now (E:=E)).
Proof. split; intros w. apply guarantee_tick. Qed.

Lemma guar_pg_now {E} : guar env R (pg_now (E:=E)).
Proof. split; intros w. apply guarantee_tick. Qed.

Lemma guar_new_uuid {E} : guar env R (new_uuid (E:=E)).
Proof. split; intros w. apply guarantee_tick. Qed.

Lemma guar_call {E A} (ev : Ev) (answer : nat → A) :
  (∀ w, R w (emit ev w)) → guar env R (call (E:=E) ev answer).
Proof. intros He. split; intros w. simpl. etrans; [apply He | apply guarantee_tick]. Qed.

Lemma guar_call_observed {E A} (ev : A → Ev) (answer : nat → A) :
  (∀ w a, R w (emit (ev a) w)) → guar env R (call_observed (E:=E) ev answer).
Proof. intros He. split; intros w. simpl. etrans; [apply He | apply guarantee_tick]. Qed.

Lemma guar_stmt {E A} (err : E) (q : D → option (A * D)) :
  (∀ w a d, q (w_db w) = Some (a, d) → R w (set_db d w)) → guar env R (stmt err q).
Proof.
  intros Hq. split; intros w. unfold stmt.
  assert (Hset : ∀ a d, q (w_db w) = Some (a, d) → R w (set_db d (tick w))).
  { intros a d E1. etrans; [apply (Hq w a d E1)|]. apply (guarantee_tick (set_db d w)). }
  assert (Ht : R w (tick w)) by apply guarantee_tick.
  destruct (e_fault env (w_tick w)), (q (w_db w)) as [[a d]|] eqn:E1; simpl; eauto.
Qed.

Lemma guar_select {E A} (err : E) (q : D → A) : guar env R (select err q).
Proof. apply guar_stmt. intros w a d [= _ <-]. destruct w. reflexivity. Qed.

Lemma guar_execute {E} (err : E) (u : D → D) :
  (∀ w, R w (set_db (u (w_db w)) w)) → guar env R (execute err u).
Proof. intros Hu. apply guar_stmt. intros w a d [= _ <-]. apply Hu. Qed.

Lemma guar_interfere {E} : rely env R → guar env R (interfere (E:=E)).
Proof.
  intros Hr. split; intros w. simpl. etrans; [apply (Hr (w_tick w) w)|].
  apply (guarantee_tick (set_db (e_other env (w_tick w) (w_db w)) w)).
Qed.

Lemma guar_on_pool {E A} (m : M D Ev E A) :
  rely env R → guar env R m → guar env R (on_pool m).
Proof. intros Hr Hm. apply guar_bind; [by apply guar_interfere | done]. Qed.

Lemma guar_transaction {E A} (err : E) (body : M D Ev E (ending A)) :
  rely env R → guar env R body → guar env R (transaction err body).
Proof.
  intros Hr [Hb]. split; intros w0. unfold transaction.
  set (w1 := set_db (e_other env (w_tick w0) (w_db w0)) (tick w0)).
  assert (H1 : R w0 w1).
  { etrans; [apply (Hr (w_tick w0) w0)|].
    apply (guarantee_tick (set_db (e_other env (w_tick w0) (w_db w0)) w0)). }
  assert (Ht : R w1 (tick w1)) by apply guarantee_tick.
  destruct (e_fault env (w_tick w1)); simpl; try (by etrans).
  specialize (Hb (tick w1)). destruct (body env (tick w1)) as [r w2]. simpl in Hb.
  assert (H2 : R w1 (set_db (w_db w1) w2)).
  { apply guarantee_undo. by etrans. }
  assert (H3 : R w1 (set_db (w_db w1) (tick w2))).
  { apply guarantee_undo. etrans; [exact Ht|]. etrans; [exact Hb|]. apply guarantee_tick. }
  assert (H4 : R w1 (tick w2)).
  { etrans; [exact Ht|]. etrans; [exact Hb|]. apply guarantee_tick. }
  destruct r as [[a|a|a]|e]; [| | |by etrans]; simpl;
    try destruct (e_fault env (w_tick w2)); simpl; by etrans.
Qed.

Lemma guar_for_each {E A} (xs : list A) (body : A → M D Ev E unit) :
  (∀ x, guar env R (body x)) → guar env R (for_each xs body).
Proof.
  intros Hb. induction xs as [|x xs IH]; simpl; [apply guar_ret|].
  apply guar_bind; [apply Hb | intros _; apply IH].
Qed.

Lemma guar_fold_m {E A B} (f : B → A → M D Ev E B) (xs : list A) (b : B) :
  (∀ b x, guar env R (f b x)) → guar env R (fold_m f b xs).
Proof.
  intros Hf. revert b. induction xs as [|x xs IH]; intros b; simpl; [apply guar_ret|].
  apply guar_bind; [apply Hf | intros b'; apply IH].
Qed.
End Guar.

(** Discharges a guarantee goal by the structure of the computation; what is left are the
    statements that write. *)
Ltac guar_step :=
  match goal with
  | |- ∀ _, _ => intro
  | |- Guarantee _ => typeclasses eauto
  | |- guar _ _ (ret _) => apply guar_ret
  | |- guar _ _ (throw _) => apply guar_throw
  | |- guar _ _ (of_result _) => apply guar_of_result
  | |- guar _ _ clock_now => apply guar_clock_now
  | |- guar _ _ pg_now => apply guar_pg_now
  | |- guar _ _ new_uuid => apply guar_new_uuid
  | |- guar _ _ (select _ _) => apply guar_select
  | |- guar _ _ (bind _ _) => apply guar_bind
  | |- guar _ _ (on_pool _) => apply guar_on_pool; [typeclasses eauto|assumption|]
  | |- guar _ _ (transaction _ _) => apply guar_transaction; [typeclasses eauto|assumption|]
  | |- guar _ _ (for_each _ _) => apply guar_for_each
  | |- guar _ _ (fold_m _ _ _) => apply guar_fold_m
  | |- guar _ _ (map_err _ _) => apply guar_map_err
  | |- guar _ _ (attempt _) => apply guar_attempt
  | |- guar _ _ (match ?x with _ => _ end) => destruct x eqn:?
  | |- guar _ _ _ => solve [eauto 4 with guar]
  | |- guar _ _ (execute _ _) => apply guar_execute
  | |- guar _ _ (stmt _ _) => apply guar_stmt
  end.
Ltac guar_steps := repeat guar_step.

(** What calls nobody outside the database. *)
Ltac silently :=
  match goal with
  | |- guar ?env (@silent ?D ?Ev) _ => pose proof (@silent_rely D Ev env); guar_steps; try done
  end.

(** ** Postconditions *)

Definition wp {D Ev E A} (env : Env D) (m : M D Ev E A)
    (Q : result A E → World D Ev → Prop) (w : World D Ev) : Prop :=
  Q (m env w).1 (m env w).2.

Section Wp.
Context {D Ev : Type} (env : Env D).
Implicit Types w : World D Ev.

Lemma wp_ret {E A} (a : A) Q w : Q (Ok a) w → wp env (ret (E:=E) a) Q w.
Proof. done. Qed.

Lemma wp_throw {E A} (e : E) Q w : Q (Err e) w → wp env (throw (A:=A) e) Q w.
Proof. done. Qed.

Lemma wp_bind {E A B} (m : M D Ev E A) (k : A → M D Ev E B) Q w :
  wp env m (λ r w', match r with Ok a => wp env (k a) Q w' | Err e => Q (Err e) w' end) w →
  wp env (bind m k) Q w.
Proof. unfold wp, bind. by destruct (m env w) as [[a|e] w']. Qed.

Lemma wp_mono {E A} (m : M D Ev E A) (P Q : result A E → World D Ev → Prop) w :
  wp env m P w → (∀ r w', P r w' → Q r w') → wp env m Q w.
Proof. unfold wp. auto. Qed.

Lemma wp_stmt {E A} (err : E) (q : D → option (A * D)) Q w :
  (∀ a d, q (w_db w) = Some (a, d) →
    Q (Ok a) (set_db d (tick w)) ∧ Q (Err err) (set_db d (tick w))) →
  Q (Err err) (tick w) →
  wp env (stmt err q) Q w.
Proof.
  intros Hq He. unfold wp, stmt.
  destruct (e_fault env (w_tick w)), (q (w_db w)) as [[a d]|] eqn:E1; simpl; auto;
    destruct (Hq a d eq_refl); done.
Qed.

Lemma wp_select {E A} (err : E) (q : D → A) Q w :
  Q (Ok (q (w_db w))) (tick w) → Q (Err err) (tick w) → wp env (select err q) Q w.
Proof.
  intros H1 H2. apply wp_stmt; [|done]. intros a d [= <- <-].
  by destruct w; split.
Qed.

Lemma wp_of_result {E A} (r : result A E) Q w : Q r w → wp env (of_result r) Q w.
Proof. done. Qed.

Lemma wp_clock_now {E} Q w :
  Q (Ok (e_clock env (w_tick w))) (tick w) → wp env (clock_now (E:=E)) Q w.
Proof. done. Qed.

Lemma wp_pg_now {E} Q w :
  Q (Ok (e_pgnow env (w_tick w))) (tick w) → wp env (pg_now (E:=E)) Q w.
Proof. done. Qed.

Lemma wp_new_uuid {E} Q w :
  Q (Ok (e_uuid env (w_tick w))) (tick w) → wp env (new_uuid (E:=E)) Q w.
Proof. done. Qed.

Lemma wp_call {E A} (ev : Ev) (answer : nat → A) Q w :
  Q (Ok (answer (w_tick w))) (tick (emit ev w)) → wp env (call (E:=E) ev answer) Q w.
Proof. done. Qed.

Lemma wp_call_observed {E A} (ev : A → Ev) (answer : nat → A) Q w :
  Q (Ok (answer (w_tick w))) (tick (emit (ev (answer (w_tick w))) w)) →
  wp env (call_observed (E:=E) ev answer) Q w.
Proof. done. Qed.

Lemma wp_map_err {E F A} (f : E → F) (m : M D Ev E A) Q w :
  wp env m (λ r w', Q (result_map_err f r) w') w → wp env (map_err f m) Q w.
Proof. unfold wp, map_err. by destruct (m env w). Qed.

Lemma wp_attempt {E F A} (m : M D Ev E A) (Q : result (result A E) F → World D Ev → Prop) w :
  wp env m (λ r w', Q (Ok r) w') w → wp env (attempt m) Q w.
Proof. unfold wp, attempt. by destruct (m env w). Qed.

Lemma wp_execute {E} (err : E) (u : D → D) Q w :
  Q (Ok tt) (set_db (u (w_db w)) (tick w)) → Q (Err err) (set_db (u (w_db w)) (tick w)) →
  Q (Err err) (tick w) → wp env (execute err u) Q w.
Proof. intros H1 H2 H3. apply wp_stmt; [|done]. by intros a d [= <- <-]. Qed.

(** A pooled statement starts where the other connections left the database. *)
Lemma wp_on_pool {E A} (m : M D Ev E A) Q w :
  wp env m Q (set_db (e_other env (w_tick w) (w_db w)) (tick w)) → wp env (on_pool m) Q w.
Proof. done. Qed.

(** A transaction: what its body must establish for each ending. *)
Lemma wp_transaction {E A} (err : E) (body : M D Ev E (ending A)) Q w :
  (let w1 := set_db (e_other env (w_tick w) (w_db w)) (tick w) in
   Q (Err err) (tick w1) ∧
   wp env body (λ r w2,
     let undone := set_db (w_db w1) (tick w2) in
     match r with
     | Err e => Q (Err e) (set_db (w_db w1) w2)
     | Ok (Dropped a) => Q (Ok a) (set_db (w_db w1) w2)
     | Ok (Rollback a) => Q (Ok a) undone ∧ Q (Err err) undone
     | Ok (Commit a) => Q (Ok a) (tick w2) ∧ Q (Err err) undone ∧ Q (Err err) (tick w2)
     end) (tick w1)) →
  wp env (transaction err body) Q w.
Proof.
  cbv zeta. unfold wp, transaction. intros [H1 H2].
  destruct (e_fault env _); [|done..].
  destruct (body env _) as [[[a|a|a]|e] w2]; simpl in *;
    try destruct (e_fault env (w_tick w2)); simpl; tauto.
Qed.

(** Reasoning about one computation with the state it started from. *)
Lemma guar_wp (R : relation (World D Ev)) {E A} (m : M D Ev E A) :
  (∀ w, wp env m (λ _ w', R w w') w) → guar env R m.
Proof. intros Hm. split. exact Hm. Qed.

Lemma wp_guar (R : relation (World D Ev)) {E A} (m : M D Ev E A) Q w :
  guar env R m → wp env m Q w → wp env m (λ r w', Q r w' ∧ R w w') w.
Proof. intros Hg Hq. split; [exact Hq | apply (guar_elim Hg)]. Qed.

Lemma wp_and {E A} (m : M D Ev E A) P Q w :
  wp env m P w → wp env m Q w → wp env m (λ r w', P r w' ∧ Q r w') w.
Proof. by split. Qed.

Lemma wp_of_guar (R : relation (World D Ev)) {E A} (m : M D Ev E A) w :
  guar env R m → wp env m (λ _ w', R w w') w.
Proof. intros Hg. apply (guar_elim Hg). Qed.
End Wp.

(** One rule of the postcondition calculus; what is left are the statements' own obligations. *)
Ltac wp_step :=
  match goal with
  | |- wp _ (ret _) _ _ => apply wp_ret
  | |- wp _ (throw _) _ _ => apply wp_throw
  | |- wp _ (of_result _) _ _ => apply wp_of_result
  | |- wp _ clock_now _ _ => apply wp_clock_now
  | |- wp _ pg_now _ _ => apply wp_pg_now
  | |- wp _ new_uuid _ _ => apply wp_new_uuid
  | |- wp _ (call _ _) _ _ => apply wp_call
  | |- wp _ (call_observed _ _) _ _ => apply wp_call_observed
  | |- wp _ (bind _ _) _ _ => apply wp_bind
  | |- wp _ (map_err _ _) _ _ => apply wp_map_err
  | |- wp _ (attempt _) _ _ => apply wp_attempt
  | |- wp _ (on_pool _) _ _ => apply wp_on_pool
  | |- wp _ (select _ _) _ _ => apply wp_select
  | |- wp _ (execute _ _) _ _ => apply wp_execute
  | |- wp _ (stmt _ _) _ _ => apply wp_stmt
  | |- wp _ (transaction _ _) _ _ => apply wp_transaction; cbv zeta; split
  end.
Ltac wp_steps := repeat (wp_step; cbn [result_map_err]).

(** Steps that leave a part of the state as it was. *)
Definition same {D T} (part : D → T) : relation D := λ d d', part d' = part d.

#[export] Instance same_preorder {D T} (part : D → T) : PreOrder (same part).
Proof. split; [done|]. unfold same. intros ?????. congruence. Qed.

(** ** What a computation yields

    Partial correctness: a postcondition of the value a computation returns, when it returns one. *)
Definition yields {D Ev E A} (env : Env D) (m : M D Ev E A) (P : A → World D Ev → Prop)
    (w : World D Ev) : Prop :=
  wp env m (λ r w', match r with Ok a => P a w' | Err _ => True end) w.

Section Yields.
Context {D Ev : Type} (env : Env D).
Implicit Types w : World D Ev.

Lemma yields_ret {E A} (a : A) (P : A → World D Ev → Prop) w :
  P a w → yields env (ret (E:=E) a) P w.
Proof. done. Qed.

Lemma yields_throw {E A} (e : E) (P : A → World D Ev → Prop) w : yields env (throw e) P w.
Proof. done. Qed.

Lemma yields_bind {E A B} (m : M D Ev E A) (k : A → M D Ev E B) P w :
  yields env m (λ a w', yields env (k a) P w') w → yields env (bind m k) P w.
Proof.
  unfold yields, wp, bind. by destruct (m env w) as [[a|e] w'].
Qed.

Lemma yields_mono {E A} (m : M D Ev E A) (P Q : A → World D Ev → Prop) w :
  yields env m P w → (∀ a w', P a w' → Q a w') → yields env m Q w.
Proof. unfold yields, wp. intros H HPQ. destruct (m env w) as [[a|e] w']; [by apply HPQ|done]. Qed.

Lemma yields_stmt {E A} (err : E) (q : D → option (A * D)) P w :
  (∀ a d, q (w_db w) = Some (a, d) → P a (set_db d (tick w))) → yields env (stmt err q) P w.
Proof. intros H. apply wp_stmt; [|done]. intros a d Hq. split; [by apply H|done]. Qed.

Lemma yields_select {E A} (err : E) (q : D → A) P w :
  P (q (w_db w)) (tick w) → yields env (select err q) P w.
Proof. intros H. by apply wp_select. Qed.

Lemma yields_execute {E} (err : E) (u : D → D) P w :
  P tt (set_db (u (w_db w)) (tick w)) → yields env (execute err u) P w.
Proof. intros H. by apply wp_execute. Qed.

Lemma yields_of_result {E A} (r : result A E) (P : A → World D Ev → Prop) w :
  (∀ a, r = Ok a → P a w) → yields env (of_result r) P w.
Proof. intros H. apply wp_of_result. destruct r; [by apply H|done]. Qed.

Lemma yields_map_err {E F A} (f : E → F) (m : M D Ev E A) (P : A → World D Ev → Prop) w :
  yields env m P w → yields env (map_err f m) P w.
Proof. unfold yields, wp, map_err. by destruct (m env w) as [[a|e] w']. Qed.

Lemma yields_attempt {E F A} (m : M D Ev E A) (P : result A E → World D Ev → Prop) w :
  wp env m P w → yields env (attempt (F:=F) m) P w.
Proof. intros H. by apply wp_attempt. Qed.

Lemma yields_clock_now {E} (P : Z → World D Ev → Prop) w :
  P (e_clock env (w_tick w)) (tick w) → yields env (clock_now (E:=E)) P w.
Proof. done. Qed.

Lemma yields_pg_now {E} (P : Z → World D Ev → Prop) w :
  P (e_pgnow env (w_tick w)) (tick w) → yields env (pg_now (E:=E)) P w.
Proof. done. Qed.

Lemma yields_new_uuid {E} (P : Z → World D Ev → Prop) w :
  P (e_uuid env (w_tick w)) (tick w) → yields env (new_uuid (E:=E)) P w.
Proof. done. Qed.

Lemma yields_on_pool {E A} (m : M D Ev E A) (P : A → World D Ev → Prop) w :
  yields env m P (set_db (e_other env (w_tick w) (w_db w)) (tick w)) → yields env (on_pool m) P w.
Proof. done. Qed.

Lemma yields_transaction {E A} (err : E) (body : M D Ev E (ending A)) (P : A → World D Ev → Prop) w :
  let w1 := set_db (e_other env (w_tick w) (w_db w)) (tick w) in
  yields env body (λ e w', match e with
    | Commit a => P a (tick w')
    | Rollback a => P a (set_db (w_db w1) (tick w'))
    | Dropped a => P a (set_db (w_db w1) w')
    end) (tick w1) →
  yields env (transaction err body) P w.
Proof.
  cbv zeta. intros H. apply wp_transaction. cbv zeta. split; [done|].
  set (w1 := set_db _ (tick w)) in *. unfold yields, wp in *.
  destruct (body env (tick w1)) as [[[a|a|a]|e] w2]; simpl in *; done.
Qed.

Lemma yields_any {E A} (m : M D Ev E A) (P : A → World D Ev → Prop) w :
  (∀ a w', P a w') → yields env m P w.
Proof. intros H. unfold yields, wp. destruct (m env w) as [[a|e] w']; [apply H|done]. Qed.

(** Loops: an invariant of the elements already visited. *)
Lemma yields_fold_m {E A B} (f : B → A → M D Ev E B) (I : list A → B → World D Ev → Prop) xs b w :
  I [] b w →
  (∀ visited x rest b w, xs = visited ++ x :: rest → I visited b w →
     yields env (f b x) (λ b' w', I (visited ++ [x]) b' w') w) →
  yields env (fold_m f b xs) (I xs) w.
Proof.
  intros H0 Hstep. change (I [] b w) with (I ([] : list A) b w) in H0.
  assert (H : ∀ rest visited b w, xs = visited ++ rest → I visited b w →
            yields env (fold_m f b rest) (I xs) w); [|by apply (H xs [])].
  clear b w H0. induction rest as [|x rest IH]; intros visited b w -> HI; simpl.
  - rewrite app_nil_r in *. by apply yields_ret.
  - apply yields_bind. eapply yields_mono; [by eapply Hstep|]. intros b' w' HI'.
    apply (IH (visited ++ [x])); [by rewrite <-app_assoc | exact HI'].
Qed.

Lemma yields_for_each {E A} (body : A → M D Ev E unit) (I : list A → World D Ev → Prop) xs w :
  I [] w →
  (∀ visited x rest w, xs = visited ++ x :: rest → I visited w →
     yields env (body x) (λ _ w', I (visited ++ [x]) w') w) →
  yields env (for_each xs body) (λ _, I xs) w.
Proof.
  intros H0 Hstep.
  assert (H : ∀ rest visited w, xs = visited ++ rest → I visited w →
            yields env (for_each rest body) (λ _, I xs) w); [|by apply (H xs [])].
  clear w H0. induction rest as [|x rest IH]; intros visited w -> HI; simpl.
  - rewrite app_nil_r in *. by apply yields_ret.
  - apply yields_bind. eapply yields_mono; [by eapply Hstep|]. intros u w' HI'.
    apply (IH (visited ++ [x])); [by rewrite <-app_assoc | exact HI'].
Qed.

Lemma yields_guar (R : relation D) {E A} (m : M D Ev E A) (P : A → World D Ev → Prop) w :
  guar env (on_db R) m → (∀ a w', R (w_db w) (w_db w') → P a w') → yields env m P w.
Proof.
  intros Hg H. unfold yields, wp. pose proof (guar_elim Hg w) as Hw. unfold on_db in Hw.
  destruct (m env w) as [[a|e] w']; [by apply H|done].
Qed.

Lemma yields_frame (R : relation D) {E A} (m : M D Ev E A) (P : A → World D Ev → Prop) w :
  guar env (on_db R) m → yields env m P w → yields env m (λ a w', P a w' ∧ R (w_db w) (w_db w')) w.
Proof.
  intros Hg. unfold yields, wp. pose proof (guar_elim Hg w) as Hw. unfold on_db in Hw.
  by destruct (m env w) as [[a|e] w'].
Qed.

(** A transaction on a database no other connection touches: it returns what its body commits, and
    after an error either nothing happened or all of a commit did. *)
Lemma wp_atomic {E A} (err : E) (body : M D Ev E (ending A)) (P : A → D → Prop) w :
  (∀ n d, e_other env n d = d) →
  yields env body (λ e w', match e with
    | Commit a => P a (w_db w')
    | Rollback a | Dropped a => P a (w_db w)
    end) (tick (tick w)) →
  wp env (transaction err body) (λ r w', match r with
    | Ok a => P a (w_db w')
    | Err _ => w_db w' = w_db w ∨ ∃ a, P a (w_db w')
    end) w.
Proof.
  intros Ho H. apply wp_transaction. rewrite Ho. destruct w as [d n l]. cbv zeta.
  split; [by left|]. unfold yields, wp in *. cbn [set_db tick w_db w_tick w_log] in *.
  destruct (body env _) as [[[a|a|a]|e] w2]; simpl in *; split_and?; eauto.
Qed.

(** A transaction guarantees what its body establishes when it commits. *)
Lemma guar_atomic (R : relation D) `{!PreOrder R} {E A} (err : E) (body : M D Ev E (ending A)) :
  rely (Ev:=Ev) env (on_db R) →
  (∀ w, yields env body (λ e w', match e with
     | Commit _ => R (w_db w) (w_db w')
     | _ => True
     end) w) →
  guar env (on_db R) (transaction err body).
Proof.
  intros Hr Hb. apply guar_wp. intros w. apply wp_transaction. cbv zeta.
  set (w1 := set_db _ (tick w)). assert (H1 : on_db R w w1) by exact (Hr (w_tick w) w).
  split; [exact H1|]. specialize (Hb (tick w1)). unfold yields, wp in *.
  destruct (body env (tick w1)) as [[[a|a|a]|e] w2]; simpl in *; unfold on_db in *; simpl in *;
    split_and?; try done; by etrans.
Qed.
End Yields.

Ltac yields_step :=
  match goal with
  | |- yields _ (bind _ _) _ _ => apply yields_bind
  | |- yields _ (ret _) _ _ => apply yields_ret
  | |- yields _ (throw _) _ _ => apply yields_throw
  | |- yields _ (of_result _) _ _ => apply yields_of_result
  | |- yields _ clock_now _ _ => apply yields_clock_now
  | |- yields _ pg_now _ _ => apply yields_pg_now
  | |- yields _ new_uuid _ _ => apply yields_new_uuid
  | |- yields _ (map_err _ _) _ _ => apply yields_map_err
  | |- yields _ (on_pool _) _ _ => apply yields_on_pool
  | |- yields _ (transaction _ _) _ _ => apply yields_transaction; cbv zeta
  | |- yields _ (select _ _) _ _ => apply yields_select
  | |- yields _ (execute _ _) _ _ => apply yields_execute
  | |- yields _ (stmt _ _) _ _ => apply yields_stmt
  end; cbn [w_db set_db tick].
Ltac yields_steps := repeat yields_step.

(** ** Quiet environments: no fault, no other connection *)

Record quiet {D} (env : Env D) : Prop := {
  quiet_fault n : e_fault env n = NoFault;
  quiet_other n d : e_other env n d = d;
}.

Section Quiet.
Context {D Ev : Type} (env : Env D) (Hq : quiet env).
Implicit Types w : World D Ev.

Lemma set_db_self w : set_db (w_db w) w = w.
Proof. by destruct w. Qed.

Lemma quiet_rely (R : relation (World D Ev)) `{!Guarantee R} : rely env R.
Proof. intros n w. rewrite (quiet_other env Hq). destruct w. reflexivity. Qed.

Lemma stmt_quiet {E A} (err : E) (q : D → option (A * D)) w :
  stmt err q env w =
    match q (w_db w) with
    | Some (a, d) => (Ok a, set_db d (tick w))
    | None => (Err err, tick w)
    end.
Proof. unfold stmt. by rewrite (quiet_fault env Hq). Qed.

Lemma select_quiet {E A} (err : E) (q : D → A) w :
  select err q env w = (Ok (q (w_db w)), tick w).
Proof. unfold select. by rewrite stmt_quiet. Qed.

Lemma execute_quiet {E} (err : E) (u : D → D) w :
  execute err u env w = (Ok tt, set_db (u (w_db w)) (tick w)).
Proof. unfold execute. by rewrite stmt_quiet. Qed.

Lemma on_pool_quiet {E A} (m : M D Ev E A) w : on_pool m env w = m env (tick w).
Proof. unfold on_pool, bind, interfere. rewrite (quiet_other env Hq). by destruct w. Qed.

Lemma transaction_quiet {E A} (err : E) (body : M D Ev E (ending A)) w :
  transaction err body env w =
    let '(r, w2) := body env (tick (tick w)) in
    match r with
    | Err e => (Err e, set_db (w_db w) w2)
    | Ok (Dropped a) => (Ok a, set_db (w_db w) w2)
    | Ok (Rollback a) => (Ok a, set_db (w_db w) (tick w2))
    | Ok (Commit a) => (Ok a, tick w2)
    end.
Proof.
  unfold transaction. rewrite !(quiet_fault env Hq), (quiet_other env Hq). simpl.
  destruct w as [d n l]; unfold tick, set_db; simpl.
  destruct (body env _) as [[[a|a|a]|e] w2]; rewrite ?(quiet_fault env Hq); done.
Qed.
End Quiet.

(** Runs a computation in a quiet environment, statement by statement. *)
Ltac run_quiet Hq :=
  repeat first
    [ rewrite (transaction_quiet _ Hq)
    | rewrite (on_pool_quiet _ Hq)
    | rewrite (select_quiet _ Hq)
    | rewrite (execute_quiet _ Hq)
    | rewrite (stmt_quiet _ Hq)
    | progress unfold bind, map_err, attempt, ret, throw, of_result, clock_now, pg_now, new_uuid, call, call_observed
    | progress cbn [fst snd w_db w_tick w_log set_db tick emit result_map_err ok_or] ].

Lemma w_db_tick {D Ev} (w : World D Ev) : w_db (tick w) = w_db w.
Proof. done. Qed.
Lemma w_db_set {D Ev} (d : D) (w : World D Ev) : w_db (set_db d w) = d.
Proof. done. Qed.

(** An environment for evaluating programs: nothing fails, nobody else runs, the clocks read [now]
    and step [n] generates the identity [1000 + n]. *)
Definition calm {D} (now : Z) : Env D :=
  mkEnv (λ _, NoFault) (λ _, now) (λ _, now) (λ n, 1000 + Z.of_nat n) (λ _ d, d).

Lemma calm_quiet {D} now : quiet (calm (D:=D) now).
Proof. by split. Qed.

Lemma calm_rely {D Ev} now (R : relation (World D Ev)) `{!Guarantee R} : rely (calm now) R.
Proof. intros n w. simpl. rewrite set_db_self. reflexivity. Qed.

(** ** Atomic units

    A body that leaves an invariant of the database intact whenever it succeeds: it may break the
    invariant in between, and whatever it did when it fails is undone by its transaction. *)
Definition keeps_ok {D Ev E A} (env : Env D) (I : D → Prop) (m : M D Ev E A) : Prop :=
  ∀ w : World D Ev, I (w_db w) →
    wp env m (λ r w', match r with Ok _ => I (w_db w') | Err _ => True end) w.

Section Atomic.
Context {D Ev : Type} (env : Env D) (I : D → Prop).

Lemma keeps_ok_ret {E A} (a : A) : keeps_ok (Ev:=Ev) env I (ret (E:=E) a).
Proof. by intros w H. Qed.

Lemma keeps_ok_throw {E A} (e : E) : keeps_ok (Ev:=Ev) env I (throw (A:=A) e).
Proof. by intros w H. Qed.

Lemma keeps_ok_of_result {E A} (r : result A E) : keeps_ok (Ev:=Ev) env I (of_result r).
Proof. by intros w H; destruct r. Qed.

Lemma keeps_ok_clock_now {E} : keeps_ok (Ev:=Ev) env I (clock_now (E:=E)).
Proof. by intros w H. Qed.

Lemma keeps_ok_pg_now {E} : keeps_ok (Ev:=Ev) env I (pg_now (E:=E)).
Proof. by intros w H. Qed.

Lemma keeps_ok_new_uuid {E} : keeps_ok (Ev:=Ev) env I (new_uuid (E:=E)).
Proof. by intros w H. Qed.

Lemma keeps_ok_bind {E A B} (m : M D Ev E A) (k : A → M D Ev E B) :
  keeps_ok env I m → (∀ a, keeps_ok env I (k a)) → keeps_ok env I (bind m k).
Proof.
  intros Hm Hk w HI. apply wp_bind. eapply wp_mono; [by apply Hm|].
  intros [a|e] w' H; [by apply Hk | done].
Qed.

Lemma keeps_ok_map_err {E F A} (f : E → F) (m : M D Ev E A) :
  keeps_ok env I m → keeps_ok env I (map_err f m).
Proof.
  intros Hm w HI. apply wp_map_err. eapply wp_mono; [by apply Hm|]. by intros [a|e] w' H.
Qed.

Lemma keeps_ok_stmt {E A} (err : E) (q : D → option (A * D)) :
  (∀ d a d', I d → q d = Some (a, d') → I d') → keeps_ok (Ev:=Ev) env I (stmt err q).
Proof. intros Hq w HI. apply wp_stmt; [|done]. intros a d E1. split; [|done]. by eapply Hq. Qed.

Lemma keeps_ok_select {E A} (err : E) (q : D → A) : keeps_ok (Ev:=Ev) env I (select err q).
Proof. intros w HI. by apply wp_select. Qed.

Lemma keeps_ok_execute {E} (err : E) (u : D → D) :
  (∀ d, I d → I (u d)) → keeps_ok (Ev:=Ev) env I (execute err u).
Proof. intros Hu w HI. apply wp_execute; [by apply Hu | done | done]. Qed.

Lemma keeps_ok_for_each {E A} (xs : list A) (body : A → M D Ev E unit) :
  (∀ x, x ∈ xs → keeps_ok env I (body x)) → keeps_ok env I (for_each xs body).
Proof.
  induction xs as [|x xs IH]; intros Hb; simpl; [apply keeps_ok_ret|].
  apply keeps_ok_bind; [apply Hb; by left|]. intros _. apply IH. intros y Hy. apply Hb. by right.
Qed.

Lemma keeps_ok_fold_m {E A B} (f : B → A → M D Ev E B) (b : B) (xs : list A) :
  (∀ b x, keeps_ok env I (f b x)) → keeps_ok env I (fold_m f b xs).
Proof.
  intros Hf. revert b. induction xs as [|x xs IH]; intros b; simpl; [apply keeps_ok_ret|].
  apply keeps_ok_bind; [apply Hf | intros b'; apply IH].
Qed.

(** A computation that keeps [I] at every step keeps it on success. *)
Lemma guar_keeps_ok {E A} (m : M D Ev E A) : guar env (on_db (keeps I)) m → keeps_ok env I m.
Proof. intros Hg w HI. pose proof (guar_elim Hg w HI) as H. unfold wp. by destruct (m env w) as [[]]. Qed.

(** A transaction around such a body keeps [I] whatever fails. *)
Lemma guar_transaction_keeps {E A} (err : E) (body : M D Ev E (ending A)) :
  rely (Ev:=Ev) env (on_db (keeps I)) → keeps_ok env I body →
  guar env (on_db (keeps I)) (transaction err body).
Proof.
  intros Hr Hb. apply guar_wp. intros w. unfold on_db, keeps. apply wp_transaction. cbv zeta.
  pose proof (Hr (w_tick w) w) as H1. unfold on_db, keeps in H1. cbn [w_db set_db tick] in *.
  split; [done|]. set (w1 := tick (set_db _ _)).
  assert (Hbody : I (w_db w1) → wp env body (λ r w', match r with Ok _ => I (w_db w') | Err _ => True end) w1)
    by apply Hb.
  unfold wp in *. destruct (body env w1) as [[[a|a|a]|e] w2]; simpl in *; auto.
Qed.
End Atomic.

(** Discharges [keeps_ok] by the structure of the body; what is left are its writing statements. *)
Ltac keeps_step :=
  match goal with
  | |- ∀ _, _ => intro
  | |- keeps_ok _ _ (ret _) => apply keeps_ok_ret
  | |- keeps_ok _ _ (throw _) => apply keeps_ok_throw
  | |- keeps_ok _ _ (of_result _) => apply keeps_ok_of_result
  | |- keeps_ok _ _ clock_now => apply keeps_ok_clock_now
  | |- keeps_ok _ _ pg_now => apply keeps_ok_pg_now
  | |- keeps_ok _ _ new_uuid => apply keeps_ok_new_uuid
  | |- keeps_ok _ _ (select _ _) => apply keeps_ok_select
  | |- keeps_ok _ _ (bind _ _) => apply keeps_ok_bind
  | |- keeps_ok _ _ (map_err _ _) => apply keeps_ok_map_err
  | |- keeps_ok _ _ (for_each _ _) => apply keeps_ok_for_each
  | |- keeps_ok _ _ (fold_m _ _ _) => apply keeps_ok_fold_m
  | |- keeps_ok _ _ (match ?x with _ => _ end) => destruct x eqn:?
  | |- keeps_ok _ _ _ => solve [eauto 4 with keeps]
  | |- keeps_ok _ _ (execute _ _) => apply keeps_ok_execute
  | |- keeps_ok _ _ (stmt _ _) => apply keeps_ok_stmt
  end.
Ltac keeps_steps := repeat keeps_step.
Create HintDb keeps.

(** ** Progress

    A computation that cannot fail in a quiet environment. *)
Definition succeeds {D Ev E A} (env : Env D) (m : M D Ev E A) : Prop :=
  ∀ w : World D Ev, ∃ a w', m env w = (Ok a, w').

Section Progress.
Context {D Ev : Type} (env : Env D) (Hq : quiet env).

Lemma succeeds_ret {E A} (a : A) : succeeds (Ev:=Ev) env (ret (E:=E) a).
Proof. intros w. by exists a, w. Qed.

Lemma succeeds_new_uuid {E} : succeeds (Ev:=Ev) env (new_uuid (E:=E)).
Proof. intros w. by eexists _, _. Qed.

Lemma succeeds_bind {E A B} (m : M D Ev E A) (k : A → M D Ev E B) :
  succeeds env m → (∀ a, succeeds env (k a)) → succeeds env (bind m k).
Proof. intros Hm Hk w. unfold bind. destruct (Hm w) as (a & w' & ->). apply Hk. Qed.

Lemma succeeds_select {E A} (err : E) (q : D → A) : succeeds (Ev:=Ev) env (select err q).
Proof. intros w. rewrite select_quiet by done. by eexists _, _. Qed.

Lemma succeeds_execute {E} (err : E) (u : D → D) : succeeds (Ev:=Ev) env (execute err u).
Proof. intros w. rewrite execute_quiet by done. by eexists _, _. Qed.

Lemma succeeds_for_each {E A} (xs : list A) (body : A → M D Ev E unit) :
  (∀ x, succeeds env (body x)) → succeeds env (for_each xs body).
Proof.
  intros Hb. induction xs as [|x xs IH]; simpl; [apply succeeds_ret|]. by apply succeeds_bind.
Qed.
End Progress.

(** Discharges progress by the structure of the computation. *)
Ltac succeeds_steps Hq :=
  repeat match goal with
  | |- ∀ _, _ => intro
  | |- succeeds _ (ret _) => apply succeeds_ret
  | |- succeeds _ new_uuid => apply succeeds_new_uuid
  | |- succeeds _ (bind _ _) => apply succeeds_bind
  | |- succeeds _ (select _ _) => apply (succeeds_select _ Hq)
  | |- succeeds _ (execute _ _) => apply (succeeds_execute _ Hq)
  | |- succeeds _ (for_each _ _) => apply succeeds_for_each
  | |- succeeds _ (match ?x with _ => _ end) => destruct x
  end.

(** The same from one state, where what the earlier statements established matters. *)
Definition ok_at {D Ev E A} (env : Env D) (m : M D Ev E A) (w : World D Ev) : Prop :=
  ∃ a w', m env w = (Ok a, w').

Lemma ok_at_bind {D Ev E A B} (env : Env D) (m : M D Ev E A) (k : A → M D Ev E B) w :
  ok_at env m w → (∀ a w', m env w = (Ok a, w') → ok_at env (k a) w') → ok_at env (bind m k) w.
Proof.
  intros (a & w' & Hm) Hk. unfold ok_at, bind. rewrite Hm. by apply Hk.
Qed.

Lemma ok_at_result {D Ev E A} (env : Env D) (m : M D Ev E A) (Q : result A E → World D Ev → Prop) w :
  wp env m Q w → ∀ a w', m env w = (Ok a, w') → Q (Ok a) w'.
Proof. unfold wp. intros HQ a w' Hm. by rewrite Hm in HQ. Qed.

Lemma yields_result {D Ev E A} (env : Env D) (m : M D Ev E A) (P : A → World D Ev → Prop) w :
  yields env m P w → ∀ a w', m env w = (Ok a, w') → P a w'.
Proof. intros H a w' Hm. unfold yields, wp in H. by rewrite Hm in H. Qed.

Lemma guar_weaken {D Ev E A} (env : Env D) (R R' : relation (World D Ev)) (m : M D Ev E A) :
  (∀ w w', R w w' → R' w w') → guar env R m → guar env R' m.
Proof. intros Hsub [Hm]. split. intros w. by apply Hsub. Qed.

(** A guarantee whose continuation may use what the value is known to satisfy. *)
Lemma guar_bind_val {D Ev} (env : Env D) (R : relation (World D Ev)) `{!Guarantee R} {E A B}
    (m : M D Ev E A) (k : A → M D Ev E B) (P : A → Prop) :
  guar env R m → (∀ w, yields env m (λ a _, P a) w) → (∀ a, P a → guar env R (k a)) →
  guar env R (bind m k).
Proof.
  intros [Hm] HP Hk. split; intros w. specialize (Hm w). specialize (HP w). unfold yields, wp in HP.
  unfold bind. destruct (m env w) as [[a|e] w']; [|done]. simpl in *. etrans; [exact Hm|].
  by apply (guar_elim (Hk a HP)).
Qed.
