(* ===== verification/Json.v ===== *)
(** * JSON values

    The document type of [serde_json] as the program builds it: objects are its [Map] (a [BTreeMap]:
    the [preserve_order] feature is off), that is, member lists sorted by key in which an insertion
    replaces an earlier member of the same name. Printing and parsing belong to that library. *)
From S2P Require Export Prelude.

Inductive Value :=
  | Null
  | Bool (b : bool)
  | Number (n : Z)
  | Str (s : string)
  | Arr (xs : list Value)
  | Object (members : list (string * Value)).

(** Byte-wise string order, the [Ord] of Rust's [str]. *)
Fixpoint str_leb (a b : string) : bool :=
  match a, b with
  | EmptyString, _ => true
  | String _ _, EmptyString => false
  | String x a', String y b' =>
      if Ascii.eqb x y then str_leb a' b' else (Ascii.N_of_ascii x <? Ascii.N_of_ascii y)%N
  end.

(** [Map::insert]. *)
Fixpoint obj_insert {A} (k : string) (v : A) (m : list (string * A)) : list (string * A) :=
  match m with
  | [] => [(k, v)]
  | (k', v') :: m' =>
      if String.eqb k k' then (k, v) :: m'
      else if str_leb k k' then (k, v) :: m
      else (k', v') :: obj_insert k v m'
  end.

Definition obj_get {A} (k : string) (m : list (string * A)) : option A :=
  snd <$> head (List.filter (λ kv, String.eqb k kv.1) m).

(** [Map::extend]. *)
Definition obj_extend {A} (m more : list (string * A)) : list (string * A) :=
  fold_left (λ acc kv, obj_insert kv.1 kv.2 acc) more m.

(** [json!({...})] with the given members. *)
Definition obj (members : list (string * Value)) : Value := Object (obj_extend [] members).

Definition opt_str (o : option string) : Value := match o with Some s => Str s | None => Null end.

Lemma str_leb_refl a : str_leb a a = true.
Proof. induction a as [|x a IH]; simpl; [done|]. by rewrite Ascii.eqb_refl. Qed.

Lemma str_leb_total a b : str_leb a b = true ∨ str_leb b a = true.
Proof.
  revert b. induction a as [|x a IH]; intros [|y b]; simpl; auto.
  rewrite (Ascii.eqb_sym y x). destruct (Ascii.eqb x y) eqn:E; [apply IH|].
  rewrite !N.ltb_lt. apply Ascii.eqb_neq in E.
  destruct (N.lt_trichotomy (Ascii.N_of_ascii x) (Ascii.N_of_ascii y)) as [?|[He|?]]; auto.
  exfalso. apply E. rewrite <-(Ascii.ascii_N_embedding x), <-(Ascii.ascii_N_embedding y).
  by rewrite He.
Qed.

Lemma str_leb_trans a b c : str_leb a b = true → str_leb b c = true → str_leb a c = true.
Proof.
  revert b c. induction a as [|x a IH]; intros [|y b] [|z c]; simpl; auto; try discriminate.
  destruct (Ascii.eqb x y) eqn:Exy, (Ascii.eqb y z) eqn:Eyz.
  - apply Ascii.eqb_eq in Exy, Eyz. subst. rewrite Ascii.eqb_refl. apply IH.
  - apply Ascii.eqb_eq in Exy. subst. by rewrite Eyz.
  - apply Ascii.eqb_eq in Eyz. subst. by rewrite Exy.
  - rewrite !N.ltb_lt. intros H1 H2. destruct (Ascii.eqb x z) eqn:Exz.
    + apply Ascii.eqb_eq in Exz. subst. lia.
    + apply N.ltb_lt. lia.
Qed.

Lemma str_leb_antisym a b : str_leb a b = true → str_leb b a = true → a = b.
Proof.
  revert b. induction a as [|x a IH]; intros [|y b]; simpl; try done.
  rewrite (Ascii.eqb_sym y x). destruct (Ascii.eqb x y) eqn:E.
  - apply Ascii.eqb_eq in E as ->. intros. f_equal. auto.
  - rewrite !N.ltb_lt. lia.
Qed.

(** Strict order of keys, and the lookups of a member list. *)
Definition str_lt : string → string → Prop := strict str_leb.

#[export] Instance str_lt_trans : Transitive str_lt.
Proof.
  intros a b c [H1 N1] [H2 N2]. split; [by eapply str_leb_trans|]. intros ->.
  by apply N1, str_leb_antisym.
Qed.

Lemma sort_dedup_strict xs : StronglySorted str_lt (dedup (sort str_leb xs)).
Proof.
  apply dedup_strict; [apply str_leb_antisym|].
  apply sort_sorted; [apply str_leb_total | apply str_leb_trans].
Qed.

Lemma obj_get_insert {A} j k (v : A) m :
  obj_get j (obj_insert k v m) = if String.eqb j k then Some v else obj_get j m.
Proof.
  unfold obj_get. induction m as [|[k' v'] m IH]; simpl.
  - by destruct (String.eqb j k).
  - destruct (String.eqb_spec k k') as [<-|Hk]; simpl; [by destruct (String.eqb j k)|].
    destruct (str_leb k k'); simpl; [by destruct (String.eqb j k)|].
    destruct (String.eqb_spec j k') as [->|]; simpl; [|done].
    destruct (String.eqb_spec k' k) as [->|]; [done|]. done.
Qed.

Lemma elem_of_obj_insert {A} k (v : A) m key : key ∈ (obj_insert k v m).*1 → key = k ∨ key ∈ m.*1.
Proof.
  induction m as [|[k' v'] m IH]; simpl; [rewrite list_elem_of_singleton; auto|].
  destruct (String.eqb k k') eqn:E; simpl; [rewrite !elem_of_cons; tauto|].
  destruct (str_leb k k'); simpl; rewrite !elem_of_cons; tauto.
Qed.

Lemma obj_insert_sorted {A} k (v : A) m :
  StronglySorted str_lt m.*1 → StronglySorted str_lt (obj_insert k v m).*1.
Proof.
  induction m as [|[k' v'] m IH]; simpl; intros Hs; [by repeat constructor|].
  apply StronglySorted_inv in Hs as [Hs Hall]. destruct (String.eqb_spec k k') as [<-|Hk]; simpl.
  - by constructor.
  - destruct (str_leb k k') eqn:E; simpl.
    + constructor; [by constructor|]. constructor; [by split|].
      eapply Forall_impl; [exact Hall|]. intros b Hb. by trans k'.
    + constructor; [by apply IH|]. apply Forall_forall. intros b [->|Hb]%elem_of_obj_insert.
      * split; [|done]. destruct (str_leb_total k k'); congruence.
      * by rewrite Forall_forall in Hall; apply Hall.
Qed.

Lemma obj_get_Some {A} k (v : A) m : obj_get k m = Some v → (k, v) ∈ m.
Proof.
  unfold obj_get. intros H. apply fmap_Some in H as ([k' v'] & H & Hv). simpl in Hv. subst v'.
  apply head_Some_elem_of, list_elem_of_In, filter_In in H as [H E].
  apply String.eqb_eq in E. simpl in E. subst. by apply list_elem_of_In.
Qed.

(** Induction through the nested lists of a document. *)
Section ValueInduction.
Context (P : Value → Prop).
Context (Hnull : P Null) (Hbool : ∀ b, P (Bool b)) (Hnumber : ∀ n, P (Number n)) (Hstr : ∀ s, P (Str s)).
Context (Harr : ∀ values, Forall P values → P (Arr values)).
Context (Hobject : ∀ members, Forall (λ kv, P kv.2) members → P (Object members)).

Fixpoint value_nested_ind (value : Value) : P value :=
  match value with
  | Null => Hnull
  | Bool b => Hbool b
  | Number n => Hnumber n
  | Str s => Hstr s
  | Arr values =>
      Harr values ((fix go xs : Forall P xs :=
        match xs with [] => Forall_nil_2 _ | x :: xs' => Forall_cons_2 _ _ _ (value_nested_ind x) (go xs') end) values)
  | Object members =>
      Hobject members ((fix go xs : Forall (λ kv, P kv.2) xs :=
        match xs with
        | [] => Forall_nil_2 _
        | kv :: xs' => Forall_cons_2 _ kv xs' (value_nested_ind kv.2) (go xs')
        end) members)
  end.
End ValueInduction.
