(* ===== verification/Store.v ===== *)
(** * The owned schema

    [x_archive.*] of [src/schema.sql] as one record of tables. A table is a finite map from its
    primary key, or from the unique key every statement of the program addresses it by: [users] and
    [posts] are keyed by [provider_id] and keep their surrogate [id] as a column, because the code
    carries those ids; [bookmarks], the folder items and the staged snapshot items are maps of maps
    keyed by account (folder, snapshot) and post. Surrogate ids nothing reads, and audit columns
    only the database fills ([created_at] and [updated_at] where no statement reads them), are left
    out. Bytes and text are [string]s, instants are microseconds since the Unix epoch. *)
From S2P Require Export Prelude Json.

(** ** Rows *)

(** One connected account ([x_archive.accounts]). *)
Record Account := mkAccount {
  acc_internal_user_id : Z;
  acc_provider_user_id : string;
  acc_state : string;
  acc_updated_at : Z;
}.

(** An author row ([x_archive.users]), keyed by its provider id. *)
Record UserRow := mkUserRow {
  usr_id : Z;
  usr_username : option string;
  usr_display_name : option string;
  usr_parser_version : Z;
}.

(** An encrypted credential ([x_archive.credentials]). *)
Record CredentialRow := mkCredentialRow {
  crd_account_id : Z;
  crd_encrypted_payload : string;
  crd_granted_scopes : list string;
  crd_status : string;
  crd_activation_outcome : string;
  crd_expires_at : option Z;
  crd_superseded_refresh_hash : option string;
  crd_created_at : Z;
}.

(** A one-time authorization intent ([x_archive.oauth_intents]). *)
Record IntentRow := mkIntentRow {
  int_internal_user_id : Z;
  int_account_id : option Z;
  int_purpose : string;
  int_state_hash : string;
  int_code_verifier_encrypted : string;
  int_nonce : string;
  int_redirect_uri : string;
  int_requested_scopes : list string;
  int_created_at : Z;
  int_expires_at : Z;
  int_consumed_at : option Z;
}.

(** One request window ([x_archive.api_budget_windows]). *)
Record BudgetWindow := mkBudgetWindow {
  bw_window_seconds : Z;
  bw_request_cap : Z;
  bw_used_requests : Z;
}.

(** The separately granted write authority ([x_archive.bookmark_write_authorizations]). *)
Record WriteAuthorization := mkWriteAuthorization {
  wa_oauth_intent_id : Z;
  wa_granted_scopes : list string;
  wa_status : string;
  wa_authorized_at : Z;
  wa_revoked_at : option Z;
  wa_updated_at : Z;
}.

(** A recorded one-action approval ([x_archive.bookmark_write_consents]). *)
Record WriteConsent := mkWriteConsent {
  wc_account_id : Z;
  wc_internal_user_id : Z;
  wc_action : string;
  wc_provider_post_id : string;
  wc_approved_at : Z;
  wc_expires_at : Z;
  wc_surface : string;
  wc_consumed_at : option Z;
}.

(** One idempotency claim ([x_archive.bookmark_write_operations]). *)
Record WriteOperation := mkWriteOperation {
  wo_account_id : Z;
  wo_internal_user_id : Z;
  wo_consent_id : option Z;
  wo_action : string;
  wo_provider_post_id : string;
  wo_execution_mode : string;
  wo_idempotency_digest : string;
  wo_request_fingerprint : string;
  wo_status : string;
  wo_outcome : option string;
  wo_provider_request_id : option string;
  wo_rate_limit_reset_at : option Z;
  wo_projection_observed_at : option Z;
  wo_updated_at : Z;
}.

(** Append-only write-back evidence ([x_archive.bookmark_write_audit_events]). *)
Record AuditEvent := mkAuditEvent {
  ae_operation_id : option Z;
  ae_consent_id : option Z;
  ae_account_id : Z;
  ae_internal_user_id : Z;
  ae_action : string;
  ae_provider_post_id : string;
  ae_surface : string;
  ae_event_class : string;
  ae_ordinal : Z;
  ae_occurred_at : Z;
  ae_correlation_id : option string;
  ae_idempotency_digest : option string;
  ae_provider_request_id : option string;
  ae_details : Value;
}.

(** A normalized post ([x_archive.posts]), keyed by its provider id. *)
Record PostRow := mkPostRow {
  pst_id : Z;
  pst_author_user_id : option Z;
  pst_text : string;
  pst_long_text : option string;
  pst_expanded_urls : list string;
  pst_language : option string;
  pst_published_at : option Z;
  pst_edited_at : option Z;
  pst_conversation_provider_id : option string;
  pst_metrics : list (option Z);
  pst_parser_version : Z;
  pst_normalization_provenance : string;
  pst_availability : string;
}.

(** Media metadata ([x_archive.media]). *)
Record MediaRow := mkMediaRow {
  med_kind : option string;
  med_metadata : Value;
  med_blob_ref : option string;
  med_parser_version : Z;
}.

(** One account's observation of one bookmark ([x_archive.bookmarks]). *)
Record Bookmark := mkBookmark {
  bm_first_observed_saved_at : Z;
  bm_last_observed_saved_at : Z;
  bm_observed_removed_at : option Z;
  bm_observed_removed_snapshot_id : option Z;
  bm_last_write_operation_id : option Z;
  bm_last_write_observed_at : option Z;
  bm_observed_removed_write_operation_id : option Z;
  bm_last_incremental_run_id : option Z;
}.

(** One post of one native folder ([x_archive.bookmark_folder_items]). *)
Record FolderItem := mkFolderItem {
  fi_first_observed_in_folder_at : Z;
  fi_observed_removed_from_folder_at : option Z;
  fi_observed_removed_snapshot_id : option Z;
}.

(** One synchronization run ([x_archive.sync_runs]). *)
Record SyncRun := mkSyncRun {
  run_account_id : Z;
  run_run_type : string;
  run_state : string;
  run_checkpoint : option string;
  run_pages_fetched : Z;
  run_items_observed : Z;
  run_added_count : Z;
  run_retained_count : Z;
  run_removed_count : Z;
  run_finished_at : option Z;
}.

(** One candidate or complete snapshot ([x_archive.snapshots]). *)
Record Snapshot := mkSnapshot {
  snap_sync_run_id : Z;
  snap_folder_id : option Z;
  snap_complete : bool;
  snap_completed_at : option Z;
  snap_page_count : Z;
}.

(** The snapshot that is current authority for an account or a folder. *)
Record Authority := mkAuthority {
  auth_snapshot_id : Z;
  auth_updated_at : Z;
}.

(** The watermark of the head scan ([x_archive.bookmark_incremental_state]). *)
Record IncrementalState := mkIncrementalState {
  inc_watermark_provider_post_id : option string;
  inc_requires_full_snapshot : bool;
  inc_last_outcome : string;
  inc_last_incremental_run_id : option Z;
  inc_updated_at : Z;
}.

(** An account-scoped published source ([x_archive.social_sources]). *)
Record SocialSource := mkSocialSource {
  ss_account_id : Z;
  ss_post_id : Z;
  ss_current_content_digest : string * string;
  ss_acquisition : string;
  ss_saved_authority : string;
  ss_captured_at : Z;
  ss_removed_at : option Z;
  ss_removal_reason : option string;
}.

(** A retained revision ([x_archive.social_source_revisions]), keyed by source and digest. *)
Record SourceRevision := mkSourceRevision {
  rev_captured_at : Z;
  rev_acquisition : string;
  rev_saved_authority : string;
}.

(** A linked-article capture request ([x_archive.article_captures]). *)
Record ArticleCapture := mkArticleCapture {
  art_account_id : Z;
  art_normalized_url : string;
  art_original_url : string;
  art_correlation_id : string;
  art_state : string;
  art_document_id : option string;
  art_document_ir_blob : option Value;
  art_completed_at : option Z;
}.

(** The complete canonical envelope a row of the outbox stores. *)
Record Envelope := mkEnvelope {
  env_id : Z;
  env_type : string;
  env_occurred_at : Z;
  env_producer : string;
  env_aggregate : string;
  env_correlation : string;
  env_causation : option string;
  env_tenant : option string;
  env_payload : Value;
}.

(** One fact or command to publish ([x_archive.outbox_events]). *)
Record OutboxRow := mkOutboxRow {
  ob_aggregate : string;
  ob_event_type : string;
  ob_payload : Envelope;
  ob_correlation_id : string;
  ob_causation_id : option string;
  ob_created_at : Z;
  ob_published_at : option Z;
  ob_attempt_count : Z;
  ob_last_error : option string;
  ob_next_attempt_at : Z;
  ob_undeliverable_at : option Z;
  ob_acknowledged_at : option Z;
  ob_ack_outcome : option string;
  ob_resend_count : Z;
  ob_next_resend_at : option Z;
}.

(** A consumed delivery ([x_archive.inbox_events]), keyed by its event id. *)
Record InboxRow := mkInboxRow {
  ib_source : string;
  ib_event_type : string;
  ib_payload : string;
  ib_consumed_at : Z;
}.

(** An owner-scoped browser capture ([x_archive.explicit_captures]). *)
Record ExplicitCapture := mkExplicitCapture {
  xc_command_id : string;
  xc_operation_id : Z;
  xc_owner : Z;
  xc_provider_post_id : option string;
  xc_original_permalink : string;
  xc_captured_at : Z;
  xc_status : string;
  xc_attempts : Z;
  xc_next_attempt_at : Z;
  xc_social_source_id : option Z;
  xc_reported_at : option Z;
}.

(** What the public call returned for one owner's capture of one post ([x_archive.explicit_sources]). *)
Record ExplicitSource := mkExplicitSource {
  xs_social_source_id : Z;
  xs_author_provider_id : string;
  xs_author_username : option string;
  xs_author_display_name : option string;
  xs_text : string;
  xs_long_text : option string;
  xs_published_at : option Z;
  xs_expanded_urls : list string;
  xs_current_content_digest : string * string;
  xs_captured_at : Z;
}.

(** A completed analysis of one revision ([x_archive.knowledge_analysis_links]). *)
Record AnalysisLink := mkAnalysisLink {
  kl_inbox_event_id : string;
  kl_completed_at : Z;
}.

(** Evidence of one compliance check ([x_archive.compliance_revalidation_ledger]). *)
Record LedgerEntry := mkLedgerEntry {
  cl_account_id : Z;
  cl_post_id : Z;
  cl_social_source_id : Z;
  cl_provider_request_id : option string;
  cl_outcome : string;
  cl_failure_class : option string;
  cl_checked_at : Z;
}.

(** One takedown ([x_archive.tombstones]), keyed by its source. *)
Record Tombstone := mkTombstone {
  tb_account_id : Z;
  tb_post_provider_id : string;
  tb_reason : string;
  tb_revalidation_id : Z;
  tb_recorded_at : Z;
}.

(** One legacy source application ([x_archive.legacy_import_runs]). *)
Record ImportRun := mkImportRun {
  lr_account_id : Z;
  lr_source_kind : string;
  lr_source_version : Z;
  lr_source_digest : string;
  lr_importer_parser_version : Z;
  lr_ownership_approval_digest : string;
  lr_status : string;
  lr_inserted_count : Z;
  lr_matched_count : Z;
  lr_updated_count : Z;
  lr_conflicted_count : Z;
  lr_rejected_count : Z;
  lr_unmapped_count : Z;
  lr_finished_at : option Z;
}.

(** Immutable evidence of one legacy row ([x_archive.legacy_import_items]), keyed by its run and the
    key of the row in its source. *)
Record ImportItem := mkImportItem {
  li_source_row_digest : string;
  li_provider_post_id : option string;
  li_conflicting_provider_post_id : option string;
  li_post_id : option Z;
  li_canonical_url_digest : option string;
  li_content_digest : option string;
  li_source_observed_saved_at : option Z;
  li_source_synced_at : option Z;
  li_legacy_category_metadata : Value;
  li_legacy_folder_metadata : Value;
  li_author_identity_resolved : bool;
  li_resolution : string;
  li_provenance : string;
}.

(** A persisted comparison ([x_archive.legacy_shadow_reports]). *)
Record ShadowReportRow := mkShadowReportRow {
  lsr_account_id : Z;
  lsr_import_run_id : Z;
  lsr_snapshot_id : Z;
  lsr_import_digest : string;
  lsr_snapshot_digest : string;
  lsr_report_payload : Value;
  lsr_report_digest : string;
  lsr_review_state : string;
}.

(** One owner decision ([x_archive.legacy_transition_approvals]). *)
Record ApprovalRow := mkApprovalRow {
  la_account_id : Z;
  la_internal_owner_id : Z;
  la_shadow_report_id : Z;
  la_checklist_digest : string;
  la_owner_evidence_digest : string;
  la_decision : string;
  la_decided_at : Z;
  la_superseded_at : option Z;
}.

(** ** Tables *)
Record Db := mkDb {
  accounts : gmap Z Account;
  users : gmap string UserRow;
  credentials : gmap Z CredentialRow;
  oauth_intents : gmap Z IntentRow;
  api_budget_windows : gmap (Z * string * Z) BudgetWindow;
  bookmark_write_authorizations : gmap Z WriteAuthorization;
  bookmark_write_consents : gmap Z WriteConsent;
  bookmark_write_operations : gmap Z WriteOperation;
  bookmark_write_audit_events : list AuditEvent;
  posts : gmap string PostRow;
  post_relations : gmap (Z * string * string) Z;
  media : gmap (Z * string) MediaRow;
  bookmarks : gmap Z (gmap Z Bookmark);
  bookmark_folders : gmap (Z * string) (Z * option string);
  bookmark_folder_items : gmap Z (gmap Z FolderItem);
  sync_runs : gmap Z SyncRun;
  snapshots : gmap Z Snapshot;
  snapshot_bookmark_items : gmap Z (gmap Z Z);
  bookmark_snapshot_authority : gmap Z Authority;
  snapshot_folder_membership_items : gmap Z (gmap Z Z);
  folder_membership_snapshot_authority : gmap Z Authority;
  folder_membership_observations : gmap (Z * Z * Z * string) Z;
  folder_capability_limits : gmap (Z * string) (Z * Z);
  bookmark_incremental_state : gmap Z IncrementalState;
  bookmark_reconciliation_repairs : gmap (Z * (Z * Z)) string;
  social_sources : gmap Z SocialSource;
  social_source_revisions : gmap (Z * (string * string)) SourceRevision;
  article_captures : gmap Z ArticleCapture;
  post_article_links : gset (Z * Z);
  outbox_events : gmap Z OutboxRow;
  inbox_events : gmap string InboxRow;
  explicit_captures : gmap Z ExplicitCapture;
  explicit_sources : gmap (Z * string) ExplicitSource;
  knowledge_analysis_links : gmap (Z * (string * string)) AnalysisLink;
  compliance_revalidation_ledger : gmap Z LedgerEntry;
  tombstones : gmap Z Tombstone;
  legacy_import_runs : gmap Z ImportRun;
  legacy_import_items : gmap (Z * string) ImportItem;
  legacy_shadow_reports : gmap Z ShadowReportRow;
  legacy_transition_approvals : gmap Z ApprovalRow;
}.

(** The empty schema, as [schema.sql] creates it. *)
Definition empty_db : Db :=
  mkDb ∅ ∅ ∅ ∅ ∅ ∅ ∅ ∅ [] ∅ ∅ ∅ ∅ ∅ ∅ ∅ ∅ ∅ ∅ ∅ ∅ ∅ ∅ ∅ ∅ ∅ ∅ ∅ ∅ ∅ ∅ ∅ ∅ ∅ ∅ ∅ ∅ ∅ ∅ ∅.

(** One-table updates. *)
Definition on_accounts (f : gmap Z Account → gmap Z Account) (d : Db) : Db :=
  mkDb (f (accounts d)) (users d) (credentials d) (oauth_intents d) (api_budget_windows d)
    (bookmark_write_authorizations d) (bookmark_write_consents d) (bookmark_write_operations d)
    (bookmark_write_audit_events d) (posts d) (post_relations d) (media d) (bookmarks d)
    (bookmark_folders d) (bookmark_folder_items d) (sync_runs d) (snapshots d)
    (snapshot_bookmark_items d) (bookmark_snapshot_authority d) (snapshot_folder_membership_items d)
    (folder_membership_snapshot_authority d) (folder_membership_observations d)
    (folder_capability_limits d) (bookmark_incremental_state d) (bookmark_reconciliation_repairs d)
    (social_sources d) (social_source_revisions d) (article_captures d) (post_article_links d)
    (outbox_events d) (inbox_events d) (explicit_captures d) (explicit_sources d)
    (knowledge_analysis_links d) (compliance_revalidation_ledger d) (tombstones d)
    (legacy_import_runs d) (legacy_import_items d) (legacy_shadow_reports d)
    (legacy_transition_approvals d).
Definition on_users (f : gmap string UserRow → gmap string UserRow) (d : Db) : Db :=
  mkDb (accounts d) (f (users d)) (credentials d) (oauth_intents d) (api_budget_windows d)
    (bookmark_write_authorizations d) (bookmark_write_consents d) (bookmark_write_operations d)
    (bookmark_write_audit_events d) (posts d) (post_relations d) (media d) (bookmarks d)
    (bookmark_folders d) (bookmark_folder_items d) (sync_runs d) (snapshots d)
    (snapshot_bookmark_items d) (bookmark_snapshot_authority d) (snapshot_folder_membership_items d)
    (folder_membership_snapshot_authority d) (folder_membership_observations d)
    (folder_capability_limits d) (bookmark_incremental_state d) (bookmark_reconciliation_repairs d)
    (social_sources d) (social_source_revisions d) (article_captures d) (post_article_links d)
    (outbox_events d) (inbox_events d) (explicit_captures d) (explicit_sources d)
    (knowledge_analysis_links d) (compliance_revalidation_ledger d) (tombstones d)
    (legacy_import_runs d) (legacy_import_items d) (legacy_shadow_reports d)
    (legacy_transition_approvals d).
Definition on_credentials (f : gmap Z CredentialRow → gmap Z CredentialRow) (d : Db) : Db :=
  mkDb (accounts d) (users d) (f (credentials d)) (oauth_intents d) (api_budget_windows d)
    (bookmark_write_authorizations d) (bookmark_write_consents d) (bookmark_write_operations d)
    (bookmark_write_audit_events d) (posts d) (post_relations d) (media d) (bookmarks d)
    (bookmark_folders d) (bookmark_folder_items d) (sync_runs d) (snapshots d)
    (snapshot_bookmark_items d) (bookmark_snapshot_authority d) (snapshot_folder_membership_items d)
    (folder_membership_snapshot_authority d) (folder_membership_observations d)
    (folder_capability_limits d) (bookmark_incremental_state d) (bookmark_reconciliation_repairs d)
    (social_sources d) (social_source_revisions d) (article_captures d) (post_article_links d)
    (outbox_events d) (inbox_events d) (explicit_captures d) (explicit_sources d)
    (knowledge_analysis_links d) (compliance_revalidation_ledger d) (tombstones d)
    (legacy_import_runs d) (legacy_import_items d) (legacy_shadow_reports d)
    (legacy_transition_approvals d).
Definition on_oauth_intents (f : gmap Z IntentRow → gmap Z IntentRow) (d : Db) : Db :=
  mkDb (accounts d) (users d) (credentials d) (f (oauth_intents d)) (api_budget_windows d)
    (bookmark_write_authorizations d) (bookmark_write_consents d) (bookmark_write_operations d)
    (bookmark_write_audit_events d) (posts d) (post_relations d) (media d) (bookmarks d)
    (bookmark_folders d) (bookmark_folder_items d) (sync_runs d) (snapshots d)
    (snapshot_bookmark_items d) (bookmark_snapshot_authority d) (snapshot_folder_membership_items d)
    (folder_membership_snapshot_authority d) (folder_membership_observations d)
    (folder_capability_limits d) (bookmark_incremental_state d) (bookmark_reconciliation_repairs d)
    (social_sources d) (social_source_revisions d) (article_captures d) (post_article_links d)
    (outbox_events d) (inbox_events d) (explicit_captures d) (explicit_sources d)
    (knowledge_analysis_links d) (compliance_revalidation_ledger d) (tombstones d)
    (legacy_import_runs d) (legacy_import_items d) (legacy_shadow_reports d)
    (legacy_transition_approvals d).
Definition on_api_budget_windows
    (f : gmap (Z * string * Z) BudgetWindow → gmap (Z * string * Z) BudgetWindow) (d : Db) : Db :=
  mkDb (accounts d) (users d) (credentials d) (oauth_intents d) (f (api_budget_windows d))
    (bookmark_write_authorizations d) (bookmark_write_consents d) (bookmark_write_operations d)
    (bookmark_write_audit_events d) (posts d) (post_relations d) (media d) (bookmarks d)
    (bookmark_folders d) (bookmark_folder_items d) (sync_runs d) (snapshots d)
    (snapshot_bookmark_items d) (bookmark_snapshot_authority d) (snapshot_folder_membership_items d)
    (folder_membership_snapshot_authority d) (folder_membership_observations d)
    (folder_capability_limits d) (bookmark_incremental_state d) (bookmark_reconciliation_repairs d)
    (social_sources d) (social_source_revisions d) (article_captures d) (post_article_links d)
    (outbox_events d) (inbox_events d) (explicit_captures d) (explicit_sources d)
    (knowledge_analysis_links d) (compliance_revalidation_ledger d) (tombstones d)
    (legacy_import_runs d) (legacy_import_items d) (legacy_shadow_reports d)
    (legacy_transition_approvals d).
Definition on_bookmark_write_authorizations
    (f : gmap Z WriteAuthorization → gmap Z WriteAuthorization) (d : Db) : Db :=
  mkDb (accounts d) (users d) (credentials d) (oauth_intents d) (api_budget_windows d)
    (f (bookmark_write_authorizations d)) (bookmark_write_consents d) (bookmark_write_operations d)
    (bookmark_write_audit_events d) (posts d) (post_relations d) (media d) (bookmarks d)
    (bookmark_folders d) (bookmark_folder_items d) (sync_runs d) (snapshots d)
    (snapshot_bookmark_items d) (bookmark_snapshot_authority d) (snapshot_folder_membership_items d)
    (folder_membership_snapshot_authority d) (folder_membership_observations d)
    (folder_capability_limits d) (bookmark_incremental_state d) (bookmark_reconciliation_repairs d)
    (social_sources d) (social_source_revisions d) (article_captures d) (post_article_links d)
    (outbox_events d) (inbox_events d) (explicit_captures d) (explicit_sources d)
    (knowledge_analysis_links d) (compliance_revalidation_ledger d) (tombstones d)
    (legacy_import_runs d) (legacy_import_items d) (legacy_shadow_reports d)
    (legacy_transition_approvals d).
Definition on_bookmark_write_consents
    (f : gmap Z WriteConsent → gmap Z WriteConsent) (d : Db) : Db :=
  mkDb (accounts d) (users d) (credentials d) (oauth_intents d) (api_budget_windows d)
    (bookmark_write_authorizations d) (f (bookmark_write_consents d)) (bookmark_write_operations d)
    (bookmark_write_audit_events d) (posts d) (post_relations d) (media d) (bookmarks d)
    (bookmark_folders d) (bookmark_folder_items d) (sync_runs d) (snapshots d)
    (snapshot_bookmark_items d) (bookmark_snapshot_authority d) (snapshot_folder_membership_items d)
    (folder_membership_snapshot_authority d) (folder_membership_observations d)
    (folder_capability_limits d) (bookmark_incremental_state d) (bookmark_reconciliation_repairs d)
    (social_sources d) (social_source_revisions d) (article_captures d) (post_article_links d)
    (outbox_events d) (inbox_events d) (explicit_captures d) (explicit_sources d)
    (knowledge_analysis_links d) (compliance_revalidation_ledger d) (tombstones d)
    (legacy_import_runs d) (legacy_import_items d) (legacy_shadow_reports d)
    (legacy_transition_approvals d).
Definition on_bookmark_write_operations
    (f : gmap Z WriteOperation → gmap Z WriteOperation) (d : Db) : Db :=
  mkDb (accounts d) (users d) (credentials d) (oauth_intents d) (api_budget_windows d)
    (bookmark_write_authorizations d) (bookmark_write_consents d) (f (bookmark_write_operations d))
    (bookmark_write_audit_events d) (posts d) (post_relations d) (media d) (bookmarks d)
    (bookmark_folders d) (bookmark_folder_items d) (sync_runs d) (snapshots d)
    (snapshot_bookmark_items d) (bookmark_snapshot_authority d) (snapshot_folder_membership_items d)
    (folder_membership_snapshot_authority d) (folder_membership_observations d)
    (folder_capability_limits d) (bookmark_incremental_state d) (bookmark_reconciliation_repairs d)
    (social_sources d) (social_source_revisions d) (article_captures d) (post_article_links d)
    (outbox_events d) (inbox_events d) (explicit_captures d) (explicit_sources d)
    (knowledge_analysis_links d) (compliance_revalidation_ledger d) (tombstones d)
    (legacy_import_runs d) (legacy_import_items d) (legacy_shadow_reports d)
    (legacy_transition_approvals d).
Definition on_bookmark_write_audit_events (f : list AuditEvent → list AuditEvent) (d : Db) : Db :=
  mkDb (accounts d) (users d) (credentials d) (oauth_intents d) (api_budget_windows d)
    (bookmark_write_authorizations d) (bookmark_write_consents d) (bookmark_write_operations d)
    (f (bookmark_write_audit_events d)) (posts d) (post_relations d) (media d) (bookmarks d)
    (bookmark_folders d) (bookmark_folder_items d) (sync_runs d) (snapshots d)
    (snapshot_bookmark_items d) (bookmark_snapshot_authority d) (snapshot_folder_membership_items d)
    (folder_membership_snapshot_authority d) (folder_membership_observations d)
    (folder_capability_limits d) (bookmark_incremental_state d) (bookmark_reconciliation_repairs d)
    (social_sources d) (social_source_revisions d) (article_captures d) (post_article_links d)
    (outbox_events d) (inbox_events d) (explicit_captures d) (explicit_sources d)
    (knowledge_analysis_links d) (compliance_revalidation_ledger d) (tombstones d)
    (legacy_import_runs d) (legacy_import_items d) (legacy_shadow_reports d)
    (legacy_transition_approvals d).
Definition on_posts (f : gmap string PostRow → gmap string PostRow) (d : Db) : Db :=
  mkDb (accounts d) (users d) (credentials d) (oauth_intents d) (api_budget_windows d)
    (bookmark_write_authorizations d) (bookmark_write_consents d) (bookmark_write_operations d)
    (bookmark_write_audit_events d) (f (posts d)) (post_relations d) (media d) (bookmarks d)
    (bookmark_folders d) (bookmark_folder_items d) (sync_runs d) (snapshots d)
    (snapshot_bookmark_items d) (bookmark_snapshot_authority d) (snapshot_folder_membership_items d)
    (folder_membership_snapshot_authority d) (folder_membership_observations d)
    (folder_capability_limits d) (bookmark_incremental_state d) (bookmark_reconciliation_repairs d)
    (social_sources d) (social_source_revisions d) (article_captures d) (post_article_links d)
    (outbox_events d) (inbox_events d) (explicit_captures d) (explicit_sources d)
    (knowledge_analysis_links d) (compliance_revalidation_ledger d) (tombstones d)
    (legacy_import_runs d) (legacy_import_items d) (legacy_shadow_reports d)
    (legacy_transition_approvals d).
Definition on_post_relations
    (f : gmap (Z * string * string) Z → gmap (Z * string * string) Z) (d : Db) : Db :=
  mkDb (accounts d) (users d) (credentials d) (oauth_intents d) (api_budget_windows d)
    (bookmark_write_authorizations d) (bookmark_write_consents d) (bookmark_write_operations d)
    (bookmark_write_audit_events d) (posts d) (f (post_relations d)) (media d) (bookmarks d)
    (bookmark_folders d) (bookmark_folder_items d) (sync_runs d) (snapshots d)
    (snapshot_bookmark_items d) (bookmark_snapshot_authority d) (snapshot_folder_membership_items d)
    (folder_membership_snapshot_authority d) (folder_membership_observations d)
    (folder_capability_limits d) (bookmark_incremental_state d) (bookmark_reconciliation_repairs d)
    (social_sources d) (social_source_revisions d) (article_captures d) (post_article_links d)
    (outbox_events d) (inbox_events d) (explicit_captures d) (explicit_sources d)
    (knowledge_analysis_links d) (compliance_revalidation_ledger d) (tombstones d)
    (legacy_import_runs d) (legacy_import_items d) (legacy_shadow_reports d)
    (legacy_transition_approvals d).
Definition on_media (f : gmap (Z * string) MediaRow → gmap (Z * string) MediaRow) (d : Db) : Db :=
  mkDb (accounts d) (users d) (credentials d) (oauth_intents d) (api_budget_windows d)
    (bookmark_write_authorizations d) (bookmark_write_consents d) (bookmark_write_operations d)
    (bookmark_write_audit_events d) (posts d) (post_relations d) (f (media d)) (bookmarks d)
    (bookmark_folders d) (bookmark_folder_items d) (sync_runs d) (snapshots d)
    (snapshot_bookmark_items d) (bookmark_snapshot_authority d) (snapshot_folder_membership_items d)
    (folder_membership_snapshot_authority d) (folder_membership_observations d)
    (folder_capability_limits d) (bookmark_incremental_state d) (bookmark_reconciliation_repairs d)
    (social_sources d) (social_source_revisions d) (article_captures d) (post_article_links d)
    (outbox_events d) (inbox_events d) (explicit_captures d) (explicit_sources d)
    (knowledge_analysis_links d) (compliance_revalidation_ledger d) (tombstones d)
    (legacy_import_runs d) (legacy_import_items d) (legacy_shadow_reports d)
    (legacy_transition_approvals d).
Definition on_bookmarks (f : gmap Z (gmap Z Bookmark) → gmap Z (gmap Z Bookmark)) (d : Db) : Db :=
  mkDb (accounts d) (users d) (credentials d) (oauth_intents d) (api_budget_windows d)
    (bookmark_write_authorizations d) (bookmark_write_consents d) (bookmark_write_operations d)
    (bookmark_write_audit_events d) (posts d) (post_relations d) (media d) (f (bookmarks d))
    (bookmark_folders d) (bookmark_folder_items d) (sync_runs d) (snapshots d)
    (snapshot_bookmark_items d) (bookmark_snapshot_authority d) (snapshot_folder_membership_items d)
    (folder_membership_snapshot_authority d) (folder_membership_observations d)
    (folder_capability_limits d) (bookmark_incremental_state d) (bookmark_reconciliation_repairs d)
    (social_sources d) (social_source_revisions d) (article_captures d) (post_article_links d)
    (outbox_events d) (inbox_events d) (explicit_captures d) (explicit_sources d)
    (knowledge_analysis_links d) (compliance_revalidation_ledger d) (tombstones d)
    (legacy_import_runs d) (legacy_import_items d) (legacy_shadow_reports d)
    (legacy_transition_approvals d).
Definition on_bookmark_folders
    (f : gmap (Z * string) (Z * option string) → gmap (Z * string) (Z * option string)) (d : Db) : Db :=
  mkDb (accounts d) (users d) (credentials d) (oauth_intents d) (api_budget_windows d)
    (bookmark_write_authorizations d) (bookmark_write_consents d) (bookmark_write_operations d)
    (bookmark_write_audit_events d) (posts d) (post_relations d) (media d) (bookmarks d)
    (f (bookmark_folders d)) (bookmark_folder_items d) (sync_runs d) (snapshots d)
    (snapshot_bookmark_items d) (bookmark_snapshot_authority d) (snapshot_folder_membership_items d)
    (folder_membership_snapshot_authority d) (folder_membership_observations d)
    (folder_capability_limits d) (bookmark_incremental_state d) (bookmark_reconciliation_repairs d)
    (social_sources d) (social_source_revisions d) (article_captures d) (post_article_links d)
    (outbox_events d) (inbox_events d) (explicit_captures d) (explicit_sources d)
    (knowledge_analysis_links d) (compliance_revalidation_ledger d) (tombstones d)
    (legacy_import_runs d) (legacy_import_items d) (legacy_shadow_reports d)
    (legacy_transition_approvals d).
Definition on_bookmark_folder_items
    (f : gmap Z (gmap Z FolderItem) → gmap Z (gmap Z FolderItem)) (d : Db) : Db :=
  mkDb (accounts d) (users d) (credentials d) (oauth_intents d) (api_budget_windows d)
    (bookmark_write_authorizations d) (bookmark_write_consents d) (bookmark_write_operations d)
    (bookmark_write_audit_events d) (posts d) (post_relations d) (media d) (bookmarks d)
    (bookmark_folders d) (f (bookmark_folder_items d)) (sync_runs d) (snapshots d)
    (snapshot_bookmark_items d) (bookmark_snapshot_authority d) (snapshot_folder_membership_items d)
    (folder_membership_snapshot_authority d) (folder_membership_observations d)
    (folder_capability_limits d) (bookmark_incremental_state d) (bookmark_reconciliation_repairs d)
    (social_sources d) (social_source_revisions d) (article_captures d) (post_article_links d)
    (outbox_events d) (inbox_events d) (explicit_captures d) (explicit_sources d)
    (knowledge_analysis_links d) (compliance_revalidation_ledger d) (tombstones d)
    (legacy_import_runs d) (legacy_import_items d) (legacy_shadow_reports d)
    (legacy_transition_approvals d).
Definition on_sync_runs (f : gmap Z SyncRun → gmap Z SyncRun) (d : Db) : Db :=
  mkDb (accounts d) (users d) (credentials d) (oauth_intents d) (api_budget_windows d)
    (bookmark_write_authorizations d) (bookmark_write_consents d) (bookmark_write_operations d)
    (bookmark_write_audit_events d) (posts d) (post_relations d) (media d) (bookmarks d)
    (bookmark_folders d) (bookmark_folder_items d) (f (sync_runs d)) (snapshots d)
    (snapshot_bookmark_items d) (bookmark_snapshot_authority d) (snapshot_folder_membership_items d)
    (folder_membership_snapshot_authority d) (folder_membership_observations d)
    (folder_capability_limits d) (bookmark_incremental_state d) (bookmark_reconciliation_repairs d)
    (social_sources d) (social_source_revisions d) (article_captures d) (post_article_links d)
    (outbox_events d) (inbox_events d) (explicit_captures d) (explicit_sources d)
    (knowledge_analysis_links d) (compliance_revalidation_ledger d) (tombstones d)
    (legacy_import_runs d) (legacy_import_items d) (legacy_shadow_reports d)
    (legacy_transition_approvals d).
Definition on_snapshots (f : gmap Z Snapshot → gmap Z Snapshot) (d : Db) : Db :=
  mkDb (accounts d) (users d) (credentials d) (oauth_intents d) (api_budget_windows d)
    (bookmark_write_authorizations d) (bookmark_write_consents d) (bookmark_write_operations d)
    (bookmark_write_audit_events d) (posts d) (post_relations d) (media d) (bookmarks d)
    (bookmark_folders d) (bookmark_folder_items d) (sync_runs d) (f (snapshots d))
    (snapshot_bookmark_items d) (bookmark_snapshot_authority d) (snapshot_folder_membership_items d)
    (folder_membership_snapshot_authority d) (folder_membership_observations d)
    (folder_capability_limits d) (bookmark_incremental_state d) (bookmark_reconciliation_repairs d)
    (social_sources d) (social_source_revisions d) (article_captures d) (post_article_links d)
    (outbox_events d) (inbox_events d) (explicit_captures d) (explicit_sources d)
    (knowledge_analysis_links d) (compliance_revalidation_ledger d) (tombstones d)
    (legacy_import_runs d) (legacy_import_items d) (legacy_shadow_reports d)
    (legacy_transition_approvals d).
Definition on_snapshot_bookmark_items (f : gmap Z (gmap Z Z) → gmap Z (gmap Z Z)) (d : Db) : Db :=
  mkDb (accounts d) (users d) (credentials d) (oauth_intents d) (api_budget_windows d)
    (bookmark_write_authorizations d) (bookmark_write_consents d) (bookmark_write_operations d)
    (bookmark_write_audit_events d) (posts d) (post_relations d) (media d) (bookmarks d)
    (bookmark_folders d) (bookmark_folder_items d) (sync_runs d) (snapshots d)
    (f (snapshot_bookmark_items d)) (bookmark_snapshot_authority d)
    (snapshot_folder_membership_items d) (folder_membership_snapshot_authority d)
    (folder_membership_observations d) (folder_capability_limits d) (bookmark_incremental_state d)
    (bookmark_reconciliation_repairs d) (social_sources d) (social_source_revisions d)
    (article_captures d) (post_article_links d) (outbox_events d) (inbox_events d)
    (explicit_captures d) (explicit_sources d) (knowledge_analysis_links d)
    (compliance_revalidation_ledger d) (tombstones d) (legacy_import_runs d) (legacy_import_items d)
    (legacy_shadow_reports d) (legacy_transition_approvals d).
Definition on_bookmark_snapshot_authority (f : gmap Z Authority → gmap Z Authority) (d : Db) : Db :=
  mkDb (accounts d) (users d) (credentials d) (oauth_intents d) (api_budget_windows d)
    (bookmark_write_authorizations d) (bookmark_write_consents d) (bookmark_write_operations d)
    (bookmark_write_audit_events d) (posts d) (post_relations d) (media d) (bookmarks d)
    (bookmark_folders d) (bookmark_folder_items d) (sync_runs d) (snapshots d)
    (snapshot_bookmark_items d) (f (bookmark_snapshot_authority d))
    (snapshot_folder_membership_items d) (folder_membership_snapshot_authority d)
    (folder_membership_observations d) (folder_capability_limits d) (bookmark_incremental_state d)
    (bookmark_reconciliation_repairs d) (social_sources d) (social_source_revisions d)
    (article_captures d) (post_article_links d) (outbox_events d) (inbox_events d)
    (explicit_captures d) (explicit_sources d) (knowledge_analysis_links d)
    (compliance_revalidation_ledger d) (tombstones d) (legacy_import_runs d) (legacy_import_items d)
    (legacy_shadow_reports d) (legacy_transition_approvals d).
Definition on_snapshot_folder_membership_items
    (f : gmap Z (gmap Z Z) → gmap Z (gmap Z Z)) (d : Db) : Db :=
  mkDb (accounts d) (users d) (credentials d) (oauth_intents d) (api_budget_windows d)
    (bookmark_write_authorizations d) (bookmark_write_consents d) (bookmark_write_operations d)
    (bookmark_write_audit_events d) (posts d) (post_relations d) (media d) (bookmarks d)
    (bookmark_folders d) (bookmark_folder_items d) (sync_runs d) (snapshots d)
    (snapshot_bookmark_items d) (bookmark_snapshot_authority d)
    (f (snapshot_folder_membership_items d)) (folder_membership_snapshot_authority d)
    (folder_membership_observations d) (folder_capability_limits d) (bookmark_incremental_state d)
    (bookmark_reconciliation_repairs d) (social_sources d) (social_source_revisions d)
    (article_captures d) (post_article_links d) (outbox_events d) (inbox_events d)
    (explicit_captures d) (explicit_sources d) (knowledge_analysis_links d)
    (compliance_revalidation_ledger d) (tombstones d) (legacy_import_runs d) (legacy_import_items d)
    (legacy_shadow_reports d) (legacy_transition_approvals d).
Definition on_folder_membership_snapshot_authority
    (f : gmap Z Authority → gmap Z Authority) (d : Db) : Db :=
  mkDb (accounts d) (users d) (credentials d) (oauth_intents d) (api_budget_windows d)
    (bookmark_write_authorizations d) (bookmark_write_consents d) (bookmark_write_operations d)
    (bookmark_write_audit_events d) (posts d) (post_relations d) (media d) (bookmarks d)
    (bookmark_folders d) (bookmark_folder_items d) (sync_runs d) (snapshots d)
    (snapshot_bookmark_items d) (bookmark_snapshot_authority d) (snapshot_folder_membership_items d)
    (f (folder_membership_snapshot_authority d)) (folder_membership_observations d)
    (folder_capability_limits d) (bookmark_incremental_state d) (bookmark_reconciliation_repairs d)
    (social_sources d) (social_source_revisions d) (article_captures d) (post_article_links d)
    (outbox_events d) (inbox_events d) (explicit_captures d) (explicit_sources d)
    (knowledge_analysis_links d) (compliance_revalidation_ledger d) (tombstones d)
    (legacy_import_runs d) (legacy_import_items d) (legacy_shadow_reports d)
    (legacy_transition_approvals d).
Definition on_folder_membership_observations
    (f : gmap (Z * Z * Z * string) Z → gmap (Z * Z * Z * string) Z) (d : Db) : Db :=
  mkDb (accounts d) (users d) (credentials d) (oauth_intents d) (api_budget_windows d)
    (bookmark_write_authorizations d) (bookmark_write_consents d) (bookmark_write_operations d)
    (bookmark_write_audit_events d) (posts d) (post_relations d) (media d) (bookmarks d)
    (bookmark_folders d) (bookmark_folder_items d) (sync_runs d) (snapshots d)
    (snapshot_bookmark_items d) (bookmark_snapshot_authority d) (snapshot_folder_membership_items d)
    (folder_membership_snapshot_authority d) (f (folder_membership_observations d))
    (folder_capability_limits d) (bookmark_incremental_state d) (bookmark_reconciliation_repairs d)
    (social_sources d) (social_source_revisions d) (article_captures d) (post_article_links d)
    (outbox_events d) (inbox_events d) (explicit_captures d) (explicit_sources d)
    (knowledge_analysis_links d) (compliance_revalidation_ledger d) (tombstones d)
    (legacy_import_runs d) (legacy_import_items d) (legacy_shadow_reports d)
    (legacy_transition_approvals d).
Definition on_folder_capability_limits
    (f : gmap (Z * string) (Z * Z) → gmap (Z * string) (Z * Z)) (d : Db) : Db :=
  mkDb (accounts d) (users d) (credentials d) (oauth_intents d) (api_budget_windows d)
    (bookmark_write_authorizations d) (bookmark_write_consents d) (bookmark_write_operations d)
    (bookmark_write_audit_events d) (posts d) (post_relations d) (media d) (bookmarks d)
    (bookmark_folders d) (bookmark_folder_items d) (sync_runs d) (snapshots d)
    (snapshot_bookmark_items d) (bookmark_snapshot_authority d) (snapshot_folder_membership_items d)
    (folder_membership_snapshot_authority d) (folder_membership_observations d)
    (f (folder_capability_limits d)) (bookmark_incremental_state d)
    (bookmark_reconciliation_repairs d) (social_sources d) (social_source_revisions d)
    (article_captures d) (post_article_links d) (outbox_events d) (inbox_events d)
    (explicit_captures d) (explicit_sources d) (knowledge_analysis_links d)
    (compliance_revalidation_ledger d) (tombstones d) (legacy_import_runs d) (legacy_import_items d)
    (legacy_shadow_reports d) (legacy_transition_approvals d).
Definition on_bookmark_incremental_state
    (f : gmap Z IncrementalState → gmap Z IncrementalState) (d : Db) : Db :=
  mkDb (accounts d) (users d) (credentials d) (oauth_intents d) (api_budget_windows d)
    (bookmark_write_authorizations d) (bookmark_write_consents d) (bookmark_write_operations d)
    (bookmark_write_audit_events d) (posts d) (post_relations d) (media d) (bookmarks d)
    (bookmark_folders d) (bookmark_folder_items d) (sync_runs d) (snapshots d)
    (snapshot_bookmark_items d) (bookmark_snapshot_authority d) (snapshot_folder_membership_items d)
    (folder_membership_snapshot_authority d) (folder_membership_observations d)
    (folder_capability_limits d) (f (bookmark_incremental_state d))
    (bookmark_reconciliation_repairs d) (social_sources d) (social_source_revisions d)
    (article_captures d) (post_article_links d) (outbox_events d) (inbox_events d)
    (explicit_captures d) (explicit_sources d) (knowledge_analysis_links d)
    (compliance_revalidation_ledger d) (tombstones d) (legacy_import_runs d) (legacy_import_items d)
    (legacy_shadow_reports d) (legacy_transition_approvals d).
Definition on_bookmark_reconciliation_repairs
    (f : gmap (Z * (Z * Z)) string → gmap (Z * (Z * Z)) string) (d : Db) : Db :=
  mkDb (accounts d) (users d) (credentials d) (oauth_intents d) (api_budget_windows d)
    (bookmark_write_authorizations d) (bookmark_write_consents d) (bookmark_write_operations d)
    (bookmark_write_audit_events d) (posts d) (post_relations d) (media d) (bookmarks d)
    (bookmark_folders d) (bookmark_folder_items d) (sync_runs d) (snapshots d)
    (snapshot_bookmark_items d) (bookmark_snapshot_authority d) (snapshot_folder_membership_items d)
    (folder_membership_snapshot_authority d) (folder_membership_observations d)
    (folder_capability_limits d) (bookmark_incremental_state d)
    (f (bookmark_reconciliation_repairs d)) (social_sources d) (social_source_revisions d)
    (article_captures d) (post_article_links d) (outbox_events d) (inbox_events d)
    (explicit_captures d) (explicit_sources d) (knowledge_analysis_links d)
    (compliance_revalidation_ledger d) (tombstones d) (legacy_import_runs d) (legacy_import_items d)
    (legacy_shadow_reports d) (legacy_transition_approvals d).
Definition on_social_sources (f : gmap Z SocialSource → gmap Z SocialSource) (d : Db) : Db :=
  mkDb (accounts d) (users d) (credentials d) (oauth_intents d) (api_budget_windows d)
    (bookmark_write_authorizations d) (bookmark_write_consents d) (bookmark_write_operations d)
    (bookmark_write_audit_events d) (posts d) (post_relations d) (media d) (bookmarks d)
    (bookmark_folders d) (bookmark_folder_items d) (sync_runs d) (snapshots d)
    (snapshot_bookmark_items d) (bookmark_snapshot_authority d) (snapshot_folder_membership_items d)
    (folder_membership_snapshot_authority d) (folder_membership_observations d)
    (folder_capability_limits d) (bookmark_incremental_state d) (bookmark_reconciliation_repairs d)
    (f (social_sources d)) (social_source_revisions d) (article_captures d) (post_article_links d)
    (outbox_events d) (inbox_events d) (explicit_captures d) (explicit_sources d)
    (knowledge_analysis_links d) (compliance_revalidation_ledger d) (tombstones d)
    (legacy_import_runs d) (legacy_import_items d) (legacy_shadow_reports d)
    (legacy_transition_approvals d).
Definition on_social_source_revisions
    (f : gmap (Z * (string * string)) SourceRevision → gmap (Z * (string * string)) SourceRevision) (d : Db) : Db :=
  mkDb (accounts d) (users d) (credentials d) (oauth_intents d) (api_budget_windows d)
    (bookmark_write_authorizations d) (bookmark_write_consents d) (bookmark_write_operations d)
    (bookmark_write_audit_events d) (posts d) (post_relations d) (media d) (bookmarks d)
    (bookmark_folders d) (bookmark_folder_items d) (sync_runs d) (snapshots d)
    (snapshot_bookmark_items d) (bookmark_snapshot_authority d) (snapshot_folder_membership_items d)
    (folder_membership_snapshot_authority d) (folder_membership_observations d)
    (folder_capability_limits d) (bookmark_incremental_state d) (bookmark_reconciliation_repairs d)
    (social_sources d) (f (social_source_revisions d)) (article_captures d) (post_article_links d)
    (outbox_events d) (inbox_events d) (explicit_captures d) (explicit_sources d)
    (knowledge_analysis_links d) (compliance_revalidation_ledger d) (tombstones d)
    (legacy_import_runs d) (legacy_import_items d) (legacy_shadow_reports d)
    (legacy_transition_approvals d).
Definition on_article_captures (f : gmap Z ArticleCapture → gmap Z ArticleCapture) (d : Db) : Db :=
  mkDb (accounts d) (users d) (credentials d) (oauth_intents d) (api_budget_windows d)
    (bookmark_write_authorizations d) (bookmark_write_consents d) (bookmark_write_operations d)
    (bookmark_write_audit_events d) (posts d) (post_relations d) (media d) (bookmarks d)
    (bookmark_folders d) (bookmark_folder_items d) (sync_runs d) (snapshots d)
    (snapshot_bookmark_items d) (bookmark_snapshot_authority d) (snapshot_folder_membership_items d)
    (folder_membership_snapshot_authority d) (folder_membership_observations d)
    (folder_capability_limits d) (bookmark_incremental_state d) (bookmark_reconciliation_repairs d)
    (social_sources d) (social_source_revisions d) (f (article_captures d)) (post_article_links d)
    (outbox_events d) (inbox_events d) (explicit_captures d) (explicit_sources d)
    (knowledge_analysis_links d) (compliance_revalidation_ledger d) (tombstones d)
    (legacy_import_runs d) (legacy_import_items d) (legacy_shadow_reports d)
    (legacy_transition_approvals d).
Definition on_post_article_links (f : gset (Z * Z) → gset (Z * Z)) (d : Db) : Db :=
  mkDb (accounts d) (users d) (credentials d) (oauth_intents d) (api_budget_windows d)
    (bookmark_write_authorizations d) (bookmark_write_consents d) (bookmark_write_operations d)
    (bookmark_write_audit_events d) (posts d) (post_relations d) (media d) (bookmarks d)
    (bookmark_folders d) (bookmark_folder_items d) (sync_runs d) (snapshots d)
    (snapshot_bookmark_items d) (bookmark_snapshot_authority d) (snapshot_folder_membership_items d)
    (folder_membership_snapshot_authority d) (folder_membership_observations d)
    (folder_capability_limits d) (bookmark_incremental_state d) (bookmark_reconciliation_repairs d)
    (social_sources d) (social_source_revisions d) (article_captures d) (f (post_article_links d))
    (outbox_events d) (inbox_events d) (explicit_captures d) (explicit_sources d)
    (knowledge_analysis_links d) (compliance_revalidation_ledger d) (tombstones d)
    (legacy_import_runs d) (legacy_import_items d) (legacy_shadow_reports d)
    (legacy_transition_approvals d).
Definition on_outbox_events (f : gmap Z OutboxRow → gmap Z OutboxRow) (d : Db) : Db :=
  mkDb (accounts d) (users d) (credentials d) (oauth_intents d) (api_budget_windows d)
    (bookmark_write_authorizations d) (bookmark_write_consents d) (bookmark_write_operations d)
    (bookmark_write_audit_events d) (posts d) (post_relations d) (media d) (bookmarks d)
    (bookmark_folders d) (bookmark_folder_items d) (sync_runs d) (snapshots d)
    (snapshot_bookmark_items d) (bookmark_snapshot_authority d) (snapshot_folder_membership_items d)
    (folder_membership_snapshot_authority d) (folder_membership_observations d)
    (folder_capability_limits d) (bookmark_incremental_state d) (bookmark_reconciliation_repairs d)
    (social_sources d) (social_source_revisions d) (article_captures d) (post_article_links d)
    (f (outbox_events d)) (inbox_events d) (explicit_captures d) (explicit_sources d)
    (knowledge_analysis_links d) (compliance_revalidation_ledger d) (tombstones d)
    (legacy_import_runs d) (legacy_import_items d) (legacy_shadow_reports d)
    (legacy_transition_approvals d).
Definition on_inbox_events (f : gmap string InboxRow → gmap string InboxRow) (d : Db) : Db :=
  mkDb (accounts d) (users d) (credentials d) (oauth_intents d) (api_budget_windows d)
    (bookmark_write_authorizations d) (bookmark_write_consents d) (bookmark_write_operations d)
    (bookmark_write_audit_events d) (posts d) (post_relations d) (media d) (bookmarks d)
    (bookmark_folders d) (bookmark_folder_items d) (sync_runs d) (snapshots d)
    (snapshot_bookmark_items d) (bookmark_snapshot_authority d) (snapshot_folder_membership_items d)
    (folder_membership_snapshot_authority d) (folder_membership_observations d)
    (folder_capability_limits d) (bookmark_incremental_state d) (bookmark_reconciliation_repairs d)
    (social_sources d) (social_source_revisions d) (article_captures d) (post_article_links d)
    (outbox_events d) (f (inbox_events d)) (explicit_captures d) (explicit_sources d)
    (knowledge_analysis_links d) (compliance_revalidation_ledger d) (tombstones d)
    (legacy_import_runs d) (legacy_import_items d) (legacy_shadow_reports d)
    (legacy_transition_approvals d).
Definition on_explicit_captures
    (f : gmap Z ExplicitCapture → gmap Z ExplicitCapture) (d : Db) : Db :=
  mkDb (accounts d) (users d) (credentials d) (oauth_intents d) (api_budget_windows d)
    (bookmark_write_authorizations d) (bookmark_write_consents d) (bookmark_write_operations d)
    (bookmark_write_audit_events d) (posts d) (post_relations d) (media d) (bookmarks d)
    (bookmark_folders d) (bookmark_folder_items d) (sync_runs d) (snapshots d)
    (snapshot_bookmark_items d) (bookmark_snapshot_authority d) (snapshot_folder_membership_items d)
    (folder_membership_snapshot_authority d) (folder_membership_observations d)
    (folder_capability_limits d) (bookmark_incremental_state d) (bookmark_reconciliation_repairs d)
    (social_sources d) (social_source_revisions d) (article_captures d) (post_article_links d)
    (outbox_events d) (inbox_events d) (f (explicit_captures d)) (explicit_sources d)
    (knowledge_analysis_links d) (compliance_revalidation_ledger d) (tombstones d)
    (legacy_import_runs d) (legacy_import_items d) (legacy_shadow_reports d)
    (legacy_transition_approvals d).
Definition on_explicit_sources
    (f : gmap (Z * string) ExplicitSource → gmap (Z * string) ExplicitSource) (d : Db) : Db :=
  mkDb (accounts d) (users d) (credentials d) (oauth_intents d) (api_budget_windows d)
    (bookmark_write_authorizations d) (bookmark_write_consents d) (bookmark_write_operations d)
    (bookmark_write_audit_events d) (posts d) (post_relations d) (media d) (bookmarks d)
    (bookmark_folders d) (bookmark_folder_items d) (sync_runs d) (snapshots d)
    (snapshot_bookmark_items d) (bookmark_snapshot_authority d) (snapshot_folder_membership_items d)
    (folder_membership_snapshot_authority d) (folder_membership_observations d)
    (folder_capability_limits d) (bookmark_incremental_state d) (bookmark_reconciliation_repairs d)
    (social_sources d) (social_source_revisions d) (article_captures d) (post_article_links d)
    (outbox_events d) (inbox_events d) (explicit_captures d) (f (explicit_sources d))
    (knowledge_analysis_links d) (compliance_revalidation_ledger d) (tombstones d)
    (legacy_import_runs d) (legacy_import_items d) (legacy_shadow_reports d)
    (legacy_transition_approvals d).
Definition on_knowledge_analysis_links
    (f : gmap (Z * (string * string)) AnalysisLink → gmap (Z * (string * string)) AnalysisLink) (d : Db) : Db :=
  mkDb (accounts d) (users d) (credentials d) (oauth_intents d) (api_budget_windows d)
    (bookmark_write_authorizations d) (bookmark_write_consents d) (bookmark_write_operations d)
    (bookmark_write_audit_events d) (posts d) (post_relations d) (media d) (bookmarks d)
    (bookmark_folders d) (bookmark_folder_items d) (sync_runs d) (snapshots d)
    (snapshot_bookmark_items d) (bookmark_snapshot_authority d) (snapshot_folder_membership_items d)
    (folder_membership_snapshot_authority d) (folder_membership_observations d)
    (folder_capability_limits d) (bookmark_incremental_state d) (bookmark_reconciliation_repairs d)
    (social_sources d) (social_source_revisions d) (article_captures d) (post_article_links d)
    (outbox_events d) (inbox_events d) (explicit_captures d) (explicit_sources d)
    (f (knowledge_analysis_links d)) (compliance_revalidation_ledger d) (tombstones d)
    (legacy_import_runs d) (legacy_import_items d) (legacy_shadow_reports d)
    (legacy_transition_approvals d).
Definition on_compliance_revalidation_ledger
    (f : gmap Z LedgerEntry → gmap Z LedgerEntry) (d : Db) : Db :=
  mkDb (accounts d) (users d) (credentials d) (oauth_intents d) (api_budget_windows d)
    (bookmark_write_authorizations d) (bookmark_write_consents d) (bookmark_write_operations d)
    (bookmark_write_audit_events d) (posts d) (post_relations d) (media d) (bookmarks d)
    (bookmark_folders d) (bookmark_folder_items d) (sync_runs d) (snapshots d)
    (snapshot_bookmark_items d) (bookmark_snapshot_authority d) (snapshot_folder_membership_items d)
    (folder_membership_snapshot_authority d) (folder_membership_observations d)
    (folder_capability_limits d) (bookmark_incremental_state d) (bookmark_reconciliation_repairs d)
    (social_sources d) (social_source_revisions d) (article_captures d) (post_article_links d)
    (outbox_events d) (inbox_events d) (explicit_captures d) (explicit_sources d)
    (knowledge_analysis_links d) (f (compliance_revalidation_ledger d)) (tombstones d)
    (legacy_import_runs d) (legacy_import_items d) (legacy_shadow_reports d)
    (legacy_transition_approvals d).
Definition on_tombstones (f : gmap Z Tombstone → gmap Z Tombstone) (d : Db) : Db :=
  mkDb (accounts d) (users d) (credentials d) (oauth_intents d) (api_budget_windows d)
    (bookmark_write_authorizations d) (bookmark_write_consents d) (bookmark_write_operations d)
    (bookmark_write_audit_events d) (posts d) (post_relations d) (media d) (bookmarks d)
    (bookmark_folders d) (bookmark_folder_items d) (sync_runs d) (snapshots d)
    (snapshot_bookmark_items d) (bookmark_snapshot_authority d) (snapshot_folder_membership_items d)
    (folder_membership_snapshot_authority d) (folder_membership_observations d)
    (folder_capability_limits d) (bookmark_incremental_state d) (bookmark_reconciliation_repairs d)
    (social_sources d) (social_source_revisions d) (article_captures d) (post_article_links d)
    (outbox_events d) (inbox_events d) (explicit_captures d) (explicit_sources d)
    (knowledge_analysis_links d) (compliance_revalidation_ledger d) (f (tombstones d))
    (legacy_import_runs d) (legacy_import_items d) (legacy_shadow_reports d)
    (legacy_transition_approvals d).
Definition on_legacy_import_runs (f : gmap Z ImportRun → gmap Z ImportRun) (d : Db) : Db :=
  mkDb (accounts d) (users d) (credentials d) (oauth_intents d) (api_budget_windows d)
    (bookmark_write_authorizations d) (bookmark_write_consents d) (bookmark_write_operations d)
    (bookmark_write_audit_events d) (posts d) (post_relations d) (media d) (bookmarks d)
    (bookmark_folders d) (bookmark_folder_items d) (sync_runs d) (snapshots d)
    (snapshot_bookmark_items d) (bookmark_snapshot_authority d) (snapshot_folder_membership_items d)
    (folder_membership_snapshot_authority d) (folder_membership_observations d)
    (folder_capability_limits d) (bookmark_incremental_state d) (bookmark_reconciliation_repairs d)
    (social_sources d) (social_source_revisions d) (article_captures d) (post_article_links d)
    (outbox_events d) (inbox_events d) (explicit_captures d) (explicit_sources d)
    (knowledge_analysis_links d) (compliance_revalidation_ledger d) (tombstones d)
    (f (legacy_import_runs d)) (legacy_import_items d) (legacy_shadow_reports d)
    (legacy_transition_approvals d).
Definition on_legacy_import_items
    (f : gmap (Z * string) ImportItem → gmap (Z * string) ImportItem) (d : Db) : Db :=
  mkDb (accounts d) (users d) (credentials d) (oauth_intents d) (api_budget_windows d)
    (bookmark_write_authorizations d) (bookmark_write_consents d) (bookmark_write_operations d)
    (bookmark_write_audit_events d) (posts d) (post_relations d) (media d) (bookmarks d)
    (bookmark_folders d) (bookmark_folder_items d) (sync_runs d) (snapshots d)
    (snapshot_bookmark_items d) (bookmark_snapshot_authority d) (snapshot_folder_membership_items d)
    (folder_membership_snapshot_authority d) (folder_membership_observations d)
    (folder_capability_limits d) (bookmark_incremental_state d) (bookmark_reconciliation_repairs d)
    (social_sources d) (social_source_revisions d) (article_captures d) (post_article_links d)
    (outbox_events d) (inbox_events d) (explicit_captures d) (explicit_sources d)
    (knowledge_analysis_links d) (compliance_revalidation_ledger d) (tombstones d)
    (legacy_import_runs d) (f (legacy_import_items d)) (legacy_shadow_reports d)
    (legacy_transition_approvals d).
Definition on_legacy_shadow_reports
    (f : gmap Z ShadowReportRow → gmap Z ShadowReportRow) (d : Db) : Db :=
  mkDb (accounts d) (users d) (credentials d) (oauth_intents d) (api_budget_windows d)
    (bookmark_write_authorizations d) (bookmark_write_consents d) (bookmark_write_operations d)
    (bookmark_write_audit_events d) (posts d) (post_relations d) (media d) (bookmarks d)
    (bookmark_folders d) (bookmark_folder_items d) (sync_runs d) (snapshots d)
    (snapshot_bookmark_items d) (bookmark_snapshot_authority d) (snapshot_folder_membership_items d)
    (folder_membership_snapshot_authority d) (folder_membership_observations d)
    (folder_capability_limits d) (bookmark_incremental_state d) (bookmark_reconciliation_repairs d)
    (social_sources d) (social_source_revisions d) (article_captures d) (post_article_links d)
    (outbox_events d) (inbox_events d) (explicit_captures d) (explicit_sources d)
    (knowledge_analysis_links d) (compliance_revalidation_ledger d) (tombstones d)
    (legacy_import_runs d) (legacy_import_items d) (f (legacy_shadow_reports d))
    (legacy_transition_approvals d).
Definition on_legacy_transition_approvals
    (f : gmap Z ApprovalRow → gmap Z ApprovalRow) (d : Db) : Db :=
  mkDb (accounts d) (users d) (credentials d) (oauth_intents d) (api_budget_windows d)
    (bookmark_write_authorizations d) (bookmark_write_consents d) (bookmark_write_operations d)
    (bookmark_write_audit_events d) (posts d) (post_relations d) (media d) (bookmarks d)
    (bookmark_folders d) (bookmark_folder_items d) (sync_runs d) (snapshots d)
    (snapshot_bookmark_items d) (bookmark_snapshot_authority d) (snapshot_folder_membership_items d)
    (folder_membership_snapshot_authority d) (folder_membership_observations d)
    (folder_capability_limits d) (bookmark_incremental_state d) (bookmark_reconciliation_repairs d)
    (social_sources d) (social_source_revisions d) (article_captures d) (post_article_links d)
    (outbox_events d) (inbox_events d) (explicit_captures d) (explicit_sources d)
    (knowledge_analysis_links d) (compliance_revalidation_ledger d) (tombstones d)
    (legacy_import_runs d) (legacy_import_items d) (legacy_shadow_reports d)
    (f (legacy_transition_approvals d)).

(** ** Errors of the persistence layer *)
Inductive PersistenceError := Connect | Schema | Query.

(** ** Calls that leave the process *)

(** How a consumer settles a delivery: stored, handed back for later, or never acceptable. *)
Inductive AckKind :=
  | Ack
  | Nak (delay : option Z)
  | Term.

#[export] Instance ack_kind_eq_dec : EqDecision AckKind.
Proof. solve_decision. Defined.

Inductive Event :=
  | FetchBookmarks (continuation : option string)
  | FetchMembership (folder : string) (continuation : option string)
  | SendBookmark (http_method url access_token : string) (tweet_id : option string)
  | PostForm (url : string) (basic_auth : option (string * string)) (body : string)
  | GetBearer (url access_token : string)
  | Publish (subject : string) (message_id : Z) (payload : string) (acknowledged : bool)
  | ReportHealth (healthy : bool)
  | ResolvePost (provider_post_id : string)
  | RevalidatePost (provider_post_id : string)
  | Settle (delivery : string) (kind : AckKind).

(** The monad of the program: statements on [Db], calls logged as [Event]s. *)
Abbreviation Prog := (M Db Event).
Abbreviation W := (World Db Event).

(** ** Generic statements *)

(** [insert ... returning]: refused when the primary key is taken. *)
Definition insert_new {K V} `{Countable K} (k : K) (v : V) (m : gmap K V) : option (gmap K V) :=
  match m !! k with Some _ => None | None => Some (<[k := v]> m) end.

(** [on conflict (k) do update]. *)
Definition upsert {K V} `{Countable K} (k : K) (fresh : V) (revise : V → V) (m : gmap K V) :
    gmap K V :=
  <[k := match m !! k with Some v => revise v | None => fresh end]> m.

Lemma lookup_upsert {K V} `{Countable K} (k j : K) (fresh : V) revise m :
  upsert k fresh revise m !! j =
    if decide (k = j) then Some (match m !! k with Some v => revise v | None => fresh end)
    else m !! j.
Proof. unfold upsert. by rewrite lookup_insert. Qed.

(** The rows of one snapshot, account or folder in a two-level table. *)
Definition rows {V} (m : gmap Z (gmap Z V)) (k : Z) : gmap Z V := default ∅ (m !! k).
Definition set_rows {V} (k : Z) (f : gmap Z V → gmap Z V) (m : gmap Z (gmap Z V)) :
    gmap Z (gmap Z V) := <[k := f (rows m k)]> m.

Lemma rows_set_eq {V} k f (m : gmap Z (gmap Z V)) : rows (set_rows k f m) k = f (rows m k).
Proof. unfold rows at 1, set_rows. by rewrite lookup_insert_eq. Qed.

Lemma rows_set_ne {V} k j f (m : gmap Z (gmap Z V)) :
  k ≠ j → rows (set_rows k f m) j = rows m j.
Proof. intros. unfold rows, set_rows. by rewrite lookup_insert_ne. Qed.

Lemma rows_set {V} k j f (m : gmap Z (gmap Z V)) :
  rows (set_rows k f m) j = if decide (k = j) then f (rows m j) else rows m j.
Proof. case_decide; [subst; apply rows_set_eq | by apply rows_set_ne]. Qed.

(** The first row (in key order of the map) that satisfies [P], as [fetch_optional] returns one. *)
Definition find_row {K V} `{Countable K} (P : K → V → bool) (m : gmap K V) : option (K * V) :=
  head (List.filter (λ kv, P kv.1 kv.2) (map_to_list m)).

Lemma find_row_Some {K V} `{Countable K} (P : K → V → bool) (m : gmap K V) k v :
  find_row P m = Some (k, v) → m !! k = Some v ∧ P k v = true.
Proof.
  unfold find_row. destruct (List.filter _ _) as [|x xs] eqn:E; [done|]. intros [= ->].
  assert (Hin : In (k, v) (List.filter (λ kv, P kv.1 kv.2) (map_to_list m)))
    by (rewrite E; by left).
  apply filter_In in Hin as [Hin HP]. split; [|done].
  by apply elem_of_map_to_list, list_elem_of_In.
Qed.

Lemma find_row_None {K V} `{Countable K} (P : K → V → bool) (m : gmap K V) k v :
  find_row P m = None → m !! k = Some v → P k v = false.
Proof.
  unfold find_row. destruct (List.filter _ _) as [|x xs] eqn:E; [|done]. intros _ Hk.
  destruct (P k v) eqn:HP; [|done].
  assert (Hin : In (k, v) (List.filter (λ kv, P kv.1 kv.2) (map_to_list m))).
  { apply filter_In. split; [|done]. by apply list_elem_of_In, elem_of_map_to_list. }
  by rewrite E in Hin.
Qed.

(** ** Reconciling rows with a staged set

    The joins of a completed snapshot: staged entries against the active rows of one table. *)

Section Reconciling.
Context {V : Type} (active : V → bool) (staged : gmap Z Z) (m : gmap Z V).
Let present : gmap Z V := filter (λ kv, active kv.2 = true) m.

Lemma lookup_present k :
  present !! k = match m !! k with Some v => if active v then Some v else None | None => None end.
Proof.
  unfold present. rewrite map_lookup_filter. destruct (m !! k) as [v|]; simpl; [|done].
  by destruct (active v).
Qed.

Lemma lookup_unstaged k :
  filter (λ kv : Z * V, staged !! kv.1 = None) present !! k =
    match staged !! k, m !! k with
    | None, Some v => if active v then Some v else None
    | _, _ => None
    end.
Proof.
  rewrite map_lookup_filter, lookup_present. destruct (m !! k) as [v|]; [|by destruct (staged !! k)].
  destruct (active v); simpl; by destruct (staged !! k).
Qed.

(** Every staged entry is either new or retained. *)
Lemma staged_partition :
  (size (filter (λ kv : Z * Z, present !! kv.1 = None) staged) +
   size (filter (λ kv : Z * Z, is_Some (present !! kv.1)) staged))%nat = size staged.
Proof.
  rewrite <-(map_filter_union_complement (λ kv : Z * Z, present !! kv.1 = None) staged) at 3.
  rewrite map_size_disj_union by apply map_disjoint_filter_complement. f_equal. f_equal.
  apply map_filter_ext. intros k v _. simpl. by rewrite not_eq_None_Some.
Qed.
End Reconciling.
