(* ===== verification/Time.v ===== *)
(** * Instants

    The part of the [chrono] crate the program calls, as an interface: the operations, and the
    documented facts about them that theorems rely on. Instants and durations are integers counting
    microseconds (the resolution of the database's [timestamptz]). *)
From S2P Require Export Prelude.

Definition usec : Z := 1000000.

(** 9999-12-31T23:59:59Z, well inside the range [chrono] represents. *)
Definition far_seconds : Z := 253402300799.
Definition far_instant : Z := far_seconds * usec.

Class Chrono := {
  timestamp : Z → Z;                       (* [DateTime::timestamp] *)
  from_timestamp : Z → option Z;           (* [DateTime::from_timestamp(s, 0)] *)
  checked_add_signed : Z → Z → option Z;   (* [DateTime::checked_add_signed] *)
  try_seconds : Z → option Z;              (* [TimeDelta::try_seconds] *)
  parse_from_rfc3339 : string → option Z;  (* [DateTime::parse_from_rfc3339] *)
}.

Class ChronoLaws `{Chrono} : Prop := {
  timestamp_floor t : timestamp t = t / usec;
  from_timestamp_value s t : from_timestamp s = Some t → t = s * usec;
  from_timestamp_total s : 0 ≤ s ≤ far_seconds → is_Some (from_timestamp s);
  checked_add_value a b c : checked_add_signed a b = Some c → c = a + b;
  checked_add_total a b : 0 ≤ a → 0 ≤ b → a + b ≤ far_instant → is_Some (checked_add_signed a b);
  try_seconds_value s d : try_seconds s = Some d → d = s * usec;
  try_seconds_total s : 0 ≤ s ≤ i32_max → is_Some (try_seconds s);
}.

(** A concrete clock library for evaluating the model: the years 1970 to 9999, and timestamps
    written as a single digit of seconds. *)
Module SampleChrono.
Definition keep (lo hi z : Z) : option Z := if in_range lo hi z then Some z else None.

#[export] Instance sample_chrono : Chrono := {|
  timestamp t := t / usec;
  from_timestamp s := if in_range 0 far_seconds s then Some (s * usec) else None;
  checked_add_signed a b := keep 0 far_instant (a + b);
  try_seconds s := if in_range (- i64_max / 1000) (i64_max / 1000) s
                   then Some (s * usec) else None;
  parse_from_rfc3339 s := match s with EmptyString => None | _ => Some 0 end;
|}.

Lemma keep_Some lo hi z y : keep lo hi z = Some y ↔ y = z ∧ lo ≤ z ≤ hi.
Proof.
  unfold keep. destruct (in_range lo hi z) eqn:E.
  - apply in_range_spec in E. split; [intros [= <-]; lia | by intros [-> _]].
  - split; [done|]. intros [_ Hr]. by rewrite (proj2 (in_range_spec lo hi z) Hr) in E.
Qed.

#[export] Instance sample_chrono_laws : ChronoLaws.
Proof.
  split; unfold timestamp, from_timestamp, checked_add_signed, try_seconds; simpl; intros *.
  - done.
  - by case_match; intros [= <-].
  - intros Hs. by rewrite (proj2 (in_range_spec 0 far_seconds s) Hs).
  - rewrite keep_Some. tauto.
  - intros. exists (a + b). apply keep_Some. lia.
  - by case_match; intros [= <-].
  - intros Hs. rewrite (proj2 (in_range_spec _ _ s)); [done|].
    change (- i64_max / 1000) with (-9223372036854776).
    change (i64_max / 1000) with 9223372036854775. unfold i32_max in Hs. lia.
Qed.
End SampleChrono.
