(* ===== verification/Text.v ===== *)
(** * Byte strings

    What the program uses of Rust's [str], [String], [char] and byte slices. A [&str] is the
    [string] of its UTF-8 bytes and a byte slice is a [string] too. Characters the code compares are
    ASCII, so walking bytes agrees with walking [char]s; the operations that depend on wider
    characters ([trim], [split_whitespace], UTF-8 validation, [char::from_u32]) spell out the byte
    sequences. *)
From Stdlib Require Export Ascii.
From S2P Require Export Prelude Json.

Global Open Scope Z_scope.
#[global] Arguments String.append : simpl nomatch.

(** ** Bytes *)

Definition byte_val (c : ascii) : Z := Z.of_N (Ascii.N_of_ascii c).
Definition byte (z : Z) : ascii := Ascii.ascii_of_N (Z.to_N (z mod 256)).

(** The double quote. *)
Definition dquote : ascii := Ascii.Ascii false true false false false true false false.
Definition LF : ascii := byte 10.
Definition CR : ascii := byte 13.

Lemma byte_val_range c : 0 ≤ byte_val c < 256.
Proof. unfold byte_val. pose proof (Ascii.N_ascii_bounded c). lia. Qed.

Lemma byte_val_byte z : 0 ≤ z < 256 → byte_val (byte z) = z.
Proof.
  intros Hz. unfold byte_val, byte. rewrite Z.mod_small by done.
  rewrite Ascii.N_ascii_embedding; lia.
Qed.

Lemma byte_byte_val c : byte (byte_val c) = c.
Proof.
  unfold byte. rewrite Z.mod_small by apply byte_val_range. unfold byte_val.
  by rewrite N2Z.id, Ascii.ascii_N_embedding.
Qed.

Definition byte_in (lo hi : Z) (c : ascii) : bool := in_range lo hi (byte_val c).

Definition is_ascii_digit (c : ascii) : bool := byte_in 48 57 c.
Definition is_ascii_upper (c : ascii) : bool := byte_in 65 90 c.
Definition is_ascii_lower (c : ascii) : bool := byte_in 97 122 c.
Definition is_ascii_alphanumeric (c : ascii) : bool :=
  is_ascii_digit c || is_ascii_upper c || is_ascii_lower c.

(** [char::to_ascii_lowercase]. *)
Definition to_ascii_lower (c : ascii) : ascii :=
  if is_ascii_upper c then byte (byte_val c + 32) else c.
Definition to_ascii_lowercase (s : string) : string :=
  String.string_of_list_ascii (to_ascii_lower <$> String.list_ascii_of_string s).

(** ** Slices *)

Fixpoint all_chars (p : ascii → bool) (s : string) : bool :=
  match s with EmptyString => true | String c s => p c && all_chars p s end.

Fixpoint str_take (n : nat) (s : string) : string :=
  match n, s with
  | S n, String c s => String c (str_take n s)
  | _, _ => EmptyString
  end.
Fixpoint str_drop (n : nat) (s : string) : string :=
  match n, s with
  | S n, String _ s => str_drop n s
  | _, _ => s
  end.

(** [str::strip_prefix], [strip_suffix], [starts_with], [ends_with]. *)
Fixpoint str_strip_prefix (p s : string) : option string :=
  match p, s with
  | EmptyString, _ => Some s
  | String a p, String b s => if Ascii.eqb a b then str_strip_prefix p s else None
  | String _ _, EmptyString => None
  end.
Definition str_strip_suffix (p s : string) : option string :=
  String.rev <$> str_strip_prefix (String.rev p) (String.rev s).
Definition starts_with (p s : string) : bool := bool_decide (is_Some (str_strip_prefix p s)).
Definition ends_with (p s : string) : bool := bool_decide (is_Some (str_strip_suffix p s)).

(** [str::find] of a character, and the text before and after its first occurrence. *)
Fixpoint split_once (c : ascii) (s : string) : option (string * string) :=
  match s with
  | EmptyString => None
  | String a s =>
      if Ascii.eqb a c then Some (EmptyString, s)
      else '(l, r) ← split_once c s; Some (String a l, r)
  end.

(** [str::split] on a character: never empty. *)
Fixpoint split_on (c : ascii) (s : string) : list string :=
  match s with
  | EmptyString => [EmptyString]
  | String a s =>
      if Ascii.eqb a c then EmptyString :: split_on c s
      else match split_on c s with
           | [] => [String a EmptyString]
           | w :: ws => String a w :: ws
           end
  end.

Fixpoint str_join (sep : string) (xs : list string) : string :=
  match xs with
  | [] => EmptyString
  | [x] => x
  | x :: xs => x +:+ sep +:+ str_join sep xs
  end.

Lemma str_app_nil_r s : s +:+ "" = s.
Proof. induction s as [|c s IH]; simpl; [done|]. by rewrite IH. Qed.

Lemma str_app_assoc a b c : (a +:+ b) +:+ c = a +:+ (b +:+ c).
Proof. induction a as [|x a IH]; simpl; [done|]. by rewrite IH. Qed.

Lemma str_length_app a b : String.length (a +:+ b) = (String.length a + String.length b)%nat.
Proof. induction a as [|x a IH]; simpl; [done|]. by rewrite IH. Qed.

Lemma str_take_app a b n : n = String.length a → str_take n (a +:+ b) = a.
Proof.
  intros ->. induction a as [|x a IH]; simpl; [by destruct b|]. by rewrite IH.
Qed.

Lemma str_drop_app a b n : n = String.length a → str_drop n (a +:+ b) = b.
Proof. intros ->. induction a as [|x a IH]; simpl; [by destruct b|done]. Qed.

Lemma str_take_drop n s : str_take n s +:+ str_drop n s = s.
Proof. revert s. induction n as [|n IH]; intros [|c s]; simpl; [done..|]. by rewrite IH. Qed.

Lemma str_length_take n s : (n ≤ String.length s)%nat → String.length (str_take n s) = n.
Proof. revert s. induction n as [|n IH]; intros [|c s]; simpl; [lia..|]. intros. rewrite IH; lia. Qed.

Lemma str_length_drop n s : String.length (str_drop n s) = (String.length s - n)%nat.
Proof. revert s. induction n as [|n IH]; intros [|c s]; simpl; [done..|]. by rewrite IH. Qed.

Lemma str_app_inj_l a b c d :
  String.length a = String.length c → a +:+ b = c +:+ d → a = c ∧ b = d.
Proof.
  revert c. induction a as [|x a IH]; intros [|y c]; simpl; try done.
  intros [= Hl] [= -> He]. destruct (IH _ Hl He) as [-> ->]. done.
Qed.

Lemma str_strip_prefix_app p s : str_strip_prefix p (p +:+ s) = Some s.
Proof. induction p as [|c p IH]; simpl; [done|]. by rewrite Ascii.eqb_refl. Qed.

Lemma str_strip_prefix_Some p s r : str_strip_prefix p s = Some r → s = p +:+ r.
Proof.
  revert s. induction p as [|c p IH]; simpl; intros s; [by intros [= ->]|].
  destruct s as [|b s]; [done|]. destruct (Ascii.eqb c b) eqn:E; [|done].
  apply Ascii.eqb_eq in E as ->. intros H. by rewrite (IH s H).
Qed.

Lemma starts_with_app p s : starts_with p (p +:+ s) = true.
Proof. unfold starts_with. by rewrite str_strip_prefix_app. Qed.

Lemma all_chars_app p a b : all_chars p (a +:+ b) = all_chars p a && all_chars p b.
Proof. induction a as [|c a IH]; simpl; [done|]. by rewrite IH, andb_assoc. Qed.

Lemma split_once_no c s : all_chars (λ a, negb (Ascii.eqb a c)) s = true → split_once c s = None.
Proof.
  induction s as [|a s IH]; simpl; [done|].
  rewrite andb_true_iff, negb_true_iff. intros [-> H]. by rewrite (IH H).
Qed.

Lemma split_once_app c a b :
  all_chars (λ x, negb (Ascii.eqb x c)) a = true →
  split_once c (a +:+ String c b) = Some (a, b).
Proof.
  induction a as [|x a IH]; simpl; [by rewrite Ascii.eqb_refl|].
  rewrite andb_true_iff, negb_true_iff. intros [-> H]. by rewrite (IH H).
Qed.

Lemma split_on_no c s :
  all_chars (λ x, negb (Ascii.eqb x c)) s = true → split_on c s = [s].
Proof.
  induction s as [|x s IH]; simpl; [done|].
  rewrite andb_true_iff, negb_true_iff. intros [-> H]. by rewrite (IH H).
Qed.

Lemma split_on_app c a b :
  all_chars (λ x, negb (Ascii.eqb x c)) a = true →
  split_on c (a +:+ String c b) = a :: split_on c b.
Proof.
  induction a as [|x a IH]; simpl; [by rewrite Ascii.eqb_refl|].
  rewrite andb_true_iff, negb_true_iff. intros [-> H]. by rewrite (IH H).
Qed.

(** Splitting undoes joining on a separator no piece contains. *)
Lemma split_on_join c xs :
  xs ≠ [] → Forall (λ x, all_chars (λ a, negb (Ascii.eqb a c)) x = true) xs →
  split_on c (str_join (String c "") xs) = xs.
Proof.
  induction xs as [|x xs IH]; [done|]. intros _ [Hx Hxs]%Forall_cons. destruct xs as [|y xs].
  - simpl. by apply split_on_no.
  - change (str_join (String c "") (x :: y :: xs)) with (x +:+ String c (str_join (String c "") (y :: xs))).
    rewrite split_on_app by done. by rewrite IH.
Qed.

(** ** Whitespace

    The Unicode [White_Space] characters by the number of bytes of their encoding. *)

Definition ws1 (a : ascii) : bool := byte_in 9 13 a || byte_in 32 32 a.
Definition ws2 (a b : ascii) : bool := byte_in 194 194 a && (byte_in 133 133 b || byte_in 160 160 b).
Definition ws3 (a b c : ascii) : bool :=
  (byte_in 225 225 a && byte_in 154 154 b && byte_in 128 128 c)
  || (byte_in 226 226 a && byte_in 128 128 b
        && (byte_in 128 138 c || byte_in 168 169 c || byte_in 175 175 c))
  || (byte_in 226 226 a && byte_in 129 129 b && byte_in 159 159 c)
  || (byte_in 227 227 a && byte_in 128 128 b && byte_in 128 128 c).

Fixpoint trim_start (s : string) : string :=
  match s with
  | String a r =>
      if ws1 a then trim_start r else
      match r with
      | String b r2 =>
          if ws2 a b then trim_start r2 else
          match r2 with
          | String c r3 => if ws3 a b c then trim_start r3 else s
          | EmptyString => s
          end
      | EmptyString => s
      end
  | EmptyString => s
  end.

(** The same on a reversed string. *)
Fixpoint trim_rev (s : string) : string :=
  match s with
  | String a r =>
      if ws1 a then trim_rev r else
      match r with
      | String b r2 =>
          if ws2 b a then trim_rev r2 else
          match r2 with
          | String c r3 => if ws3 c b a then trim_rev r3 else s
          | EmptyString => s
          end
      | EmptyString => s
      end
  | EmptyString => s
  end.

Definition trim_end (s : string) : string := String.rev (trim_rev (String.rev s)).
Definition trim (s : string) : string := trim_end (trim_start s).

(** [str::split_whitespace], with the word under construction. *)
Fixpoint words (word s : string) : list string :=
  let flush := if String.eqb word "" then [] else [word] in
  match s with
  | EmptyString => flush
  | String a r =>
      if ws1 a then flush ++ words "" r else
      match r with
      | String b r2 =>
          if ws2 a b then flush ++ words "" r2 else
          match r2 with
          | String c r3 =>
              if ws3 a b c then flush ++ words "" r3
              else words (word +:+ String a "") r
          | EmptyString => words (word +:+ String a "") r
          end
      | EmptyString => words (word +:+ String a "") r
      end
  end.
Definition split_whitespace (s : string) : list string := words "" s.

(** ** UTF-8 *)

Definition continuation (c : ascii) : bool := byte_in 128 191 c.

(** The encoded character at the head: its length if it is well formed, or the length of the
    ill-formed part a decoder skips. *)
Definition utf8_head (s : string) : nat + nat :=
  match s with
  | EmptyString => inr 0%nat
  | String a r =>
      let tail3 (second : ascii → bool) :=
        match r with
        | String b r2 =>
            if second b then
              match r2 with
              | String c _ => if continuation c then inl 3%nat else inr 2%nat
              | EmptyString => inr 2%nat
              end
            else inr 1%nat
        | EmptyString => inr 1%nat
        end in
      let tail4 (second : ascii → bool) :=
        match r with
        | String b r2 =>
            if second b then
              match r2 with
              | String c r3 =>
                  if continuation c then
                    match r3 with
                    | String d _ => if continuation d then inl 4%nat else inr 3%nat
                    | EmptyString => inr 3%nat
                    end
                  else inr 2%nat
              | EmptyString => inr 2%nat
              end
            else inr 1%nat
        | EmptyString => inr 1%nat
        end in
      if byte_in 0 127 a then inl 1%nat
      else if byte_in 194 223 a then
        match r with
        | String b _ => if continuation b then inl 2%nat else inr 1%nat
        | EmptyString => inr 1%nat
        end
      else if byte_in 224 224 a then tail3 (byte_in 160 191)
      else if byte_in 237 237 a then tail3 (byte_in 128 159)
      else if byte_in 225 239 a then tail3 continuation
      else if byte_in 240 240 a then tail4 (byte_in 144 191)
      else if byte_in 241 243 a then tail4 continuation
      else if byte_in 244 244 a then tail4 (byte_in 128 143)
      else inr 1%nat
  end.

Fixpoint utf8_walk (fuel : nat) (s : string) : bool :=
  match fuel with
  | O => String.eqb s ""
  | S fuel =>
      match s with
      | EmptyString => true
      | _ => match utf8_head s with
             | inl n => utf8_walk fuel (str_drop n s)
             | inr _ => false
             end
      end
  end.

(** [String::from_utf8] succeeds. *)
Definition utf8_valid (s : string) : bool := utf8_walk (String.length s) s.

(** [String::from_utf8_lossy]. *)
Definition replacement : string := String (byte 239) (String (byte 191) (String (byte 189) "")).
Fixpoint lossy_walk (fuel : nat) (s : string) : string :=
  match fuel with
  | O => ""
  | S fuel =>
      match s with
      | EmptyString => ""
      | _ => match utf8_head s with
             | inl n => str_take n s +:+ lossy_walk fuel (str_drop n s)
             | inr n => replacement +:+ lossy_walk fuel (str_drop n s)
             end
      end
  end.
Definition from_utf8_lossy (s : string) : string := lossy_walk (String.length s) s.

(** [char::from_u32] followed by [String::push]. *)
Definition push_char (z : Z) : option string :=
  let cont shift := byte (128 + Z.land (Z.shiftr z shift) 63) in
  if in_range 0 127 z then Some (String (byte z) "")
  else if in_range 128 2047 z then Some (String (byte (192 + Z.shiftr z 6)) (String (cont 0) ""))
  else if in_range 55296 57343 z then None
  else if in_range 2048 65535 z
  then Some (String (byte (224 + Z.shiftr z 12)) (String (cont 6) (String (cont 0) "")))
  else if in_range 65536 1114111 z
  then Some (String (byte (240 + Z.shiftr z 18))
               (String (cont 12) (String (cont 6) (String (cont 0) ""))))
  else None.

(** ** Numbers in text *)

Definition hex_digit (upper : bool) (d : Z) : ascii :=
  if bool_decide (d < 10) then byte (48 + d) else byte ((if upper then 55 else 87) + d).

(** [{:02x}] and [{:02X}] of one byte. *)
Definition hex2 (upper : bool) (c : ascii) : string :=
  String (hex_digit upper (byte_val c / 16)) (String (hex_digit upper (byte_val c mod 16)) "").

(** The hexadecimal rendering of a digest. *)
Fixpoint hex (s : string) : string :=
  match s with EmptyString => "" | String c s => hex2 false c +:+ hex s end.

Definition hex_val (c : ascii) : option Z :=
  if byte_in 48 57 c then Some (byte_val c - 48)
  else if byte_in 65 70 c then Some (byte_val c - 55)
  else if byte_in 97 102 c then Some (byte_val c - 87)
  else None.

Lemma hex_val_digit upper d : 0 ≤ d < 16 → hex_val (hex_digit upper d) = Some d.
Proof.
  intros Hd. assert (H : d ∈ seqZ 0 16) by (apply elem_of_seqZ; lia). revert d Hd H.
  change (seqZ 0 16) with [0;1;2;3;4;5;6;7;8;9;10;11;12;13;14;15].
  intros d _ H. repeat (apply elem_of_cons in H as [->|H]; [by destruct upper|]).
  by apply elem_of_nil in H.
Qed.

Lemma hex_inj a b : hex a = hex b → a = b.
Proof.
  revert b. induction a as [|x a IH]; intros [|y b]; simpl; try done.
  intros [= H1 H2 H3]. f_equal; [|by apply IH].
  pose proof (byte_val_range x). pose proof (byte_val_range y).
  assert (E1 : byte_val x / 16 = byte_val y / 16).
  { apply (f_equal hex_val) in H1. rewrite !hex_val_digit in H1; [congruence|..];
      (split; [apply Z.div_pos|apply Z.div_lt_upper_bound]; lia). }
  assert (E2 : byte_val x mod 16 = byte_val y mod 16).
  { apply (f_equal hex_val) in H2.
    rewrite !hex_val_digit in H2; [congruence|..]; apply Z.mod_pos_bound; lia. }
  rewrite <-(byte_byte_val x), <-(byte_byte_val y). f_equal.
  rewrite (Z.div_mod (byte_val x) 16), (Z.div_mod (byte_val y) 16) by lia. lia.
Qed.

(** Digits accumulated in a radix; the checked conversions bound the result. *)
Fixpoint digits_in (radix acc : Z) (s : string) : option Z :=
  match s with
  | EmptyString => Some acc
  | String c s =>
      d ← hex_val c;
      if bool_decide (d < radix) then digits_in radix (acc * radix + d) s else None
  end.

(** [<unsigned>::from_str_radix] for a type whose greatest value is [limit]: an optional plus sign,
    then at least one digit. *)
Definition from_str_radix (radix limit : Z) (s : string) : option Z :=
  let body := match s with String "+" r => r | _ => s end in
  if String.eqb body "" then None
  else z ← digits_in radix 0 body; if bool_decide (z ≤ limit) then Some z else None.

(** ** Big-endian integers *)

Fixpoint be_bytes (n : nat) (z : Z) : string :=
  match n with
  | O => ""
  | S n => be_bytes n (z / 256) +:+ String (byte z) ""
  end.

Fixpoint be_value_from (acc : Z) (s : string) : Z :=
  match s with EmptyString => acc | String c s => be_value_from (acc * 256 + byte_val c) s end.
Definition be_value (s : string) : Z := be_value_from 0 s.

Lemma be_bytes_length n z : String.length (be_bytes n z) = n.
Proof. revert z. induction n as [|n IH]; intros z; simpl; [done|]. rewrite str_length_app, IH. simpl. lia. Qed.

Lemma be_value_from_app acc a b :
  be_value_from acc (a +:+ b) = be_value_from (be_value_from acc a) b.
Proof. revert acc. induction a as [|c a IH]; intros acc; simpl; [done|]. apply IH. Qed.

Lemma be_value_bytes n z : 0 ≤ z < 256 ^ Z.of_nat n → be_value (be_bytes n z) = z.
Proof.
  unfold be_value. revert z. induction n as [|n IH]; intros z.
  - change (256 ^ Z.of_nat 0) with 1. simpl. lia.
  - rewrite Nat2Z.inj_succ, Z.pow_succ_r by lia. intros Hz.
    change (be_bytes (S n) z) with (be_bytes n (z / 256) +:+ String (byte z) "").
    rewrite be_value_from_app, IH.
    2:{ split; [apply Z.div_pos; lia | apply Z.div_lt_upper_bound; lia]. }
    simpl. assert (byte_val (byte z) = z mod 256) as ->.
    { unfold byte. pose proof (Z.mod_pos_bound z 256 ltac:(lia)).
      unfold byte_val. rewrite Ascii.N_ascii_embedding by lia. lia. }
    rewrite (Z.div_mod z 256) at 3 by lia. lia.
Qed.

Lemma be_bytes_snoc n z c : 0 ≤ z → be_bytes (S n) (z * 256 + byte_val c) = be_bytes n z +:+ String c "".
Proof.
  intros Hz. pose proof (byte_val_range c). simpl.
  rewrite Z.div_add_l, (Z.div_small (byte_val c)), Z.add_0_r by lia.
  f_equal. f_equal. unfold byte. rewrite Z.add_comm, Z.mod_add, Z.mod_small by lia.
  rewrite <-(byte_byte_val c) at 2. unfold byte. by rewrite Z.mod_small.
Qed.

Lemma be_value_from_nonneg acc s : 0 ≤ acc → 0 ≤ be_value_from acc s.
Proof.
  revert acc. induction s as [|c s IH]; intros acc Ha; simpl; [done|].
  apply IH. pose proof (byte_val_range c). lia.
Qed.

Lemma str_snoc_ind (P : string → Prop) :
  P "" → (∀ s c, P s → P (s +:+ String c "")) → ∀ s, P s.
Proof.
  intros H0 Hs s.
  assert (Hg : ∀ t a, P a → P (a +:+ t)).
  { induction t as [|c t IH]; intros a Ha; [by rewrite str_app_nil_r|].
    change (String c t) with (String c "" +:+ t). rewrite <-str_app_assoc. by apply IH, Hs. }
  apply (Hg s ""). exact H0.
Qed.

Lemma be_bytes_value s : be_bytes (String.length s) (be_value s) = s.
Proof.
  unfold be_value. induction s as [|s c IH] using str_snoc_ind; [done|].
  rewrite str_length_app, be_value_from_app, Nat.add_comm. simpl String.length. simpl be_value_from.
  change (1 + String.length s)%nat with (S (String.length s)).
  rewrite be_bytes_snoc by (by apply be_value_from_nonneg). by rewrite IH.
Qed.

Lemma be_value_bound s : 0 ≤ be_value s < 256 ^ Z.of_nat (String.length s).
Proof.
  unfold be_value. induction s as [|s c IH] using str_snoc_ind.
  - change (256 ^ Z.of_nat (String.length "")) with 1. simpl. lia.
  - rewrite str_length_app, be_value_from_app. simpl. pose proof (byte_val_range c).
    rewrite Nat2Z.inj_add, Z.pow_add_r by lia. change (256 ^ Z.of_nat 1) with 256. lia.
Qed.

#[global] Opaque be_bytes.
#[global] Arguments hex2 : simpl never.

(** ** Reversal, suffixes and trimming *)

Lemma str_rev_app_spec a b : String.rev_app a b = String.rev_app a "" +:+ b.
Proof.
  revert b. induction a as [|x a IH]; intros b; simpl; [done|].
  rewrite (IH (String x b)), (IH (String x "")), str_app_assoc. done.
Qed.

Lemma str_rev_cons x a : String.rev (String x a) = String.rev a +:+ String x "".
Proof. unfold String.rev. simpl. apply str_rev_app_spec. Qed.

Lemma str_rev_app a b : String.rev (a +:+ b) = String.rev b +:+ String.rev a.
Proof.
  induction a as [|x a IH]; [by rewrite str_app_nil_r|].
  change (String x a +:+ b) with (String x (a +:+ b)).
  by rewrite !str_rev_cons, IH, str_app_assoc.
Qed.

Lemma str_rev_involutive a : String.rev (String.rev a) = a.
Proof.
  induction a as [|x a IH]; [done|]. rewrite str_rev_cons, str_rev_app, IH. done.
Qed.

Lemma str_strip_suffix_app p s : str_strip_suffix p (s +:+ p) = Some s.
Proof.
  unfold str_strip_suffix. rewrite str_rev_app, str_strip_prefix_app. simpl.
  by rewrite str_rev_involutive.
Qed.

Lemma str_strip_suffix_Some p s r : str_strip_suffix p s = Some r → s = r +:+ p.
Proof.
  unfold str_strip_suffix. destruct (str_strip_prefix (String.rev p) (String.rev s)) as [q|] eqn:E;
    [|done]. intros [= <-]. apply str_strip_prefix_Some in E.
  rewrite <-(str_rev_involutive s), E, str_rev_app, str_rev_involutive. done.
Qed.

Lemma ends_with_app p s : ends_with p (s +:+ p) = true.
Proof. unfold ends_with. by rewrite str_strip_suffix_app. Qed.

(** Printable ASCII other than the space: never part of a whitespace character. *)
Definition graphic (c : ascii) : bool := byte_in 33 126 c.

Lemma graphic_ws a b c :
  graphic a = true → ws1 a = false ∧ ws2 a b = false ∧ ws3 a b c = false
                     ∧ ws2 b a = false ∧ ws3 c b a = false.
Proof.
  unfold graphic, byte_in, ws1, ws2, ws3, byte_in. rewrite in_range_spec. intros Ha.
  assert (Hf : ∀ lo hi, hi < 33 ∨ 126 < lo → in_range lo hi (byte_val a) = false).
  { intros lo hi Hr. apply not_true_iff_false. rewrite in_range_spec. lia. }
  rewrite !(Hf _ _) by lia. rewrite ?andb_false_r. done.
Qed.

Lemma trim_start_graphic a s : graphic a = true → trim_start (String a s) = String a s.
Proof.
  intros Ha. simpl. destruct (graphic_ws a a a Ha) as (-> & _).
  destruct s as [|b s]; [done|]. destruct (graphic_ws a b b Ha) as (_ & -> & _).
  destruct s as [|c s]; [done|]. by destruct (graphic_ws a b c Ha) as (_ & _ & -> & _).
Qed.

Lemma trim_rev_graphic a s : graphic a = true → trim_rev (String a s) = String a s.
Proof.
  intros Ha. simpl. destruct (graphic_ws a a a Ha) as (-> & _).
  destruct s as [|b s]; [done|]. destruct (graphic_ws a b b Ha) as (_ & _ & _ & -> & _).
  destruct s as [|c s]; [done|]. by destruct (graphic_ws a b c Ha) as (_ & _ & _ & _ & ->).
Qed.

Lemma trim_end_graphic a s : graphic a = true → trim_end (s +:+ String a "") = s +:+ String a "".
Proof.
  intros Ha. unfold trim_end. rewrite str_rev_app. change (String.rev (String a "")) with (String a "").
  change (String a "" +:+ String.rev s) with (String a (String.rev s)).
  rewrite trim_rev_graphic by done. by rewrite str_rev_cons, str_rev_involutive.
Qed.

(** Text that starts and ends with graphic characters is left alone by [trim]. *)
Definition solid (s : string) : Prop :=
  ∃ a t t' b, s = String a t ∧ s = t' +:+ String b "" ∧ graphic a = true ∧ graphic b = true.

Lemma trim_solid s : solid s → trim s = s.
Proof.
  intros (a & t & t' & b & Ha & Hb & Ga & Gb). unfold trim.
  rewrite Ha, trim_start_graphic, <-Ha, Hb by done. by apply trim_end_graphic.
Qed.

Lemma solid_between a m b :
  graphic a = true → graphic b = true → solid (String a m +:+ String b "").
Proof. intros Ga Gb. by exists a, (m +:+ String b ""), (String a m), b. Qed.

Lemma solid_all s : s ≠ "" → all_chars graphic s = true → solid s.
Proof.
  intros Hne Hs. destruct s as [|a t]; [done|].
  pose proof Hs as Hs'. simpl in Hs'. apply andb_true_iff in Hs' as [Ga _].
  destruct (String a t) as [|x r] eqn:E using str_snoc_ind; [done|].
  rewrite all_chars_app in Hs. apply andb_true_iff in Hs as [_ Gb]. simpl in Gb.
  rewrite andb_true_r in Gb. eexists a, t, _, _. done.
Qed.

(** ** More splitting *)

(** [str::rsplit_once] on a character: around its last occurrence. *)
Fixpoint rsplit_once (c : ascii) (s : string) : option (string * string) :=
  match s with
  | EmptyString => None
  | String a r =>
      match rsplit_once c r with
      | Some (x, y) => Some (String a x, y)
      | None => if Ascii.eqb a c then Some (EmptyString, r) else None
      end
  end.

(** [str::split_once] on a text. *)
Fixpoint split_once_str (sep s : string) : option (string * string) :=
  match str_strip_prefix sep s with
  | Some r => Some (EmptyString, r)
  | None =>
      match s with
      | EmptyString => None
      | String a r => '(x, y) ← split_once_str sep r; Some (String a x, y)
      end
  end.

(** [str::contains] of a text. *)
Definition str_contains (needle s : string) : bool :=
  bool_decide (is_Some (split_once_str needle s)).

(** The text before the first character that satisfies [p], and the text from it on. *)
Fixpoint break_at (p : ascii → bool) (s : string) : string * string :=
  match s with
  | EmptyString => (EmptyString, EmptyString)
  | String a r =>
      if p a then (EmptyString, s) else let '(x, y) := break_at p r in (String a x, y)
  end.

(** [str::trim_end_matches] of a character. *)
Definition trim_end_char (c : ascii) (s : string) : string :=
  let fix drop (r : string) :=
    match r with
    | String a r' => if Ascii.eqb a c then drop r' else r
    | EmptyString => EmptyString
    end in
  String.rev (drop (String.rev s)).

Definition not_char (c : ascii) (a : ascii) : bool := negb (Ascii.eqb a c).

Lemma all_chars_impl (p q : ascii → bool) s :
  (∀ c, p c = true → q c = true) → all_chars p s = true → all_chars q s = true.
Proof.
  intros H. induction s as [|a s IH]; simpl; [done|]. rewrite !andb_true_iff. intros [Ha Hs].
  auto.
Qed.

Lemma rsplit_once_app c a b :
  all_chars (not_char c) b = true → rsplit_once c (a +:+ String c b) = Some (a, b).
Proof.
  intros Hb. assert (Hn : rsplit_once c b = None).
  { revert Hb. induction b as [|x b IH]; simpl; [done|]. unfold not_char at 1.
    rewrite andb_true_iff, negb_true_iff. intros [Hx Hb]. by rewrite (IH Hb), Hx. }
  induction a as [|x a IH]; simpl; [by rewrite Hn, Ascii.eqb_refl | by rewrite IH].
Qed.

Lemma rsplit_once_no c s : all_chars (not_char c) s = true → rsplit_once c s = None.
Proof.
  induction s as [|x s IH]; simpl; [done|]. unfold not_char at 1.
  rewrite andb_true_iff, negb_true_iff. intros [Hx Hs]. by rewrite (IH Hs), Hx.
Qed.

Lemma rsplit_once_Some c s a b : rsplit_once c s = Some (a, b) → s = a +:+ String c b.
Proof.
  revert a b. induction s as [|x s IH]; intros a b; simpl; [done|].
  destruct (rsplit_once c s) as [[u v]|]; [intros [= <- <-]; simpl; f_equal; by apply IH|].
  destruct (Ascii.eqb_spec x c); [|done]. intros [= <- <-]. by subst.
Qed.

Lemma split_once_Some c s a b :
  split_once c s = Some (a, b) → s = a +:+ String c b ∧ all_chars (not_char c) a = true.
Proof.
  revert a b. induction s as [|x s IH]; intros a b; simpl; [done|].
  destruct (Ascii.eqb_spec x c) as [->|Hx]; [by intros [= <- <-]|].
  destruct (split_once c s) as [[u v]|]; simpl; [|done]. intros [= <- <-].
  destruct (IH u v eq_refl) as [-> Hu]. simpl. split; [done|].
  unfold not_char at 1. apply andb_true_iff. split; [|done].
  apply negb_true_iff. by apply Ascii.eqb_neq.
Qed.

Lemma split_once_None c s : split_once c s = None → all_chars (not_char c) s = true.
Proof.
  induction s as [|x s IH]; simpl; [done|]. unfold not_char at 1.
  destruct (Ascii.eqb x c); [done|]. destruct (split_once c s) as [[? ?]|]; simpl; [done|]. auto.
Qed.

Lemma break_at_spec p s :
  let '(a, b) := break_at p s in
  s = a +:+ b ∧ all_chars (λ c, negb (p c)) a = true ∧
  (b = "" ∨ ∃ x r, b = String x r ∧ p x = true).
Proof.
  induction s as [|x s IH]; simpl; [auto|]. destruct (p x) eqn:E; simpl.
  { split_and!; [done..|]. right. by exists x, s. }
  destruct (break_at p s) as [a b]. destruct IH as (-> & Ha & Hb). by simpl; rewrite E.
Qed.

Lemma break_at_app p a b :
  all_chars (λ c, negb (p c)) a = true → (b = "" ∨ ∃ x r, b = String x r ∧ p x = true) →
  break_at p (a +:+ b) = (a, b).
Proof.
  intros Ha Hb. induction a as [|x a IH]; simpl in *.
  - destruct Hb as [->|(x & r & -> & Hx)]; simpl; [done|]. by rewrite Hx.
  - apply andb_true_iff in Ha as [Hx Ha]. apply negb_true_iff in Hx. by rewrite Hx, (IH Ha).
Qed.

(** The pieces of a split contain no separator, and joining them restores the text. *)
Lemma split_on_pieces c s : Forall (λ x, all_chars (not_char c) x = true) (split_on c s).
Proof.
  induction s as [|a s IH]; simpl; [by repeat constructor|].
  destruct (Ascii.eqb a c) eqn:E; [by constructor|].
  assert (Ha : not_char c a = true) by (unfold not_char; by rewrite E).
  destruct (split_on c s) as [|w ws]; [|apply Forall_cons in IH as [Hw Hws]];
    (constructor; [simpl; by rewrite Ha|done]).
Qed.

(** ** Decimal numbers *)

Fixpoint decimal_digits (n : nat) (z : Z) : string :=
  match n with
  | O => ""
  | S n =>
      if z <? 10 then String (byte (48 + z)) ""
      else decimal_digits n (z / 10) +:+ String (byte (48 + z mod 10)) ""
  end.
(** The [Display] of an unsigned integer. *)
Definition decimal (z : Z) : string := decimal_digits (S (Z.to_nat (Z.log2 z))) z.

Lemma byte_digit d : 0 ≤ d < 10 → hex_val (byte (48 + d)) = Some d.
Proof.
  intros Hd. pose proof (hex_val_digit false d ltac:(lia)) as H. unfold hex_digit in H.
  rewrite bool_decide_eq_true_2 in H by lia. done.
Qed.

Lemma digits_in_app r acc a b :
  digits_in r acc (a +:+ b) = digits_in r acc a ≫= λ acc', digits_in r acc' b.
Proof.
  revert acc. induction a as [|c a IH]; intros acc; simpl; [done|].
  destruct (hex_val c) as [d|]; simpl; [|done]. case_bool_decide; simpl; [apply IH | done].
Qed.

Lemma decimal_digits_read n z :
  0 ≤ z < 2 ^ Z.of_nat n → decimal_digits n z ≠ "" ∧ digits_in 10 0 (decimal_digits n z) = Some z ∨ n = 0%nat.
Proof.
  revert z. induction n as [|n IH]; intros z Hz; [by right|left]. simpl.
  destruct (Z.ltb_spec z 10) as [Hlt|Hge].
  - split; [done|]. cbn [digits_in]. rewrite byte_digit by lia. simpl.
    rewrite bool_decide_eq_true_2 by lia. f_equal; lia.
  - assert (Hn : 0 ≤ z / 10 < 2 ^ Z.of_nat n).
    { split; [apply Z.div_pos; lia|]. apply Z.div_lt_upper_bound; [lia|].
      rewrite Nat2Z.inj_succ, Z.pow_succ_r in Hz by lia. lia. }
    destruct (IH _ Hn) as [[Hne Hd]| ->]; [|simpl in Hn; assert (1 ≤ z / 10) by
      (apply Z.div_le_lower_bound; lia); lia].
    split; [by destruct (decimal_digits n (z / 10))|].
    rewrite digits_in_app, Hd. cbn [mbind option_bind digits_in].
    pose proof (Z.mod_pos_bound z 10 ltac:(lia)). rewrite byte_digit by lia.
    cbn [mbind option_bind]. rewrite bool_decide_eq_true_2 by lia. f_equal.
    pose proof (Z.div_mod z 10 ltac:(lia)). lia.
Qed.

Lemma decimal_chars z : 0 ≤ z → all_chars is_ascii_digit (decimal z) = true.
Proof.
  unfold decimal. generalize (S (Z.to_nat (Z.log2 z))). intros n. revert z.
  assert (Hd : ∀ d, 0 ≤ d < 10 → is_ascii_digit (byte (48 + d)) = true).
  { intros d Hd. unfold is_ascii_digit, byte_in. rewrite byte_val_byte by lia.
    apply in_range_spec. lia. }
  induction n as [|n IH]; intros z Hz; [done|]. simpl.
  destruct (Z.ltb_spec z 10); simpl; [by rewrite Hd by lia|].
  rewrite all_chars_app, IH by (apply Z.div_pos; lia). simpl.
  pose proof (Z.mod_pos_bound z 10 ltac:(lia)). by rewrite Hd by lia.
Qed.

Lemma from_str_radix_decimal limit z :
  0 ≤ z ≤ limit → from_str_radix 10 limit (decimal z) = Some z.
Proof.
  intros Hz. pose proof (decimal_chars z ltac:(lia)) as Hc.
  assert (Hb : 0 ≤ z < 2 ^ Z.of_nat (S (Z.to_nat (Z.log2 z)))).
  { split; [lia|]. rewrite Nat2Z.inj_succ, Z2Nat.id by apply Z.log2_nonneg.
    destruct (decide (z = 0)) as [->|]; [done|]. apply Z.log2_spec. lia. }
  destruct (decimal_digits_read _ _ Hb) as [[Hne Hd]|?]; [|done].
  unfold decimal in *. set (s := decimal_digits _ z) in *. unfold from_str_radix.
  assert (Hs : match s with String "+" r => r | _ => s end = s).
  { destruct s as [|c r]; [done|]. simpl in Hc. apply andb_true_iff in Hc as [Hc _].
    destruct c as [[] [] [] [] [] [] [] []]; try done. }
  rewrite Hs. destruct (String.eqb_spec s ""); [done|]. rewrite Hd. simpl.
  by rewrite bool_decide_eq_true_2 by lia.
Qed.
