(* ===== verification/Outbox.v ===== *)
(** * The envelope outbox

    [crates/x-persistence/src/outbox.rs]: the one place a fact or a command is queued, and the
    transitions of a queued row. The envelope types belong to the contract crates; a row keeps the
    whole envelope, and its stored text is a function of it. *)
From S2P Require Export Store Text Time.

(** Printing an envelope: whether it encodes, and the stored document. *)
Class EnvelopeCodec := {
  envelope_encodes : Envelope → bool;
  payload_text : Envelope → string;
}.

Definition REMOVAL_EVENT_TYPE : string := "social.source.removed.v1".

Inductive OutboxError := Encode | OutboxQuery.

(** The closed list of the schema's check constraint. *)
Definition event_types : list string :=
  ["platform.operation.reported.v1"; "social.source.captured.v1"; "social.source.updated.v1";
   "social.source.removed.v1"; "content.capture.requested.v1"]%string.

(** ** Queueing *)

(** The row an envelope is stored as: its id is the envelope's own id. *)
Definition fresh_row (envelope : Envelope) (now : Z) : OutboxRow :=
  mkOutboxRow (env_aggregate envelope) (env_type envelope) envelope (env_correlation envelope)
    (env_causation envelope) now None 0 None now None None None 0 None.

Definition insert_outbox (envelope : Envelope) (now : Z) (d : Db) : option (unit * Db) :=
  if bool_decide (env_type envelope ∈ event_types) then
    table ← insert_new (env_id envelope) (fresh_row envelope now) (outbox_events d);
    Some (tt, on_outbox_events (λ _, table) d)
  else None.

Section Queue.
Context `{EnvelopeCodec}.

(** [enqueue_event] and [enqueue_command], on the caller's transaction. *)
Definition enqueue (envelope : Envelope) : Prog OutboxError unit :=
  if negb (envelope_encodes envelope) then throw Encode
  else
    let! now := pg_now in
    stmt OutboxQuery (insert_outbox envelope now).
End Queue.

(** ** Transitions *)

(** The columns a transition may rewrite. *)
Record Delivery := mkDelivery {
  dl_published_at : option Z;
  dl_attempt_count : Z;
  dl_last_error : option string;
  dl_next_attempt_at : Z;
  dl_undeliverable_at : option Z;
  dl_acknowledged_at : option Z;
  dl_ack_outcome : option string;
  dl_resend_count : Z;
  dl_next_resend_at : option Z;
}.
Definition delivery (row : OutboxRow) : Delivery :=
  mkDelivery (ob_published_at row) (ob_attempt_count row) (ob_last_error row)
    (ob_next_attempt_at row) (ob_undeliverable_at row) (ob_acknowledged_at row)
    (ob_ack_outcome row) (ob_resend_count row) (ob_next_resend_at row).
Definition with_delivery (row : OutboxRow) (dl : Delivery) : OutboxRow :=
  mkOutboxRow (ob_aggregate row) (ob_event_type row) (ob_payload row) (ob_correlation_id row)
    (ob_causation_id row) (ob_created_at row) (dl_published_at dl) (dl_attempt_count dl)
    (dl_last_error dl) (dl_next_attempt_at dl) (dl_undeliverable_at dl) (dl_acknowledged_at dl)
    (dl_ack_outcome dl) (dl_resend_count dl) (dl_next_resend_at dl).

(** One guarded single-row update; [change] answers [None] when a column refuses its value. *)
Definition update_row (id : Z) (guard : OutboxRow → bool) (change : OutboxRow → option Delivery)
    (d : Db) : option (bool * Db) :=
  match outbox_events d !! id with
  | Some row =>
      if guard row then
        dl ← change row;
        Some (true, on_outbox_events (insert id (with_delivery row dl)) d)
      else Some (false, d)
  | None => Some (false, d)
  end.

Definition is_removal (row : OutboxRow) : bool := String.eqb (ob_event_type row) REMOVAL_EVENT_TYPE.
Definition is_published (row : OutboxRow) : bool := bool_decide (is_Some (ob_published_at row)).
Definition is_acknowledged (row : OutboxRow) : bool :=
  bool_decide (is_Some (ob_acknowledged_at row)).

(** Delay and cap of a removal's republish, in whole seconds. *)
Record ResendPolicy := mkResendPolicy { rp_after : Z; rp_cap : Z }.

Inductive AckOutcome := Applied | Refused.
Definition ack_as_str (outcome : AckOutcome) : string :=
  match outcome with Applied => "applied" | Refused => "refused" end.

(** [mark_published]. *)
Definition published_delivery (policy : ResendPolicy) (now : Z) (row : OutboxRow) : Delivery :=
  mkDelivery (Some now) (ob_attempt_count row) None (ob_next_attempt_at row)
    (ob_undeliverable_at row) (ob_acknowledged_at row) (ob_ack_outcome row) (ob_resend_count row)
    (if is_removal row then Some (now + rp_after policy * usec) else None).
Definition mark_published (id : Z) (policy : ResendPolicy) : Prog OutboxError unit :=
  on_pool (
    let! now := pg_now in
    do! stmt OutboxQuery (update_row id (λ row, negb (is_published row))
                            (λ row, Some (published_delivery policy now row))) in
    ret tt).

(** The wait before the next copy, from the count before this one. *)
Definition resend_delay (policy : ResendPolicy) (resend_count : Z) : Z :=
  Z.min (rp_after policy * 2 ^ Z.min resend_count 30) (rp_cap policy).

(** [record_resend]. *)
Definition resent_delivery (policy : ResendPolicy) (now : Z) (row : OutboxRow) : option Delivery :=
  count ← int4 (ob_resend_count row + 1);
  Some (mkDelivery (ob_published_at row) 0 None (ob_next_attempt_at row)
    (ob_undeliverable_at row) (ob_acknowledged_at row) (ob_ack_outcome row) count
    (Some (now + resend_delay policy (ob_resend_count row) * usec))).
Definition record_resend (id : Z) (policy : ResendPolicy) : Prog OutboxError unit :=
  on_pool (
    let! now := pg_now in
    do! stmt OutboxQuery
      (update_row id (λ row, is_removal row && is_published row && negb (is_acknowledged row))
         (resent_delivery policy now)) in
    ret tt).

(** [acknowledge]. *)
Definition acknowledgeable (tenant : string) (row : OutboxRow) : bool :=
  is_removal row && bool_decide (env_tenant (ob_payload row) = Some tenant)
  && negb (is_acknowledged row).
Definition acknowledged_delivery (outcome : AckOutcome) (now : Z) (row : OutboxRow) : Delivery :=
  mkDelivery (ob_published_at row) (ob_attempt_count row) (ob_last_error row)
    (ob_next_attempt_at row) (ob_undeliverable_at row) (Some now) (Some (ack_as_str outcome))
    (ob_resend_count row) (ob_next_resend_at row).
Definition acknowledge (id : Z) (tenant : string) (outcome : AckOutcome) : Prog OutboxError bool :=
  on_pool (
    let! now := pg_now in
    stmt OutboxQuery (update_row id (acknowledgeable tenant)
                        (λ row, Some (acknowledged_delivery outcome now row)))).

(** [unacknowledged_removals]: how many, and microseconds since the oldest was queued. *)
Definition open_removals (d : Db) : list OutboxRow :=
  filter (λ row, is_removal row && negb (is_acknowledged row)) (map_to_list (outbox_events d)).*2.
Definition unacknowledged_removals : Prog OutboxError (Z * Z) :=
  on_pool (
    let! now := pg_now in
    select OutboxQuery (λ d,
      let open := open_removals d in
      (Z.of_nat (length open),
       match open with
       | [] => 0
       | row :: rows => now - fold_left Z.min (ob_created_at <$> rows) (ob_created_at row)
       end))).

(** ** The life of a row *)

(** What no statement ever takes back: a queued fact keeps its document, a published or acknowledged
    row stays so with the same stamp, and an undeliverable row stays undeliverable. *)
Definition row_advances (row row' : OutboxRow) : Prop :=
  ob_aggregate row' = ob_aggregate row ∧ ob_event_type row' = ob_event_type row ∧
  ob_payload row' = ob_payload row ∧ ob_correlation_id row' = ob_correlation_id row ∧
  ob_causation_id row' = ob_causation_id row ∧ ob_created_at row' = ob_created_at row ∧
  (is_Some (ob_published_at row) → ob_published_at row' = ob_published_at row) ∧
  (is_Some (ob_undeliverable_at row) → is_Some (ob_undeliverable_at row')) ∧
  (is_Some (ob_acknowledged_at row) → ob_acknowledged_at row' = ob_acknowledged_at row
                                       ∧ ob_ack_outcome row' = ob_ack_outcome row).

#[export] Instance row_advances_preorder : PreOrder row_advances.
Proof.
  split; [by intros row|]. intros r1 r2 r3.
  intros (? & ? & ? & ? & ? & ? & P1 & U1 & A1) (? & ? & ? & ? & ? & ? & P2 & U2 & A2).
  unfold row_advances. split_and!; try congruence.
  - intros Hp. rewrite P2, P1; [done..|]. by rewrite P1.
  - auto.
  - intros Ha. destruct (A1 Ha) as [E1 E1']. rewrite <-E1 in Ha. destruct (A2 Ha).
    split; congruence.
Qed.

(** The same for the table: no row disappears. *)
Definition outbox_advances (d d' : Db) : Prop :=
  ∀ id row, outbox_events d !! id = Some row →
    ∃ row', outbox_events d' !! id = Some row' ∧ row_advances row row'.

#[export] Instance outbox_advances_preorder : PreOrder outbox_advances.
Proof.
  split; [intros d id row Hr; by exists row|]. intros d1 d2 d3 H1 H2 id row Hr.
  destruct (H1 id row Hr) as (r2 & Hr2 & A2). destruct (H2 id r2 Hr2) as (r3 & Hr3 & A3).
  exists r3. split; [done|]. by etrans.
Qed.

Lemma update_row_advances id guard change d b d' :
  (∀ row dl, guard row = true → change row = Some dl → row_advances row (with_delivery row dl)) →
  update_row id guard change d = Some (b, d') → outbox_advances d d'.
Proof.
  intros Hadv. unfold update_row. destruct (outbox_events d !! id) as [row|] eqn:E.
  - destruct (guard row) eqn:Eg; [|intros [= _ <-]; reflexivity].
    destruct (change row) as [dl|] eqn:Ec; [|done]. intros [= _ <-].
    intros i r Hi. simpl. destruct (decide (id = i)) as [<-|].
    + exists (with_delivery row dl). rewrite lookup_insert_eq. assert (r = row) as -> by congruence.
      split; [done|]. by apply Hadv.
    + exists r. by rewrite lookup_insert_ne.
  - intros [= _ <-]. reflexivity.
Qed.

Lemma insert_outbox_Some envelope now d u d' :
  insert_outbox envelope now d = Some (u, d') →
  env_type envelope ∈ event_types ∧ outbox_events d !! env_id envelope = None ∧
  d' = on_outbox_events (λ _, <[env_id envelope := fresh_row envelope now]> (outbox_events d)) d.
Proof.
  unfold insert_outbox, insert_new. case_bool_decide; [|done].
  destruct (outbox_events d !! env_id envelope) eqn:E; [done|]. by intros [= _ <-].
Qed.

Lemma insert_outbox_advances envelope now d u d' :
  insert_outbox envelope now d = Some (u, d') → outbox_advances d d'.
Proof.
  intros (_ & Hn & ->)%insert_outbox_Some id row Hr. exists row. simpl.
  rewrite lookup_insert_ne by congruence. split; [done|reflexivity].
Qed.

Lemma mark_published_advances policy now row :
  is_published row = false →
  row_advances row (with_delivery row (published_delivery policy now row)).
Proof.
  unfold is_published. rewrite bool_decide_eq_false. intros Hn. unfold row_advances. simpl.
  split_and!; try done.
Qed.

Lemma resent_advances policy now row dl :
  resent_delivery policy now row = Some dl → row_advances row (with_delivery row dl).
Proof.
  unfold resent_delivery. destruct (int4 _); [|done]. intros [= <-].
  unfold row_advances. by split_and!.
Qed.

Lemma acknowledged_advances outcome now tenant row :
  acknowledgeable tenant row = true →
  row_advances row (with_delivery row (acknowledged_delivery outcome now row)).
Proof.
  unfold acknowledgeable, is_acknowledged. rewrite !andb_true_iff, negb_true_iff.
  rewrite bool_decide_eq_false. intros [_ Hn]. unfold row_advances. simpl. split_and!; try done.
Qed.

(** The operations as steps of the table. *)
Section Steps.
Context (env : Env Db) (Hr : rely (Ev:=Event) env (on_db outbox_advances)).

Lemma enqueue_advances `{EnvelopeCodec} envelope :
  guar env (on_db outbox_advances) (enqueue envelope).
Proof.
  unfold enqueue. guar_steps. unfold on_db.
  match goal with E : insert_outbox _ _ _ = Some _ |- _ => by apply insert_outbox_advances in E end.
Qed.

Lemma mark_published_guar id policy :
  guar env (on_db outbox_advances) (mark_published id policy).
Proof.
  unfold mark_published. guar_steps. eapply update_row_advances; [|eassumption].
  intros row dl Hg [= <-]. apply mark_published_advances. by apply negb_true_iff in Hg.
Qed.

Lemma record_resend_guar id policy : guar env (on_db outbox_advances) (record_resend id policy).
Proof.
  unfold record_resend. guar_steps. eapply update_row_advances; [|eassumption].
  intros row dl _. apply resent_advances.
Qed.

Lemma acknowledge_guar id tenant outcome :
  guar env (on_db outbox_advances) (acknowledge id tenant outcome).
Proof.
  unfold acknowledge. guar_steps. eapply update_row_advances; [|eassumption].
  intros row dl Hg [= <-]. by eapply acknowledged_advances.
Qed.

Lemma unacknowledged_removals_guar : guar env (on_db outbox_advances) unacknowledged_removals.
Proof. unfold unacknowledged_removals. guar_steps. Qed.
End Steps.
#[export] Hint Resolve enqueue_advances mark_published_guar record_resend_guar acknowledge_guar
  unacknowledged_removals_guar : guar.

(** ** Properties *)

(** A removal whose resend has ended. *)
Definition acknowledged_row (id : Z) (d : Db) : Prop :=
  ∃ row, outbox_events d !! id = Some row ∧ is_acknowledged row = true.

Lemma acknowledged_row_advances id d d' :
  acknowledged_row id d → outbox_advances d d' → acknowledged_row id d'.
Proof.
  intros (row & Hr & Ha) Hd. destruct (Hd id row Hr) as (row' & Hr' & Hadv). exists row'.
  split; [done|]. unfold is_acknowledged in *. apply bool_decide_eq_true in Ha.
  apply bool_decide_eq_true. destruct Hadv as (_ & _ & _ & _ & _ & _ & _ & _ & Hk).
  destruct (Hk Ha) as [-> _]. done.
Qed.

Lemma acknowledge_true_iff env id tenant outcome (w : W) :
  rely (Ev:=Event) env (on_db outbox_advances) →
  wp env (acknowledge id tenant outcome) (λ r w', r = Ok true →
    acknowledged_row id (w_db w') ∧ ¬ acknowledged_row id (w_db w)) w.
Proof.
  intros Hr. unfold acknowledge. wp_steps; [|done]. intros b d. cbn [w_db set_db tick].
  pose proof (Hr (w_tick w) w) as Hd1. unfold on_db in Hd1. cbn [w_db set_db tick] in Hd1.
  set (d1 := e_other env (w_tick w) (w_db w)) in *. unfold update_row.
  destruct (outbox_events d1 !! id) as [row|] eqn:E; [|by intros [= <- <-]].
  destruct (acknowledgeable tenant row) eqn:Eg; [|by intros [= <- <-]].
  intros [= <- <-]. split; [|done]. intros _. split.
  - exists (with_delivery row (acknowledged_delivery outcome
      (e_pgnow env (w_tick (set_db d1 (tick w)))) row)). simpl. by rewrite lookup_insert_eq.
  - intros Hack. destruct (acknowledged_row_advances _ _ _ Hack Hd1) as (r & Hr1 & Ha).
    assert (r = row) as -> by congruence. unfold acknowledgeable in Eg. rewrite Ha in Eg.
    by rewrite andb_false_r in Eg.
Qed.

(** An acknowledgement takes effect at most once: after one has, no acknowledgement of the same
    fact (from any tenant, with any outcome) does, whatever fails and whatever the rest of the
    program did to the outbox in between. *)
Theorem acknowledge_at_most_once env env' id tenant tenant' outcome outcome' (w w1 w2 : W) :
  rely (Ev:=Event) env (on_db outbox_advances) → rely (Ev:=Event) env' (on_db outbox_advances) →
  acknowledge id tenant outcome env w = (Ok true, w1) →
  outbox_advances (w_db w1) (w_db w2) →
  (acknowledge id tenant' outcome' env' w2).1 ≠ Ok true.
Proof.
  intros Hr Hr' H1 Hadv H2.
  pose proof (acknowledge_true_iff env id tenant outcome w Hr) as HA. unfold wp in HA.
  rewrite H1 in HA. destruct (HA eq_refl) as [Hack _].
  pose proof (acknowledge_true_iff env' id tenant' outcome' w2 Hr') as HB.
  destruct (HB H2) as [_ Hn]. apply Hn. by eapply acknowledged_row_advances.
Qed.

(** The resend schedule: with a delay not above the cap, the wait between two copies of an
    unacknowledged removal starts at the configured delay, never falls, at most doubles from one
    copy to the next, doubles exactly while the cap allows it, and never exceeds the cap, for any
    number of copies. *)
Theorem resend_delay_schedule policy count :
  0 < rp_after policy ≤ rp_cap policy → 0 ≤ count →
  let delay := resend_delay policy count in
  let next := resend_delay policy (count + 1) in
  resend_delay policy 0 = rp_after policy ∧
  rp_after policy ≤ delay ≤ rp_cap policy ∧ delay ≤ next ≤ 2 * delay ∧
  (count < 30 → 2 * delay ≤ rp_cap policy → next = 2 * delay).
Proof.
  intros Hp Hc. unfold resend_delay. cbv zeta.
  assert (H1 : 1 ≤ 2 ^ Z.min count 30).
  { pose proof (Z.pow_pos_nonneg 2 (Z.min count 30)). lia. }
  assert (H2 : 2 ^ Z.min count 30 ≤ 2 ^ Z.min (count + 1) 30) by (apply Z.pow_le_mono_r; lia).
  assert (H3 : 2 ^ Z.min (count + 1) 30 ≤ 2 * 2 ^ Z.min count 30).
  { rewrite <-Z.pow_succ_r by lia. apply Z.pow_le_mono_r; lia. }
  change (2 ^ Z.min 0 30) with 1.
  split_and!; try nia.
  intros Hlt Hcap. replace (Z.min (count + 1) 30) with (Z.succ (Z.min count 30)) by lia.
  rewrite Z.pow_succ_r by lia. nia.
Qed.
