(* ===== verification/Relay.v ===== *)
(** * The outbox relay

    [crates/x-capture/src/relay.rs]: complete envelopes from the outbox to the broker. The broker side
    is the interface [OutboxPublisher], as it is a trait in the code; the JetStream implementation
    satisfies its laws over a broker that answers per step. *)
From S2P Require Export Outbox.

Definition BATCH_SIZE : nat := 32.
Definition PAYLOAD_HEADROOM : Z := 1024.
Definition UNHEALTHY_ATTEMPTS : Z := 3.
Definition UNHEALTHY_AGE_SECONDS : Z := 300.
Definition PAYLOAD_TOO_LARGE : string := "payload_too_large".

(** [subject_for]. *)
Definition subject_for (event_type : string) : option string :=
  if bool_decide (event_type ∈ ["platform.operation.reported.v1"; "social.source.captured.v1";
       "social.source.updated.v1"; "social.source.removed.v1"]%string)
  then Some ("evt." +:+ event_type)
  else if String.eqb event_type "content.capture.requested.v1" then Some ("cmd." +:+ event_type)
  else None.

Record PublishFailure := mkPublishFailure { failure_class : string }.

(** [PublishFailure::is_permanent]. *)
Definition is_permanent (failure : PublishFailure) : bool :=
  String.eqb (failure_class failure) PAYLOAD_TOO_LARGE.

Inductive RelayError :=
  | UnmappableEventType (event_type : string)
  | RelayQuery
  | Transition (e : OutboxError).

(** ** The broker side *)

Class OutboxPublisher := {
  publish (subject : string) (message_id : Z) (payload : string) :
    Prog RelayError (result unit PublishFailure);
}.

(** A publisher never touches the database, sends at most the one message it was given, succeeds
    exactly when the broker acknowledged that message, and judges a message undeliverable only
    without sending it. *)
Class PublisherLaws `{OutboxPublisher} : Prop := {
  publish_effect env subject id payload (w : W) :
    let '(r, w') := publish subject id payload env w in
    w_db w' = w_db w ∧
    match r with
    | Ok (Ok tt) => w_log w' = w_log w ++ [Publish subject id payload true]
    | Ok (Err failure) => w_log w' = w_log w ∨
        (is_permanent failure = false ∧ w_log w' = w_log w ++ [Publish subject id payload false])
    | Err _ => False
    end;
}.

(** What became of one message handed to the broker. *)
Inductive BrokerAnswer := PubAck | NotSent | AckRejected | AckTimeout.

Class Broker := { max_payload : Z; broker_answer : nat → BrokerAnswer }.

(** [JetStreamPublisher::send]. *)
Definition send `{Broker} (subject : string) (message_id : Z) (payload : string) :
    Prog RelayError (result unit PublishFailure) :=
  if bool_decide (max_payload > 0 ∧
       Z.of_nat (String.length payload) > Z.max 0 (max_payload - PAYLOAD_HEADROOM))
  then ret (Err (mkPublishFailure PAYLOAD_TOO_LARGE))
  else
    let! answer := call_observed
      (λ answer, Publish subject message_id payload
         match answer with PubAck => true | _ => false end) broker_answer in
    ret (match answer with
         | PubAck => Ok tt
         | NotSent => Err (mkPublishFailure "publish_failed")
         | AckRejected => Err (mkPublishFailure "ack_rejected")
         | AckTimeout => Err (mkPublishFailure "ack_timeout")
         end).

#[export] Instance jetstream_publisher `{Broker} : OutboxPublisher := {| publish := send |}.

#[export] Instance jetstream_laws `{Broker} : PublisherLaws.
Proof.
  split. intros env subject id payload w. unfold publish, jetstream_publisher, send.
  case_bool_decide; simpl; [by auto|]. unfold bind, call_observed. simpl.
  destruct (broker_answer _); simpl; auto.
Qed.

(** ** Passes *)

Record RelayReport := mkRelayReport {
  rr_published : Z;
  rr_failed : Z;
  rr_resent : Z;
  rr_undeliverable : Z;
}.
Definition empty_report : RelayReport := mkRelayReport 0 0 0 0.

(** [order by created_at, id] and [order by next_resend_at, id]. *)
Definition created_leb (a b : Z * OutboxRow) : bool :=
  bool_decide (ob_created_at a.2 < ob_created_at b.2
               ∨ (ob_created_at a.2 = ob_created_at b.2 ∧ a.1 ≤ b.1)).
Definition resend_leb (a b : Z * OutboxRow) : bool :=
  let due row := default 0 (ob_next_resend_at row) in
  bool_decide (due a.2 < due b.2 ∨ (due a.2 = due b.2 ∧ a.1 ≤ b.1)).

Definition rows_where (P : OutboxRow → bool) (leb : Z * OutboxRow → Z * OutboxRow → bool) (d : Db) :
    list (Z * OutboxRow) :=
  take BATCH_SIZE (sort leb (List.filter (λ kv, P kv.2) (map_to_list (outbox_events d)))).

(** The rows a pass publishes for the first time, and the removals it publishes again. *)
Definition fresh_due (now : Z) (row : OutboxRow) : bool :=
  negb (is_published row) && bool_decide (ob_undeliverable_at row = None)
  && bool_decide (ob_next_attempt_at row ≤ now).
Definition resend_due (now : Z) (row : OutboxRow) : bool :=
  is_removal row && is_published row && negb (is_acknowledged row)
  && match ob_next_resend_at row with Some at_ => bool_decide (at_ ≤ now) | None => false end
  && bool_decide (ob_next_attempt_at row ≤ now).

(** [record_undeliverable]. *)
Definition undeliverable_delivery (failure : PublishFailure) (now : Z) (row : OutboxRow) :
    option Delivery :=
  attempts ← int4 (ob_attempt_count row + 1);
  Some (mkDelivery (ob_published_at row) attempts (Some (failure_class failure))
    (ob_next_attempt_at row) (Some now) (ob_acknowledged_at row) (ob_ack_outcome row)
    (ob_resend_count row) (ob_next_resend_at row)).
Definition record_undeliverable (id : Z) (failure : PublishFailure) : Prog RelayError unit :=
  on_pool (
    let! now := pg_now in
    do! stmt RelayQuery (update_row id (λ row, negb (is_published row))
                           (undeliverable_delivery failure now)) in
    ret tt).

(** The backoff of a refused row, in seconds, from its refusals so far. *)
Definition backoff_seconds (attempt_count : Z) : Z :=
  Z.min 300 (10 * Z.shiftl 1 (Z.min (attempt_count + 1) 5)).

(** [record_failure]. *)
Definition failed_delivery (failure : PublishFailure) (now : Z) (row : OutboxRow) : option Delivery :=
  attempts ← int4 (ob_attempt_count row + 1);
  Some (mkDelivery (ob_published_at row) attempts (Some (failure_class failure))
    (now + backoff_seconds (ob_attempt_count row) * usec) (ob_undeliverable_at row)
    (ob_acknowledged_at row) (ob_ack_outcome row) (ob_resend_count row) (ob_next_resend_at row)).
Definition record_failure (id : Z) (failure : PublishFailure) (republish : bool) :
    Prog RelayError unit :=
  on_pool (
    let! now := pg_now in
    do! stmt RelayQuery
      (update_row id (λ row, negb (Bool.eqb (negb (is_published row)) republish))
         (failed_delivery failure now)) in
    ret tt).

(** [refresh_health]: the verdict is healthy when no refused row is left that was refused often or
    is old. *)
Definition stuck (now : Z) (row : OutboxRow) : bool :=
  negb (is_published row) && bool_decide (ob_undeliverable_at row = None)
  && bool_decide (1 ≤ ob_attempt_count row)
  && bool_decide (UNHEALTHY_ATTEMPTS ≤ ob_attempt_count row
                  ∨ ob_created_at row < now - UNHEALTHY_AGE_SECONDS * usec).
Definition refresh_health : Prog RelayError bool :=
  on_pool (
    let! now := pg_now in
    select RelayQuery (λ d, bool_decide (rows_where (stuck now) created_leb d = []))).

Record OutboxRelay := mkOutboxRelay { relay_resend : ResendPolicy }.

Section Relay.
Context `{EnvelopeCodec, OutboxPublisher}.

(** The loop of [run_once] over the due rows. *)
Fixpoint publish_fresh (relay : OutboxRelay) (rows : list (Z * OutboxRow)) (report : RelayReport) :
    Prog RelayError RelayReport :=
  match rows with
  | [] => ret report
  | (id, row) :: rows =>
      match subject_for (ob_event_type row) with
      | None => throw (UnmappableEventType (ob_event_type row))
      | Some subject =>
          let! outcome := publish subject id (payload_text (ob_payload row)) in
          match outcome with
          | Ok _ =>
              do! map_err Transition (mark_published id (relay_resend relay)) in
              publish_fresh relay rows
                (mkRelayReport (rr_published report + 1) (rr_failed report) (rr_resent report)
                   (rr_undeliverable report))
          | Err failure =>
              if is_permanent failure then
                do! record_undeliverable id failure in
                publish_fresh relay rows
                  (mkRelayReport (rr_published report) (rr_failed report) (rr_resent report)
                     (rr_undeliverable report + 1))
              else
                do! record_failure id failure false in
                ret (mkRelayReport (rr_published report) (rr_failed report + 1) (rr_resent report)
                       (rr_undeliverable report))
          end
      end
  end.

(** The loop of [resend_unacknowledged]. *)
Fixpoint resend_rows (relay : OutboxRelay) (rows : list (Z * OutboxRow)) (report : RelayReport) :
    Prog RelayError RelayReport :=
  match rows with
  | [] => ret report
  | (id, row) :: rows =>
      match subject_for REMOVAL_EVENT_TYPE with
      | None => throw (UnmappableEventType REMOVAL_EVENT_TYPE)
      | Some subject =>
          let! outcome := publish subject id (payload_text (ob_payload row)) in
          match outcome with
          | Ok _ =>
              do! map_err Transition (record_resend id (relay_resend relay)) in
              resend_rows relay rows
                (mkRelayReport (rr_published report) (rr_failed report) (rr_resent report + 1)
                   (rr_undeliverable report))
          | Err failure =>
              do! record_failure id failure true in
              ret (mkRelayReport (rr_published report) (rr_failed report + 1) (rr_resent report)
                     (rr_undeliverable report))
          end
      end
  end.

(** [resend_unacknowledged]. *)
Definition resend_unacknowledged (relay : OutboxRelay) (report : RelayReport) :
    Prog RelayError RelayReport :=
  let! due := on_pool (
    let! now := pg_now in
    select RelayQuery (rows_where (resend_due now) resend_leb)) in
  resend_rows relay due report.

(** [run_once], with the health verdict it leaves. *)
Definition run_once (relay : OutboxRelay) : Prog RelayError (RelayReport * bool) :=
  let! due := on_pool (
    let! now := pg_now in
    select RelayQuery (rows_where (fresh_due now) created_leb)) in
  let! report := publish_fresh relay due empty_report in
  let! report :=
    if bool_decide (rr_failed report = 0) then resend_unacknowledged relay report else ret report in
  let! healthy := refresh_health in
  do! map_err Transition unacknowledged_removals in
  ret (report, healthy).

(** [run], with the number of passes before the shutdown resolves. *)
Fixpoint run (relay : OutboxRelay) (passes : nat) : Prog RelayError unit :=
  let! outcome := run_once relay in
  do! call (ReportHealth outcome.2) (λ _, tt) in
  match passes with
  | O => ret tt
  | S passes => run relay passes
  end.
End Relay.

(** ** Lemmas *)

Lemma update_row_published id guard change d b d' :
  (∀ row dl, guard row = true → change row = Some dl → row_advances row (with_delivery row dl) ∧
     (ob_published_at row = None → dl_published_at dl = None)) →
  update_row id guard change d = Some (b, d') →
  outbox_advances d d' ∧
  ∀ i row row', outbox_events d !! i = Some row → outbox_events d' !! i = Some row' →
    ob_published_at row = None → ob_published_at row' = None.
Proof.
  intros Hc Hu. split; [eapply update_row_advances; [|done]; intros; by apply Hc|].
  intros i row row' Hi Hi' Hn. unfold update_row in Hu.
  destruct (outbox_events d !! id) as [r|] eqn:E; [|injection Hu as _ <-; congruence].
  destruct (guard r) eqn:Eg; [|injection Hu as _ <-; congruence].
  destruct (change r) as [dl|] eqn:Ec; [|done]. injection Hu as _ <-. simpl in Hi'.
  rewrite lookup_insert in Hi'. case_decide; [|congruence]. subst. injection Hi' as <-.
  simpl. apply (Hc r dl Eg Ec). congruence.
Qed.

(** ** The relay's discipline *)

Section Discipline.
Context {codec : EnvelopeCodec} {publisher : OutboxPublisher} {laws : PublisherLaws}.

(** Steps of the relay and of everyone else: rows advance, the log grows, and a row becomes
    published only if the broker acknowledged its own document on its own subject. *)
Definition published_after_ack (w w' : W) : Prop :=
  outbox_advances (w_db w) (w_db w') ∧
  ∃ events, w_log w' = w_log w ++ events ∧
    ∀ id row row', outbox_events (w_db w) !! id = Some row →
      outbox_events (w_db w') !! id = Some row' →
      ob_published_at row = None → is_Some (ob_published_at row') →
      ∃ subject, subject_for (ob_event_type row) = Some subject ∧
        Publish subject id (payload_text (ob_payload row)) true ∈ events.

#[export] Instance published_after_ack_guarantee : Guarantee published_after_ack.
Proof.
  split.
  - split.
    + intros w. split; [reflexivity|]. exists []. rewrite app_nil_r. split; [done|].
      intros id row row' Hr Hr' Hn [t Ht]. congruence.
    + intros w1 w2 w3 [A1 (e1 & L1 & P1)] [A2 (e2 & L2 & P2)]. split; [by etrans|].
      exists (e1 ++ e2). rewrite L2, L1, app_assoc. split; [done|].
      intros id row row3 Hr Hr3 Hn Hp.
      destruct (A1 id row Hr) as (row2 & Hr2 & Hadv).
      destruct Hadv as (_ & Ht & Hpl & _).
      destruct (ob_published_at row2) as [t|] eqn:E2.
      * destruct (P1 id row row2 Hr Hr2 Hn) as (s & Hs & Hin); [by rewrite E2|].
        exists s. split; [done|]. apply elem_of_app. by left.
      * destruct (P2 id row2 row3 Hr2 Hr3 E2 Hp) as (s & Hs & Hin). exists s.
        rewrite <-Ht, <-Hpl. split; [done|]. apply elem_of_app. by right.
  - intros w. split; [reflexivity|]. exists []. rewrite app_nil_r. split; [done|].
    intros id row row' Hr Hr' Hn [t Ht]. simpl in Hr'. congruence.
  - intros w w' [_ (ev & L & _)]. split; [reflexivity|]. exists ev. split; [done|].
    intros id row row' Hr Hr' Hn [t Ht]. simpl in Hr'. congruence.
Qed.

(** A database change that publishes nothing. *)
Lemma silent_step (w w' : W) :
  outbox_advances (w_db w) (w_db w') →
  (∀ i row row', outbox_events (w_db w) !! i = Some row → outbox_events (w_db w') !! i = Some row' →
     ob_published_at row = None → ob_published_at row' = None) →
  w_log w' = w_log w → published_after_ack w w'.
Proof.
  intros Ha Hn Hl. split; [done|]. exists []. rewrite Hl, app_nil_r. split; [done|].
  intros id row row' Hr Hr' Hp [t Ht]. rewrite (Hn id row row' Hr Hr' Hp) in Ht. done.
Qed.

Lemma update_silent id guard change (w : W) b d :
  (∀ row dl, guard row = true → change row = Some dl → row_advances row (with_delivery row dl) ∧
     (ob_published_at row = None → dl_published_at dl = None)) →
  update_row id guard change (w_db w) = Some (b, d) → published_after_ack w (set_db d w).
Proof. intros Hc Hu. destruct (update_row_published _ _ _ _ _ _ Hc Hu). by apply silent_step. Qed.

Context (env : Env Db) (Hr : rely env published_after_ack).

Lemma record_undeliverable_guar id failure :
  guar env published_after_ack (record_undeliverable id failure).
Proof.
  unfold record_undeliverable. guar_steps. eapply update_silent; [|eassumption].
  intros row dl Hg. unfold undeliverable_delivery. destruct (int4 _); [|done]. intros [= <-].
  split; [|done]. unfold row_advances. simpl. by split_and!.
Qed.

Lemma record_failure_guar id failure republish :
  guar env published_after_ack (record_failure id failure republish).
Proof.
  unfold record_failure. guar_steps. eapply update_silent; [|eassumption].
  intros row dl Hg. unfold failed_delivery. destruct (int4 _); [|done]. intros [= <-].
  split; [|done]. unfold row_advances. simpl. by split_and!.
Qed.

Lemma record_resend_silent id policy :
  guar env published_after_ack (record_resend id policy).
Proof.
  unfold record_resend. guar_steps. eapply update_silent; [|eassumption].
  intros row dl Hg Hc. split; [by eapply resent_advances|].
  unfold resent_delivery in Hc. destruct (int4 _); [|done]. by injection Hc as <-.
Qed.

Lemma publish_grows subject id payload :
  guar env published_after_ack (publish subject id payload).
Proof.
  split. intros w. pose proof (publish_effect env subject id payload w) as He.
  destruct (publish subject id payload env w) as [r w']. simpl. destruct He as [Hd Hl].
  assert (∃ ev, w_log w' = w_log w ++ ev) as [ev Hev].
  { destruct r as [[[]|f]|e]; [by eexists| |done].
    destruct Hl as [Hl|[_ Hl]]; [exists nil; by rewrite app_nil_r|by eexists]. }
  split; [by rewrite Hd|]. exists ev. split; [done|].
  intros i row row' H1 H2 Hn [t Ht]. rewrite Hd in H2. congruence.
Qed.

(** The selected rows are known to the table, possibly further along. *)
Definition rows_known (rows : list (Z * OutboxRow)) (d : Db) : Prop :=
  ∀ id row, (id, row) ∈ rows →
    ∃ row', outbox_events d !! id = Some row' ∧ row_advances row row'.

Lemma rows_known_advances rows d d' :
  rows_known rows d → outbox_advances d d' → rows_known rows d'.
Proof.
  intros Hk Ha id row Hin. destruct (Hk id row Hin) as (r & Hr1 & A1).
  destruct (Ha id r Hr1) as (r' & Hr2 & A2). exists r'. split; [done|]. by etrans.
Qed.

Lemma rows_known_cons kv rows d : rows_known (kv :: rows) d → rows_known rows d.
Proof. intros Hk id row Hin. apply Hk. by right. Qed.

Lemma rows_where_known P leb d : rows_known (rows_where P leb d) d.
Proof.
  intros id row Hin. unfold rows_where in Hin. apply elem_of_take in Hin as (i & Hi & _).
  apply list_elem_of_lookup_2, elem_of_sort, list_elem_of_In, filter_In in Hi as [Hi _].
  apply list_elem_of_In, elem_of_map_to_list in Hi. by exists row.
Qed.

(** Publishing one known row and marking it. *)
Lemma publish_and_mark subject id row policy (w w1 : W) :
  rows_known [(id, row)] (w_db w) → subject_for (ob_event_type row) = Some subject →
  w_db w1 = w_db w →
  w_log w1 = w_log w ++ [Publish subject id (payload_text (ob_payload row)) true] →
  wp env (mark_published id policy) (λ _ w2, published_after_ack w w2) w1.
Proof.
  intros Hk Hs Hd Hl. unfold mark_published.
  pose proof (Hr (w_tick w1) w1) as Hi. set (d1 := e_other env (w_tick w1) (w_db w1)) in *.
  assert (H1 : published_after_ack w (set_db d1 w1)).
  { etrans; [|exact Hi]. split; [by rewrite Hd|]. exists [Publish subject id (payload_text (ob_payload row)) true].
    split; [done|]. intros i r r' A B Hn [t Ht]. rewrite Hd in B. congruence. }
  wp_steps; fold d1; [|exact H1]. intros b d2. cbn [w_db set_db tick].
  intros Hu.
  assert (H2 : published_after_ack w (set_db d2 w1)).
  { destruct H1 as [A1 (ev & L1 & P1)]. simpl in *. rewrite Hl in L1. apply app_inv_head in L1 as <-.
    split; simpl.
    - etrans; [exact A1|]. eapply update_row_advances; [|exact Hu].
      intros r dl Hg [= <-]. apply mark_published_advances. by apply negb_true_iff in Hg.
    - exists [Publish subject id (payload_text (ob_payload row)) true]. split; [done|].
      intros i r r' Hr1 Hr2 Hn Hp. unfold update_row in Hu.
      destruct (A1 i r Hr1) as (rm & Hrm & Hadvm).
      assert (Hsame : outbox_events d2 !! i = outbox_events d1 !! i ∨ i = id).
      { destruct (outbox_events d1 !! id) as [x|]; [|injection Hu as _ <-; by left].
        destruct (negb _); injection Hu as _ <-; [simpl|by left].
        destruct (decide (i = id)); [by right|left]. by rewrite lookup_insert_ne. }
      destruct Hsame as [Hsame| ->].
      + apply (P1 i r rm); [done..|]. rewrite Hsame in Hr2. congruence.
      + destruct (Hk id row) as (r0 & Hr0 & Hadv); [by left|].
        assert (r0 = r) as -> by congruence. destruct Hadv as (_ & Ht & Hpl & _).
        exists subject. rewrite Ht, Hpl. split; [done|]. by left. }
  split; cbn [result_map_err]; [wp_steps|]; exact H2.
Qed.

Lemma publish_fresh_wp relay rows report (w : W) :
  rows_known rows (w_db w) →
  wp env (publish_fresh relay rows report) (λ _ w', published_after_ack w w') w.
Proof.
  revert report w. induction rows as [|[id row] rows IH]; intros report w Hk; simpl;
    [wp_steps; reflexivity|].
  destruct (subject_for (ob_event_type row)) as [subject|] eqn:Es; [|wp_steps; reflexivity].
  wp_step. pose proof (publish_effect env subject id (payload_text (ob_payload row)) w) as He.
  pose proof (guar_elim (publish_grows subject id (payload_text (ob_payload row))) w) as Hg.
  unfold wp at 1. destruct (publish _ _ _ env w) as [[[[]|failure]|e] w1]; simpl in *; [| |done].
  - destruct He as [Hd Hl]. wp_step. wp_step.
    eapply wp_mono; [eapply publish_and_mark; [|done..]; intros i r Hin; apply list_elem_of_singleton in Hin; injection Hin as -> ->; apply Hk; by left|].
    intros r w2 H2. cbv beta in *. destruct r as [u|e]; cbn [result_map_err]; [|exact H2].
    eapply wp_mono; [apply IH|].
    + eapply rows_known_advances; [by eapply rows_known_cons|apply H2].
    + intros r w3 H3. by etrans.
  - assert (Hk1 : rows_known rows (w_db w1)).
    { eapply rows_known_advances; [by eapply rows_known_cons|apply Hg]. }
    destruct (is_permanent failure).
    + wp_step. pose proof (guar_elim (record_undeliverable_guar id failure) w1) as Hu.
      unfold wp at 1. destruct (record_undeliverable id failure env w1) as [[u|e] w2]; simpl in *;
        [|by etrans].
      eapply wp_mono; [apply IH; eapply rows_known_advances; [exact Hk1|apply Hu]|].
      intros r w3 H3. etrans; [exact Hg|]. by etrans.
    + wp_step. pose proof (guar_elim (record_failure_guar id failure false) w1) as Hu.
      unfold wp at 1. destruct (record_failure id failure false env w1) as [[u|e] w2]; simpl in *;
        [wp_steps|]; by etrans.
Qed.

Lemma select_rows_wp (P : Z → OutboxRow → bool) leb {B} (k : list (Z * OutboxRow) → Prog RelayError B)
    Q (w : W) :
  (∀ rows w1, rows_known rows (w_db w1) → published_after_ack w w1 → wp env (k rows) Q w1) →
  (∀ w1, published_after_ack w w1 → Q (Err RelayQuery) w1) →
  wp env (bind (on_pool (let! now := pg_now in select RelayQuery (rows_where (P now) leb))) k) Q w.
Proof.
  intros Hk He. pose proof (Hr (w_tick w) w) as Hi.
  set (d1 := e_other env (w_tick w) (w_db w)) in *.
  wp_steps; cbn [w_db set_db tick]; fold d1.
  - apply Hk; [apply rows_where_known|exact Hi].
  - apply He. exact Hi.
Qed.

Lemma resend_rows_guar relay rows report :
  guar env published_after_ack (resend_rows relay rows report).
Proof.
  revert report. induction rows as [|[id row] rows IH]; intros report; simpl.
  - guar_steps.
  - guar_steps; auto using publish_grows, record_resend_silent, record_failure_guar.
Qed.

Lemma resend_unacknowledged_guar relay report :
  guar env published_after_ack (resend_unacknowledged relay report).
Proof. unfold resend_unacknowledged. guar_steps. apply resend_rows_guar. Qed.

Lemma refresh_health_guar : guar env published_after_ack refresh_health.
Proof. unfold refresh_health. guar_steps. Qed.

Lemma gauges_guar : guar env published_after_ack unacknowledged_removals.
Proof. unfold unacknowledged_removals. guar_steps. Qed.

(** Everything [run_once] does after the fresh rows. *)
Lemma run_once_rest_guar relay report :
  guar env published_after_ack
    (let! report := if bool_decide (rr_failed report = 0)
                    then resend_unacknowledged relay report else ret report in
     let! healthy := refresh_health in
     do! map_err Transition unacknowledged_removals in ret (report, healthy)).
Proof. guar_steps; auto using resend_unacknowledged_guar, refresh_health_guar, gauges_guar. Qed.

Lemma run_once_guar relay : guar env published_after_ack (run_once relay).
Proof.
  apply guar_wp. intros w. unfold run_once. apply select_rows_wp; [|done].
  intros rows w1 Hk H1. wp_step. eapply wp_mono; [by apply publish_fresh_wp|].
  intros r w2 H2. cbv beta in *. destruct r as [report|e]; [|by etrans].
  pose proof (run_once_rest_guar relay report) as Hrest.
  exact (transitivity H1 (transitivity H2 (guar_elim Hrest w2))).
Qed.

(** C13. Nothing is lost and nothing is published on trust: through any number of relay passes, under
    any database faults, lost commits and broker answers, with other connections queueing and
    acknowledging in between, every queued row stays with its document unchanged, stamps are never
    taken back, and a row becomes published only if the broker acknowledged exactly its own stored
    document on the subject of its own event type. *)
Theorem relay_publishes_only_after_ack relay passes :
  guar env published_after_ack (run relay passes).
Proof.
  assert (Hcall : ∀ healthy, guar env published_after_ack
    (call (E:=RelayError) (ReportHealth healthy) (λ _, tt))).
  { intros healthy. split. intros w. split; [reflexivity|]. exists [ReportHealth healthy].
    split; [done|]. intros i r r' H1 H2 Hn [t Ht]. simpl in H2. congruence. }
  induction passes as [|passes IH]; simpl; guar_steps; auto using run_once_guar.
Qed.

(** ** Order *)

(** Database steps send nothing. *)
Definition same_log (w w' : W) : Prop := w_log w' = w_log w.
#[export] Instance same_log_guarantee : Guarantee same_log.
Proof.
  split; [split; [by intros w|intros w1 w2 w3 Ha Hb; unfold same_log in *; congruence]|done|done].
Qed.

Lemma same_log_rely (e : Env Db) : rely e same_log.
Proof. by intros n w. Qed.

Lemma mark_published_same_log e id policy : guar e same_log (mark_published id policy).
Proof. unfold mark_published. pose proof (same_log_rely e). guar_steps. done. Qed.
Lemma record_undeliverable_same_log e id failure : guar e same_log (record_undeliverable id failure).
Proof. unfold record_undeliverable. pose proof (same_log_rely e). guar_steps. done. Qed.
Lemma record_failure_same_log e id failure b : guar e same_log (record_failure id failure b).
Proof. unfold record_failure. pose proof (same_log_rely e). guar_steps. done. Qed.

(** An attempted publish: the row's id, and whether the broker acknowledged it. *)
Definition attempt_of (event : Event) : option (Z * bool) :=
  match event with Publish _ id _ acknowledged => Some (id, acknowledged) | _ => None end.

(** Acknowledged attempts, then at most one refused one. *)
Definition attempts_in_order (rows : list (Z * OutboxRow)) (clean : bool) (events : list Event) : Prop :=
  ∃ sent refused, events = sent ++ refused ∧
    (∀ e, e ∈ sent → ∃ id, attempt_of e = Some (id, true)) ∧
    (refused = [] ∨ clean = false ∧ ∃ e id, refused = [e] ∧ attempt_of e = Some (id, false)) ∧
    fst <$> omap attempt_of events `sublist_of` rows.*1.

Lemma attempts_nil rows clean : attempts_in_order rows clean [].
Proof.
  exists [], []. split_and!; [done| |by left|apply sublist_nil_l]. intros e He. by apply not_elem_of_nil in He.
Qed.

Lemma attempts_skip kv rows clean events :
  attempts_in_order rows clean events → attempts_in_order (kv :: rows) clean events.
Proof.
  intros (sent & refused & -> & Hs & Hf & Hsub). exists sent, refused. split_and!; try done.
  by apply sublist_cons.
Qed.

Lemma attempts_cons e id row rows clean events :
  attempt_of e = Some (id, true) → attempts_in_order rows clean events →
  attempts_in_order ((id, row) :: rows) clean (e :: events).
Proof.
  intros He (sent & refused & -> & Hs & Hf & Hsub). exists (e :: sent), refused.
  split_and!; [done| |done|].
  - intros x [->|Hx]%elem_of_cons; [by exists id|auto].
  - simpl. rewrite He. simpl. by apply sublist_skip.
Qed.

Lemma publish_fresh_log e relay rows report (w : W) :
  wp e (publish_fresh relay rows report) (λ r w', ∃ events, w_log w' = w_log w ++ events ∧
    attempts_in_order rows (match r with
      | Ok report' => bool_decide (rr_failed report' = rr_failed report)
      | Err _ => false end) events) w.
Proof.
  revert report w. induction rows as [|[id row] rows IH]; intros report w; simpl.
  { wp_steps. exists []. rewrite app_nil_r. split; [done|apply attempts_nil]. }
  destruct (subject_for (ob_event_type row)) as [subject|].
  2:{ wp_steps. exists []. rewrite app_nil_r. split; [done|apply attempts_nil]. }
  wp_step. pose proof (publish_effect e subject id (payload_text (ob_payload row)) w) as He.
  unfold wp at 1. destruct (publish _ _ _ e w) as [[[[]|failure]|err] w1]; simpl in *; [| |by destruct He].
  - destruct He as [_ Hl]. wp_step. wp_step.
    pose proof (guar_elim (mark_published_same_log e id (relay_resend relay)) w1) as Hm.
    unfold wp at 1. unfold same_log in Hm.
    destruct (mark_published _ _ e w1) as [[u|err] w2]; cbn [fst snd result_map_err] in *.
    + eapply wp_mono; [apply IH|]. cbv beta. intros r w3 (ev & Hev & Hord).
      eexists (_ :: ev). split; [rewrite Hev, Hm, Hl, <-app_assoc; done|].
      apply attempts_cons; [done|]. exact Hord.
    + eexists [_]. split; [by rewrite Hm, Hl|]. apply attempts_cons; [done|]. apply attempts_nil.
  - destruct He as [_ Hl]. destruct (is_permanent failure) eqn:Ep.
    + assert (Hl' : w_log w1 = w_log w) by (destruct Hl as [Hl|[Hf _]]; [done|congruence]).
      wp_step. pose proof (guar_elim (record_undeliverable_same_log e id failure) w1) as Hm.
      unfold wp at 1. unfold same_log in Hm.
      destruct (record_undeliverable _ _ e w1) as [[u|err] w2]; cbn [fst snd] in *.
      * eapply wp_mono; [apply IH|]. cbv beta. intros r w3 (ev & Hev & Hord).
        exists ev. split; [by rewrite Hev, Hm, Hl'|]. apply attempts_skip. exact Hord.
      * exists []. rewrite Hm, Hl', app_nil_r. split; [done|apply attempts_nil].
    + wp_step. pose proof (guar_elim (record_failure_same_log e id failure false) w1) as Hm.
      unfold wp at 1. unfold same_log in Hm.
      assert (Hend : ∀ w2 : W, w_log w2 = w_log w1 → ∃ events, w_log w2 = w_log w ++ events ∧
        attempts_in_order ((id, row) :: rows) false events).
      { intros w2 ->. destruct Hl as [->|[_ ->]].
        - exists []. rewrite app_nil_r. split; [done|apply attempts_nil].
        - eexists. split; [done|]. eexists [], _. split_and!; [done| |right|].
          + intros x Hx. by apply not_elem_of_nil in Hx.
          + split; [done|]. by eexists _, _.
          + simpl. apply sublist_skip, sublist_nil_l. }
      destruct (record_failure _ _ _ e w1) as [[u|err] w2]; cbn [fst snd] in *; [wp_steps|by apply Hend].
      simpl. rewrite bool_decide_eq_false_2 by lia. by apply Hend.
Qed.

Lemma created_leb_total a b : created_leb a b = true ∨ created_leb b a = true.
Proof. unfold created_leb. rewrite !bool_decide_eq_true. lia. Qed.

Lemma created_leb_trans a b c :
  created_leb a b = true → created_leb b c = true → created_leb a c = true.
Proof. unfold created_leb. rewrite !bool_decide_eq_true. lia. Qed.

Lemma rows_where_sorted P d : StronglySorted (λ a b, created_leb a b = true) (rows_where P created_leb d).
Proof.
  unfold rows_where. set (l := sort _ _).
  assert (Hs : StronglySorted (λ a b, created_leb a b = true) l).
  { apply sort_sorted; [apply created_leb_total|apply created_leb_trans]. }
  clearbody l. generalize BATCH_SIZE. induction Hs as [|x l Hs IH Hx]; intros n.
  - rewrite take_nil. constructor.
  - destruct n as [|n]; simpl; constructor; [apply IH|]. by apply Forall_take.
Qed.

(** A pass publishes the due rows oldest first (by creation time, then id) and stops at the
    first refusal: whatever fails, the broker saw acknowledged attempts for rows in that order,
    followed by at most one refused attempt, and by none when the pass reports no failure. *)
Theorem relay_pass_is_ordered e relay now d report (w : W) :
  let rows := rows_where (fresh_due now) created_leb d in
  let '(r, w') := publish_fresh relay rows report e w in
  StronglySorted (λ a b, created_leb a b = true) rows ∧
  (length rows ≤ BATCH_SIZE)%nat ∧
  ∃ events, w_log w' = w_log w ++ events ∧
    attempts_in_order rows (match r with
      | Ok report' => bool_decide (rr_failed report' = rr_failed report)
      | Err _ => false end) events.
Proof.
  intros rows. pose proof (publish_fresh_log e relay rows report w) as Hw. unfold wp in Hw.
  destruct (publish_fresh relay rows report e w) as [r w']. split_and!; [|..|exact Hw].
  - apply rows_where_sorted.
  - unfold rows, rows_where. rewrite length_take. lia.
Qed.

End Discipline.

(** ** Progress *)

Section Progress.
Context {codec : EnvelopeCodec} {publisher : OutboxPublisher} {laws : PublisherLaws}.

(** The schema's closed list of event types, and the publisher that gets every message
    acknowledged. *)
Definition types_allowed (d : Db) : Prop :=
  ∀ id row, outbox_events d !! id = Some row → ob_event_type row ∈ event_types.
Definition always_acknowledged : Prop :=
  ∀ subject id payload e (w : W), (publish subject id payload e w).1 = Ok (Ok tt).

Lemma subject_for_allowed event_type :
  event_type ∈ event_types → is_Some (subject_for event_type).
Proof.
  unfold event_types. intros H.
  repeat (apply elem_of_cons in H as [->|H]; [by eexists|]). by apply elem_of_nil in H.
Qed.

(** *** Rows that are settled

    What a relay whose messages are all acknowledged does to a row: it leaves it, or it leaves it
    published; and it counts its resends. *)
Definition row_settles (resends : Z) (row row' : OutboxRow) : Prop :=
  (row' = row ∨ is_published row' = true) ∧
  ob_resend_count row ≤ ob_resend_count row' ≤ ob_resend_count row + resends.
Definition settles (resends : Z → Z) (d d' : Db) : Prop :=
  ∀ id row', outbox_events d' !! id = Some row' →
    ∃ row, outbox_events d !! id = Some row ∧ row_settles (resends id) row row'.

Lemma settles_refl resends d : (∀ id, 0 ≤ resends id) → settles resends d d.
Proof. intros Hn id row Hrow. exists row. split; [done|]. split; [by left|]. specialize (Hn id). lia. Qed.

Lemma settles_trans n m k d1 d2 d3 :
  (∀ id, n id + m id ≤ k id) → settles n d1 d2 → settles m d2 d3 → settles k d1 d3.
Proof.
  intros Hk H1 H2 id row3 Hr3. destruct (H2 id row3 Hr3) as (row2 & Hr2 & Hs2 & Hc2).
  destruct (H1 id row2 Hr2) as (row1 & Hr1 & Hs1 & Hc1). exists row1. split; [done|]. specialize (Hk id).
  split; [|lia]. destruct Hs2 as [->|]; [done|by right].
Qed.

Lemma settles_update n id guard change d b d' :
  (∀ i, 0 ≤ n i) →
  (∀ row dl, guard row = true → change row = Some dl → row_settles (n id) row (with_delivery row dl)) →
  update_row id guard change d = Some (b, d') → settles n d d'.
Proof.
  intros Hn Hc Hu. unfold update_row in Hu. destruct (outbox_events d !! id) as [row|] eqn:E;
    [|injection Hu as _ <-; by apply settles_refl].
  destruct (guard row) eqn:Eg; [|injection Hu as _ <-; by apply settles_refl].
  destruct (change row) as [dl|] eqn:Ec; [|done]. injection Hu as _ <-.
  intros i row'. cbn. intros [[<- <-]|[_ Hr]]%lookup_insert_Some; [exists row; by auto|].
  by apply (settles_refl n d Hn).
Qed.

(** Marking a known row leaves it published. *)
Lemma mark_published_quiet e id policy (w : W) :
  quiet e → (∃ row, outbox_events (w_db w) !! id = Some row) →
  let '(r, w') := mark_published id policy e w in
  r = Ok tt ∧ outbox_advances (w_db w) (w_db w') ∧ settles (λ _, 0) (w_db w) (w_db w') ∧
  ∃ row', outbox_events (w_db w') !! id = Some row' ∧ is_Some (ob_published_at row').
Proof.
  intros Hq [row Hrow].
  pose proof (guar_elim (mark_published_guar e (quiet_rely e Hq _) id policy) w) as Hg.
  unfold on_db in Hg. revert Hg. unfold mark_published. run_quiet Hq. destruct (update_row _ _ _ _) eqn:Eu.
  2:{ unfold update_row in Eu. rewrite Hrow in Eu. by destruct (negb _). }
  destruct p as [b d]. run_quiet Hq. intros Hg. split_and!; [done|done| |].
  - eapply settles_update; [done| |exact Eu]. intros row1 dl _ [= <-]. split; [|simpl; lia].
    right. unfold is_published. apply bool_decide_eq_true_2. by eexists.
  - unfold update_row in Eu. rewrite Hrow in Eu. unfold is_published in Eu. case_bool_decide as Hp;
      injection Eu as _ <-; [by exists row|]. eexists. split; [simpl; by rewrite lookup_insert_eq|]. by eexists.
Qed.

(** Every one of these rows is published. *)
Definition all_published (rows : list (Z * OutboxRow)) (d : Db) : Prop :=
  ∀ id row, (id, row) ∈ rows →
    ∃ row', outbox_events d !! id = Some row' ∧ is_Some (ob_published_at row').

Lemma published_advances id d d' :
  (∃ row, outbox_events d !! id = Some row ∧ is_Some (ob_published_at row)) →
  outbox_advances d d' →
  ∃ row, outbox_events d' !! id = Some row ∧ is_Some (ob_published_at row).
Proof.
  intros (row & H1 & Hp) Ha. destruct (Ha id row H1) as (row' & H2 & Hadv). exists row'.
  split; [done|]. destruct Hadv as (_ & _ & _ & _ & _ & _ & Hk & _). by rewrite Hk.
Qed.

Lemma publish_fresh_progress e relay rows report (w : W) :
  quiet e → always_acknowledged → rows_known rows (w_db w) →
  (∀ id row, (id, row) ∈ rows → ob_event_type row ∈ event_types) →
  let '(r, w') := publish_fresh relay rows report e w in
  r = Ok (mkRelayReport (rr_published report + Z.of_nat (length rows)) (rr_failed report)
            (rr_resent report) (rr_undeliverable report)) ∧
  all_published rows (w_db w') ∧ settles (λ _, 0) (w_db w) (w_db w').
Proof.
  intros Hq Hack. revert report w. induction rows as [|[id row] rows IH]; intros report w Hk Ht; simpl.
  { split_and!; [by destruct report; rewrite Z.add_0_r| |by apply settles_refl].
    intros i r Hin. by apply not_elem_of_nil in Hin. }
  destruct (subject_for_allowed (ob_event_type row)) as [subject ->].
  { apply (Ht id). by left. }
  unfold bind at 1. pose proof (publish_effect e subject id (payload_text (ob_payload row)) w) as He.
  pose proof (Hack subject id (payload_text (ob_payload row)) e w) as Ha.
  destruct (publish _ _ _ e w) as [r1 w1]. simpl in Ha. subst r1. destruct He as [Hd _].
  destruct (Hk id row) as (row1 & Hrow1 & _); [by left|]. rewrite <-Hd in Hrow1.
  pose proof (mark_published_quiet e id (relay_resend relay) w1 Hq (ex_intro _ row1 Hrow1)) as Hm.
  unfold bind, map_err. destruct (mark_published _ _ e w1) as [r2 w2].
  destruct Hm as (-> & Hadv & Hset & Hpub). simpl.
  set (report1 := mkRelayReport _ _ _ _).
  assert (Hk2 : rows_known rows (w_db w2)).
  { eapply rows_known_advances; [|exact Hadv]. rewrite Hd. by eapply rows_known_cons. }
  assert (Ht2 : ∀ i r, (i, r) ∈ rows → ob_event_type r ∈ event_types).
  { intros i r Hin. apply (Ht i r). by right. }
  specialize (IH report1 w2 Hk2 Ht2).
  pose proof (publish_fresh_wp e (quiet_rely e Hq _) relay rows report1 w2 Hk2) as [Hrest _].
  destruct (publish_fresh relay rows report1 e w2) as [r3 w3]. destruct IH as (-> & Hall & Hset'). simpl in *.
  split_and!; [f_equal; f_equal; lia|
    |rewrite Hd in Hset; eapply settles_trans; [|exact Hset|exact Hset']; done].
  intros i r [[= -> ->]|Hin]%elem_of_cons; [|by eapply Hall].
  by eapply published_advances.
Qed.

Lemma rows_where_allowed P leb d :
  types_allowed d → ∀ id row, (id, row) ∈ rows_where P leb d → ob_event_type row ∈ event_types.
Proof.
  intros Ht id row Hin. destruct (rows_where_known P leb d id row Hin) as (row' & Hr & Hadv).
  destruct Hadv as (_ & He & _). rewrite <-He. by eapply Ht.
Qed.

(** No starvation: when the broker acknowledges and nothing fails, one pass publishes every row
    of its due batch (the oldest 32 due rows), whatever the table holds besides. *)
Theorem relay_publishes_due_batch env relay now (w : W) :
  quiet env → always_acknowledged → (∀ n, e_pgnow env n = now) → types_allowed (w_db w) →
  all_published (rows_where (fresh_due now) created_leb (w_db w)) (w_db (run_once relay env w).2).
Proof.
  intros Hq Hack Hn Ht. set (due := rows_where _ _ _).
  set (w1 := mkWorld (w_db w) (S (S (S (w_tick w)))) (w_log w)).
  assert (Hsel : on_pool (let! now := pg_now in
    select RelayQuery (rows_where (fresh_due now) created_leb)) env w = (Ok due, w1)).
  { run_quiet Hq. by rewrite Hn. }
  assert (Hk : rows_known due (w_db w1)) by apply rows_where_known.
  pose proof (publish_fresh_progress env relay due empty_report w1 Hq Hack Hk
    (rows_where_allowed _ _ _ Ht)) as Hp.
  unfold run_once. unfold bind at 1. rewrite Hsel. unfold bind at 1.
  destruct (publish_fresh relay due empty_report env w1) as [r w2]. destruct Hp as (-> & Hall & _).
  intros id row Hin. eapply published_advances; [by eapply Hall|].
  apply (guar_elim (run_once_rest_guar env (quiet_rely env Hq _) relay _) w2).
Qed.

(** *** The backlog drains *)

(** Resends that are still countable. *)
Definition resends_fit (resends : Z → Z) (d : Db) : Prop :=
  ∀ id row, outbox_events d !! id = Some row →
    0 ≤ ob_resend_count row ∧ ob_resend_count row + resends id ≤ i32_max.

Lemma settles_fit n m k d d' :
  (∀ id, n id + m id ≤ k id) → settles n d d' → resends_fit k d → resends_fit m d'.
Proof.
  intros Hk Hs Hf id row' Hr'. destruct (Hs id row' Hr') as (row & Hr & _ & Hc).
  specialize (Hf id row Hr). specialize (Hk id). lia.
Qed.

(** One row, or the rows of a list, resent once. *)
Definition once (ids : list Z) (id : Z) : Z := if decide (id ∈ ids) then 1 else 0.
Lemma once_cons id ids i : id ∉ ids → once [id] i + once ids i = once (id :: ids) i.
Proof.
  intros Hn. unfold once. destruct (decide (i ∈ id :: ids)) as [Hi|Hi].
  - apply elem_of_cons in Hi as [->|Hi].
    + rewrite decide_True, decide_False by (done || by apply list_elem_of_singleton). done.
    + rewrite decide_False, decide_True by (done || by intros ->%list_elem_of_singleton). done.
  - apply not_elem_of_cons in Hi as [H1 H2].
    rewrite decide_False, decide_False by (done || by intros ->%list_elem_of_singleton). done.
Qed.
Lemma once_nonneg ids id : 0 ≤ once ids id.
Proof. unfold once. by destruct (decide _). Qed.

Lemma once_at_most ids id : 0 + once ids id ≤ 1.
Proof. unfold once. by destruct (decide _). Qed.

(** One resend is counted once. *)
Lemma record_resend_quiet e id policy (w : W) :
  quiet e → resends_fit (once [id]) (w_db w) →
  let '(r, w') := record_resend id policy e w in
  r = Ok tt ∧ settles (once [id]) (w_db w) (w_db w').
Proof.
  intros Hq Hf. assert (H1 : once [id] id = 1) by (apply decide_True; by left).
  unfold record_resend. run_quiet Hq. destruct (update_row _ _ _ _) as [[b d]|] eqn:Eu.
  - run_quiet Hq. split; [done|]. eapply settles_update; [apply once_nonneg| |exact Eu].
    intros row dl Hg. rewrite H1. unfold resent_delivery.
    destruct (int4 _) as [z|] eqn:Ez; simpl; [|done]. apply int4_Some in Ez as [-> _]. intros [= <-].
    split; [right|simpl; lia]. apply andb_true_iff in Hg as [[_ Hp]%andb_true_iff _]. exact Hp.
  - exfalso. unfold update_row in Eu. destruct (outbox_events (w_db w) !! id) as [row|] eqn:Hr; [|done].
    destruct (_ && _); [|done]. unfold resent_delivery in Eu. destruct (Hf id row Hr). rewrite H1 in *.
    destruct (int4 _) eqn:Ez; [done|]. unfold int4 in Ez.
    rewrite (proj2 (in_range_spec _ _ _)) in Ez; [done|]. unfold i32_min, i32_max in *. lia.
Qed.

Lemma resend_rows_progress e relay rows report (w : W) :
  quiet e → always_acknowledged → NoDup rows.*1 → resends_fit (once rows.*1) (w_db w) →
  let '(r, w') := resend_rows relay rows report e w in
  is_ok r = true ∧ settles (once rows.*1) (w_db w) (w_db w').
Proof.
  intros Hq Hack. revert report w. induction rows as [|[id row] rows IH]; intros report w Hnd Hf; simpl.
  { split; [done|]. apply settles_refl, once_nonneg. }
  cbn [fmap list_fmap fst] in *. apply NoDup_cons in Hnd as [Hn Hnd].
  pose proof (once_cons id rows.*1) as Honce.
  match goal with |- context [publish ?s] => set (subject := s) end.
  unfold bind at 1. pose proof (publish_effect e subject id (payload_text (ob_payload row)) w) as He.
  pose proof (Hack subject id (payload_text (ob_payload row)) e w) as Ha.
  destruct (publish _ _ _ e w) as [r1 w1]. simpl in Ha. subst r1. destruct He as [Hd _]. rewrite <-Hd in *.
  pose proof (record_resend_quiet e id (relay_resend relay) w1 Hq) as Hm.
  unfold bind, map_err. destruct (record_resend _ _ e w1) as [r2 w2]. destruct Hm as [-> Hset].
  { intros i r Hr. specialize (Hf i r Hr). specialize (Honce i Hn). pose proof (once_nonneg rows.*1 i). lia. }
  simpl. pose proof (IH (mkRelayReport (rr_published report) (rr_failed report) (rr_resent report + 1)
    (rr_undeliverable report)) w2 Hnd) as Hrest.
  destruct (resend_rows _ rows _ e w2) as [r3 w3]. destruct Hrest as [Hok Hset'].
  { eapply settles_fit; [|exact Hset|exact Hf]. intros i. by rewrite Honce. }
  split; [exact Hok|]. eapply settles_trans; [|exact Hset|exact Hset']. intros i. by rewrite Honce.
Qed.

Lemma filter_keys_NoDup {A} (P : Z * A → bool) (l : list (Z * A)) : NoDup l.*1 → NoDup (List.filter P l).*1.
Proof.
  induction l as [|[k x] l IH]; [done|]. cbn. intros [Hn Hnd]%NoDup_cons. destruct (P (k, x)); [|by apply IH].
  cbn. apply NoDup_cons. split; [|by apply IH]. intros (y & -> & Hy)%list_elem_of_fmap. apply Hn.
  apply list_elem_of_fmap. exists y. split; [done|]. apply list_elem_of_In in Hy. apply list_elem_of_In.
  by apply filter_In in Hy as [? _].
Qed.

Lemma rows_where_NoDup P leb d : NoDup (rows_where P leb d).*1.
Proof.
  unfold rows_where. rewrite fmap_take. eapply sublist_NoDup; [|apply sublist_take].
  change (NoDup (sort leb (List.filter (λ kv, P kv.2) (map_to_list (outbox_events d)))).*1).
  rewrite sort_perm. apply filter_keys_NoDup, NoDup_fst_map_to_list.
Qed.

(** A whole pass: it succeeds, publishes its batch, and settles what it touches. *)
Lemma run_once_progress env relay now (w : W) :
  quiet env → always_acknowledged → (∀ n, e_pgnow env n = now) → types_allowed (w_db w) →
  resends_fit (λ _, 1) (w_db w) →
  let '(r, w') := run_once relay env w in
  is_ok r = true ∧ settles (λ _, 1) (w_db w) (w_db w') ∧ outbox_advances (w_db w) (w_db w') ∧
  all_published (rows_where (fresh_due now) created_leb (w_db w)) (w_db w').
Proof.
  intros Hq Hack Hn Ht Hf. set (due := rows_where _ _ _).
  set (w1 := mkWorld (w_db w) (S (S (S (w_tick w)))) (w_log w)).
  assert (Hsel : on_pool (let! now := pg_now in
    select RelayQuery (rows_where (fresh_due now) created_leb)) env w = (Ok due, w1)).
  { run_quiet Hq. by rewrite Hn. }
  pose proof (relay_publishes_due_batch env relay now w Hq Hack Hn Ht) as Hpub.
  pose proof (guar_elim (run_once_guar env (quiet_rely env Hq _) relay) w) as [Hadv _].
  pose proof (publish_fresh_progress env relay due empty_report w1 Hq Hack (rows_where_known _ _ _)
    (rows_where_allowed _ _ _ Ht)) as Hp.
  assert (Hend : ∃ r w', run_once relay env w = (Ok r, w') ∧ settles (λ _, 1) (w_db w) (w_db w')).
  { unfold run_once. unfold bind at 1. rewrite Hsel. unfold bind at 1.
    destruct (publish_fresh relay due empty_report env w1) as [r w2]. destruct Hp as (-> & _ & Hset).
    cbn [rr_failed empty_report]. rewrite bool_decide_eq_true_2 by done. unfold resend_unacknowledged.
    run_quiet Hq. match goal with |- context [resend_rows relay ?rows ?report env ?w3] =>
      pose proof (resend_rows_progress env relay rows report w3 Hq Hack (rows_where_NoDup _ _ _)) as Hrs;
      destruct (resend_rows relay rows report env w3) as [r3 w4] end.
    destruct Hrs as [Hok Hset'].
    { eapply (settles_fit (λ _, 0)); [|exact Hset|exact Hf]. intros i. apply once_at_most. }
    destruct r3 as [report|]; [|done]. unfold refresh_health, unacknowledged_removals. run_quiet Hq.
    eexists _, _. split; [reflexivity|]. eapply settles_trans; [|exact Hset|exact Hset'].
    intros i. apply once_at_most. }
  destruct Hend as (r & w' & Hrun & Hset). rewrite Hrun in *.
  split_and!; done.
Qed.

(** The rows that wait to be published. *)
Definition backlog (now : Z) (d : Db) : list (Z * OutboxRow) :=
  List.filter (λ kv, fresh_due now kv.2) (map_to_list (outbox_events d)).

Lemma elem_of_backlog now d id row :
  (id, row) ∈ backlog now d ↔ outbox_events d !! id = Some row ∧ fresh_due now row = true.
Proof. unfold backlog. by rewrite list_elem_of_In, filter_In, <-list_elem_of_In, elem_of_map_to_list. Qed.

Lemma backlog_NoDup now d : NoDup (backlog now d).
Proof. eapply NoDup_fmap_1, filter_keys_NoDup, NoDup_fst_map_to_list. Qed.

(** A batch that is published leaves the backlog, and nothing joins it. *)
Lemma backlog_shrinks n now d d' :
  settles n d d' → all_published (rows_where (fresh_due now) created_leb d) d' →
  (length (backlog now d') ≤ length (backlog now d) - BATCH_SIZE)%nat.
Proof.
  intros Hs Hp. set (batch := rows_where (fresh_due now) created_leb d) in *.
  assert (Hb : ∀ x, x ∈ batch → x ∈ backlog now d).
  { intros x Hx. apply (elem_of_sort created_leb). unfold batch, rows_where in Hx.
    by apply (elem_of_sublist _ _ _ Hx), sublist_take. }
  assert (Hwait : ∀ id row, (id, row) ∈ backlog now d' → (id, row) ∈ backlog now d).
  { intros id row [Hr Hf]%elem_of_backlog. destruct (Hs id row Hr) as (row0 & Hr0 & [->|Hpub] & _).
    - by apply elem_of_backlog.
    - unfold fresh_due in Hf. by rewrite Hpub in Hf. }
  assert (Hsub : backlog now d' ++ batch ⊆+ backlog now d).
  { apply NoDup_submseteq.
    - apply NoDup_app. split_and!; [apply backlog_NoDup| |eapply NoDup_fmap_1, rows_where_NoDup].
      intros [id row] [Hr Hf]%elem_of_backlog Hin. destruct (Hp id row Hin) as (row' & Hr' & Hpub).
      rewrite Hr in Hr'. injection Hr' as <-. unfold fresh_due, is_published in Hf.
      by rewrite bool_decide_eq_true_2 in Hf.
    - intros [id row] [Hin|Hin]%elem_of_app; [by apply Hwait|by apply Hb]. }
  apply submseteq_length in Hsub. rewrite length_app in Hsub.
  assert (Hlen : length batch = Nat.min BATCH_SIZE (length (backlog now d))).
  { unfold batch, rows_where. rewrite length_take. fold (backlog now d). by rewrite sort_perm. }
  lia.
Qed.

Lemma types_allowed_settles n d d' : settles n d d' → outbox_advances d d' → types_allowed d → types_allowed d'.
Proof.
  intros Hs Ha Ht id row' Hr'. destruct (Hs id row' Hr') as (row & Hr & _).
  destruct (Ha id row Hr) as (row2 & Hr2 & _ & Hty & _). rewrite Hr' in Hr2. injection Hr2 as <-.
  rewrite Hty. by eapply Ht.
Qed.

(** The backlog drains: while the broker acknowledges and nothing fails, as many passes as there are
    batches publish every waiting row. *)
Lemma run_drains env relay now passes (w : W) :
  quiet env → always_acknowledged → (∀ n, e_pgnow env n = now) → types_allowed (w_db w) →
  resends_fit (λ _, Z.of_nat (S passes)) (w_db w) →
  (length (backlog now (w_db w)) ≤ S passes * BATCH_SIZE)%nat →
  let '(r, w') := run relay passes env w in
  r = Ok tt ∧ settles (λ _, Z.of_nat (S passes)) (w_db w) (w_db w') ∧ outbox_advances (w_db w) (w_db w') ∧
  backlog now (w_db w') = [].
Proof.
  intros Hq Hack Hn. revert w. induction passes as [|passes IH]; intros w Ht Hf Hlen; cbn [run].
  all: pose proof (run_once_progress env relay now w Hq Hack Hn Ht) as Hpass;
    unfold bind at 1; destruct (run_once relay env w) as [[outcome|e] w1];
    destruct Hpass as (Hok & Hset & Hadv & Hpub); [intros id row Hr; destruct (Hf id row Hr); lia| |
      intros id row Hr; destruct (Hf id row Hr); lia|done]; try done.
  all: pose proof (backlog_shrinks _ now _ _ Hset Hpub) as Hless; run_quiet Hq.
  - split_and!; [done|done|done|]. apply nil_length_inv. lia.
  - match goal with |- context [run relay passes env ?w2'] => set (w2 := w2') end. pose proof (IH w2) as Hrest.
    destruct (run relay passes env w2) as [r w3]. destruct Hrest as (-> & Hset' & Hadv' & Hnone).
    + by eapply types_allowed_settles.
    + eapply settles_fit; [|exact Hset|exact Hf]. intros id. cbn beta. lia.
    + change (w_db w2) with (w_db w1). unfold BATCH_SIZE in *. lia.
    + split_and!; [done| |by etrans|done]. eapply settles_trans; [|exact Hset|exact Hset']. intros id. cbn beta. lia.
Qed.

(** What waited is published once nothing waits any more. *)
Lemma drained_published n now d d' id row :
  settles n d d' → outbox_advances d d' → backlog now d' = [] →
  outbox_events d !! id = Some row → fresh_due now row = true →
  ∃ row', outbox_events d' !! id = Some row' ∧ row_advances row row' ∧ is_published row' = true.
Proof.
  intros Hs Ha Hnone Hr Hf. destruct (Ha id row Hr) as (row' & Hr' & Hadv). exists row'. split_and!; [done..|].
  destruct (Hs id row' Hr') as (row0 & Hr0 & [->|Hp] & _); [|done]. rewrite Hr in Hr0. injection Hr0 as <-.
  assert (Hin : (id, row) ∈ backlog now d') by by apply elem_of_backlog. rewrite Hnone in Hin.
  by apply not_elem_of_nil in Hin.
Qed.
End Progress.

(** ** Concrete runs *)
Module RelaySamples.
#[export] Instance sample_codec : EnvelopeCodec := {|
  envelope_encodes _ := true;
  payload_text envelope := env_type envelope;
|}.
#[export] Instance sample_broker : Broker := {| max_payload := 0; broker_answer _ := PubAck |}.

Definition sample_envelope (id : Z) (event_type : string) : Envelope :=
  mkEnvelope id event_type 0 "ratatoskr-x" "aggregate" "correlation" None (Some "owner"%string) Null.
Definition sample_removal : Envelope := sample_envelope 3 REMOVAL_EVENT_TYPE.
Definition sample_captured : Envelope := sample_envelope 4 "social.source.captured.v1".
Definition sample_db : Db :=
  on_outbox_events (λ _, {[3 := fresh_row sample_removal 10; 4 := fresh_row sample_captured 5]})
    empty_db.
Definition sample_world : W := mkWorld sample_db 0 [].
Definition sample_env : Env Db := calm (100 * usec).
Definition sample_relay : OutboxRelay := mkOutboxRelay (mkResendPolicy 600 21600).

Example oldest_first :
  w_log (run_once sample_relay sample_env sample_world).2 =
    [Publish "evt.social.source.captured.v1" 4 "social.source.captured.v1" true;
     Publish "evt.social.source.removed.v1" 3 "social.source.removed.v1" true].
Proof. vm_compute. reflexivity. Qed.

Lemma acknowledge_at_most_once_witness :
  (acknowledge 3 "owner" Refused sample_env
     (acknowledge 3 "owner" Applied sample_env sample_world).2).1 ≠ Ok true.
Proof.
  apply (acknowledge_at_most_once sample_env sample_env 3 "owner" "owner" Applied Refused sample_world
    (acknowledge 3 "owner" Applied sample_env sample_world).2
    (acknowledge 3 "owner" Applied sample_env sample_world).2).
  - apply calm_rely. typeclasses eauto.
  - apply calm_rely. typeclasses eauto.
  - vm_compute. reflexivity.
  - reflexivity.
Defined.

Lemma resend_delay_schedule_witness :
  resend_delay (mkResendPolicy 600 21600) (3 + 1) = 2 * resend_delay (mkResendPolicy 600 21600) 3.
Proof.
  apply (resend_delay_schedule (mkResendPolicy 600 21600) 3); vm_compute; done.
Defined.

Lemma relay_publishes_only_after_ack_witness :
  guar sample_env published_after_ack (run sample_relay 2).
Proof.
  apply (relay_publishes_only_after_ack sample_env). apply calm_rely. typeclasses eauto.
Defined.

Lemma relay_pass_is_ordered_witness :
  let rows := rows_where (fresh_due (100 * usec)) created_leb sample_db in
  let '(_, w') := publish_fresh sample_relay rows empty_report sample_env sample_world in
  ∃ events clean, w_log w' = events ∧ attempts_in_order rows clean events.
Proof.
  generalize (relay_pass_is_ordered sample_env sample_relay (100 * usec) sample_db empty_report
    sample_world).
  cbv zeta. destruct (publish_fresh _ _ _ _ _) as [r w'].
  intros (_ & _ & events & Hl & Ho). exists events. eexists. exact (conj Hl Ho).
Defined.

Lemma relay_publishes_due_batch_witness :
  all_published (rows_where (fresh_due (100 * usec)) created_leb sample_db)
    (w_db (run_once sample_relay sample_env sample_world).2).
Proof.
  apply (relay_publishes_due_batch sample_env sample_relay (100 * usec) sample_world).
  - apply calm_quiet.
  - intros subject id payload e w. unfold publish, jetstream_publisher, send.
    case_bool_decide as H; [simpl in H; lia|reflexivity].
  - done.
  - intros id row Hrow. change (({[3 := fresh_row sample_removal 10;
      4 := fresh_row sample_captured 5]} : gmap Z OutboxRow) !! id = Some row) in Hrow.
    apply lookup_insert_Some in Hrow as [[_ <-]|[_ Hrow]]; [by do 3 right; left|].
    apply lookup_singleton_Some in Hrow as [_ <-]. by do 1 right; left.
Defined.
End RelaySamples.
