(* ===== verification/Budget.v ===== *)
(** * The durable budget gate

    [crates/x-budget/src/gate.rs] over [crates/x-persistence/src/budget_windows.rs]: fixed
    per-account request windows that are charged before any provider call. *)
From S2P Require Export Store Time.

(** ** Errors *)

Inductive BudgetError :=
  | Exhausted (reset_at : Z)
  | CostExceedsCap (cost cap : Z)
  | InvalidConfiguration (reason : string)
  | Persistence (e : PersistenceError).

(** ** The window table *)

Inductive WindowCharge :=
  | Accepted (used_requests : Z)
  | WindowExhausted.

(** [ENSURE_WINDOW]: the values must fit their columns and satisfy the row's constraints even when
    a row exists already; an existing row is left alone. *)
Definition ensure_window (account : Z) (class : string) (window_start seconds cap : Z) (d : Db) :
    option (unit * Db) :=
  match int4 seconds, int4 cap with
  | Some seconds, Some cap =>
      if bool_decide (0 < seconds) && bool_decide (0 < cap)
         && bool_decide (class = "read" ∨ class = "bookmark_write")%string
         && bool_decide (is_Some (accounts d !! account))
      then Some (tt, on_api_budget_windows
             (upsert (account, class, window_start) (mkBudgetWindow seconds cap 0) (λ row, row)) d)
      else None
  | _, _ => None
  end.

(** [READ_USAGE] and [PEEK_USAGE]. *)
Definition usage (account : Z) (class : string) (window_start : Z) (d : Db) : option Z :=
  bw_used_requests <$> api_budget_windows d !! (account, class, window_start).

(** [BUMP_USAGE]: [used_requests] must still fit its column. *)
Definition bump_usage (account : Z) (class : string) (window_start cost : Z) (d : Db) :
    option (unit * Db) :=
  match api_budget_windows d !! (account, class, window_start) with
  | None => Some (tt, d)
  | Some row =>
      used ← int4 (bw_used_requests row + cost);
      Some (tt, on_api_budget_windows
        (insert (account, class, window_start)
           (mkBudgetWindow (bw_window_seconds row) (bw_request_cap row) used)) d)
  end.

(** [REFUND_USAGE]. *)
Definition refund_usage (account : Z) (class : string) (window_start cost : Z) (d : Db) : Db :=
  on_api_budget_windows
    (alter (λ row, mkBudgetWindow (bw_window_seconds row) (bw_request_cap row)
                     (Z.max (bw_used_requests row - cost) 0))
       (account, class, window_start)) d.

(** [budget_windows::charge]. *)
Definition charge (account : Z) (class : string) (window_start seconds cap cost : Z) :
    Prog PersistenceError WindowCharge :=
  transaction Query (
    do! stmt Query (ensure_window account class window_start seconds cap) in
    let! used := stmt Query (λ d, used ← usage account class window_start d; Some (used, d)) in
    if bool_decide (used + cost > cap) then ret (Rollback WindowExhausted)
    else
      do! stmt Query (bump_usage account class window_start cost) in
      ret (Commit (Accepted used))).

(** [budget_windows::refund]. *)
Definition window_refund (account : Z) (class : string) (window_start cost : Z) :
    Prog PersistenceError unit :=
  on_pool (execute Query (refund_usage account class window_start cost)).

(** [budget_windows::window_usage]. *)
Definition window_usage (account : Z) (class : string) (window_start : Z) :
    Prog PersistenceError (option Z) :=
  on_pool (select Query (usage account class window_start)).

(** ** The gate *)

Inductive BudgetClass := Read | BookmarkWrite.

Definition as_str (class : BudgetClass) : string :=
  match class with Read => "read" | BookmarkWrite => "bookmark_write" end.

Record Reservation := mkReservation { window_start : Z; cost : Z }.
Record BudgetInspection := mkBudgetInspection { eligible : bool; reset_at : Z }.

Record BudgetGate := mkBudgetGate {
  budget_class : BudgetClass;
  request_cap_per_window : Z;
  window_seconds : Z;
  reset_offset : Z;
}.

Section Gate.
Context `{Chrono}.

(** [BudgetGate::with_clock]. *)
Definition with_clock (class : BudgetClass) (cap seconds : Z) : result BudgetGate BudgetError :=
  if bool_decide (seconds < 1 ∨ seconds > i32_max)
  then Err (InvalidConfiguration "window_seconds must be between 1 and 2147483647")
  else match try_seconds seconds with
       | None => Err (InvalidConfiguration "window_seconds is too large to add to a timestamp")
       | Some offset => Ok (mkBudgetGate class cap (default i32_max (i32_try_from seconds)) offset)
       end.

(** [window_start_for]. [div_euclid] by a positive divisor is flooring division. *)
Definition window_start_for (now seconds : Z) : Z :=
  default now (from_timestamp (timestamp now / seconds * seconds)).

Definition reset_instant (gate : BudgetGate) (start : Z) : result Z BudgetError :=
  ok_or (checked_add_signed start (reset_offset gate))
    (InvalidConfiguration "window_seconds is too large for the window's reset instant").

(** [BudgetGate::reserve]. *)
Definition reserve (gate : BudgetGate) (account request : Z) : Prog BudgetError Reservation :=
  if bool_decide (request > request_cap_per_window gate)
  then throw (CostExceedsCap request (request_cap_per_window gate))
  else
    let! now := clock_now in
    let start := window_start_for now (window_seconds gate) in
    let! outcome := map_err Persistence
      (charge account (as_str (budget_class gate)) start (window_seconds gate)
         (request_cap_per_window gate) request) in
    match outcome with
    | Accepted _ => ret (mkReservation start request)
    | WindowExhausted =>
        let! reset := of_result (reset_instant gate start) in
        throw (Exhausted reset)
    end.

(** [BudgetGate::inspect]. *)
Definition inspect (gate : BudgetGate) (account request : Z) :
    Prog BudgetError BudgetInspection :=
  let! now := clock_now in
  let start := window_start_for now (window_seconds gate) in
  let! reset := of_result (reset_instant gate start) in
  let! used := map_err Persistence
    (window_usage account (as_str (budget_class gate)) start) in
  ret (mkBudgetInspection
    (bool_decide (request ≤ request_cap_per_window gate
       ∧ default 0 used + request ≤ request_cap_per_window gate)) reset).

(** [BudgetGate::refund]. *)
Definition refund (gate : BudgetGate) (account start request : Z) : Prog BudgetError unit :=
  let bounded_cost := default i32_max (i32_try_from request) in
  map_err Persistence (window_refund account (as_str (budget_class gate)) start bounded_cost).
End Gate.

(** ** Lemmas *)

Lemma usage_on_windows f d account class start :
  usage account class start (on_api_budget_windows f d) =
    bw_used_requests <$> f (api_budget_windows d) !! (account, class, start).
Proof. done. Qed.

Lemma ensure_window_Some account class start seconds cap d u d' :
  ensure_window account class start seconds cap d = Some (u, d') →
  0 < cap ≤ i32_max ∧
  d' = on_api_budget_windows
         (upsert (account, class, start) (mkBudgetWindow seconds cap 0) (λ row, row)) d.
Proof.
  unfold ensure_window. destruct (int4 seconds) as [s|] eqn:Es; [|done].
  destruct (int4 cap) as [c|] eqn:Ec; [|done].
  apply int4_Some in Es as [-> _], Ec as [-> Hc].
  repeat case_bool_decide; simpl; try done. intros [= _ <-]. split; [lia|done].
Qed.

Lemma usage_ensure account class start seconds cap d u d' :
  ensure_window account class start seconds cap d = Some (u, d') →
  usage account class start d' = Some (default 0 (usage account class start d)).
Proof.
  intros [_ ->]%ensure_window_Some. rewrite usage_on_windows, lookup_upsert, decide_True by done.
  unfold usage. by destruct (api_budget_windows d !! _).
Qed.

Lemma usage_ensure_ne account class start seconds cap d u d' key :
  ensure_window account class start seconds cap d = Some (u, d') →
  (account, class, start) ≠ key →
  api_budget_windows d' !! key = api_budget_windows d !! key.
Proof.
  intros [_ ->]%ensure_window_Some ?. simpl. by rewrite lookup_upsert, decide_False.
Qed.

Lemma bump_usage_Some account class start cost d u d' used :
  usage account class start d = Some used →
  bump_usage account class start cost d = Some (u, d') →
  usage account class start d' = Some (used + cost) ∧
  (∀ key, (account, class, start) ≠ key →
     api_budget_windows d' !! key = api_budget_windows d !! key).
Proof.
  unfold usage at 1, bump_usage. destruct (api_budget_windows d !! _) as [row|] eqn:E; [|done].
  intros [= <-]. destruct (int4 _) as [z|] eqn:Ez; [|done].
  apply int4_Some in Ez as [-> _]. intros [= _ <-]. split.
  - rewrite usage_on_windows. by rewrite lookup_insert_eq.
  - intros key Hk. simpl. by rewrite lookup_insert_ne.
Qed.

(** A window's usage after [charge], seen from the pool: a granted charge adds its cost to the
    usage it read, every other outcome changes no usage of any window row it did not create. *)
Section Charge.
Context (account : Z) (class : string) (start seconds cap cost : Z).

Definition charge_outcome (d d' : Db) (r : result WindowCharge PersistenceError) : Prop :=
  match r with
  | Ok (Accepted used) =>
      used = default 0 (usage account class start d) ∧ used + cost ≤ cap ∧
      usage account class start d' = Some (used + cost)
  | Ok WindowExhausted =>
      cap < default 0 (usage account class start d) + cost ∧ d' = d
  | Err _ => d' = d
  end.

Lemma charge_quiet env (w : W) :
  quiet env →
  let '(r, w') := charge account class start seconds cap cost env w in
  charge_outcome (w_db w) (w_db w') r ∧ w_log w' = w_log w ∧
  (∀ key, (account, class, start) ≠ key →
     api_budget_windows (w_db w') !! key = api_budget_windows (w_db w) !! key).
Proof.
  intros Hq. unfold charge. rewrite (transaction_quiet env Hq). unfold bind.
  rewrite (stmt_quiet env Hq). simpl.
  destruct (ensure_window _ _ _ _ _ _) as [[u d1]|] eqn:E1; [|done].
  pose proof (usage_ensure _ _ _ _ _ _ _ _ E1) as Hu1.
  rewrite (stmt_quiet env Hq). simpl. rewrite Hu1. simpl.
  set (used := default 0 (usage account class start (w_db w))) in *.
  case_bool_decide as Hcap; simpl.
  - split_and!; try done; lia.
  - rewrite (stmt_quiet env Hq). simpl.
    destruct (bump_usage _ _ _ _ d1) as [[u2 d2]|] eqn:E2; simpl; [|done].
    destruct (bump_usage_Some _ _ _ _ _ _ _ _ Hu1 E2) as [Hu2 Hne].
    split_and!; try done; try lia.
    intros key Hk. rewrite Hne by done. by eapply usage_ensure_ne.
Qed.
End Charge.

(** ** Properties *)

(** Every window's usage lies between zero and the cap of its class. *)
Definition windows_within (caps : string → Z) (d : Db) : Prop :=
  ∀ account class start row,
    api_budget_windows d !! (account, class, start) = Some row →
    0 ≤ bw_used_requests row ≤ caps class.

Lemma windows_within_usage caps d account class start used :
  windows_within caps d → usage account class start d = Some used → 0 ≤ used ≤ caps class.
Proof.
  unfold usage. intros Hw Hu. destruct (api_budget_windows d !! _) as [row|] eqn:E; [|done].
  injection Hu as <-. by eapply Hw.
Qed.

(** Changing one window keeps the others within bounds. *)
Lemma windows_within_change caps d d' account class start :
  windows_within caps d →
  (∀ key, (account, class, start) ≠ key →
     api_budget_windows d' !! key = api_budget_windows d !! key) →
  (∀ used, usage account class start d' = Some used → 0 ≤ used ≤ caps class) →
  windows_within caps d'.
Proof.
  intros Hw Hne Hu a c s row Hrow.
  destruct (decide ((account, class, start) = (a, c, s))) as [[= <- <- <-]|Hk].
  - apply Hu. unfold usage. by rewrite Hrow.
  - rewrite Hne in Hrow by done. by eapply Hw.
Qed.

Lemma charge_keeps_bounds env caps account class start seconds cap cost :
  rely (Ev:=Event) env (on_db (keeps (windows_within caps))) →
  cap ≤ caps class → 0 ≤ cost →
  guar env (on_db (keeps (windows_within caps))) (charge account class start seconds cap cost).
Proof.
  intros Hr Hcap Hcost. apply guar_transaction; [typeclasses eauto|done|].
  apply guar_wp. intros w. unfold on_db, keeps. apply wp_bind, wp_stmt; [|done].
  intros u d1 E1.
  assert (K1 : windows_within caps (w_db w) → windows_within caps d1).
  { intros Hw. eapply windows_within_change; [done|intros; by eapply usage_ensure_ne|].
    intros used. rewrite (usage_ensure _ _ _ _ _ _ _ _ E1). intros [= <-].
    destruct (usage _ _ _ _) as [x|] eqn:Ex; simpl.
    - by eapply windows_within_usage.
    - apply ensure_window_Some in E1 as [? _]. lia. }
  split; simpl; [|exact K1]. apply wp_bind, wp_stmt; [|exact K1]. intros used d2 E2.
  simpl in E2. destruct (usage _ _ _ d1) as [y|] eqn:Ey; [|done].
  injection E2 as -> <-. split; simpl; [|exact K1].
  case_bool_decide; simpl; [apply wp_ret; exact K1|]. apply wp_bind, wp_stmt; [|exact K1].
  intros u3 d3 E3. simpl in E3.
  destruct (bump_usage_Some _ _ _ _ _ _ _ _ Ey E3) as [Hu3 Hne3].
  assert (K3 : windows_within caps (w_db w) → windows_within caps d3).
  { intros Hw. specialize (K1 Hw). eapply windows_within_change; [exact K1|exact Hne3|].
    intros z. rewrite Hu3. intros [= <-]. pose proof (windows_within_usage _ _ _ _ _ _ K1 Ey). lia. }
  split; simpl; [apply wp_ret; exact K3 | exact K3].
Qed.

(** A refund never charges. *)
Lemma refund_keeps_bounds env caps gate account start request :
  rely (Ev:=Event) env (on_db (keeps (windows_within caps))) → 0 ≤ request →
  guar env (on_db (keeps (windows_within caps))) (refund gate account start request).
Proof.
  intros Hr Hreq. unfold refund, window_refund. guar_steps. intros Hw a c s row. simpl.
  rewrite lookup_alter. case_decide as E; [|apply Hw]. injection E as <- <- <-.
  destruct (api_budget_windows (w_db w) !! _) as [old|] eqn:Eo; [|done]. intros [= <-]. simpl.
  specialize (Hw _ _ _ _ Eo). assert (0 ≤ default i32_max (i32_try_from request)); [|lia].
  unfold i32_try_from. destruct (int4 request) as [z|] eqn:Ez; [|done]. by apply int4_Some in Ez as [-> _].
Qed.

(** The gate charges what it was asked for, under its class's cap. *)
Lemma reserve_keeps_bounds `{Chrono} env caps gate account request :
  rely (Ev:=Event) env (on_db (keeps (windows_within caps))) →
  request_cap_per_window gate ≤ caps (as_str (budget_class gate)) → 0 ≤ request →
  guar env (on_db (keeps (windows_within caps))) (reserve gate account request).
Proof.
  intros Hr Hcap Hreq. unfold reserve. case_bool_decide; [apply guar_throw; typeclasses eauto|].
  guar_steps. by apply charge_keeps_bounds.
Qed.

Section Properties.
Context `{ChronoLaws}.

(** C5. The budget is never oversold: whatever the faults and whatever the other connections do
    within the same bound, [BudgetGate::reserve] keeps every window's usage between zero and its
    class's cap. *)
Theorem reserve_never_oversells env caps gate account request :
  rely (Ev:=Event) env (on_db (keeps (windows_within caps))) →
  request_cap_per_window gate ≤ caps (as_str (budget_class gate)) →
  0 ≤ request →
  guar env (on_db (keeps (windows_within caps))) (reserve gate account request).
Proof. apply reserve_keeps_bounds. Qed.

Lemma window_start_for_spec now seconds :
  0 ≤ now ≤ far_instant → 0 < seconds →
  let start := window_start_for now seconds in
  start mod (seconds * usec) = 0 ∧ start ≤ now < start + seconds * usec ∧
  ∀ later, start ≤ later < start + seconds * usec → later ≤ far_instant →
    window_start_for later seconds = start.
Proof.
  intros Hnow Hs start.
  assert (Hval : ∀ t, 0 ≤ t ≤ far_instant →
    window_start_for t seconds = t / (seconds * usec) * (seconds * usec)).
  { intros t Ht. unfold window_start_for. rewrite timestamp_floor.
    rewrite Z.div_div by (unfold usec; lia). rewrite (Z.mul_comm usec seconds).
    pose proof (Z.div_pos t (seconds * usec) ltac:(lia) ltac:(unfold usec; lia)).
    pose proof (Z.mul_div_le t (seconds * usec) ltac:(unfold usec; lia)).
    destruct (from_timestamp_total (t / (seconds * usec) * seconds)) as [v Hv].
    { unfold far_instant, usec in *. nia. }
    rewrite Hv. simpl. apply from_timestamp_value in Hv. lia. }
  assert (Hb : 0 < seconds * usec) by (unfold usec; lia).
  unfold start. rewrite !Hval by done. split_and!.
  - apply Z.mod_mul. lia.
  - pose proof (Z.mul_div_le now (seconds * usec)). lia.
  - pose proof (Z.mul_succ_div_gt now (seconds * usec)). lia.
  - intros later Hl Hf. pose proof (Z.div_pos now (seconds * usec)).
    rewrite Hval by nia. f_equal.
    symmetry. apply Z.div_unique with (later - now / (seconds * usec) * (seconds * usec)); lia.
Qed.

(** The window an instant is charged to starts on a multiple of the window length, contains
    the instant, and is the window of every instant it contains. *)
Theorem window_start_for_partition now seconds :
  0 ≤ now ≤ far_instant → 0 < seconds →
  let start := window_start_for now seconds in
  start mod (seconds * usec) = 0 ∧ start ≤ now < start + seconds * usec ∧
  ∀ later, start ≤ later < start + seconds * usec → later ≤ far_instant →
    window_start_for later seconds = start.
Proof. intros. by apply window_start_for_spec. Qed.

(** What a reservation observed and did, for a gate built by the constructor. *)
Definition well_formed_gate (gate : BudgetGate) : Prop :=
  0 < window_seconds gate ≤ i32_max ∧ reset_offset gate = window_seconds gate * usec.

Lemma with_clock_well_formed class cap seconds gate :
  with_clock class cap seconds = Ok gate →
  well_formed_gate gate ∧ budget_class gate = class ∧ request_cap_per_window gate = cap
  ∧ window_seconds gate = seconds.
Proof.
  unfold with_clock. case_bool_decide as Hs; [done|].
  destruct (try_seconds seconds) as [o|] eqn:E; [|done]. intros [= <-].
  apply try_seconds_value in E as ->. unfold well_formed_gate, i32_try_from. simpl.
  assert (H32 : int4 seconds = Some seconds).
  { apply int4_Some. unfold i32_min, i32_max in *. lia. }
  rewrite H32. simpl. split_and!; try done; lia.
Qed.

Lemma reserve_accounting env gate account request (w : W) :
  quiet env → well_formed_gate gate →
  0 ≤ e_clock env (w_tick w) →
  e_clock env (w_tick w) + window_seconds gate * usec ≤ far_instant →
  let '(r, w') := reserve gate account request env w in
  let now := e_clock env (w_tick w) in
  let class := as_str (budget_class gate) in
  let start := window_start_for now (window_seconds gate) in
  let before := default 0 (usage account class start (w_db w)) in
  match r with
  | Ok reservation =>
      reservation = mkReservation start request ∧
      before + request ≤ request_cap_per_window gate ∧
      usage account class start (w_db w') = Some (before + request)
  | Err (Exhausted reset) =>
      request_cap_per_window gate < before + request ∧ w_db w' = w_db w ∧
      now < reset ∧ reset = start + window_seconds gate * usec
  | Err (CostExceedsCap c cap) =>
      c = request ∧ cap = request_cap_per_window gate ∧ cap < c ∧ w_db w' = w_db w
  | Err (Persistence _) => w_db w' = w_db w
  | Err (InvalidConfiguration _) => False
  end ∧
  (∀ key, (account, class, start) ≠ key →
     api_budget_windows (w_db w') !! key = api_budget_windows (w_db w) !! key).
Proof.
  intros Hq [Hs Ho] Hn Hf. unfold reserve.
  set (now := e_clock env (w_tick w)) in *. set (class := as_str (budget_class gate)).
  set (start := window_start_for now (window_seconds gate)).
  case_bool_decide as Hc; simpl; [split_and!; auto; lia|].
  unfold bind at 1. simpl. fold now start. unfold bind, map_err.
  pose proof (charge_quiet account class start (window_seconds gate)
                (request_cap_per_window gate) request env (tick w) Hq) as Hch.
  fold class. destruct (charge _ _ _ _ _ _ env (tick w)) as [[[used|]|e] w'];
    simpl in *; destruct Hch as (Hout & _ & Hne).
  - destruct Hout as (-> & ? & ?). auto.
  - destruct Hout as [Hover Hd].
    assert (0 < window_seconds gate * usec) by (unfold usec; lia).
    destruct (window_start_for_spec now (window_seconds gate)) as (_ & Hin & _); [lia..|].
    fold start in Hin. unfold reset_instant. rewrite Ho.
    assert (0 ≤ start).
    { unfold start, window_start_for. rewrite timestamp_floor.
      destruct (from_timestamp _) as [v|] eqn:Ev; simpl; [|lia].
      apply from_timestamp_value in Ev as ->. unfold usec.
      pose proof (Z.div_pos (now / 1000000) (window_seconds gate)).
      pose proof (Z.div_pos now 1000000). nia. }
    destruct (checked_add_total start (window_seconds gate * usec)) as [v Hv];
      [lia | unfold usec; lia | lia |].
    rewrite Hv. simpl. apply checked_add_value in Hv as ->. split_and!; auto; lia.
  - auto.
Qed.

(** C22. Accounting of one reservation: a granted one charges exactly its cost to the current
    window and fits the cap; an exhausted one proves the cost did not fit, changes nothing, and
    names an instant after now at which the window ends; every other refusal changes nothing.
    Other windows are never touched. *)
Theorem reserve_accounts_exactly env gate account request (w : W) :
  quiet env → well_formed_gate gate →
  0 ≤ e_clock env (w_tick w) →
  e_clock env (w_tick w) + window_seconds gate * usec ≤ far_instant →
  let '(r, w') := reserve gate account request env w in
  let now := e_clock env (w_tick w) in
  let class := as_str (budget_class gate) in
  let start := window_start_for now (window_seconds gate) in
  let before := default 0 (usage account class start (w_db w)) in
  match r with
  | Ok reservation =>
      reservation = mkReservation start request ∧
      before + request ≤ request_cap_per_window gate ∧
      usage account class start (w_db w') = Some (before + request)
  | Err (Exhausted reset) =>
      request_cap_per_window gate < before + request ∧ w_db w' = w_db w ∧
      now < reset ∧ reset = start + window_seconds gate * usec
  | Err (CostExceedsCap c cap) =>
      c = request ∧ cap = request_cap_per_window gate ∧ cap < c ∧ w_db w' = w_db w
  | Err (Persistence _) => w_db w' = w_db w
  | Err (InvalidConfiguration _) => False
  end ∧
  (∀ key, (account, class, start) ≠ key →
     api_budget_windows (w_db w') !! key = api_budget_windows (w_db w) !! key).
Proof. intros. by apply reserve_accounting. Qed.

(** [inspect] consumes nothing and predicts [reserve]: run on the same state at the same
    instant, it answers eligible exactly when the reservation's cost fits, so an ineligible cost
    is never granted and an eligible one is never refused as exhausted or over the cap. *)
Theorem inspect_predicts_reserve env gate account request (w w1 w2 : W) i r :
  quiet env → well_formed_gate gate →
  0 ≤ e_clock env (w_tick w) →
  e_clock env (w_tick w) + window_seconds gate * usec ≤ far_instant →
  inspect gate account request env w = (Ok i, w1) →
  reserve gate account request env w = (r, w2) →
  w_db w1 = w_db w ∧
  (if eligible i then ¬ (∃ reset, r = Err (Exhausted reset)) ∧ ¬ (∃ c k, r = Err (CostExceedsCap c k))
   else is_ok r = false).
Proof.
  intros Hq Hg Hn Hf Hi Hr.
  pose proof (reserve_accounting env gate account request w Hq Hg Hn Hf) as Hspec.
  rewrite Hr in Hspec. destruct Hspec as [Hspec _].
  unfold inspect, bind, map_err, window_usage in Hi. simpl in Hi.
  destruct (reset_instant _ _) as [reset|]; simpl in Hi; [|done].
  rewrite (on_pool_quiet env Hq), (select_quiet env Hq) in Hi. simpl in Hi.
  injection Hi as <- <-. simpl. split; [done|].
  case_bool_decide as He; simpl.
  - split; [intros [rs ->] | intros (c & k & ->)]; simpl in Hspec; lia.
  - destruct r as [rsv|e]; [|done]. simpl in Hspec. exfalso. apply He.
    unfold reserve in Hr. case_bool_decide; [done|]. lia.
Qed.

(** A refund of a granted reservation restores the usage the reservation found, and no
    refund drives any usage below zero. *)
Theorem refund_undoes_reserve env gate account request (w w1 w2 : W) reservation r :
  quiet env → well_formed_gate gate →
  0 ≤ e_clock env (w_tick w) →
  e_clock env (w_tick w) + window_seconds gate * usec ≤ far_instant →
  0 ≤ request ≤ i32_max →
  (∀ used, usage account (as_str (budget_class gate))
     (window_start_for (e_clock env (w_tick w)) (window_seconds gate)) (w_db w) = Some used →
     0 ≤ used) →
  reserve gate account request env w = (Ok reservation, w1) →
  refund gate account (window_start reservation) (cost reservation) env w1 = (r, w2) →
  r = Ok tt ∧
  usage account (as_str (budget_class gate)) (window_start reservation) (w_db w2) =
    Some (default 0 (usage account (as_str (budget_class gate))
                       (window_start reservation) (w_db w))).
Proof.
  intros Hq Hg Hn Hf Hreq Hpos Hres Href.
  pose proof (reserve_accounting env gate account request w Hq Hg Hn Hf) as Hspec.
  rewrite Hres in Hspec. destruct Hspec as [(-> & _ & Hu) _].
  unfold refund, map_err, window_refund in Href. simpl in *.
  rewrite (on_pool_quiet env Hq), (execute_quiet env Hq) in Href. injection Href as <- <-.
  split; [done|]. simpl. unfold refund_usage. rewrite usage_on_windows, lookup_alter_eq.
  unfold usage in Hu at 1. destruct (api_budget_windows (w_db w1) !! _) as [row|]; [|done].
  injection Hu as Hu. simpl. f_equal. rewrite Hu.
  assert (H32 : i32_try_from request = Some request).
  { apply int4_Some. unfold i32_min. lia. }
  rewrite H32. simpl.
  set (b := default 0 _) in *. assert (0 ≤ b).
  { unfold b. destruct (usage _ _ _ _) as [x|] eqn:E; simpl; [by apply Hpos | lia]. }
  lia.
Qed.
End Properties.

(** ** Concrete runs *)
Module BudgetSamples.
Import SampleChrono.

Definition sample_gate : BudgetGate := mkBudgetGate Read 10 900 (900 * usec).
Definition sample_now : Z := 1700000123 * usec.
Definition sample_db : Db := on_accounts (insert 1 (mkAccount 7 "u1" "connected" 0)) empty_db.
Definition sample_world : W := mkWorld sample_db 0 [].

Example constructor_builds_the_gate : with_clock Read 10 900 = Ok sample_gate.
Proof. reflexivity. Qed.

Example three_then_eight :
  let '(r1, w1) := reserve sample_gate 1 3 (calm sample_now) sample_world in
  let '(r2, _) := reserve sample_gate 1 8 (calm sample_now) w1 in
  (is_ok r1, r2) = (true, Err (Exhausted (1700001000 * usec))).
Proof. vm_compute. reflexivity. Qed.

Lemma sample_well_formed : well_formed_gate sample_gate.
Proof. split; [unfold i32_max; simpl; lia | reflexivity]. Defined.

Lemma reserve_never_oversells_witness :
  guar (Ev:=Event) (calm sample_now) (on_db (keeps (windows_within (λ _, 10))))
    (reserve sample_gate 1 3).
Proof.
  apply (reserve_never_oversells (calm sample_now) (λ _, 10) sample_gate 1 3);
    [apply calm_rely; typeclasses eauto | simpl; lia | lia].
Defined.

Lemma window_start_for_partition_witness :
  window_start_for sample_now 900 mod (900 * usec) = 0.
Proof.
  apply (window_start_for_partition sample_now 900);
    unfold sample_now, far_instant, far_seconds, usec; lia.
Defined.

Lemma reserve_accounts_exactly_witness :
  let '(r, w') := reserve sample_gate 1 3 (calm sample_now) sample_world in
  ∀ key, (1, "read"%string, window_start_for sample_now 900) ≠ key →
    api_budget_windows (w_db w') !! key = api_budget_windows sample_db !! key.
Proof.
  generalize (reserve_accounts_exactly (calm sample_now) sample_gate 1 3 sample_world
    (calm_quiet _) sample_well_formed ltac:(vm_compute; discriminate)
    ltac:(vm_compute; discriminate)).
  destruct (reserve _ _ _ _ _) as [r w']. intros [_ Hkeys]. exact Hkeys.
Defined.

Lemma inspect_predicts_reserve_witness :
  is_ok (reserve sample_gate 1 11 (calm sample_now) sample_world).1 = false.
Proof.
  apply (inspect_predicts_reserve (calm sample_now) sample_gate 1 11 sample_world
    (inspect sample_gate 1 11 (calm sample_now) sample_world).2
    (reserve sample_gate 1 11 (calm sample_now) sample_world).2
    (mkBudgetInspection false (1700001000 * usec)) _ (calm_quiet _) sample_well_formed);
    try (vm_compute; discriminate); vm_compute; reflexivity.
Defined.

Definition reserved : W := (reserve sample_gate 1 3 (calm sample_now) sample_world).2.

Lemma refund_undoes_reserve_witness :
  usage 1 "read" (window_start_for sample_now 900)
    (w_db (refund sample_gate 1 (window_start_for sample_now 900) 3 (calm sample_now) reserved).2)
  = Some 0.
Proof.
  apply (refund_undoes_reserve (calm sample_now) sample_gate 1 3 sample_world reserved
    (refund sample_gate 1 (window_start_for sample_now 900) 3 (calm sample_now) reserved).2
    (mkReservation (window_start_for sample_now 900) 3) (Ok tt) (calm_quiet _)
    sample_well_formed);
    try (vm_compute; discriminate); try (vm_compute; split; discriminate);
    vm_compute; reflexivity.
Defined.
End BudgetSamples.
