(* ===== verification/Oauth.v ===== *)
(** * OAuth building blocks

    The pure parts of [crates/x-oauth/src]: scope auditing ([scope.rs]), the credential payload
    ([payload.rs]), the token cipher ([cipher.rs]) and the authorization URL ([intent.rs], [pkce.rs]).
    The [sha2], [aes-gcm] and [base64] crates are an interface with their documented facts. *)
From S2P Require Export Store Text.

(** ** Third-party cryptography *)

Class Crypto := {
  sha256 : string → string;                           (* [Sha256::digest] *)
  gcm_encrypt : string → string → string → string;    (* key, nonce, plaintext *)
  gcm_decrypt : string → string → string → option string;
  url_safe_no_pad_encode : string → string;           (* [URL_SAFE_NO_PAD.encode] *)
}.

Class CryptoLaws `{Crypto} : Prop := {
  sha256_length s : String.length (sha256 s) = 32%nat;
  gcm_round_trip k n p :
    String.length k = 32%nat → String.length n = 12%nat →
    gcm_decrypt k n (gcm_encrypt k n p) = Some p;
  gcm_length k n p :
    String.length (gcm_encrypt k n p) = (String.length p + 16)%nat;
}.

(** ** Configuration *)

Record OauthConfig := mkOauthConfig {
  authorize_url : string;
  token_url : string;
  revocation_url : string;
  client_id : option string;
  client_secret : option string;
  redirect_uri : option string;
  read_scopes : list string;
  intent_ttl_seconds : Z;
}.

(** [.filter(|value| !value.is_empty())]. *)
Definition non_empty (o : option string) : option string :=
  s ← o; if String.eqb s "" then None else Some s.

(** ** Errors *)

Inductive CipherError := Key | Auth | Binding | Version.

(** ** Scopes *)

(** [Vec::remove] at the first position that equals [x]. *)
Fixpoint remove_first (x : string) (xs : list string) : option (list string) :=
  match xs with
  | [] => None
  | y :: ys => if String.eqb y x then Some ys else cons y <$> remove_first x ys
  end.

(** [missing_scopes]. *)
Fixpoint missing_loop (requested remaining missing : list string) : list string :=
  match requested with
  | [] => missing
  | scope :: requested =>
      match remove_first scope remaining with
      | Some remaining => missing_loop requested remaining missing
      | None => missing_loop requested remaining (missing ++ [scope])
      end
  end.
Definition missing_scopes (requested granted : list string) : list string :=
  missing_loop requested granted [].

(** ** The credential payload *)

Record CredentialPayload := mkCredentialPayload { access_token : string; refresh_token : string }.

Definition append_length_prefixed (out value : string) : string :=
  let len := Z.min (Z.of_nat (String.length value)) u32_max in
  out +:+ be_bytes 4 len +:+ value.

(** [CredentialPayload::encode]. *)
Definition payload_encode (p : CredentialPayload) : string :=
  append_length_prefixed (append_length_prefixed "" (access_token p)) (refresh_token p).

Definition take_length_prefixed (bytes : string) : option (string * string) :=
  if bool_decide (4 ≤ String.length bytes)%nat then
    let len := Z.to_nat (be_value (str_take 4 bytes)) in
    if bool_decide (4 + len ≤ String.length bytes)%nat
    then Some (str_take len (str_drop 4 bytes), str_drop (4 + len) bytes)
    else None
  else None.

(** [CredentialPayload::decode]. *)
Definition payload_decode (bytes : string) : option CredentialPayload :=
  '(access, rest) ← take_length_prefixed bytes;
  '(refresh, tail) ← take_length_prefixed rest;
  if negb (String.eqb tail "") then None
  else if utf8_valid access && utf8_valid refresh
       then Some (mkCredentialPayload access refresh) else None.

(** ** The token cipher *)

Definition VERSION_PREFIX : string := String (byte 118) (String (byte 1) "").
Definition NONCE_LEN : nat := 12.
Definition TAG_LEN : nat := 16.
Definition KEY_LEN : nat := 32.

Inductive Purpose := Credential | IntentVerifier.

#[export] Instance Purpose_eq_dec : EqDecision Purpose.
Proof. solve_decision. Defined.

(** [Purpose::label]. *)
Definition label (purpose : Purpose) : string :=
  match purpose with
  | Credential => "ratatoskr/x/credential/v1"
  | IntentVerifier => "ratatoskr/x/intent-verifier/v1"
  end.

(** [Uuid::as_bytes]. *)
Definition uuid_bytes (id : Z) : string := be_bytes 16 id.

(** [Purpose::binding_prefix]. *)
Definition binding_prefix (purpose : Purpose) (owner : Z) : string :=
  label purpose +:+ uuid_bytes owner.

Definition matched_label (inner : string) : option (Purpose * nat) :=
  if starts_with (label Credential) inner
  then Some (Credential, String.length (label Credential))
  else if starts_with (label IntentVerifier) inner
  then Some (IntentVerifier, String.length (label IntentVerifier))
  else None.

Record TokenCipher := mkTokenCipher { key : string }.

(** [TokenCipher::new]. *)
Definition new_cipher (key : string) : result TokenCipher CipherError :=
  if negb (String.length key =? KEY_LEN)%nat then Err Key else Ok (mkTokenCipher key).

Section Cipher.
Context `{Crypto}.

(** [TokenCipher::seal] with the nonce the random source provided. *)
Definition seal_with (cipher : TokenCipher) (nonce : string) (owner : Z) (purpose : Purpose)
    (plaintext : string) : string :=
  let inner := binding_prefix purpose owner +:+ plaintext in
  VERSION_PREFIX +:+ nonce +:+ gcm_encrypt (key cipher) nonce inner.

(** [TokenCipher::open]. *)
Definition open (cipher : TokenCipher) (owner : Z) (purpose : Purpose) (envelope : string) :
    result string CipherError :=
  if negb (starts_with VERSION_PREFIX envelope) then Err Version
  else
    let body_start := (String.length VERSION_PREFIX + NONCE_LEN)%nat in
    if (String.length envelope <? body_start + TAG_LEN)%nat then Err Auth
    else
      let nonce := str_take NONCE_LEN (str_drop (String.length VERSION_PREFIX) envelope) in
      let ciphertext := str_drop body_start envelope in
      match gcm_decrypt (key cipher) nonce ciphertext with
      | None => Err Auth
      | Some inner =>
          match matched_label inner with
          | None => Err Binding
          | Some (sealed_purpose, label_len) =>
              if (String.length inner <? label_len + 16)%nat then Err Binding
              else
                let sealed_owner := be_value (str_take 16 (str_drop label_len inner)) in
                if bool_decide (sealed_purpose ≠ purpose ∨ sealed_owner ≠ owner) then Err Binding
                else Ok (str_drop (label_len + 16) inner)
          end
      end.

(** [TokenCipher::seal]: one draw from the OS random source. *)
Definition seal_fresh {E} (cipher : TokenCipher) (owner : Z) (purpose : Purpose) (plaintext : string) :
    Prog E string :=
  let! entropy := new_uuid in
  ret (seal_with cipher (be_bytes NONCE_LEN entropy) owner purpose plaintext).

(** ** PKCE *)

(** [challenge_from_verifier]. *)
Definition challenge_from_verifier (verifier : string) : string :=
  url_safe_no_pad_encode (sha256 verifier).

(** [generate_verifier] and [generate_state] from the drawn bytes. *)
Definition generate_verifier {E} : Prog E string :=
  let! entropy := new_uuid in ret (url_safe_no_pad_encode (be_bytes 64 entropy)).
Definition generate_state {E} : Prog E string :=
  let! entropy := new_uuid in ret (url_safe_no_pad_encode (be_bytes 32 entropy)).

(** [state_digest] and [sha256_hex]. *)
Definition state_digest (state : string) : string := hex (sha256 state).
Definition sha256_hex (value : string) : string := hex (sha256 value).
End Cipher.

(** ** Authorization intents *)

Inductive IntentPurpose := ReadConnection | BookmarkWritePurpose (account_id : Z).

(** [IntentPurpose::persistence_binding]. *)
Definition persistence_binding (purpose : IntentPurpose) : string * option Z :=
  match purpose with
  | ReadConnection => ("read_connection"%string, None)
  | BookmarkWritePurpose account_id => ("bookmark_write"%string, Some account_id)
  end.

Record AuthorizationIntent := mkAuthorizationIntent {
  ai_state : string;
  ai_code_verifier : string;
  ai_code_challenge : string;
}.

(** [AuthorizationIntent::issue]. *)
Definition issue `{Crypto} {E} : Prog E AuthorizationIntent :=
  let! code_verifier := generate_verifier in
  let! state := generate_state in
  ret (mkAuthorizationIntent state code_verifier (challenge_from_verifier code_verifier)).

Definition unreserved (c : ascii) : bool :=
  is_ascii_upper c || is_ascii_lower c || is_ascii_digit c
  || byte_in 45 46 c || byte_in 95 95 c || byte_in 126 126 c.

(** [form_urlencode], and [percent_encode] of [token_client.rs]. *)
Fixpoint form_urlencode (value : string) : string :=
  match value with
  | EmptyString => ""
  | String c value =>
      (if unreserved c then String c "" else String "%" (hex2 true c)) +:+ form_urlencode value
  end.

Definition write_scope : string := "bookmark.write".

(** The read scopes, with the write scope appended when it is not among them. *)
Definition with_write_scope (scopes : list string) : list string :=
  if bool_decide (write_scope ∈ scopes) then scopes else scopes ++ [write_scope].

(** [authorization_url]; [None] is [FlowError::Configuration]. *)
Definition authorization_url (oauth : OauthConfig) (intent : AuthorizationIntent)
    (purpose : IntentPurpose) : option string :=
  client_id ← non_empty (client_id oauth);
  redirect_uri ← non_empty (redirect_uri oauth);
  let scopes := match purpose with
                | BookmarkWritePurpose _ => with_write_scope (read_scopes oauth)
                | ReadConnection => read_scopes oauth
                end in
  Some (authorize_url oauth +:+ "?response_type=code&client_id=" +:+ form_urlencode client_id
    +:+ "&redirect_uri=" +:+ form_urlencode redirect_uri
    +:+ "&scope=" +:+ form_urlencode (str_join " " scopes)
    +:+ "&state=" +:+ form_urlencode (ai_state intent)
    +:+ "&code_challenge=" +:+ form_urlencode (ai_code_challenge intent)
    +:+ "&code_challenge_method=S256")%string.

(** ** Lemmas *)

Lemma remove_first_Some x xs ys : remove_first x xs = Some ys → xs ≡ₚ x :: ys.
Proof.
  revert ys. induction xs as [|y xs IH]; simpl; intros ys; [done|].
  destruct (String.eqb_spec y x) as [->|Hne]; [by intros [= ->]|].
  destruct (remove_first x xs) as [zs|]; [|done]. intros [= <-].
  rewrite (IH zs eq_refl). by apply Permutation_swap.
Qed.

Lemma remove_first_None x xs : remove_first x xs = None ↔ x ∉ xs.
Proof.
  induction xs as [|y xs IH]; simpl; [split; [intros _; apply not_elem_of_nil|done]|].
  rewrite not_elem_of_cons. destruct (String.eqb_spec y x) as [->|Hne]; [by split; [|intros [[] _]]|].
  rewrite fmap_None, IH. split; [intros; split; [by intros ->|done] | by intros [_ ?]].
Qed.

(** How often a scope occurs in a list. *)
Definition occurrences (scope : string) (scopes : list string) : nat :=
  length (filter (λ x, x = scope) scopes).

Lemma occurrences_cons scope x xs :
  occurrences scope (x :: xs) =
    ((if bool_decide (x = scope) then 1 else 0) + occurrences scope xs)%nat.
Proof. unfold occurrences. rewrite filter_cons. by repeat case_decide; case_bool_decide. Qed.

Lemma occurrences_perm scope xs ys : xs ≡ₚ ys → occurrences scope xs = occurrences scope ys.
Proof. unfold occurrences. by intros ->. Qed.

Lemma occurrences_absent scope xs : scope ∉ xs → occurrences scope xs = 0%nat.
Proof.
  induction xs as [|x xs IH]; [done|]. rewrite not_elem_of_cons, occurrences_cons.
  intros [Hne Hin]. rewrite (IH Hin), bool_decide_eq_false_2; [done|]. by intros ->.
Qed.

Lemma missing_loop_spec requested granted missing scope :
  occurrences scope (missing_loop requested granted missing) =
    (occurrences scope missing
     + (occurrences scope requested - occurrences scope granted))%nat ∧
  ∃ rest, missing_loop requested granted missing = missing ++ rest ∧ rest `sublist_of` requested.
Proof.
  revert granted missing. induction requested as [|x xs IH]; intros granted missing; simpl.
  - split; [unfold occurrences at 3; simpl; lia|]. exists []. by rewrite app_nil_r.
  - rewrite occurrences_cons. destruct (remove_first x granted) as [rest|] eqn:E.
    + destruct (IH rest missing) as (-> & r & -> & Hr).
      apply remove_first_Some in E. rewrite (occurrences_perm _ _ _ E), occurrences_cons.
      split; [case_bool_decide; lia|]. exists r. split; [done|]. by constructor.
    + destruct (IH granted (missing ++ [x])) as (-> & r & -> & Hr).
      apply remove_first_None in E. split.
      * unfold occurrences at 1. rewrite filter_app, length_app. fold (occurrences scope missing).
        rewrite (filter_cons _ x []), filter_nil. case_bool_decide as Hx; case_decide; try done.
        -- subst. rewrite (occurrences_absent _ _ E). simpl. lia.
        -- simpl. lia.
      * exists (x :: r). rewrite <-app_assoc. split; [done|]. by constructor.
Qed.

Lemma take_length_prefixed_app value rest :
  Z.of_nat (String.length value) ≤ u32_max →
  take_length_prefixed (be_bytes 4 (Z.of_nat (String.length value)) +:+ value +:+ rest)
    = Some (value, rest).
Proof.
  intros Hl. unfold take_length_prefixed. rewrite !str_length_app, be_bytes_length.
  rewrite str_take_app by (by rewrite be_bytes_length).
  rewrite be_value_bytes by (unfold u32_max in Hl; change (256 ^ Z.of_nat 4) with 4294967296; lia).
  rewrite Nat2Z.id. do 2 (rewrite bool_decide_eq_true_2 by lia).
  rewrite str_drop_app by (by rewrite be_bytes_length). rewrite str_take_app by done.
  rewrite <-str_app_assoc. rewrite str_drop_app; [done|].
  by rewrite str_length_app, be_bytes_length.
Qed.

Lemma take_length_prefixed_Some bytes value rest :
  take_length_prefixed bytes = Some (value, rest) →
  Z.of_nat (String.length value) ≤ u32_max ∧
  bytes = be_bytes 4 (Z.of_nat (String.length value)) +:+ value +:+ rest.
Proof.
  unfold take_length_prefixed. case_bool_decide as H4; [|done].
  assert (He : ∀ n s, str_drop (4 + n) s = str_drop n (str_drop 4 s)).
  { intros n s. do 4 (destruct s as [|? s]; [by destruct n|]). done. }
  rewrite He. pose proof (str_length_drop 4 bytes) as Hq.
  pose proof (str_take_drop 4 bytes) as Hsplit.
  set (p := str_take 4 bytes) in *. set (q := str_drop 4 bytes) in *.
  case_bool_decide as Hl; [|done]. intros [= <- <-].
  assert (Hp : String.length p = 4%nat) by (by apply str_length_take).
  pose proof (be_value_bound p) as Hb. rewrite Hp in Hb.
  change (256 ^ Z.of_nat 4) with 4294967296 in Hb.
  rewrite str_length_take by lia. rewrite Z2Nat.id by lia.
  split; [unfold u32_max; lia|].
  rewrite <-Hp, be_bytes_value, str_take_drop. by symmetry.
Qed.

Lemma uuid_bytes_length id : String.length (uuid_bytes id) = 16%nat.
Proof. apply be_bytes_length. Qed.

Lemma matched_label_prefix purpose owner rest :
  matched_label (binding_prefix purpose owner +:+ rest) =
    Some (purpose, String.length (label purpose)).
Proof.
  unfold matched_label, binding_prefix. rewrite str_app_assoc.
  destruct purpose; [by rewrite starts_with_app|].
  assert (Hno : ∀ s, starts_with (label Credential) (label IntentVerifier +:+ s) = false)
    by reflexivity.
  by rewrite Hno, starts_with_app.
Qed.

Lemma matched_label_Some inner purpose n :
  matched_label inner = Some (purpose, n) →
  n = String.length (label purpose) ∧ ∃ rest, inner = label purpose +:+ rest.
Proof.
  unfold matched_label, starts_with.
  destruct (bool_decide_reflect (is_Some (str_strip_prefix (label Credential) inner))) as [[r Hr]|_];
    [intros [= <- <-]; split; [done|]; exists r; by apply str_strip_prefix_Some|].
  destruct (bool_decide_reflect (is_Some (str_strip_prefix (label IntentVerifier) inner))) as [[r Hr]|_];
    [intros [= <- <-]; split; [done|]; exists r; by apply str_strip_prefix_Some|done].
Qed.

(** UUIDs are 128-bit values. *)
Definition is_uuid (id : Z) : Prop := 0 ≤ id < 2 ^ 128.

Lemma be_value_uuid owner : is_uuid owner → be_value (uuid_bytes owner) = owner.
Proof. intros. by apply be_value_bytes. Qed.

Lemma uuid_bytes_value s : String.length s = 16%nat → uuid_bytes (be_value s) = s.
Proof. unfold uuid_bytes. intros <-. apply be_bytes_value. Qed.

(** A percent-decoder and a query splitter, the reference the URL builder is judged against. *)
Fixpoint percent_decode (s : string) : option string :=
  match s with
  | EmptyString => Some ""%string
  | String c rest =>
      if Ascii.eqb c "%" then
        match rest with
        | String a (String b rest) =>
            x ← hex_val a; y ← hex_val b; r ← percent_decode rest;
            Some (String (byte (x * 16 + y)) r)
        | _ => None
        end
      else String c <$> percent_decode rest
  end.

Definition parse_pair (s : string) : option (string * string) :=
  '(k, v) ← split_once "=" s; k ← percent_decode k; v ← percent_decode v; Some (k, v).
Definition parse_query (q : string) : option (list (string * string)) :=
  mapM parse_pair (split_on "&" q).

(** The characters an encoded component consists of. *)
Definition encoded_char (c : ascii) : bool := unreserved c || Ascii.eqb c "%".

Ltac byte_cases := let c := fresh "c" in
  intros c; repeat match goal with
  | |- ∀ _ : bool, _ => intros []
  | c : ascii |- _ => destruct c as [[] [] [] [] [] [] [] []]
  end; vm_compute; try done.

Lemma unreserved_not_special c :
  unreserved c = true → Ascii.eqb c "%" = false ∧ Ascii.eqb c "&" = false ∧ Ascii.eqb c "=" = false.
Proof. revert c. byte_cases. Qed.

Lemma encoded_char_not_special c :
  encoded_char c = true → Ascii.eqb c "&" = false ∧ Ascii.eqb c "=" = false.
Proof. revert c. byte_cases. Qed.

Lemma hex2_encoded c : all_chars encoded_char (hex2 true c) = true.
Proof. revert c. byte_cases. Qed.

Lemma form_urlencode_encoded s : all_chars encoded_char (form_urlencode s) = true.
Proof.
  induction s as [|c s IH]; simpl; [done|]. rewrite all_chars_app, IH, andb_true_r.
  destruct (unreserved c) eqn:E; simpl.
  - unfold encoded_char. by rewrite E.
  - apply hex2_encoded.
Qed.

Lemma percent_decode_plain c rest :
  Ascii.eqb c "%" = false → percent_decode (String c rest) = String c <$> percent_decode rest.
Proof. intros Hc. simpl. by rewrite Hc. Qed.

Lemma percent_decode_hex c rest :
  percent_decode (String "%" (hex2 true c) +:+ rest) = String c <$> percent_decode rest.
Proof.
  unfold hex2. simpl. pose proof (byte_val_range c).
  rewrite !hex_val_digit by (first [apply Z.mod_pos_bound; lia
    | split; [apply Z.div_pos|apply Z.div_lt_upper_bound]; lia]).
  simpl. rewrite Z.mul_comm, <-Z.div_mod, byte_byte_val by lia.
  by destruct (percent_decode rest).
Qed.

Lemma percent_decode_encode s : percent_decode (form_urlencode s) = Some s.
Proof.
  induction s as [|c s IH]; simpl; [done|]. destruct (unreserved c) eqn:E.
  - change (String c "" +:+ form_urlencode s) with (String c (form_urlencode s)).
    rewrite percent_decode_plain, IH; [done|]. by apply unreserved_not_special.
  - rewrite percent_decode_hex, IH. done.
Qed.

(** A key without special characters, and an encoded value, make one pair of a query. *)
Definition query_key (k : string) : Prop := all_chars unreserved k = true.

Lemma query_pair_no_amp k v :
  query_key k →
  all_chars (λ a, negb (Ascii.eqb a "&")) (k +:+ String "=" (form_urlencode v)) = true.
Proof.
  intros Hk. rewrite all_chars_app. simpl. apply andb_true_intro. split.
  - eapply all_chars_impl, Hk. intros c Hc. by destruct (unreserved_not_special c Hc) as (_ & -> & _).
  - eapply all_chars_impl, form_urlencode_encoded. intros c Hc.
    by destruct (encoded_char_not_special c Hc) as [-> _].
Qed.

Lemma percent_decode_key k : query_key k → percent_decode k = Some k.
Proof.
  unfold query_key. induction k as [|c k IH]; [done|]. cbn [all_chars].
  rewrite andb_true_iff. intros [Hc Hk]. destruct (unreserved_not_special c Hc) as (Hp & _).
  by rewrite percent_decode_plain, IH.
Qed.

Lemma parse_pair_encoded k v :
  query_key k → parse_pair (k +:+ String "=" (form_urlencode v)) = Some (k, v).
Proof.
  intros Hk. unfold parse_pair. rewrite split_once_app.
  - simpl. rewrite (percent_decode_key k) by done. simpl. by rewrite percent_decode_encode.
  - eapply all_chars_impl, Hk. intros c Hc. by destruct (unreserved_not_special c Hc) as (_ & _ & ->).
Qed.

Lemma parse_query_encoded pairs :
  pairs ≠ [] → Forall (λ kv, query_key kv.1) pairs →
  parse_query (str_join "&" ((λ kv, kv.1 +:+ String "=" (form_urlencode kv.2)) <$> pairs))
    = Some pairs.
Proof.
  intros Hne Hk. unfold parse_query. change "&"%string with (String "&" "") at 1.
  rewrite split_on_join.
  - apply mapM_fmap_Forall_Some. eapply Forall_impl; [exact Hk|].
    intros [k v]. apply parse_pair_encoded.
  - by destruct pairs.
  - apply Forall_fmap. eapply Forall_impl; [exact Hk|]. intros [k v]. apply query_pair_no_amp.
Qed.

(** ** Properties *)

(** [missing_scopes] is the multiset difference of the requested and the granted scopes: every
    scope is missing as often as it was requested beyond what was granted, and the missing scopes
    keep their requested order. *)
Theorem missing_scopes_difference requested granted :
  (∀ scope, occurrences scope (missing_scopes requested granted) =
     (occurrences scope requested - occurrences scope granted)%nat) ∧
  missing_scopes requested granted `sublist_of` requested.
Proof.
  unfold missing_scopes. split.
  - intros scope. by destruct (missing_loop_spec requested granted [] scope) as [-> _].
  - by destruct (missing_loop_spec requested granted [] "") as (_ & rest & -> & Hr).
Qed.

(** The pairs of tokens that [payload_encode] can represent. *)
Definition encodable (p : CredentialPayload) : Prop :=
  Z.of_nat (String.length (access_token p)) ≤ u32_max ∧
  Z.of_nat (String.length (refresh_token p)) ≤ u32_max ∧
  utf8_valid (access_token p) = true ∧ utf8_valid (refresh_token p) = true.

(** The credential encoding is canonical: bytes decode to a pair of tokens exactly when they
    are the encoding of that pair, so nothing else (truncated, extended or re-framed bytes) is
    ever read as a credential. *)
Theorem payload_decode_iff_encode bytes p :
  payload_decode bytes = Some p ↔ bytes = payload_encode p ∧ encodable p.
Proof.
  unfold payload_decode, payload_encode, append_length_prefixed, encodable. destruct p as [a r]. simpl. split.
  - destruct (take_length_prefixed bytes) as [[a' rest]|] eqn:E1; [|done]. simpl.
    destruct (take_length_prefixed rest) as [[r' tail]|] eqn:E2; [|done]. simpl.
    destruct (String.eqb_spec tail "") as [->|]; [|done]. simpl.
    destruct (utf8_valid a') eqn:Ea, (utf8_valid r') eqn:Er; simpl; try done. intros [= -> ->].
    apply take_length_prefixed_Some in E1 as [H1 ->], E2 as [H2 ->].
    rewrite !Z.min_l, str_app_nil_r, !str_app_assoc by done. done.
  - intros (-> & H1 & H2 & Ha & Hr). rewrite !Z.min_l, !str_app_assoc by done.
    change ("" +:+ be_bytes 4 (Z.of_nat (String.length a)) +:+ a +:+
            be_bytes 4 (Z.of_nat (String.length r)) +:+ r)
      with (be_bytes 4 (Z.of_nat (String.length a)) +:+ a +:+
            be_bytes 4 (Z.of_nat (String.length r)) +:+ r).
    rewrite take_length_prefixed_app by done. simpl.
    rewrite <-(str_app_nil_r r) at 2. rewrite take_length_prefixed_app by done. simpl.
    by rewrite Ha, Hr.
Qed.

Section CipherProperties.
Context `{CryptoLaws}.

(** [open] accepts exactly the envelopes of its own owner and purpose: it returns a plaintext
    if and only if the envelope is the version marker, a nonce and a ciphertext that authenticates
    to that purpose's label, that owner's bytes and the plaintext. *)
Theorem open_accepts_iff_bound cipher owner purpose envelope plaintext :
  is_uuid owner →
  open cipher owner purpose envelope = Ok plaintext ↔
  ∃ nonce ciphertext,
    envelope = VERSION_PREFIX +:+ nonce +:+ ciphertext ∧
    String.length nonce = NONCE_LEN ∧ (TAG_LEN ≤ String.length ciphertext)%nat ∧
    gcm_decrypt (key cipher) nonce ciphertext = Some (binding_prefix purpose owner +:+ plaintext).
Proof.
  intros Ho. unfold open. split.
  - unfold starts_with.
    destruct (str_strip_prefix VERSION_PREFIX envelope) as [r|] eqn:Ev; [|done].
    rewrite bool_decide_eq_true_2 by done. cbn [negb].
    apply str_strip_prefix_Some in Ev as ->.
    destruct (Nat.ltb_spec (String.length (VERSION_PREFIX +:+ r))
      (String.length VERSION_PREFIX + NONCE_LEN + TAG_LEN)) as [|Hlen]; [done|].
    rewrite str_length_app in Hlen. change (String.length VERSION_PREFIX) with 2%nat in *.
    change (str_drop 2 (VERSION_PREFIX +:+ r)) with r.
    change (str_drop (2 + NONCE_LEN) (VERSION_PREFIX +:+ r)) with (str_drop NONCE_LEN r).
    destruct (gcm_decrypt _ _ _) as [inner|] eqn:Ed; [|done].
    destruct (matched_label inner) as [[sealed n]|] eqn:El; [|done].
    apply matched_label_Some in El as [-> [rest ->]].
    destruct (Nat.ltb_spec (String.length (label sealed +:+ rest))
      (String.length (label sealed) + 16)) as [|H16]; [done|].
    rewrite str_length_app in H16. rewrite (str_drop_app (label sealed) rest) by done.
    case_bool_decide as Hb; [done|]. intros [= <-].
    destruct (decide (sealed = purpose)) as [->|]; [|tauto].
    destruct (decide (be_value (str_take 16 rest) = owner)) as [Hv|]; [|tauto].
    assert (He : str_drop (String.length (label purpose) + 16) (label purpose +:+ rest)
                 = str_drop 16 rest) by (by destruct purpose).
    rewrite He. exists (str_take NONCE_LEN r), (str_drop NONCE_LEN r).
    unfold NONCE_LEN, TAG_LEN in *. rewrite str_take_drop. split_and!; [done|..].
    + rewrite str_length_take; lia.
    + rewrite str_length_drop. lia.
    + rewrite Ed. unfold binding_prefix. rewrite <-Hv, uuid_bytes_value, str_app_assoc, str_take_drop;
        [done|]. rewrite str_length_take; lia.
  - intros (nonce & ct & -> & Hn & Hct & Hd). rewrite starts_with_app. cbn [negb].
    rewrite !str_length_app, Hn.
    destruct (Nat.ltb_spec (String.length VERSION_PREFIX + (NONCE_LEN + String.length ct))
      (String.length VERSION_PREFIX + NONCE_LEN + TAG_LEN)) as [|_]; [lia|].
    rewrite str_drop_app, str_take_app by done.
    rewrite <-str_app_assoc, str_drop_app, Hd by (rewrite str_length_app, Hn; done).
    rewrite matched_label_prefix, str_length_app. unfold binding_prefix.
    rewrite (str_length_app (label purpose)), uuid_bytes_length.
    destruct (Nat.ltb_spec (String.length (label purpose) + 16 + String.length plaintext)
      (String.length (label purpose) + 16)) as [|_]; [lia|].
    rewrite (str_app_assoc (label purpose)), str_drop_app, str_take_app by done.
    rewrite be_value_uuid, bool_decide_eq_false_2 by (done || tauto).
    rewrite <-str_app_assoc, str_drop_app; [done|].
    by rewrite str_length_app, uuid_bytes_length.
Qed.

(** C23. A sealed envelope opens to what was sealed under its own key for its own owner and
    purpose, and is refused as bound elsewhere for any other owner or purpose. *)
Theorem seal_opens_only_for_its_binding cipher nonce owner purpose owner' purpose' plaintext :
  String.length (key cipher) = KEY_LEN → String.length nonce = NONCE_LEN →
  is_uuid owner → is_uuid owner' →
  open cipher owner' purpose' (seal_with cipher nonce owner purpose plaintext) =
    if bool_decide (owner' = owner ∧ purpose' = purpose) then Ok plaintext else Err Binding.
Proof.
  intros Hk Hn Ho Ho'. unfold open, seal_with. rewrite starts_with_app. cbn [negb].
  rewrite !str_length_app, gcm_length, Hn.
  destruct (Nat.ltb_spec (String.length VERSION_PREFIX + (NONCE_LEN +
      (String.length (binding_prefix purpose owner +:+ plaintext) + 16)))
    (String.length VERSION_PREFIX + NONCE_LEN + TAG_LEN)) as [Hlt|_]; [unfold TAG_LEN in Hlt; lia|].
  rewrite str_drop_app, str_take_app by done.
  rewrite <-str_app_assoc, str_drop_app by (rewrite str_length_app, Hn; done).
  rewrite gcm_round_trip, matched_label_prefix, str_length_app by done. unfold binding_prefix.
  rewrite (str_length_app (label purpose)), uuid_bytes_length.
  destruct (Nat.ltb_spec (String.length (label purpose) + 16 + String.length plaintext)
    (String.length (label purpose) + 16)) as [|_]; [lia|].
  rewrite (str_app_assoc (label purpose)), str_drop_app, str_take_app by done.
  rewrite be_value_uuid by done. rewrite <-str_app_assoc, str_drop_app
    by (by rewrite str_length_app, uuid_bytes_length).
  assert (Hiff : (purpose ≠ purpose' ∨ owner ≠ owner') ↔ ¬ (owner' = owner ∧ purpose' = purpose)).
  { destruct (decide (purpose' = purpose)), (decide (owner' = owner)); intuition congruence. }
  rewrite (bool_decide_ext _ _ Hiff).
  do 2 case_bool_decide; tauto.
Qed.
End CipherProperties.

(** The query an authorization request must carry. *)
Definition expected_query (client redirect : string) (scopes : list string)
    (intent : AuthorizationIntent) : list (string * string) :=
  [("response_type", "code"); ("client_id", client); ("redirect_uri", redirect);
   ("scope", str_join " " scopes); ("state", ai_state intent);
   ("code_challenge", ai_code_challenge intent); ("code_challenge_method", "S256")]%string.

(** The authorization URL is the configured endpoint followed by a query that parses back to
    exactly the client, redirect target, scopes, state and challenge of the request, whatever
    characters they contain; the write scope is present for a write intent, and an unconfigured
    client identity or redirect target is refused. *)
Theorem authorization_url_parses_back oauth intent purpose :
  match authorization_url oauth intent purpose with
  | None => non_empty (client_id oauth) = None ∨ non_empty (redirect_uri oauth) = None
  | Some url =>
      ∃ client redirect scopes query,
        client_id oauth = Some client ∧ redirect_uri oauth = Some redirect ∧
        url = authorize_url oauth +:+ String "?" query ∧
        parse_query query = Some (expected_query client redirect scopes intent) ∧
        match purpose with
        | ReadConnection => scopes = read_scopes oauth
        | BookmarkWritePurpose _ => write_scope ∈ scopes ∧ read_scopes oauth `prefix_of` scopes
        end
  end.
Proof.
  unfold authorization_url.
  destruct (non_empty (client_id oauth)) as [client|] eqn:Ec; [|by left].
  destruct (non_empty (redirect_uri oauth)) as [redirect|] eqn:Er; [|by right]. simpl.
  set (scopes := match purpose with ReadConnection => _ | _ => _ end).
  exists client, redirect, scopes.
  exists (str_join "&" ((λ kv : string * string, kv.1 +:+ String "=" (form_urlencode kv.2))
            <$> expected_query client redirect scopes intent)).
  assert (Hne : ∀ o v, non_empty o = Some v → o = Some v).
  { intros [s|] v; [|done]. unfold non_empty. simpl. by destruct (String.eqb s ""). }
  split_and!; [by apply Hne..| |apply parse_query_encoded; [done|by repeat constructor]|].
  - reflexivity.
  - unfold scopes. destruct purpose; [done|]. unfold with_write_scope. case_bool_decide.
    + by split.
    + split; [apply elem_of_app; right; by constructor|]. by apply prefix_app_r.
Qed.

(** ** Concrete runs *)

(** A toy cryptography that satisfies the interface, for evaluating the model. *)
Module SampleCrypto.
Definition sample_tag (k n p : string) : string :=
  str_take 16 (k +:+ n +:+ be_bytes 16 (be_value p)).

Lemma sample_tag_length k n p : String.length (sample_tag k n p) = 16%nat.
Proof.
  unfold sample_tag. rewrite str_length_take; [done|]. rewrite !str_length_app, be_bytes_length. lia.
Qed.

#[export] Instance sample_crypto : Crypto := {|
  sha256 s := be_bytes 32 (be_value s);
  gcm_encrypt k n p := p +:+ sample_tag k n p;
  gcm_decrypt k n c :=
    let p := str_take (String.length c - 16) c in
    if String.eqb c (p +:+ sample_tag k n p) then Some p else None;
  url_safe_no_pad_encode s := hex s;
|}.

#[export] Instance sample_crypto_laws : CryptoLaws.
Proof.
  split; simpl.
  - intros s. apply be_bytes_length.
  - intros k n p _ _. rewrite str_length_app, sample_tag_length.
    rewrite str_take_app by lia. by rewrite String.eqb_refl.
  - intros k n p. by rewrite str_length_app, sample_tag_length.
Qed.
End SampleCrypto.

Module OauthSamples.
Import SampleCrypto.

Definition sample_key : string := be_bytes 32 12345.
Definition sample_nonce : string := be_bytes 12 777.
Definition sample_cipher : TokenCipher := mkTokenCipher sample_key.

Example key_is_accepted : new_cipher sample_key = Ok sample_cipher.
Proof. vm_compute. reflexivity. Qed.

Example duplicates_count :
  missing_scopes ["a"; "b"; "a"; "c"] ["a"; "c"] = ["b"; "a"]%string.
Proof. reflexivity. Qed.

Example query_is_encoded : form_urlencode "a b&c=" = "a%20b%26c%3D"%string.
Proof. reflexivity. Qed.

Lemma open_accepts_iff_bound_witness :
  ∃ nonce ciphertext,
    seal_with sample_cipher sample_nonce 5 Credential "token" =
      VERSION_PREFIX +:+ nonce +:+ ciphertext ∧
    String.length nonce = NONCE_LEN ∧ (TAG_LEN ≤ String.length ciphertext)%nat ∧
    gcm_decrypt (key sample_cipher) nonce ciphertext = Some (binding_prefix Credential 5 +:+ "token").
Proof.
  apply (open_accepts_iff_bound sample_cipher 5 Credential
    (seal_with sample_cipher sample_nonce 5 Credential "token") "token").
  - unfold is_uuid. lia.
  - vm_compute. reflexivity.
Defined.

Lemma seal_opens_only_for_its_binding_witness :
  open sample_cipher 6 Credential (seal_with sample_cipher sample_nonce 5 Credential "token")
    = Err Binding.
Proof.
  exact (seal_opens_only_for_its_binding sample_cipher sample_nonce 5 Credential 6 Credential "token"
    ltac:(vm_compute; reflexivity) ltac:(vm_compute; reflexivity)
    ltac:(unfold is_uuid; lia) ltac:(unfold is_uuid; lia)).
Defined.
End OauthSamples.
