(* ===== verification/TokenClient.v ===== *)
(** * The provider token endpoint

    [crates/x-oauth/src/token_client.rs]: form encoding, the bounded response, and the flat JSON
    reader. What the provider answers is a parameter: an answer per step, or nothing when the
    request never completed. *)
From S2P Require Export Oauth Time.

Inductive FlowError :=
  | Configuration
  | FlowPersistence (e : PersistenceError)
  | Cipher (e : CipherError)
  | Downgrade (missing : list string)
  | ProviderIdentityMismatch
  | UnknownCallbackState
  | ExpiredCallbackIntent
  | ReplayedCallbackState
  | StaleRefreshToken
  | RefreshReplay
  | CredentialInactive
  | UpstreamInvalidation
  | Transport
  | MalformedProviderResponse
  | Panicked.   (* not a value of the code's type: the addition of a duration panicked *)

(** A completed HTTP response: [body] is [None] when reading it failed. *)
Record HttpAnswer := mkHttpAnswer {
  http_status : Z;
  http_content_length : option Z;
  http_body : option string;
}.

(** The provider, and the URL parser of [reqwest]. *)
Class Provider := {
  http_answer : nat → option HttpAnswer;
  url_join : string → string → option string;
}.

Definition MAX_BODY_BYTES : Z := 64 * 1024.

Record TokenClient := mkTokenClient {
  tc_token_url : string;
  tc_authenticated_user_url : string;
  tc_revocation_url : string;
  tc_client_id : option string;
  tc_client_secret : option string;
}.

Record TokenResponse := mkTokenResponse {
  tr_access_token : string;
  tr_refresh_token : string;
  tr_expires_in : Z;
  tr_scope : option string;
}.

(** ** The flat JSON reader *)

(** The scanning loop of [split_top_level_members]: the member read so far, the nesting depth and
    the string state. *)
Fixpoint scan_members (s member : string) (depth : nat) (in_string escaped : bool) :
    option (list string) :=
  match s with
  | EmptyString => if in_string then None else Some [member]
  | String c s =>
      let member' := member +:+ String c "" in
      if in_string then
        if escaped then scan_members s member' depth true false
        else if Ascii.eqb c "\" then scan_members s member' depth true true
        else if Ascii.eqb c dquote then scan_members s member' depth false false
        else scan_members s member' depth true false
      else if Ascii.eqb c dquote then scan_members s member' depth true false
      else if Ascii.eqb c "{" || Ascii.eqb c "[" then scan_members s member' (S depth) false false
      else if Ascii.eqb c "}" || Ascii.eqb c "]" then scan_members s member' (pred depth) false false
      else if Ascii.eqb c "," && Nat.eqb depth 0 then
        members ← scan_members s "" depth false false; Some (member :: members)
      else scan_members s member' depth false false
  end.

Definition strip_both (l r s : string) : option string := rest ← str_strip_prefix l s; str_strip_suffix r rest.

(** One member text: its key and its raw value; blank members are skipped. *)
Definition read_member (member : string) : option (option (string * string)) :=
  let member := trim member in
  if String.eqb member "" then Some None
  else
    '(key, value) ← split_once ":" member;
    key ← strip_both (String dquote "") (String dquote "") (trim key);
    Some (Some (key, trim value)).

(** [split_top_level_members]; [None] is [MalformedProviderResponse]. *)
Definition split_top_level_members (body : string) : option (list (string * string)) :=
  inner ← strip_both "{" "}" (trim body);
  members ← scan_members inner "" 0 false false;
  pairs ← mapM read_member members;
  Some (omap id pairs).

Definition find_member (key : string) (members : list (string * string)) : option string :=
  snd <$> head (filter (λ kv, kv.1 = key) members).

(** What one character after a backslash stands for. *)
Definition simple_escape (c : ascii) : option ascii :=
  if Ascii.eqb c dquote then Some dquote
  else if Ascii.eqb c "\" then Some "\"%char
  else if Ascii.eqb c "/" then Some "/"%char
  else if Ascii.eqb c "b" then Some (byte 8)
  else if Ascii.eqb c "f" then Some (byte 12)
  else if Ascii.eqb c "n" then Some (byte 10)
  else if Ascii.eqb c "r" then Some (byte 13)
  else if Ascii.eqb c "t" then Some (byte 9)
  else None.

(** One [u] escape: the text it contributes and the high surrogate now pending. *)
Definition unicode_escape (pending : option Z) (digits : string) : option (string * option Z) :=
  unit ← from_str_radix 16 65535 digits;
  if in_range 55296 56319 unit then Some (""%string, Some unit)
  else if in_range 56320 57343 unit then
    high ← pending;
    text ← push_char (65536 + Z.shiftl (high - 55296) 10 + (unit - 56320));
    Some (text, None)
  else text ← push_char unit; Some (text, pending).

(** The decoding loop of [extract_string_member], after the opening quote. A [u] escape with fewer
    than four characters left cannot reach a closing quote. *)
Fixpoint decode_string (pending : option Z) (s : string) : option string :=
  match s with
  | EmptyString => None
  | String c s =>
      if Ascii.eqb c dquote then (if String.eqb s "" then Some ""%string else None)
      else if Ascii.eqb c "\" then
        match s with
        | EmptyString => None
        | String e s =>
            if Ascii.eqb e "u" then
              match s with
              | String h1 (String h2 (String h3 (String h4 s))) =>
                  '(text, pending) ← unicode_escape pending
                    (String h1 (String h2 (String h3 (String h4 ""))));
                  rest ← decode_string pending s; Some (text +:+ rest)
              | _ => None
              end
            else c ← simple_escape e; rest ← decode_string pending s; Some (String c rest)
        end
      else rest ← decode_string pending s; Some (String c rest)
  end.

(** The three member readers: [Err] is a malformed member, [Ok None] an absent one. *)
Definition read_with {A} (body key : string) (reader : string → option A) :
    result (option A) FlowError :=
  match split_top_level_members body with
  | None => Err MalformedProviderResponse
  | Some members =>
      match find_member key members with
      | None => Ok None
      | Some raw => result_map_err (λ _ : unit, MalformedProviderResponse)
                      (match reader raw with Some a => Ok (Some a) | None => Err tt end)
      end
  end.

Definition extract_string_member (body key : string) : result (option string) FlowError :=
  read_with body key (λ raw,
    match raw with
    | String c rest => if Ascii.eqb c dquote then decode_string None rest else None
    | EmptyString => None
    end).

Definition extract_object_member (body key : string) : result (option string) FlowError :=
  read_with body key (λ raw, if starts_with "{" raw && ends_with "}" raw then Some raw else None).

Definition u64_max : Z := 18446744073709551615.

Definition extract_number_member (body key : string) : result (option Z) FlowError :=
  read_with body key (λ raw,
    if negb (all_chars is_ascii_digit raw) || String.eqb raw "" then None
    else from_str_radix 10 u64_max raw).

Definition required {A} (r : result (option A) FlowError) : result A FlowError :=
  match r with Ok (Some a) => Ok a | Ok None => Err MalformedProviderResponse | Err e => Err e end.

(** [parse_token_response]. *)
Definition parse_token_response (body : string) : result TokenResponse FlowError :=
  let? access_token := required (extract_string_member body "access_token") in
  let? expires_in := required (extract_number_member body "expires_in") in
  let? refresh_token := extract_string_member body "refresh_token" in
  let? scope := extract_string_member body "scope" in
  Ok (mkTokenResponse access_token (default ""%string refresh_token) expires_in scope).

(** ** Requests *)

(** [urlencoded]. *)
Definition urlencoded (fields : list (string * string)) : string :=
  fold_left (λ body kv,
    (if String.eqb body "" then body else body +:+ "&")
      +:+ form_urlencode kv.1 +:+ "=" +:+ form_urlencode kv.2)%string fields ""%string.

(** [bounded_response]: status and body text under the size bound. *)
Definition bounded_response (answer : HttpAnswer) : result (Z * string) FlowError :=
  if match http_content_length answer with
     | Some len => bool_decide (len > MAX_BODY_BYTES)
     | None => false
     end
  then Err MalformedProviderResponse
  else match http_body answer with
       | None => Err Transport
       | Some bytes =>
           if bool_decide (Z.of_nat (String.length bytes) > MAX_BODY_BYTES)
           then Err MalformedProviderResponse
           else Ok (http_status answer, from_utf8_lossy bytes)
       end.

Definition is_success (status : Z) : bool := in_range 200 299 status.

Section Client.
Context `{Provider}.

(** [TokenClient::new]. *)
Definition new_client (oauth : OauthConfig) : result TokenClient FlowError :=
  match url_join (token_url oauth) "/2/users/me" with
  | None => Err Configuration
  | Some user_url => Ok (mkTokenClient (token_url oauth) user_url (revocation_url oauth)
                           (client_id oauth) (client_secret oauth))
  end.

(** How one request ends: no answer is a transport failure, a completed answer is judged by [k]. *)
Definition completed {A} (answer : option HttpAnswer) (k : Z * string → result A FlowError) :
    result A FlowError :=
  match answer with
  | None => Err Transport
  | Some answer => result_bind (bounded_response answer) k
  end.

Definition exchange {A} (event : Event) (k : Z * string → result A FlowError) : Prog FlowError A :=
  let! answer := call event http_answer in
  of_result (completed answer k).

(** [post_form_raw]: basic authentication when both halves are configured. *)
Definition post_form_raw {A} (client : TokenClient) (url : string) (fields : list (string * string))
    (k : Z * string → result A FlowError) : Prog FlowError A :=
  let auth := id ← tc_client_id client; secret ← tc_client_secret client; Some (id, secret) in
  exchange (PostForm url auth (urlencoded fields)) k.

(** What an answer of the token endpoint means. *)
Definition token_answer : Z * string → result TokenResponse FlowError :=
  λ '(status, body),
    if is_success status then parse_token_response body else Err UpstreamInvalidation.

(** [post_token_form]. *)
Definition post_token_form (client : TokenClient) (fields : list (string * string)) :
    Prog FlowError TokenResponse :=
  post_form_raw client (tc_token_url client) fields token_answer.

(** [TokenClient::exchange_code]. *)
Definition client_exchange_code (client : TokenClient) (code redirect_uri code_verifier : string) :
    Prog FlowError TokenResponse :=
  post_token_form client
    [("grant_type", "authorization_code"); ("code", code); ("redirect_uri", redirect_uri);
     ("code_verifier", code_verifier)]%string.

(** [TokenClient::refresh_token]. *)
Definition client_refresh_token (client : TokenClient) (token : string) :
    Prog FlowError TokenResponse :=
  post_token_form client [("grant_type", "refresh_token"); ("refresh_token", token)]%string.

(** [TokenClient::revoke]: any completed answer confirms the notification. *)
Definition client_revoke (client : TokenClient) (token : string) : Prog FlowError unit :=
  post_form_raw client (tc_revocation_url client) [("token", token)]%string (λ _, Ok tt).

(** What an answer of the identity endpoint means. *)
Definition identity_answer : Z * string → result string FlowError :=
  λ '(status, body),
    if negb (is_success status) then Err UpstreamInvalidation
    else result_bind (required (extract_object_member body "data"))
           (λ data, required (extract_string_member data "id")).

(** [TokenClient::authenticated_user_id]. *)
Definition authenticated_user_id (client : TokenClient) (token : string) : Prog FlowError string :=
  exchange (GetBearer (tc_authenticated_user_url client) token) identity_answer.
End Client.

(** ** A conforming provider body

    What a provider prints: strings with quotes and backslashes escaped, unsigned numbers. *)

Inductive JsonScalar := JString (v : string) | JNumber (digits : string).

Definition escape_char (c : ascii) : string :=
  if Ascii.eqb c dquote || Ascii.eqb c "\" then String "\" (String c "") else String c "".
Fixpoint escape (v : string) : string :=
  match v with EmptyString => "" | String c v => escape_char c +:+ escape v end.

Definition quoted (v : string) : string := String dquote (escape v) +:+ String dquote "".
Definition render_scalar (v : JsonScalar) : string :=
  match v with JString v => quoted v | JNumber digits => digits end.
Definition render_member (kv : string * JsonScalar) : string :=
  String dquote kv.1 +:+ String dquote (String ":" (render_scalar kv.2)).
Definition render_object (members : list (string * JsonScalar)) : string :=
  String "{" (str_join "," (render_member <$> members)) +:+ "}".

Definition scalar_ok (v : JsonScalar) : Prop :=
  match v with
  | JString _ => True
  | JNumber digits => digits ≠ ""%string ∧ all_chars is_ascii_digit digits = true
  end.
Definition key_char (c : ascii) : bool := is_ascii_lower c || byte_in 95 95 c.
Definition member_ok (kv : string * JsonScalar) : Prop :=
  all_chars key_char kv.1 = true ∧ scalar_ok kv.2.

Definition scalar_at (key : string) (members : list (string * JsonScalar)) : option JsonScalar :=
  snd <$> head (filter (λ kv, kv.1 = key) members).

(** ** The scanner on such bodies *)

Lemma scan_escaped v rest m d :
  scan_members (escape v +:+ rest) m d true false = scan_members rest (m +:+ escape v) d true false.
Proof.
  revert m. induction v as [|c v IH]; intros m; cbn [escape]; [by rewrite str_app_nil_r|].
  rewrite str_app_assoc. unfold escape_char.
  destruct (Ascii.eqb c dquote) eqn:Ed; cbn [orb].
  { apply Ascii.eqb_eq in Ed as ->. cbn. rewrite IH, !str_app_assoc. done. }
  destruct (Ascii.eqb c "\") eqn:Eb.
  { apply Ascii.eqb_eq in Eb as ->. cbn. rewrite IH, !str_app_assoc. done. }
  cbn. rewrite Ed, Eb, IH, !str_app_assoc. done.
Qed.

(** Characters the scanner passes over outside strings. *)
Definition inert (c : ascii) : bool := is_ascii_digit c || key_char c || Ascii.eqb c ":".

Lemma inert_not_special c :
  inert c = true →
  Ascii.eqb c dquote = false ∧ Ascii.eqb c "\" = false ∧ (Ascii.eqb c "{" || Ascii.eqb c "[") = false
  ∧ (Ascii.eqb c "}" || Ascii.eqb c "]") = false ∧ Ascii.eqb c "," = false ∧ graphic c = true.
Proof. revert c. byte_cases. Qed.

Lemma scan_inert s rest m :
  all_chars inert s = true →
  scan_members (s +:+ rest) m 0 false false = scan_members rest (m +:+ s) 0 false false.
Proof.
  revert m. induction s as [|c s IH]; intros m; [by rewrite str_app_nil_r|].
  cbn [all_chars]. rewrite andb_true_iff. intros [Hc Hs].
  destruct (inert_not_special c Hc) as (E1 & _ & E3 & E4 & E5 & _).
  cbn. rewrite E1, E3, E4, E5. cbn [andb]. rewrite IH, str_app_assoc by done. done.
Qed.

Lemma scan_in_string s rest m :
  all_chars inert s = true →
  scan_members (s +:+ rest) m 0 true false = scan_members rest (m +:+ s) 0 true false.
Proof.
  revert m. induction s as [|c s IH]; intros m; [by rewrite str_app_nil_r|].
  cbn [all_chars]. rewrite andb_true_iff. intros [Hc Hs].
  destruct (inert_not_special c Hc) as (E1 & E2 & _).
  cbn. rewrite E1, E2, IH, str_app_assoc by done. done.
Qed.

Lemma key_inert k : all_chars key_char k = true → all_chars inert k = true.
Proof. apply all_chars_impl. intros c Hc. unfold inert. by rewrite Hc, orb_true_r. Qed.

Lemma scan_member kv rest m :
  member_ok kv →
  scan_members (render_member kv +:+ rest) m 0 false false =
    scan_members rest (m +:+ render_member kv) 0 false false.
Proof.
  destruct kv as [k v]. intros [Hk Hv]. unfold render_member. simpl in *.
  rewrite !str_app_assoc. cbn. rewrite scan_in_string by (by apply key_inert). cbn.
  destruct v as [v|digits]; simpl in *.
  - unfold quoted. rewrite str_app_assoc. cbn. rewrite scan_escaped. cbn.
    by rewrite !str_app_assoc.
  - destruct Hv as [_ Hd]. rewrite scan_inert.
    + by rewrite !str_app_assoc.
    + eapply all_chars_impl, Hd. intros c Hc. unfold inert. by rewrite Hc.
Qed.

Lemma scan_object members m :
  Forall member_ok members →
  scan_members (str_join "," (render_member <$> members)) m 0 false false =
    Some (match render_member <$> members with
          | [] => [m]
          | x :: xs => (m +:+ x) :: xs
          end).
Proof.
  intros Hok. revert m. induction Hok as [|kv members Hkv Hok IH]; intros m; [done|].
  destruct members as [|kv' members].
  - cbn [fmap list_fmap str_join]. rewrite <-(str_app_nil_r (render_member kv)) at 1.
    by rewrite scan_member.
  - change (str_join "," (render_member <$> kv :: kv' :: members))
      with (render_member kv +:+ String "," (str_join "," (render_member <$> kv' :: members))).
    rewrite scan_member by done.
    change (scan_members (String "," ?s) ?m 0 false false)
      with (members ← scan_members s "" 0 false false; Some (m :: members)).
    rewrite IH. done.
Qed.

Lemma escape_solid v : solid (quoted v).
Proof. by apply solid_between. Qed.

Lemma render_scalar_solid v : scalar_ok v → solid (render_scalar v).
Proof.
  destruct v as [v|digits]; simpl; [intros _; apply escape_solid|]. intros [Hne Hd].
  apply solid_all; [done|]. eapply all_chars_impl, Hd. intros c Hc.
  apply inert_not_special. unfold inert. by rewrite Hc.
Qed.

Lemma render_member_solid kv : scalar_ok kv.2 → solid (render_member kv).
Proof.
  destruct kv as [k v]. intros Hv. destruct (render_scalar_solid v Hv) as (a & t & t' & b & _ & Hb & _ & Gb).
  unfold render_member. simpl in *. rewrite Hb.
  exists dquote, (k +:+ String dquote (String ":" (t' +:+ String b ""))),
    (String dquote k +:+ String dquote (String ":" t')), b.
  split_and!; [done| |done|done]. rewrite !str_app_assoc. done.
Qed.

Lemma read_rendered_member k v :
  member_ok (k, v) → read_member (render_member (k, v)) = Some (Some (k, render_scalar v)).
Proof.
  intros [Hk Hv]. simpl in *. unfold read_member. rewrite trim_solid by (by apply render_member_solid).
  assert (Hr : render_member (k, v) =
    (String dquote k +:+ String dquote "") +:+ String ":" (render_scalar v)).
  { unfold render_member. simpl. by rewrite !str_app_assoc. }
  assert (He : String.eqb (render_member (k, v)) "" = false) by done.
  rewrite He, Hr, split_once_app.
  2:{ rewrite all_chars_app. apply andb_true_intro. split; [|done]. cbn [all_chars].
      apply andb_true_intro. split; [done|]. eapply all_chars_impl, Hk. byte_cases. }
  simpl. rewrite (trim_solid (String dquote (k +:+ String dquote ""))) by (by apply solid_between).
  rewrite (trim_solid (render_scalar v)) by (by apply render_scalar_solid).
  unfold strip_both. change (String dquote (k +:+ String dquote ""))
    with (String dquote "" +:+ (k +:+ String dquote "")).
  rewrite str_strip_prefix_app. simpl. by rewrite str_strip_suffix_app.
Qed.

Lemma split_rendered members :
  Forall member_ok members → members ≠ [] →
  split_top_level_members (render_object members) =
    Some ((λ kv, (kv.1, render_scalar kv.2)) <$> members).
Proof.
  intros Hok Hne. unfold split_top_level_members, render_object.
  rewrite trim_solid by (by apply solid_between). unfold strip_both.
  set (inner := str_join "," (render_member <$> members)).
  change (String "{" inner +:+ "}") with ("{" +:+ (inner +:+ "}")).
  rewrite str_strip_prefix_app. simpl. rewrite str_strip_suffix_app. simpl. unfold inner.
  rewrite scan_object by done. destruct members as [|kv0 members]; [done|].
  assert (HM : mapM read_member (render_member <$> kv0 :: members) =
    Some ((λ kv, Some (kv.1, render_scalar kv.2)) <$> kv0 :: members)).
  { apply mapM_Some. rewrite Forall2_fmap_l, Forall2_fmap_r. apply Forall_Forall2_diag.
    eapply Forall_impl; [exact Hok|]. intros [k v]. apply read_rendered_member. }
  transitivity (mapM read_member (render_member <$> kv0 :: members) ≫= λ pairs, Some (omap id pairs));
    [reflexivity|]. rewrite HM. simpl. f_equal. f_equal.
  clear. induction members as [|kv members IH]; [done|]. simpl. by rewrite IH.
Qed.

Lemma find_rendered key members :
  find_member key ((λ kv, (kv.1, render_scalar kv.2)) <$> members) =
    render_scalar <$> scalar_at key members.
Proof.
  unfold find_member, scalar_at. induction members as [|[k v] members IH]; [done|].
  rewrite fmap_cons, !filter_cons. simpl. by case_decide.
Qed.

Lemma decode_escaped v pending : decode_string pending (escape v +:+ String dquote "") = Some v.
Proof.
  induction v as [|c v IH]; [done|]. cbn [escape]. rewrite str_app_assoc. unfold escape_char.
  destruct (Ascii.eqb c dquote) eqn:Ed; cbn [orb].
  { apply Ascii.eqb_eq in Ed as ->. cbn. by rewrite IH. }
  destruct (Ascii.eqb c "\") eqn:Eb.
  { apply Ascii.eqb_eq in Eb as ->. cbn. by rewrite IH. }
  cbn. by rewrite Ed, Eb, IH.
Qed.

Lemma extract_rendered_string members key :
  Forall member_ok members → members ≠ [] →
  extract_string_member (render_object members) key =
    match scalar_at key members with
    | None => Ok None
    | Some (JString v) => Ok (Some v)
    | Some (JNumber _) => Err MalformedProviderResponse
    end.
Proof.
  intros Hok Hne. unfold extract_string_member, read_with.
  rewrite split_rendered, find_rendered by done.
  destruct (scalar_at key members) as [[v|digits]|] eqn:E; [| |done]; simpl.
  - unfold quoted. cbn. by rewrite decode_escaped.
  - assert (Hin : ∃ k, (k, JNumber digits) ∈ members).
    { unfold scalar_at in E. destruct (filter _ members) as [|[k' v'] l] eqn:Ef; [done|].
      injection E as ->. exists k'.
      assert (Hx : (k', JNumber digits) ∈ filter (λ kv, kv.1 = key) members)
        by (rewrite Ef; by left). by apply list_elem_of_filter in Hx as [_ ?]. }
    destruct Hin as [k Hin]. rewrite Forall_forall in Hok. destruct (Hok _ Hin) as [_ [Hd1 Hd2]].
    simpl in *. destruct digits as [|c digits]; [done|]. simpl in Hd2.
    apply andb_true_iff in Hd2 as [Hc _].
    assert (Hq : Ascii.eqb c dquote = false).
    { apply inert_not_special. unfold inert. by rewrite Hc. }
    by rewrite Hq.
Qed.

Lemma extract_rendered_number members key digits :
  Forall member_ok members → members ≠ [] →
  scalar_at key members = Some (JNumber digits) →
  extract_number_member (render_object members) key =
    match from_str_radix 10 u64_max digits with
    | Some z => if all_chars is_ascii_digit digits && negb (String.eqb digits "")
                then Ok (Some z) else Err MalformedProviderResponse
    | None => Err MalformedProviderResponse
    end.
Proof.
  intros Hok Hne Hs. unfold extract_number_member, read_with.
  rewrite split_rendered, find_rendered, Hs by done. cbn [fmap option_fmap option_map render_scalar].
  destruct (all_chars is_ascii_digit digits), (String.eqb digits ""); cbn;
    by destruct (from_str_radix 10 u64_max digits).
Qed.

(** ** Property *)

(** The hand-written token-response reader reads back what a conforming provider sends: for
    any flat object of strings (with any characters, quotes, backslashes, braces, commas and colons
    included) and unsigned numbers, it returns the access token, the lifetime, and the refresh token
    and scope when they are present. *)
Theorem token_response_read_back members access digits lifetime refresh scope :
  Forall member_ok members →
  scalar_at "access_token" members = Some (JString access) →
  scalar_at "expires_in" members = Some (JNumber digits) →
  digits ≠ ""%string → all_chars is_ascii_digit digits = true →
  from_str_radix 10 u64_max digits = Some lifetime →
  scalar_at "refresh_token" members = JString <$> refresh →
  scalar_at "scope" members = JString <$> scope →
  parse_token_response (render_object members) =
    Ok (mkTokenResponse access (default ""%string refresh) lifetime scope).
Proof.
  intros Hok Ha He Hd1 Hd2 Hz Hr Hs.
  assert (Hne : members ≠ []) by (by intros ->).
  unfold parse_token_response. rewrite !extract_rendered_string, Ha, Hr, Hs by done.
  rewrite (extract_rendered_number _ _ digits) by done. rewrite Hz, Hd2.
  destruct (String.eqb_spec digits "") as [->|_]; [done|]. simpl.
  by destruct refresh, scope.
Qed.

(** ** Concrete runs *)
Module TokenClientSamples.
Definition sample_members : list (string * JsonScalar) :=
  [("token_type", JString "bearer"); ("access_token", JString "a{,:\b");
   ("expires_in", JNumber "7200"); ("scope", JString "users.read tweet.read")]%string.

Lemma token_response_read_back_witness :
  parse_token_response (render_object sample_members) =
    Ok (mkTokenResponse "a{,:\b" "" 7200 (Some "users.read tweet.read"))%string.
Proof.
  apply (token_response_read_back sample_members "a{,:\b" "7200" 7200 None
    (Some "users.read tweet.read"%string)); try reflexivity; repeat constructor; discriminate.
Defined.

(** The reader is laxer than JSON: a high surrogate without its partner disappears. *)
Lemma lone_high_surrogate_is_dropped :
  decode_string None ("\ud83dx" +:+ String dquote "") = Some "x"%string.
Proof. vm_compute. reflexivity. Qed.

End TokenClientSamples.
