(* ===== verification/Connection.v ===== *)
(** * The connection service

    Persisted authorization intents ([x-persistence/src/oauth_intents.rs]) and their resolution
    ([x-oauth/src/callback.rs]); encrypted credentials ([credentials.rs]), the separate write
    authority ([bookmark_write_authorizations.rs]) and the flows over them: code exchange, refresh
    and revocation ([x-oauth/src/service.rs]). *)
From S2P Require Export TokenClient.

(** ** Persisted intents *)

Record NewIntent := mkNewIntent {
  ni_internal_user_id : Z;
  ni_account_id : option Z;
  ni_purpose : string;
  ni_state_hash : string;
  ni_code_verifier_encrypted : string;
  ni_nonce : string;
  ni_redirect_uri : string;
  ni_requested_scopes : list string;
  ni_created_at : Z;
  ni_expires_at : Z;
}.

(** The foreign key to an account. *)
Definition account_exists (account : Z) (d : Db) : bool :=
  bool_decide (is_Some (accounts d !! account)).

(** The row constraints of [oauth_intents]. *)
Definition intent_row_allowed (intent : NewIntent) (d : Db) : bool :=
  match ni_purpose intent, ni_account_id intent with
  | "read_connection"%string, None => true
  | "bookmark_write"%string, Some account => account_exists account d
  | _, _ => false
  end.

(** [insert_intent]: the generated id; refused on a duplicate state digest. *)
Definition insert_intent (intent : NewIntent) : Prog PersistenceError Z :=
  on_pool (
    let! id := new_uuid in
    stmt Query (λ d,
      if intent_row_allowed intent d
         && bool_decide (find_row (λ _ row, String.eqb (int_state_hash row) (ni_state_hash intent))
                           (oauth_intents d) = None)
      then
        table ← insert_new id
          (mkIntentRow (ni_internal_user_id intent) (ni_account_id intent) (ni_purpose intent)
             (ni_state_hash intent) (ni_code_verifier_encrypted intent) (ni_nonce intent)
             (ni_redirect_uri intent) (ni_requested_scopes intent) (ni_created_at intent)
             (ni_expires_at intent) None) (oauth_intents d);
        Some (id, on_oauth_intents (λ _, table) d)
      else None)).

(** [find_intent_by_state_hash]. *)
Definition intent_by_hash (state_hash : string) (d : Db) : option (Z * IntentRow) :=
  find_row (λ _ row, String.eqb (int_state_hash row) state_hash) (oauth_intents d).
Definition find_intent_by_state_hash (state_hash : string) :
    Prog PersistenceError (option (Z * IntentRow)) :=
  on_pool (select Query (intent_by_hash state_hash)).

Inductive ConsumeOutcome := Consumed | AlreadyConsumed.

Definition consumed_at (now : Z) (row : IntentRow) : IntentRow :=
  mkIntentRow (int_internal_user_id row) (int_account_id row) (int_purpose row)
    (int_state_hash row) (int_code_verifier_encrypted row) (int_nonce row)
    (int_redirect_uri row) (int_requested_scopes row) (int_created_at row)
    (int_expires_at row) (Some now).

(** [consume_intent]: one guarded update. *)
Definition consume_update (id now : Z) (d : Db) : ConsumeOutcome * Db :=
  match oauth_intents d !! id with
  | Some row =>
      match int_consumed_at row with
      | None => (Consumed, on_oauth_intents (insert id (consumed_at now row)) d)
      | Some _ => (AlreadyConsumed, d)
      end
  | None => (AlreadyConsumed, d)
  end.
Definition consume_intent (id now : Z) : Prog PersistenceError ConsumeOutcome :=
  on_pool (stmt Query (λ d, Some (consume_update id now d))).

(** ** Callback resolution *)

Record AcceptedCallback := mkAcceptedCallback {
  ac_intent_id : Z;
  ac_internal_user_id : Z;
  ac_purpose : IntentPurpose;
  ac_requested_scopes : list string;
  ac_code_verifier : string;
}.

Inductive CallbackResolution :=
  | CallbackAccepted (callback : AcceptedCallback)
  | Expired
  | Replayed
  | Unmatched.

Section Callback.
Context `{Crypto}.

(** What a consumed intent yields. *)
Definition accepted_callback (cipher : TokenCipher) (id : Z) (intent : IntentRow) :
    result CallbackResolution FlowError :=
  match open cipher (int_internal_user_id intent) IntentVerifier
          (int_code_verifier_encrypted intent) with
  | Err e => Err (Cipher e)
  | Ok verifier =>
      let accept purpose :=
        if utf8_valid verifier
        then Ok (CallbackAccepted (mkAcceptedCallback id (int_internal_user_id intent) purpose
                   (int_requested_scopes intent) verifier))
        else Err (Cipher Auth) in
      match int_purpose intent, int_account_id intent with
      | "read_connection"%string, None => accept ReadConnection
      | "bookmark_write"%string, Some account => accept (BookmarkWritePurpose account)
      | _, _ => Err Configuration
      end
  end.

(** [resolve_callback]. *)
Definition resolve_callback (cipher : TokenCipher) (presented_state : string) :
    Prog FlowError CallbackResolution :=
  let! row := map_err FlowPersistence
    (find_intent_by_state_hash (state_digest presented_state)) in
  match row with
  | None => ret Unmatched
  | Some (id, intent) =>
      let! now := clock_now in
      if bool_decide (int_expires_at intent ≤ now) then ret Expired
      else
        let! now := clock_now in
        let! consumed := map_err FlowPersistence (consume_intent id now) in
        match consumed with
        | AlreadyConsumed => ret Replayed
        | Consumed => of_result (accepted_callback cipher id intent)
        end
  end.
End Callback.

(** ** Credentials *)

Record NewCredential := mkNewCredential {
  nc_account_id : Z;
  nc_encrypted_payload : string;
  nc_granted_scopes : list string;
  nc_expires_at : option Z;
}.

(** One inserted row, with the server's generated id and creation time. *)
Definition insert_credential (id : Z) (row : CredentialRow) (d : Db) : option (Z * Db) :=
  if account_exists (crd_account_id row) d
  then table ← insert_new id row (credentials d); Some (id, on_credentials (λ _, table) d)
  else None.

(** [insert_with_status]. *)
Definition insert_with_status (credential : NewCredential) (status : string) :
    Prog PersistenceError Z :=
  on_pool (
    let! id := new_uuid in
    let! created_at := pg_now in
    stmt Query (insert_credential id
      (mkCredentialRow (nc_account_id credential) (nc_encrypted_payload credential)
         (nc_granted_scopes credential) status "accepted" (nc_expires_at credential) None
         created_at))).

(** [insert_rejected_write_grant]. *)
Definition insert_rejected_write_grant (account : Z) (granted_scopes : list string)
    (activation_outcome : string) : Prog PersistenceError Z :=
  on_pool (
    let! id := new_uuid in
    let! created_at := pg_now in
    stmt Query (insert_credential id
      (mkCredentialRow account "" granted_scopes "expired" activation_outcome None None
         created_at))).

(** [ORDER BY created_at DESC, id DESC LIMIT 1] over the rows that satisfy [P]. *)
Definition newer (a b : Z * CredentialRow) : bool :=
  bool_decide (crd_created_at b.2 < crd_created_at a.2
               ∨ (crd_created_at b.2 = crd_created_at a.2 ∧ b.1 < a.1)).
Definition newest_of (rows : list (Z * CredentialRow)) : option (Z * CredentialRow) :=
  fold_left (λ best row, match best with
                         | None => Some row
                         | Some b => if newer row b then Some row else Some b
                         end) rows None.
Definition newest_credential (P : CredentialRow → bool) (d : Db) : option (Z * CredentialRow) :=
  newest_of (List.filter (λ kv, P kv.2) (map_to_list (credentials d))).

(** [latest_for_account]. *)
Definition latest_for_account (account : Z) : Prog PersistenceError (option (Z * CredentialRow)) :=
  on_pool (select Query (newest_credential (λ row, Z.eqb (crd_account_id row) account))).

(** [account_state]. *)
Definition account_state (account : Z) : Prog PersistenceError (option string) :=
  on_pool (select Query (λ d, acc_state <$> accounts d !! account)).

(** [lock_active_for_account]. *)
Definition is_active_of (account : Z) (row : CredentialRow) : bool :=
  Z.eqb (crd_account_id row) account && String.eqb (crd_status row) "active".
Definition lock_active_for_account (account : Z) :
    Prog PersistenceError (option (Z * CredentialRow)) :=
  select Query (newest_credential (is_active_of account)).

(** [set_account_state] and [set_account_state_tx]. *)
Definition account_state_update (account : Z) (state : string) (now : Z) (d : Db) : Db :=
  on_accounts (alter (λ a, mkAccount (acc_internal_user_id a) (acc_provider_user_id a) state now)
                 account) d.
Definition set_account_state (account : Z) (state : string) (now : Z) : Prog PersistenceError unit :=
  on_pool (execute Query (account_state_update account state now)).
Definition set_account_state_tx (account : Z) (state : string) (now : Z) :
    Prog PersistenceError unit :=
  execute Query (account_state_update account state now).

Definition rotated_row (payload : string) (expires_at : option Z) (retired_hash : string)
    (row : CredentialRow) : CredentialRow :=
  mkCredentialRow (crd_account_id row) payload (crd_granted_scopes row) (crd_status row)
    (crd_activation_outcome row) expires_at (Some retired_hash) (crd_created_at row).

(** [rotate_guarded] and [rotate_guarded_tx]. *)
Definition rotate_update (id : Z) (payload : string) (expires_at : option Z) (retired_hash : string)
    (expected_superseded : option string) (d : Db) : bool * Db :=
  match credentials d !! id with
  | Some row =>
      if String.eqb (crd_status row) "active"
         && bool_decide (crd_superseded_refresh_hash row = expected_superseded)
      then (true, on_credentials (insert id (rotated_row payload expires_at retired_hash row)) d)
      else (false, d)
  | None => (false, d)
  end.
Definition rotate_guarded (id : Z) (payload : string) (expires_at : option Z) (retired_hash : string)
    (expected_superseded : option string) : Prog PersistenceError bool :=
  on_pool (stmt Query
    (λ d, Some (rotate_update id payload expires_at retired_hash expected_superseded d))).
Definition rotate_guarded_tx (id : Z) (payload : string) (expires_at : option Z)
    (retired_hash : string) (expected_superseded : option string) : Prog PersistenceError bool :=
  stmt Query (λ d, Some (rotate_update id payload expires_at retired_hash expected_superseded d)).

(** [rotate]: the unguarded variant. *)
Definition rotate (id : Z) (payload retired_hash : string) (expires_at : option Z) :
    Prog PersistenceError unit :=
  on_pool (execute Query
    (on_credentials (alter (rotated_row payload expires_at retired_hash) id))).

Definition with_status (payload : option string) (status : string) (row : CredentialRow) :
    CredentialRow :=
  mkCredentialRow (crd_account_id row) (default (crd_encrypted_payload row) payload)
    (crd_granted_scopes row) status (crd_activation_outcome row) (crd_expires_at row)
    (crd_superseded_refresh_hash row) (crd_created_at row).

(** [scrub_revoke_tx] and [mark_expired_tx]. *)
Definition scrub_update (id : Z) : Db → Db :=
  on_credentials (alter (with_status (Some "") "revoked") id).
Definition expire_update (id : Z) : Db → Db :=
  on_credentials (alter (with_status None "expired") id).
Definition scrub_revoke_tx (id : Z) : Prog PersistenceError unit := execute Query (scrub_update id).
Definition mark_expired_tx (id : Z) : Prog PersistenceError unit := execute Query (expire_update id).

(** ** The write authority *)

Record WriteGrantActivation := mkWriteGrantActivation {
  wg_oauth_intent_id : Z;
  wg_account_id : Z;
  wg_internal_user_id : Z;
  wg_provider_user_id : string;
  wg_encrypted_payload : string;
  wg_granted_scopes : list string;
  wg_expires_at : option Z;
  wg_authorized_at : Z;
}.

Inductive ActivationOutcome := Activated | BindingMismatch.

(** The three statements of an activation: earlier active credentials expire, the new one is
    inserted, the authorization is created or replaced. *)
Definition expire_active (account : Z) : Db → Db :=
  on_credentials (fmap (λ row, if is_active_of account row then with_status None "expired" row
                               else row)).
Definition activation_row (a : WriteGrantActivation) (created_at : Z) : CredentialRow :=
  mkCredentialRow (wg_account_id a) (wg_encrypted_payload a) (wg_granted_scopes a) "active"
    "accepted" (wg_expires_at a) None created_at.
Definition upsert_authorization (a : WriteGrantActivation) (d : Db) : option (unit * Db) :=
  if bool_decide (is_Some (oauth_intents d !! wg_oauth_intent_id a))
     && account_exists (wg_account_id a) d
  then
    let row := mkWriteAuthorization (wg_oauth_intent_id a) (wg_granted_scopes a) "active"
                 (wg_authorized_at a) None (wg_authorized_at a) in
    Some (tt, on_bookmark_write_authorizations (insert (wg_account_id a) row) d)
  else None.

(** [activate]. *)
Definition activate (a : WriteGrantActivation) : Prog PersistenceError ActivationOutcome :=
  transaction Query (
    let! account := select Query (λ d, accounts d !! wg_account_id a) in
    match account with
    | None => ret (Dropped BindingMismatch)
    | Some account =>
        if bool_decide (acc_internal_user_id account ≠ wg_internal_user_id a
                        ∨ acc_provider_user_id account ≠ wg_provider_user_id a)
        then ret (Dropped BindingMismatch)
        else
          do! execute Query (expire_active (wg_account_id a)) in
          let! id := new_uuid in
          let! created_at := pg_now in
          do! stmt Query (insert_credential id (activation_row a created_at)) in
          do! stmt Query (upsert_authorization a) in
          ret (Commit Activated)
    end).

(** ** The service *)

(** [observed_grant]. *)
Definition observed_grant (scope : option string) (requested : list string) : list string :=
  match scope with Some scopes => split_whitespace scopes | None => requested end.

Record ConnectionService := mkConnectionService {
  cs_cipher : TokenCipher;
  cs_client : TokenClient;
  cs_oauth : OauthConfig;
}.

Section Service.
Context `{Crypto, Chrono, Provider}.

(** [instant + Duration::from_secs(seconds)], which panics when the sum is not representable. *)
Definition plus_seconds (instant seconds : Z) : result Z FlowError :=
  ok_or (offset ← try_seconds seconds; checked_add_signed instant offset) Panicked.

Definition configured_redirect (oauth : OauthConfig) : result string FlowError :=
  ok_or (non_empty (redirect_uri oauth)) Configuration.

Definition payload_of (tokens : TokenResponse) : CredentialPayload :=
  mkCredentialPayload (tr_access_token tokens) (tr_refresh_token tokens).

(** [ConnectionService::exchange_code]. *)
Definition exchange_code (service : ConnectionService) (account : Z) (accepted : AcceptedCallback)
    (code : string) : Prog FlowError unit :=
  let! redirect := of_result (configured_redirect (cs_oauth service)) in
  let! tokens := client_exchange_code (cs_client service) code redirect
                   (ac_code_verifier accepted) in
  let granted := observed_grant (tr_scope tokens) (read_scopes (cs_oauth service)) in
  let missing := missing_scopes (read_scopes (cs_oauth service)) granted in
  if negb (bool_decide (missing = [])) then
    do! map_err FlowPersistence
      (insert_with_status (mkNewCredential account "" granted None) "expired") in
    throw (Downgrade missing)
  else
    let! sealed := seal_fresh (cs_cipher service) account Credential (payload_encode (payload_of tokens)) in
    let! now := clock_now in
    let! expires_at := of_result (plus_seconds now (tr_expires_in tokens)) in
    do! map_err FlowPersistence
      (insert_with_status (mkNewCredential account sealed granted (Some expires_at)) "active") in
    let! now := clock_now in
    map_err FlowPersistence (set_account_state account "connected" now).

(** [ConnectionService::exchange_bookmark_write_code]. *)
Definition exchange_bookmark_write_code (service : ConnectionService) (accepted : AcceptedCallback)
    (code : string) : Prog FlowError unit :=
  match ac_purpose accepted with
  | ReadConnection => throw Configuration
  | BookmarkWritePurpose account =>
      let required := with_write_scope (read_scopes (cs_oauth service)) in
      if bool_decide (ac_requested_scopes accepted ≠ required) then throw Configuration
      else
        let! redirect := of_result (configured_redirect (cs_oauth service)) in
        let! tokens := client_exchange_code (cs_client service) code redirect
                         (ac_code_verifier accepted) in
        let granted := observed_grant (tr_scope tokens) required in
        let missing := missing_scopes required granted in
        if negb (bool_decide (missing = [])) then
          do! map_err FlowPersistence
            (insert_rejected_write_grant account granted "scope_downgrade") in
          throw (Downgrade missing)
        else
          let! provider_user_id :=
            authenticated_user_id (cs_client service) (tr_access_token tokens) in
          let! sealed := seal_fresh (cs_cipher service) account Credential (payload_encode (payload_of tokens)) in
          let! now := clock_now in
          let! expires_at := of_result (plus_seconds now (tr_expires_in tokens)) in
          let! outcome := map_err FlowPersistence (activate
            (mkWriteGrantActivation (ac_intent_id accepted) account (ac_internal_user_id accepted)
               provider_user_id sealed granted (Some expires_at) now)) in
          match outcome with
          | Activated => ret tt
          | BindingMismatch =>
              do! map_err FlowPersistence
                (insert_rejected_write_grant account granted "provider_identity_mismatch") in
              throw ProviderIdentityMismatch
          end
  end.

(** Opening a stored credential. *)
Definition open_stored (service : ConnectionService) (account : Z) (row : CredentialRow) :
    result CredentialPayload FlowError :=
  match open (cs_cipher service) account Credential (crd_encrypted_payload row) with
  | Err e => Err (Cipher e)
  | Ok opened => ok_or (payload_decode opened) MalformedProviderResponse
  end.

(** [ConnectionService::refresh]: one transaction; a body that ends in [Commit (Err _)] commits its
    writes and then reports the refusal. *)
Definition refresh (service : ConnectionService) (account : Z) (presented : option string) :
    Prog FlowError unit :=
  let! outcome := transaction (FlowPersistence Query) (
    let! found := map_err FlowPersistence (lock_active_for_account account) in
    let! found := of_result (ok_or found CredentialInactive) in
    let '(id, row) := found in
    let! stored := of_result (open_stored service account row) in
    let presented := default (refresh_token stored) presented in
    if negb (String.eqb presented (refresh_token stored)) then
      if String.eqb (sha256_hex presented) (default ""%string (crd_superseded_refresh_hash row)) then
        do! map_err FlowPersistence (scrub_revoke_tx id) in
        let! now := clock_now in
        do! map_err FlowPersistence (set_account_state_tx account "reauth_required" now) in
        ret (Commit (Err RefreshReplay))
      else throw StaleRefreshToken
    else
      let! response := attempt (client_refresh_token (cs_client service) presented) in
      match response with
      | Err UpstreamInvalidation =>
          do! map_err FlowPersistence (mark_expired_tx id) in
          let! now := clock_now in
          do! map_err FlowPersistence (set_account_state_tx account "reauth_required" now) in
          ret (Commit (Err UpstreamInvalidation))
      | Err other => throw other
      | Ok response =>
          let! sealed := seal_fresh (cs_cipher service) account Credential
                           (payload_encode (payload_of response)) in
          let! now := clock_now in
          let! expires_at := of_result (plus_seconds now (tr_expires_in response)) in
          let! applied := map_err FlowPersistence
            (rotate_guarded_tx id sealed (Some expires_at) (sha256_hex (refresh_token stored))
               (crd_superseded_refresh_hash row)) in
          if applied : bool then ret (Commit (Ok tt)) else throw CredentialInactive
      end) in
  of_result outcome.

(** [ConnectionService::revoke]. *)
Definition revoke (service : ConnectionService) (account : Z) : Prog FlowError unit :=
  transaction (FlowPersistence Query) (
    let! found := map_err FlowPersistence (lock_active_for_account account) in
    match found with
    | None => ret (Commit tt)
    | Some (id, row) =>
        let! stored := of_result (open_stored service account row) in
        do! client_revoke (cs_client service) (access_token stored) in
        do! map_err FlowPersistence (scrub_revoke_tx id) in
        let! now := clock_now in
        do! map_err FlowPersistence (set_account_state_tx account "revoked" now) in
        ret (Commit tt)
    end).
End Service.

(** ** Callback lemmas *)

(** State digests identify intents. *)
Definition unique_hashes (d : Db) : Prop :=
  ∀ i j ri rj, oauth_intents d !! i = Some ri → oauth_intents d !! j = Some rj →
    int_state_hash ri = int_state_hash rj → i = j.

(** How the intents table may evolve: digests stay unique, no intent disappears or changes its
    digest, and a consumed intent stays consumed. *)
Definition intents_progress (d d' : Db) : Prop :=
  (unique_hashes d → unique_hashes d') ∧
  ∀ id row, oauth_intents d !! id = Some row →
    ∃ row', oauth_intents d' !! id = Some row' ∧ int_state_hash row' = int_state_hash row
            ∧ (is_Some (int_consumed_at row) → is_Some (int_consumed_at row')).

#[export] Instance intents_progress_preorder : PreOrder intents_progress.
Proof.
  split.
  - intros d. split; [done|]. intros id row Hr. by exists row.
  - intros d1 d2 d3 [U1 C1] [U2 C2]. split; [auto|]. intros id row Hr.
    destruct (C1 id row Hr) as (r2 & H2 & <- & Hc2).
    destruct (C2 id r2 H2) as (r3 & H3 & <- & Hc3). exists r3. auto.
Qed.

Lemma intent_by_hash_Some h d id row :
  intent_by_hash h d = Some (id, row) → oauth_intents d !! id = Some row ∧ int_state_hash row = h.
Proof. intros [Hr He]%find_row_Some. by apply String.eqb_eq in He. Qed.

Lemma intent_by_hash_lookup h d id row :
  unique_hashes d → oauth_intents d !! id = Some row → int_state_hash row = h →
  intent_by_hash h d = Some (id, row).
Proof.
  intros Hu Hr Hh. destruct (intent_by_hash h d) as [[i ri]|] eqn:E.
  - apply intent_by_hash_Some in E as [Hi Hhi]. assert (i = id) as -> by (eapply Hu; eauto; congruence).
    congruence.
  - pose proof (find_row_None _ _ _ _ E Hr) as Hf. simpl in Hf. by apply String.eqb_neq in Hf.
Qed.

Lemma consume_update_progress id now d : intents_progress d (consume_update id now d).2.
Proof.
  unfold consume_update. destruct (oauth_intents d !! id) as [row|] eqn:Er; [|reflexivity].
  destruct (int_consumed_at row) as [t|] eqn:Et; [reflexivity|]. split.
  - intros Hu i j ri rj. simpl.
    assert (Hl : ∀ k rk, <[id:=consumed_at now row]> (oauth_intents d) !! k = Some rk →
      ∃ r0, oauth_intents d !! k = Some r0 ∧ int_state_hash r0 = int_state_hash rk).
    { intros k rk. rewrite lookup_insert. case_decide; [subst; intros [= <-]; by exists row|].
      by exists rk. }
    intros Hi Hj Hh. destruct (Hl _ _ Hi) as (r1 & H1 & E1), (Hl _ _ Hj) as (r2 & H2 & E2).
    eapply Hu; [done..|congruence].
  - intros i ri Hi. simpl. rewrite lookup_insert. case_decide; [|by exists ri].
    subst. exists (consumed_at now row). rewrite Er in Hi. injection Hi as ->. done.
Qed.

Lemma consume_update_Consumed id now d d' :
  consume_update id now d = (Consumed, d') →
  ∃ row, oauth_intents d !! id = Some row ∧ int_consumed_at row = None ∧
         d' = on_oauth_intents (insert id (consumed_at now row)) d.
Proof.
  unfold consume_update. destruct (oauth_intents d !! id) as [row|]; [|done].
  destruct (int_consumed_at row) eqn:Et; [done|]. intros [= <-]. by exists row.
Qed.

(** A state whose intent has been consumed. *)
Definition state_used (h : string) (d : Db) : Prop :=
  unique_hashes d ∧
  ∃ id row, oauth_intents d !! id = Some row ∧ int_state_hash row = h
            ∧ is_Some (int_consumed_at row).

Lemma state_used_stable h d d' : state_used h d → intents_progress d d' → state_used h d'.
Proof.
  intros (Hu & id & row & Hr & Hh & Hc) [HU HC]. split; [auto|].
  destruct (HC id row Hr) as (row' & ? & ? & ?). exists id, row'.
  split_and!; [done|congruence|auto].
Qed.

Lemma state_used_consume h d id row now :
  state_used h d → oauth_intents d !! id = Some row → int_state_hash row = h →
  consume_update id now d = (AlreadyConsumed, d).
Proof.
  intros (Hu & id' & row' & Hr' & Hh' & Hc) Hr Hh.
  assert (id' = id) as -> by (eapply Hu; eauto; congruence).
  unfold consume_update. rewrite Hr'. by destruct (int_consumed_at row'), Hc.
Qed.

Section CallbackProperties.
Context `{Crypto}.

(** What a resolution does from any state, under faults and with other connections progressing:
    acceptance uses the state up, and a used state is never accepted. *)
Lemma resolve_callback_wp env cipher state (w : W) :
  rely (Ev:=Event) env (on_db intents_progress) → unique_hashes (w_db w) →
  wp env (resolve_callback cipher state) (λ r w',
    intents_progress (w_db w) (w_db w') ∧
    ∀ cb, r = Ok (CallbackAccepted cb) →
      state_used (state_digest state) (w_db w') ∧ ¬ state_used (state_digest state) (w_db w)) w.
Proof.
  intros Hr Hu. unfold resolve_callback, find_intent_by_state_hash, consume_intent.
  set (h := state_digest state).
  wp_step. wp_step. wp_step. pose proof (Hr (w_tick w) w) as Hd1. unfold on_db in Hd1.
  set (d1 := e_other env (w_tick w) (w_db w)) in *. simpl in Hd1.
  wp_step; cbn [result_map_err w_db set_db tick]; [|done].
  destruct (intent_by_hash h d1) as [[id row]|] eqn:E; [|wp_step; done].
  apply intent_by_hash_Some in E as [Hrow Hh].
  wp_steps. case_bool_decide; wp_steps; [done| |].
  - intros a d3 [= Ea]. cbn [w_db set_db tick] in *. set (n := S _) in *.
    set (w2 := mkWorld d1 n (w_log w)) in *.
    assert (Hd2 : intents_progress d1 (e_other env (S n) d1)).
    { apply (Hr (S n) (mkWorld d1 (S n) (w_log w))). }
    set (d2 := e_other env (S n) d1) in *.
    assert (Hp : intents_progress (w_db w) d3).
    { etrans; [exact Hd1|]. etrans; [exact Hd2|].
      pose proof (consume_update_progress id (e_clock env n) d2) as Hc. by rewrite Ea in Hc. }
    split; cbn [result_map_err]; [|done].
    destruct a; wp_steps; [|done]. split; [done|]. intros cb Hcb.
    destruct (consume_update_Consumed _ _ _ _ Ea) as (row2 & Hrow2 & Hn & ->).
    assert (Hh2 : int_state_hash row2 = h).
    { destruct Hd2 as [_ Hd2]. destruct (Hd2 id row Hrow) as (r' & Hr' & Hhr & _). congruence. }
    split.
    + split; [by apply Hp|]. exists id, (consumed_at (e_clock env n) row2). simpl.
      by rewrite lookup_insert_eq.
    + intros Hused.
      pose proof (state_used_stable _ _ _ (state_used_stable _ _ _ Hused Hd1) Hd2) as Hu2.
      by rewrite (state_used_consume _ _ _ _ _ Hu2 Hrow2 Hh2) in Ea.
  - split; [|done]. etrans; [exact Hd1|].
    exact (Hr (S (S (S (S (w_tick w))))) (mkWorld d1 (S (S (S (S (w_tick w))))) (w_log w))).
Qed.

(** A second presentation that starts after the first was accepted is never accepted. *)
Lemma accepted_callback_is_used_up env env' cipher cipher' state (w w1 w2 : W) cb cb' :
  rely (Ev:=Event) env (on_db intents_progress) →
  rely (Ev:=Event) env' (on_db intents_progress) →
  unique_hashes (w_db w) →
  resolve_callback cipher state env w = (Ok (CallbackAccepted cb), w1) →
  intents_progress (w_db w1) (w_db w2) →
  (resolve_callback cipher' state env' w2).1 ≠ Ok (CallbackAccepted cb').
Proof.
  intros Hr Hr' Hu H1 Hp H2.
  pose proof (resolve_callback_wp env cipher state w Hr Hu) as Hw. unfold wp in Hw.
  rewrite H1 in Hw. destruct Hw as [_ Hw]. destruct (Hw cb eq_refl) as [Hused _].
  pose proof (state_used_stable _ _ _ Hused Hp) as Hused2.
  pose proof (resolve_callback_wp env' cipher' state w2 Hr' (proj1 Hused2)) as Hw2. unfold wp in Hw2.
  destruct Hw2 as [_ Hw2]. destruct (Hw2 cb' H2) as [_ Hn]. by apply Hn.
Qed.

(** *** Overlapping callbacks

    The lookup and the guarded update are two statements, each its own transaction, so callbacks may
    overlap: a pool of threads that present one state, each before its lookup, between its two
    statements with what it found, or answered. *)
Definition resume_callback (cipher : TokenCipher) (found : option (Z * IntentRow)) :
    Prog FlowError CallbackResolution :=
  match found with
  | None => ret Unmatched
  | Some (id, intent) =>
      let! now := clock_now in
      if bool_decide (int_expires_at intent ≤ now) then ret Expired
      else
        let! now := clock_now in
        let! consumed := map_err FlowPersistence (consume_intent id now) in
        match consumed with
        | AlreadyConsumed => ret Replayed
        | Consumed => of_result (accepted_callback cipher id intent)
        end
  end.

Lemma resolve_callback_resumes cipher state :
  resolve_callback cipher state =
    bind (map_err FlowPersistence (find_intent_by_state_hash (state_digest state))) (resume_callback cipher).
Proof. reflexivity. Qed.

Inductive Thread :=
  | Looking
  | Holding (found : option (Z * IntentRow))
  | Answered (r : result CallbackResolution FlowError).
Definition Pool : Type := Db * list (TokenCipher * Thread).

Definition looked_up (r : result (option (Z * IntentRow)) PersistenceError) : Thread :=
  match r with Ok found => Holding found | Err e => Answered (Err (FlowPersistence e)) end.

(** One thread runs one of its statements, under any faults, or another connection works on the
    intents. *)
Inductive pool_step (state : string) : Pool → Pool → Prop :=
  | pool_others d d' threads : intents_progress d d' → pool_step state (d, threads) (d', threads)
  | pool_lookup env (w w' : W) before cipher after r :
      rely (Ev:=Event) env (on_db intents_progress) →
      find_intent_by_state_hash (state_digest state) env w = (r, w') →
      pool_step state (w_db w, before ++ (cipher, Looking) :: after)
        (w_db w', before ++ (cipher, looked_up r) :: after)
  | pool_resume env (w w' : W) before cipher found after r :
      rely (Ev:=Event) env (on_db intents_progress) →
      resume_callback cipher found env w = (r, w') →
      pool_step state (w_db w, before ++ (cipher, Holding found) :: after)
        (w_db w', before ++ (cipher, Answered r) :: after).

(** A run of the handler, whatever the other connections do meanwhile, is the path of one thread. *)
Lemma resolve_callback_is_a_thread env cipher state (w : W) before after :
  rely (Ev:=Event) env (on_db intents_progress) →
  let '(r, w') := resolve_callback cipher state env w in
  rtc (pool_step state) (w_db w, before ++ (cipher, Looking) :: after)
    (w_db w', before ++ (cipher, Answered r) :: after).
Proof.
  intros Hr. rewrite resolve_callback_resumes. unfold bind, map_err.
  destruct (find_intent_by_state_hash _ env w) as [[found|e] w1] eqn:Ef; simpl.
  - destruct (resume_callback cipher found env w1) as [r w2] eqn:Er.
    eapply rtc_l; [by eapply pool_lookup|]. apply rtc_once. by eapply pool_resume.
  - apply rtc_once. exact (pool_lookup state env w w1 before cipher after (Err e) Hr Ef).
Qed.

(** What a thread holds is an intent of the presented state. *)
Definition held_by (h : string) (d : Db) (found : option (Z * IntentRow)) : Prop :=
  match found with
  | None => True
  | Some (id, _) => ∃ row, oauth_intents d !! id = Some row ∧ int_state_hash row = h
  end.

Lemma held_stable h d d' found : intents_progress d d' → held_by h d found → held_by h d' found.
Proof.
  intros [_ Hp]. destruct found as [[id r]|]; [|done]. intros (row & Hrow & Hh).
  destruct (Hp id row Hrow) as (row' & ? & ? & _). exists row'. split; [done|congruence].
Qed.

Lemma lookup_holds env h (w : W) :
  rely (Ev:=Event) env (on_db intents_progress) →
  wp env (find_intent_by_state_hash h) (λ r w', intents_progress (w_db w) (w_db w') ∧
    match r with Ok found => held_by h (w_db w') found | Err _ => True end) w.
Proof.
  intros Hr. unfold find_intent_by_state_hash. wp_step.
  pose proof (Hr (w_tick w) w) as Hd. unfold on_db in Hd. simpl in Hd. wp_step; [|done].
  cbn [w_db set_db tick]. split; [done|].
  destruct (intent_by_hash _ _) as [[id row]|] eqn:E; [|done]. apply intent_by_hash_Some in E. by exists row.
Qed.

(** The guarded update tests and sets in one statement: who is accepted found the state unused. *)
Lemma resume_accepts env cipher found h (w : W) :
  rely (Ev:=Event) env (on_db intents_progress) → unique_hashes (w_db w) → held_by h (w_db w) found →
  wp env (resume_callback cipher found) (λ r w', intents_progress (w_db w) (w_db w') ∧
    ∀ cb, r = Ok (CallbackAccepted cb) → state_used h (w_db w') ∧ ¬ state_used h (w_db w)) w.
Proof.
  intros Hr Hu Hheld. unfold resume_callback, consume_intent. destruct found as [[id intent]|]; [|by wp_steps].
  destruct Hheld as (row & Hrow & Hh). wp_steps. case_bool_decide; wp_steps; [done| |].
  2:{ split; [|done]. exact (Hr (S (S (w_tick w))) (mkWorld (w_db w) (S (S (w_tick w))) (w_log w))). }
  intros a d3 [= Ea]. cbn [w_db set_db tick] in *. set (n := w_tick w) in *.
  assert (Hd : intents_progress (w_db w) (e_other env (S (S n)) (w_db w)))
    by exact (Hr (S (S n)) (mkWorld (w_db w) (S (S n)) (w_log w))).
  set (d := e_other env (S (S n)) (w_db w)) in *.
  assert (Hp : intents_progress (w_db w) d3).
  { etrans; [exact Hd|]. pose proof (consume_update_progress id (e_clock env (S n)) d) as Hc. by rewrite Ea in Hc. }
  split; cbn [result_map_err]; [|by split]. destruct a; wp_steps; [|by split]. split; [done|]. intros cb _.
  destruct (consume_update_Consumed _ _ _ _ Ea) as (row2 & Hrow2 & Hn & ->).
  assert (Hh2 : int_state_hash row2 = h).
  { destruct Hd as [_ Hd]. destruct (Hd id row Hrow) as (r' & Hr' & Hhr & _). congruence. }
  split.
  - split; [by apply Hp|]. exists id, (consumed_at (e_clock env (S n)) row2). simpl. by rewrite lookup_insert_eq.
  - intros Hused. pose proof (state_used_stable _ _ _ Hused Hd) as Hu2.
    by rewrite (state_used_consume _ _ _ _ _ Hu2 Hrow2 Hh2) in Ea.
Qed.

Definition accepted (thread : TokenCipher * Thread) : Prop :=
  ∃ cb, thread.2 = Answered (Ok (CallbackAccepted cb)).

(** The pool's invariant: an acceptance uses up a state that was unused to begin with, and there is at
    most one. *)
Record PoolSound (h : string) (d0 : Db) (p : Pool) : Prop := {
  ps_unique : unique_hashes p.1;
  ps_used : state_used h d0 → state_used h p.1;
  ps_held i cipher found : p.2 !! i = Some (cipher, Holding found) → held_by h p.1 found;
  ps_accepted i thread : p.2 !! i = Some thread → accepted thread → state_used h p.1 ∧ ¬ state_used h d0;
  ps_once i j t u : p.2 !! i = Some t → p.2 !! j = Some u → accepted t → accepted u → i = j;
}.

(** A step that moves one thread on. *)
Lemma pool_moves h d0 d d' before after thread thread' :
  PoolSound h d0 (d, before ++ thread :: after) → intents_progress d d' → ¬ accepted thread →
  (∀ cipher found, thread' = (cipher, Holding found) → held_by h d' found) →
  (accepted thread' → state_used h d' ∧ ¬ state_used h d) →
  PoolSound h d0 (d', before ++ thread' :: after).
Proof.
  intros [Hu Hd0 Hh Ha Ho] Hp Hnot Hheld Hacc. cbn [fst snd] in *.
  assert (Hother : ∀ i t, (before ++ thread' :: after) !! i = Some t →
    (i = length before ∧ t = thread') ∨
    (i ≠ length before ∧ (before ++ thread :: after) !! i = Some t)).
  { intros i t. rewrite !lookup_app. destruct (before !! i) as [x|] eqn:E.
    - apply lookup_lt_Some in E. intros [= ->]. right. split; [lia|done].
    - apply lookup_ge_None in E. destruct (i - length before)%nat eqn:Ei; simpl.
      + intros [= ->]. left. split; [lia|done].
      + intros Ht. right. split; [lia|]. by rewrite ?Ei. }
  split; cbn [fst snd].
  - by apply Hp.
  - intros Hzero. eapply state_used_stable; [by apply Hd0|done].
  - intros i cipher found [[-> E]|[_ E]]%Hother; [by eapply Hheld|]. by eapply held_stable, Hh.
  - intros i t [[-> ->]|[_ E]]%Hother Ht.
    + destruct (Hacc Ht) as [? Hn]. split; [done|]. intros Hzero. by apply Hn, Hd0.
    + destruct (Ha i t E Ht). split; [by eapply state_used_stable|done].
  - intros i j t u [[-> ->]|[Hi E]]%Hother [[-> ->]|[Hj E']]%Hother Ht Hu'; [done| | |by eapply Ho].
    + destruct (Hacc Ht) as [_ Hn]. by destruct Hn; eapply Ha.
    + destruct (Hacc Hu') as [_ Hn]. by destruct Hn; eapply Ha.
Qed.

Lemma pool_step_sound state d0 p p' :
  pool_step state p p' → PoolSound (state_digest state) d0 p → PoolSound (state_digest state) d0 p'.
Proof.
  intros Hs HP. assert (Hheld : ∀ before cipher found after d,
    p = (d, before ++ (cipher, Holding found) :: after) → held_by (state_digest state) d found).
  { intros before cipher found after d ->. apply (ps_held _ _ _ HP (length before) cipher).
    simpl. rewrite lookup_app_r, Nat.sub_diag by done. done. }
  pose proof (ps_unique _ _ _ HP) as Hu. destruct Hs as [d d' threads Hp|env w w' before cipher after r Hr E|env w w' before cipher found after r Hr E].
  - destruct HP as [_ Hd0 Hh Ha Ho]. cbn [fst snd] in *. split; cbn [fst snd]; [by apply Hp| | | |exact Ho].
    + intros Hzero. eapply state_used_stable; [by apply Hd0|done].
    + intros i c found Hi. by eapply held_stable, Hh.
    + intros i t Hi Ht. destruct (Ha i t Hi Ht). split; [by eapply state_used_stable|done].
  - pose proof (lookup_holds env (state_digest state) w Hr) as Hl. unfold wp in Hl. rewrite E in Hl.
    destruct Hl as [Hp Hl]. eapply pool_moves; [exact HP|exact Hp|by intros [cb [=]]| |].
    + intros c found [= -> Ef]. destruct r; [|done]. by injection Ef as ->.
    + intros [cb Hcb]. by destruct r.
  - pose proof (resume_accepts env cipher found _ w Hr Hu (Hheld _ _ _ _ _ eq_refl)) as Hl. unfold wp in Hl.
    rewrite E in Hl. destruct Hl as [Hp Hl]. eapply pool_moves; [exact HP|exact Hp|by intros [cb [=]]|done|].
    intros [cb [= ->]]. by eapply Hl.
Qed.

Lemma pool_stays_sound state d0 p p' :
  rtc (pool_step state) p p' → PoolSound (state_digest state) d0 p → PoolSound (state_digest state) d0 p'.
Proof. induction 1 as [|p q r Hs _ IH]; [done|]. intros HP. by eapply IH, pool_step_sound. Qed.

Lemma pool_starts_sound h d (ciphers : list TokenCipher) :
  unique_hashes d → PoolSound h d (d, (λ cipher, (cipher, Looking)) <$> ciphers).
Proof.
  intros Hu. assert (Hlooking : ∀ i t, ((λ cipher, (cipher, Looking)) <$> ciphers) !! i = Some t → t.2 = Looking).
  { intros i t. rewrite list_lookup_fmap. by intros (cipher & _ & ->)%fmap_Some. }
  split; cbn [fst snd]; [done|done|..].
  - intros i cipher found Hi%Hlooking. done.
  - intros i t Hi%Hlooking [cb Hcb]. congruence.
  - intros i j t u Hi%Hlooking _ [cb Hcb]. congruence.
Qed.

(** C24. A callback state is accepted at most once, also when callbacks overlap. Let any number of
    connections present the same state and interleave their statements in any order (the lookup and the
    guarded update of each run, so that several may have found the intent unconsumed before the first
    one consumes it), under any faults and while other connections work on the intents within their own
    rules: at most one of them is accepted, the state was unused before, and it is used up after. Every
    run of the handler is such a thread, so a later presentation is covered as well. *)
Theorem callback_accepted_at_most_once state d ciphers d' threads :
  unique_hashes d →
  rtc (pool_step state) (d, (λ cipher, (cipher, Looking)) <$> ciphers) (d', threads) →
  (∀ i j t u, threads !! i = Some t → threads !! j = Some u → accepted t → accepted u → i = j) ∧
  (∀ i t, threads !! i = Some t → accepted t →
     state_used (state_digest state) d' ∧ ¬ state_used (state_digest state) d) ∧
  (∀ env cipher (w : W) before after, rely (Ev:=Event) env (on_db intents_progress) →
     let '(r, w') := resolve_callback cipher state env w in
     rtc (pool_step state) (w_db w, before ++ (cipher, Looking) :: after)
       (w_db w', before ++ (cipher, Answered r) :: after)).
Proof.
  intros Hu Hs. split_and!; [..|intros env cipher w before after; by apply resolve_callback_is_a_thread].
  all: pose proof (pool_stays_sound _ _ _ _ Hs (pool_starts_sound (state_digest state) d ciphers Hu)) as HP.
  - apply (ps_once _ _ _ HP).
  - apply (ps_accepted _ _ _ HP).
Qed.

(** The four outcomes of a callback, read off the stored intent at one instant: an unknown
    state, an expired intent and a consumed one change nothing, and a live one is consumed and
    yields exactly its own binding, scopes and decrypted verifier. *)
Theorem resolve_callback_outcomes env cipher state now (w : W) :
  quiet env → (∀ n, e_clock env n = now) →
  let d := w_db w in
  let '(r, w') := resolve_callback cipher state env w in
  match intent_by_hash (state_digest state) d with
  | None => r = Ok Unmatched ∧ w_db w' = d
  | Some (id, intent) =>
      if bool_decide (int_expires_at intent ≤ now) then r = Ok Expired ∧ w_db w' = d
      else if bool_decide (is_Some (int_consumed_at intent)) then r = Ok Replayed ∧ w_db w' = d
      else r = accepted_callback cipher id intent ∧
           w_db w' = on_oauth_intents (insert id (consumed_at now intent)) d
  end.
Proof.
  intros Hq Hc d. unfold resolve_callback, find_intent_by_state_hash, consume_intent.
  run_quiet Hq. fold d. destruct (intent_by_hash _ d) as [[id intent]|] eqn:E; [|done].
  rewrite Hc. case_bool_decide; [done|]. rewrite Hc. run_quiet Hq.
  apply intent_by_hash_Some in E as [Hr _]. fold d. unfold consume_update. rewrite Hr.
  by destruct (int_consumed_at intent).
Qed.
End CallbackProperties.

(** ** Credential lemmas *)

Lemma newer_total a b : newer a b = false → newer b a = false → a.1 = b.1.
Proof. unfold newer. rewrite !bool_decide_eq_false. lia. Qed.

Lemma newer_trans a b c : newer b a = false → newer c b = false → newer c a = false.
Proof. unfold newer. rewrite !bool_decide_eq_false. lia. Qed.

Lemma newest_of_spec rows :
  match newest_of rows with
  | None => rows = []
  | Some best => best ∈ rows ∧ ∀ other, other ∈ rows → newer other best = false
  end.
Proof.
  unfold newest_of.
  set (step := λ (best : option (Z * CredentialRow)) row, match best with
    | None => Some row | Some b => if newer row b then Some row else Some b end).
  assert (Hg : ∀ rows seen best,
    best ∈ seen → (∀ o, o ∈ seen → newer o best = false) →
    match fold_left step rows (Some best) with
    | None => False
    | Some b => b ∈ seen ++ rows ∧ ∀ o, o ∈ seen ++ rows → newer o b = false
    end).
  { clear. induction rows as [|x rows IH]; intros seen best Hb Ho; simpl.
    - by rewrite app_nil_r.
    - assert (Hx : newer x x = false) by (unfold newer; apply bool_decide_eq_false; lia).
      replace (seen ++ x :: rows) with ((seen ++ [x]) ++ rows) by (by rewrite <-app_assoc).
      destruct (newer x best) eqn:E.
      + apply IH; [apply elem_of_app; right; by left|].
        intros o [Hin|Ho1]%elem_of_app; [|apply list_elem_of_singleton in Ho1 as ->; done].
        eapply newer_trans; [|by apply Ho]. unfold newer in *.
        apply bool_decide_eq_true in E. apply bool_decide_eq_false. lia.
      + apply IH; [apply elem_of_app; by left|].
        intros o [Hin|Ho1]%elem_of_app; [by apply Ho|apply list_elem_of_singleton in Ho1 as ->; done]. }
  destruct rows as [|x rows]; [done|]. simpl.
  pose proof (Hg rows [x] x) as H. simpl in H.
  destruct (fold_left step rows (Some x)) as [b|].
  - apply H; [by left|]. intros o Ho1. apply list_elem_of_singleton in Ho1 as ->. unfold newer.
    apply bool_decide_eq_false. lia.
  - exfalso. apply H; [by left|]. intros o Ho1. apply list_elem_of_singleton in Ho1 as ->. unfold newer.
    apply bool_decide_eq_false. lia.
Qed.

(** The newest row that satisfies [P], by creation time and then id. *)
Definition is_newest (P : CredentialRow → bool) (d : Db) (id : Z) (row : CredentialRow) : Prop :=
  credentials d !! id = Some row ∧ P row = true ∧
  ∀ id' row', credentials d !! id' = Some row' → P row' = true →
    newer (id', row') (id, row) = false.

Lemma elem_of_satisfying P d id row :
  (id, row) ∈ List.filter (λ kv : Z * CredentialRow, P kv.2) (map_to_list (credentials d)) ↔
  credentials d !! id = Some row ∧ P row = true.
Proof.
  rewrite list_elem_of_In, filter_In, <-list_elem_of_In, elem_of_map_to_list. done.
Qed.

Lemma newest_credential_iff P d id row :
  newest_credential P d = Some (id, row) ↔ is_newest P d id row.
Proof.
  unfold newest_credential.
  pose proof (newest_of_spec (List.filter (λ kv : Z * CredentialRow, P kv.2)
                                (map_to_list (credentials d)))) as H.
  destruct (newest_of _) as [[i r]|].
  - destruct H as [Hin Hmax]. apply elem_of_satisfying in Hin as [Hi HP]. split.
    + intros [= -> ->]. split_and!; [done..|]. intros id' row' H1 H2.
      by apply Hmax, elem_of_satisfying.
    + intros (Hid & HP' & Hmax'). f_equal.
      assert (E : i = id).
      { apply (newer_total (i, r) (id, row)); [by apply Hmax'|]. by apply Hmax, elem_of_satisfying. }
      subst. congruence.
  - split; [done|]. intros (Hid & HP & _).
    assert (Hin : (id, row) ∈ List.filter (λ kv : Z * CredentialRow, P kv.2)
      (map_to_list (credentials d))) by (by apply elem_of_satisfying).
    rewrite H in Hin. by apply not_elem_of_nil in Hin.
Qed.

(** Rewriting the newest row in place, under the same account, status and time, keeps it newest. *)
Lemma newest_credential_insert account d id row row' :
  newest_credential (is_active_of account) d = Some (id, row) →
  crd_account_id row' = crd_account_id row → crd_status row' = crd_status row →
  crd_created_at row' = crd_created_at row →
  newest_credential (is_active_of account) (on_credentials (insert id row') d) = Some (id, row').
Proof.
  rewrite !newest_credential_iff. intros (Hid & HP & Hmax) Ha Hs Hc. split_and!.
  - simpl. by rewrite lookup_insert_eq.
  - unfold is_active_of in *. by rewrite Ha, Hs.
  - intros i r Hi HPi. simpl in Hi. rewrite lookup_insert in Hi. case_decide as Hd.
    + subst. injection Hi as ->. unfold newer. apply bool_decide_eq_false. simpl. lia.
    + specialize (Hmax i r Hi HPi). unfold newer in *. simpl in *. by rewrite Hc.
Qed.

Section ServiceProperties.
Context {cr : Crypto} {crl : CryptoLaws} {ch : Chrono} {chl : ChronoLaws} {pr : Provider}.

(** The refresh contract: what a presentation of a refresh token to the database [d] at the instant
    [now] reports ([r]) and leaves behind ([d']). *)
Definition refresh_spec (service : ConnectionService) (account : Z) (presented : option string)
    (now : Z) (d : Db) (r : result unit FlowError) (d' : Db) : Prop :=
  match newest_credential (is_active_of account) d with
  | None => r = Err CredentialInactive ∧ d' = d
  | Some (id, row) =>
      match open_stored service account row with
      | Err e => r = Err e ∧ d' = d
      | Ok stored =>
          let token := default (refresh_token stored) presented in
          if negb (String.eqb token (refresh_token stored)) then
            if String.eqb (sha256_hex token) (default ""%string (crd_superseded_refresh_hash row))
            then r = Err RefreshReplay ∧
                 d' = account_state_update account "reauth_required" now (scrub_update id d)
            else r = Err StaleRefreshToken ∧ d' = d
          else ∃ step nonce, String.length nonce = NONCE_LEN ∧
            match completed (http_answer step) token_answer with
            | Err UpstreamInvalidation =>
                r = Err UpstreamInvalidation ∧
                d' = account_state_update account "reauth_required" now (expire_update id d)
            | Err e => r = Err e ∧ d' = d
            | Ok response =>
                match plus_seconds now (tr_expires_in response) with
                | Err e => r = Err e ∧ d' = d
                | Ok expires_at =>
                    r = Ok tt ∧
                    d' = on_credentials (insert id (rotated_row
                      (seal_with (cs_cipher service) nonce account Credential
                         (payload_encode (payload_of response)))
                      (Some expires_at) (sha256_hex (refresh_token stored)) row)) d
                end
            end
      end
  end.

Lemma refresh_quiet env service account presented now (w : W) :
  quiet env → (∀ n, e_clock env n = now) →
  let '(r, w') := refresh service account presented env w in
  refresh_spec service account presented now (w_db w) r (w_db w').
Proof.
  intros Hq Hc. unfold refresh_spec. set (d := w_db w). unfold refresh, lock_active_for_account, scrub_revoke_tx, mark_expired_tx,
    set_account_state_tx, client_refresh_token, post_token_form, post_form_raw, exchange, seal_fresh,
    rotate_guarded_tx.
  run_quiet Hq. fold d.
  destruct (newest_credential _ d) as [[id row]|] eqn:En; [|done]. run_quiet Hq.
  destruct (open_stored service account row) as [stored|e]; [|done]. run_quiet Hq.
  set (token := default _ _).
  destruct (String.eqb token (refresh_token stored)); cbn [negb]; run_quiet Hq.
  - destruct (completed (http_answer (S (S (S (w_tick w))))) token_answer) as [response|e] eqn:Ea.
    + apply newest_credential_iff in En as (Hid & HP & _).
      apply andb_true_iff in HP as [_ Hact].
      run_quiet Hq. rewrite Hc.
      destruct (plus_seconds now (tr_expires_in response)) as [expires_at|e] eqn:Ep.
      * run_quiet Hq. unfold rotate_update. fold d. rewrite Hid, Hact, bool_decide_eq_true_2 by done.
        run_quiet Hq. eexists _, (be_bytes NONCE_LEN _). split; [apply be_bytes_length|].
        rewrite Ea, Ep. done.
      * run_quiet Hq. eexists _, (be_bytes NONCE_LEN 0). split; [apply be_bytes_length|].
        rewrite Ea, Ep. done.
    + destruct e; run_quiet Hq; eexists _, (be_bytes NONCE_LEN 0);
        (split; [apply be_bytes_length|]); rewrite Ea, ?Hc; done.
  - destruct (String.eqb (sha256_hex token) _); run_quiet Hq; [by rewrite Hc|done].
Qed.

Lemma is_newest_active account d id row :
  newest_credential (is_active_of account) d = Some (id, row) →
  credentials d !! id = Some row ∧ crd_account_id row = account.
Proof.
  intros (Hid & HP & _)%newest_credential_iff. apply andb_true_iff in HP as [HP _].
  by apply Z.eqb_eq in HP.
Qed.

(** C11. Refreshing implements its contract: every presentation of a refresh token falls into one
    class with exactly that class's effect (no usable credential, a stale token or a provider fault
    changes nothing; the retired token revokes and scrubs; a rejected token expires the credential
    and keeps its evidence; a rotation stores the new pair sealed for this account and remembers
    the hash of the token it retired), and no other account's credentials or state are touched. *)
Theorem refresh_refines_contract env service account presented now (w : W) :
  quiet env → (∀ n, e_clock env n = now) →
  let '(r, w') := refresh service account presented env w in
  refresh_spec service account presented now (w_db w) r (w_db w') ∧
  (∀ id row, credentials (w_db w) !! id = Some row → crd_account_id row ≠ account →
     credentials (w_db w') !! id = Some row) ∧
  (∀ other, other ≠ account → accounts (w_db w') !! other = accounts (w_db w) !! other).
Proof.
  intros Hq Hc. pose proof (refresh_quiet env service account presented now w Hq Hc) as Hspec.
  destruct (refresh service account presented env w) as [r w']. split; [done|].
  unfold refresh_spec in Hspec. set (d := w_db w) in *. set (d' := w_db w') in *.
  destruct (newest_credential _ d) as [[id row]|] eqn:En; [|by destruct Hspec as [_ ->]].
  apply is_newest_active in En as [Hid Hacc].
  assert (Hother : ∀ f i ri, credentials d !! i = Some ri → crd_account_id ri ≠ account →
    alter f id (credentials d) !! i = Some ri).
  { intros f i ri Hi Hne. rewrite lookup_alter_ne; [done|]. intros ->. congruence. }
  destruct (open_stored service account row) as [stored|e]; [|by destruct Hspec as [_ ->]].
  cbv zeta in Hspec. destruct (negb _).
  - destruct (String.eqb _ _); destruct Hspec as [_ ->]; [|done].
    split; [intros i ri; by apply Hother|]. intros other Hne. simpl. by rewrite lookup_alter_ne.
  - destruct Hspec as (step & nonce & _ & Hspec).
    destruct (completed _ _) as [response|e].
    + destruct (plus_seconds _ _) as [x|e]; destruct Hspec as [_ ->]; [|done].
      split; [|done]. intros i ri Hi Hne. simpl. rewrite lookup_insert_ne; [done|].
      intros ->. congruence.
    + destruct e; destruct Hspec as [_ ->]; try done.
      split; [intros i ri; by apply Hother|]. intros other Hne. simpl. by rewrite lookup_alter_ne.
Qed.

(** Reuse of a rotated refresh token revokes the whole family: once a refresh succeeded and the
    provider issued a different token, presenting the old token again is recognised as reuse,
    empties and revokes the credential and marks the account for reauthorization, without asking
    the provider again. *)
Theorem rotated_token_reuse_revokes_family env env2 service account now now2 (w w1 : W) id row stored :
  quiet env → (∀ n, e_clock env n = now) → quiet env2 → (∀ n, e_clock env2 n = now2) →
  newest_credential (is_active_of account) (w_db w) = Some (id, row) →
  open_stored service account row = Ok stored →
  refresh service account None env w = (Ok tt, w1) →
  (∀ row1 rotated, credentials (w_db w1) !! id = Some row1 →
     open_stored service account row1 = Ok rotated →
     refresh_token rotated ≠ refresh_token stored) →
  (∀ row1 e, credentials (w_db w1) !! id = Some row1 → open_stored service account row1 ≠ Err e) →
  let '(r, w2) := refresh service account (Some (refresh_token stored)) env2 w1 in
  r = Err RefreshReplay ∧
  w_db w2 = account_state_update account "reauth_required" now2 (scrub_update id (w_db w1)).
Proof.
  intros Hq Hc Hq2 Hc2 Hn Ho Hr Hdiff Hopen.
  pose proof (refresh_quiet env service account None now w Hq Hc) as H1. rewrite Hr in H1.
  unfold refresh_spec in H1. rewrite Hn, Ho in H1. simpl in H1. rewrite String.eqb_refl in H1.
  simpl in H1. destruct H1 as (step & nonce & _ & H1).
  destruct (completed _ _) as [response|e]; [|by destruct e, H1 as [? _]].
  destruct (plus_seconds _ _) as [expires|e]; [|by destruct H1 as [? _]]. destruct H1 as [_ H1].
  set (row1 := rotated_row _ _ _ row) in H1.
  assert (Hn1 : newest_credential (is_active_of account) (w_db w1) = Some (id, row1)).
  { rewrite H1. by eapply newest_credential_insert. }
  destruct (is_newest_active _ _ _ _ Hn1) as [Hid1 _].
  pose proof (refresh_quiet env2 service account (Some (refresh_token stored)) now2 w1 Hq2 Hc2) as H2.
  destruct (refresh service account _ env2 w1) as [r w2].
  unfold refresh_spec in H2. rewrite Hn1 in H2.
  destruct (open_stored service account row1) as [rotated|e] eqn:Ho1;
    [|by exfalso; eapply Hopen].
  simpl in H2. destruct (String.eqb_spec (refresh_token stored) (refresh_token rotated)) as [He|_].
  { exfalso. by eapply Hdiff. }
  simpl in H2. rewrite String.eqb_refl in H2. done.
Qed.

(** Revocation tells the provider before it forgets: with a usable active credential, the
    stored access token is posted to the revocation endpoint; only a failed request leaves the
    credential in place, and otherwise its material is emptied, it is revoked and the account is
    marked revoked. Without an active credential nothing is posted and nothing changes. *)
Theorem revoke_notifies_then_scrubs env service account now (w : W) :
  quiet env → (∀ n, e_clock env n = now) →
  let d := w_db w in
  let '(r, w') := revoke service account env w in
  match newest_credential (is_active_of account) d with
  | None => r = Ok tt ∧ w_db w' = d ∧ w_log w' = w_log w
  | Some (id, row) =>
      match open_stored service account row with
      | Err e => r = Err e ∧ w_db w' = d ∧ w_log w' = w_log w
      | Ok stored =>
          (∃ auth, w_log w' = w_log w ++ [PostForm (tc_revocation_url (cs_client service)) auth
                                            (urlencoded [("token", access_token stored)%string])]) ∧
          ∃ step, match completed (http_answer step) (λ _, Ok tt) with
                  | Err e => r = Err e ∧ w_db w' = d
                  | Ok _ => r = Ok tt ∧
                      w_db w' = account_state_update account "revoked" now (scrub_update id d)
                  end
      end
  end.
Proof.
  intros Hq Hc d. unfold revoke, lock_active_for_account, scrub_revoke_tx, set_account_state_tx,
    client_revoke, post_form_raw, exchange.
  run_quiet Hq. fold d.
  destruct (newest_credential _ d) as [[id row]|]; [|done]. run_quiet Hq.
  destruct (open_stored service account row) as [stored|e]; [|done]. run_quiet Hq.
  destruct (completed (http_answer (S (S (S (w_tick w))))) _) as [[]|e] eqn:Ea; run_quiet Hq;
    (split; [by eexists|]); eexists; rewrite Ea, ?Hc; done.
Qed.

(** ** The write authority *)

(** The account exists and belongs to this owner and this provider identity. *)
Definition bound (a : WriteGrantActivation) (d : Db) : Prop :=
  ∃ account, accounts d !! wg_account_id a = Some account ∧
    acc_internal_user_id account = wg_internal_user_id a ∧
    acc_provider_user_id account = wg_provider_user_id a.

(** What an activation leaves: one fresh credential, the only active one of its account, and the
    authorization row. *)
Definition activated_state (a : WriteGrantActivation) (d d' : Db) : Prop :=
  bound a d ∧
  (∃ id row, credentials d !! id = None ∧ credentials d' !! id = Some row ∧
     crd_encrypted_payload row = wg_encrypted_payload a ∧ is_active_of (wg_account_id a) row = true ∧
     ∀ i ri, credentials d' !! i = Some ri → is_active_of (wg_account_id a) ri = true → i = id) ∧
  bookmark_write_authorizations d' =
    <[wg_account_id a := mkWriteAuthorization (wg_oauth_intent_id a) (wg_granted_scopes a) "active"
        (wg_authorized_at a) None (wg_authorized_at a)]> (bookmark_write_authorizations d).

Lemma activation_statements a d id created_at n1 d1 n2 d2 :
  bound a d →
  insert_credential id (activation_row a created_at) (expire_active (wg_account_id a) d) = Some (n1, d1) →
  upsert_authorization a d1 = Some (n2, d2) →
  activated_state a d d2.
Proof.
  intros Hb H1 H2. unfold insert_credential, insert_new in H1.
  destruct (account_exists _ _); [|done]. simpl in H1. rewrite lookup_fmap in H1.
  destruct (credentials d !! id) as [r0|] eqn:E0; simpl in H1; [done|].
  injection H1 as <- <-. unfold upsert_authorization in H2.
  destruct (_ && _); [|done]. injection H2 as _ <-.
  split; [done|]. split; [|done]. exists id, (activation_row a created_at). simpl.
  rewrite lookup_insert_eq. split_and!; try done.
  - unfold is_active_of. simpl. by rewrite Z.eqb_refl.
  - intros i ri. rewrite lookup_insert. case_decide; [by subst|].
    rewrite lookup_fmap. destruct (credentials d !! i) as [r|]; [|done]. intros [= <-] Hact.
    exfalso. destruct (is_active_of (wg_account_id a) r) eqn:Er; [|congruence].
    unfold is_active_of, with_status in Hact. simpl in Hact. by rewrite andb_false_r in Hact.
Qed.

(** What an activation may do, in any environment: nothing, or all of it on a bound account. *)
Lemma activate_wp env a (w : W) :
  let d := e_other env (w_tick w) (w_db w) in
  wp env (activate a) (λ r w',
    w_log w' = w_log w ∧
    match r with
    | Ok Activated => activated_state a d (w_db w')
    | Ok BindingMismatch => w_db w' = d ∧ ¬ bound a d
    | Err e => e = Query ∧ (w_db w' = d ∨ activated_state a d (w_db w'))
    end) w.
Proof.
  intros d. unfold activate. wp_step; [split; [done|]; by auto|]. wp_steps; cbn [w_db set_db tick];
    fold d; [|split; [done|]; by auto].
  destruct (accounts d !! wg_account_id a) as [account|] eqn:Ea.
  2:{ wp_steps. split; [done|]. split; [done|]. intros (x & Hx & _). congruence. }
  case_bool_decide as Hb; wp_steps; cbn [w_db set_db tick];
    try (split; [done|]; by auto).
  { split; [done|]. split; [done|]. intros (x & Hx & Ho & Hp).
    assert (x = account) by congruence. subst. destruct Hb as [Hb|Hb]; by apply Hb. }
  assert (Hbound : bound a d).
  { exists account. destruct (decide (acc_internal_user_id account = wg_internal_user_id a)),
      (decide (acc_provider_user_id account = wg_provider_user_id a)); tauto. }
  intros n1 d1 E1. split; [|split; [done|]; by auto]. wp_steps; cbn [w_db set_db tick];
    [|split; [done|]; by auto].
  intros n2 d2 E2. pose proof (activation_statements _ _ _ _ _ _ _ _ Hbound E1 E2).
  split; [|split; [done|]; by auto]. wp_steps. cbn [w_db set_db tick].
  split_and!; auto.
Qed.

(** Activating the write authority is all or nothing, whatever fails: it either leaves the
    database as the transaction found it, or replaces the account's active credential by exactly one
    new one and grants the authorization together; the latter only for an account of the same owner
    and provider identity, and always when it reports success. *)
Theorem activate_all_or_nothing env a (w : W) :
  let d := e_other env (w_tick w) (w_db w) in
  let '(r, w') := activate a env w in
  (w_db w' = d ∨ activated_state a d (w_db w')) ∧
  (r = Ok Activated → activated_state a d (w_db w')) ∧
  (r = Ok BindingMismatch ↔ w_db w' = d ∧ ¬ bound a d ∧ is_ok r = true).
Proof.
  intros d. pose proof (activate_wp env a w) as Hw. unfold wp in Hw. cbv zeta in Hw. fold d in Hw.
  destruct (activate a env w) as [[[]|e] w']; simpl in Hw; destruct Hw as [_ Hw].
  - split_and!; [by right|done|]. split; [done|]. intros (_ & Hn & _). by destruct Hw.
  - destruct Hw as [-> Hn]. split_and!; [by left|done|]. by split.
  - destruct Hw as [-> Hw]. split_and!; [done|done|]. split; [done|]. by intros (_ & _ & ?).
Qed.

(** Statements outside the activation leave the authorizations alone. *)
Definition same_authority (d d' : Db) : Prop :=
  bookmark_write_authorizations d' = bookmark_write_authorizations d ∧ accounts d' = accounts d.

#[export] Instance same_authority_preorder : PreOrder same_authority.
Proof.
  split; [by intros d|]. intros d1 d2 d3 [] []. split; congruence.
Qed.

Lemma insert_credential_authority id row d n d' :
  insert_credential id row d = Some (n, d') → same_authority d d'.
Proof.
  unfold insert_credential. destruct (account_exists _ _); [|done].
  destruct (insert_new _ _ _); [|done]. by intros [= _ <-].
Qed.

Lemma insert_rejected_authority env account granted outcome :
  rely (Ev:=Event) env (on_db same_authority) →
  guar env (on_db same_authority) (insert_rejected_write_grant account granted outcome).
Proof.
  intros Hr. unfold insert_rejected_write_grant. guar_steps.
  by apply insert_credential_authority with (1 := H).
Qed.

(** The grant a write activation of [service] for [accepted] rests on: the account of the intent,
    owned by the requesting user and identified by the provider itself, and a grant that omits none
    of the required scopes. *)
Definition justified_grant (service : ConnectionService) (accepted : AcceptedCallback) (d d' : Db) :
    Prop :=
  ∃ account row step granted now,
    ac_purpose accepted = BookmarkWritePurpose account ∧
    accounts d !! account = Some row ∧
    acc_internal_user_id row = ac_internal_user_id accepted ∧
    completed (http_answer step) identity_answer = Ok (acc_provider_user_id row) ∧
    ac_requested_scopes accepted = with_write_scope (read_scopes (cs_oauth service)) ∧
    missing_scopes (ac_requested_scopes accepted) granted = [] ∧
    bookmark_write_authorizations d' =
      <[account := mkWriteAuthorization (ac_intent_id accepted) granted "active" now None now]>
        (bookmark_write_authorizations d).

Lemma justified_grant_mono service accepted d1 d2 d3 d4 :
  same_authority d1 d2 → justified_grant service accepted d2 d3 → same_authority d3 d4 →
  justified_grant service accepted d1 d4.
Proof.
  intros [Hb Ha] (account & row & step & granted & now & ?) [Hb' Ha'].
  exists account, row, step, granted, now. by rewrite <-Ha, Hb', <-Hb.
Qed.

(** Keeping the refused grant for the audit grants nothing. *)
Lemma rejection_grants_nothing env service accepted account granted outcome e (w w1 : W) :
  rely (Ev:=Event) env (on_db same_authority) → same_authority (w_db w) (w_db w1) →
  wp env (do! map_err FlowPersistence (insert_rejected_write_grant account granted outcome) in
          throw (A:=unit) e) (λ _ w',
    same_authority (w_db w) (w_db w') ∨ justified_grant service accepted (w_db w) (w_db w')) w1.
Proof.
  intros Hr Hw1. left. etrans; [exact Hw1|].
  pose proof (guar_bind env (on_db same_authority)
    (map_err FlowPersistence (insert_rejected_write_grant account granted outcome))
    (λ _, throw (A:=unit) e)
    (guar_map_err env _ FlowPersistence _ (insert_rejected_authority env account granted outcome Hr))
    (λ _, guar_throw env _ e)) as Hg. exact (guar_elim Hg w1).
Qed.

(** C9. The write authority is never granted on the strength of the callback alone: in any
    environment whose other connections leave authorizations and accounts alone, whatever fails, an
    exchange of a write code either leaves every authorization as it was, or grants exactly the
    intent's account, owned by the requesting user and named by the provider as the token's own
    identity, a scope set that omits nothing the intent required. *)
Theorem write_authority_is_justified env service accepted code (w : W) :
  rely (Ev:=Event) env (on_db same_authority) →
  let '(_, w') := exchange_bookmark_write_code service accepted code env w in
  same_authority (w_db w) (w_db w') ∨ justified_grant service accepted (w_db w) (w_db w').
Proof.
  intros Hr.
  cut (wp env (exchange_bookmark_write_code service accepted code) (λ _ w',
    same_authority (w_db w) (w_db w') ∨ justified_grant service accepted (w_db w) (w_db w')) w).
  { unfold wp. by destruct (exchange_bookmark_write_code _ _ _ _ _). }
  unfold exchange_bookmark_write_code, client_exchange_code, post_token_form, post_form_raw,
    authenticated_user_id, exchange, seal_fresh.
  destruct (ac_purpose accepted) as [|account] eqn:Ep; wp_steps; [by left|].
  case_bool_decide as Hscopes; wp_steps; [by left|].
  destruct (configured_redirect _) as [redirect|e]; [|by left]. wp_steps.
  destruct (completed _ _) as [tokens|e]; [|by left].
  set (granted := observed_grant _ _).
  destruct (bool_decide (missing_scopes _ granted = [])) eqn:Hm; cbn [negb];
    [|by apply rejection_grants_nothing].
  apply bool_decide_eq_true in Hm.
  wp_steps. destruct (completed _ identity_answer) as [provider_id|e] eqn:Hid; [|by left].
  wp_steps. destruct (plus_seconds _ _) as [expires|e]; [|by left].
  match goal with |- wp _ _ _ ?w1 => set (w2 := w1) end.
  set (a := mkWriteGrantActivation _ _ _ _ _ _ _ _).
  wp_step. wp_step. eapply wp_mono; [apply activate_wp|].
  cbv beta. intros r w3 [_ Hout].
  assert (Hd : same_authority (w_db w) (e_other env (w_tick w2) (w_db w2)))
    by apply (Hr (w_tick w2) w2).
  set (d := e_other env (w_tick w2) (w_db w2)) in *.
  assert (Hjust : activated_state a d (w_db w3) → justified_grant service accepted (w_db w) (w_db w3)).
  { intros ((row & Hrow & Howner & Hprov) & _ & Hauth). destruct Hd as [Hda Hdb].
    rewrite Hdb in Hrow. rewrite Hda in Hauth. simpl in *.
    eexists account, row, _, granted, _. split_and!; [done..| |done|by rewrite Hscopes|exact Hauth].
    rewrite Hprov. exact Hid. }
  destruct r as [[]|e]; cbn [result_map_err].
  - right. auto.
  - destruct Hout as [Hout _]. apply rejection_grants_nothing; [done|]. by rewrite Hout.
  - destruct Hout as [_ [Hout|Hout]]; [left; by rewrite Hout|right; auto].
Qed.
End ServiceProperties.

(** ** Concrete runs *)
Module ConnectionSamples.
Import SampleCrypto SampleChrono OauthSamples.

Definition q (s : string) : string := String dquote s +:+ String dquote "".
Definition sample_body : string :=
  "{" +:+ q "access_token" +:+ ":" +:+ q "a2" +:+ "," +:+ q "refresh_token" +:+ ":" +:+ q "r2"
  +:+ "," +:+ q "expires_in" +:+ ":7200, " +:+ q "data" +:+ ":{" +:+ q "id" +:+ ":" +:+ q "u1"
  +:+ "}}".

#[export] Instance sample_provider : Provider := {|
  http_answer := λ _, Some (mkHttpAnswer 200 None (Some sample_body));
  url_join base path := Some (base +:+ path);
|}.

Definition sample_oauth : OauthConfig :=
  mkOauthConfig "https://x.com/a" "https://api.x.com/t" "https://api.x.com/r" (Some "client") None
    (Some "https://me/cb") ["users.read"; "bookmark.read"] 600.
Definition sample_service : ConnectionService :=
  mkConnectionService sample_cipher (mkTokenClient "t" "u" "r" (Some "client") None) sample_oauth.

Definition sample_now : Z := 1000 * usec.
Definition sample_intent (account : option Z) (purpose : string) : IntentRow :=
  mkIntentRow 7 account purpose (state_digest "state")
    (seal_with sample_cipher sample_nonce 7 IntentVerifier "verifier") "nonce" "https://me/cb"
    ["users.read"; "bookmark.read"; "bookmark.write"] 0 (2000 * usec) None.
Definition sample_credential : CredentialRow :=
  mkCredentialRow 1 (seal_with sample_cipher sample_nonce 1 Credential
    (payload_encode (mkCredentialPayload "a1" "r1"))) ["users.read"] "active" "accepted" None None 0.
Definition sample_db : Db :=
  on_credentials (insert 11 sample_credential)
    (on_oauth_intents (insert 5 (sample_intent (Some 1) "bookmark_write"))
      (on_accounts (insert 1 (mkAccount 7 "u1" "connected" 0)) empty_db)).
Definition sample_world : W := mkWorld sample_db 0 [].
Definition sample_env : Env Db := calm sample_now.

Definition sample_accepted : AcceptedCallback :=
  mkAcceptedCallback 5 7 (BookmarkWritePurpose 1)
    ["users.read"; "bookmark.read"; "bookmark.write"] "verifier".

Lemma sample_unique : unique_hashes sample_db.
Proof.
  intros i j ri rj. unfold sample_db. simpl.
  rewrite !lookup_insert. do 2 case_decide; subst; rewrite ?lookup_empty; congruence.
Defined.

Definition after_accept : W := (resolve_callback sample_cipher "state" sample_env sample_world).2.

(** Two callbacks overlap: both look the intent up before either consumes it. *)
Definition sample_found : option (Z * IntentRow) := Some (5, sample_intent (Some 1) "bookmark_write").
Definition sample_first := resume_callback sample_cipher sample_found sample_env sample_world.
Definition sample_second := resume_callback sample_cipher sample_found sample_env sample_first.2.

Lemma sample_overlap :
  rtc (pool_step "state") (sample_db, (λ cipher, (cipher, Looking)) <$> [sample_cipher; sample_cipher])
    (w_db sample_second.2, [(sample_cipher, Answered (Ok (CallbackAccepted sample_accepted)));
                            (sample_cipher, Answered (Ok Replayed))]).
Proof.
  assert (Hr : rely (Ev:=Event) sample_env (on_db intents_progress)) by (apply calm_rely; typeclasses eauto).
  assert (Hf : ∀ w, find_intent_by_state_hash (state_digest "state") sample_env w =
    (Ok (intent_by_hash (state_digest "state") (w_db w)), (find_intent_by_state_hash (state_digest "state") sample_env w).2))
    by reflexivity.
  assert (Hi : intent_by_hash (state_digest "state") sample_db = sample_found) by (vm_compute; reflexivity).
  eapply rtc_l; [exact (pool_lookup "state" sample_env sample_world _ [] sample_cipher _ _ Hr (Hf _))|].
  eapply rtc_l; [exact (pool_lookup "state" sample_env sample_world _ [_] sample_cipher [] _ Hr (Hf _))|].
  cbn [w_db sample_world] in *. rewrite Hi. cbn [app looked_up].
  eapply rtc_l; [eapply (pool_resume "state" sample_env sample_world sample_first.2 [] sample_cipher); [exact Hr|]|].
  { instantiate (1 := Ok (CallbackAccepted sample_accepted)). vm_compute. reflexivity. }
  apply rtc_once. apply (pool_resume "state" sample_env sample_first.2 sample_second.2 [_] sample_cipher sample_found []);
    [exact Hr|]. vm_compute. reflexivity.
Qed.

Lemma callback_accepted_at_most_once_witness :
  state_used (state_digest "state") (w_db sample_second.2) ∧ ¬ state_used (state_digest "state") sample_db ∧
  ∀ j u, [(sample_cipher, Answered (Ok (CallbackAccepted sample_accepted)));
          (sample_cipher, Answered (Ok Replayed))] !! j = Some u → accepted u → j = 0%nat.
Proof.
  destruct (callback_accepted_at_most_once "state" sample_db [sample_cipher; sample_cipher] _ _
    sample_unique sample_overlap) as (Honce & Hused & _).
  destruct (Hused 0%nat _ eq_refl) as [H1 H2]; [by eexists|]. split_and!; [exact H1|exact H2|].
  intros j u Hj Hu. symmetry. eapply (Honce 0%nat j); [reflexivity|exact Hj|by eexists|exact Hu].
Defined.

Lemma resolve_callback_outcomes_witness :
  (resolve_callback sample_cipher "other" sample_env sample_world).1 = Ok Unmatched.
Proof.
  generalize (resolve_callback_outcomes sample_env sample_cipher "other" sample_now sample_world
    (calm_quiet _) (λ _, eq_refl)).
  destruct (resolve_callback _ _ _ _) as [r w']. intros [Hr _]. exact Hr.
Defined.

Lemma refresh_refines_contract_witness :
  let '(r, w') := refresh sample_service 1 None sample_env sample_world in
  refresh_spec sample_service 1 None sample_now sample_db r (w_db w').
Proof.
  generalize (refresh_refines_contract sample_env sample_service 1 None sample_now sample_world
    (calm_quiet _) (λ _, eq_refl)).
  destruct (refresh _ _ _ _ _) as [r w']. intros [Hr _]. exact Hr.
Defined.

Definition after_refresh : W := (refresh sample_service 1 None sample_env sample_world).2.
Definition after_row : CredentialRow :=
  default sample_credential (credentials (w_db after_refresh) !! 11).

Example refresh_rotates :
  open_stored sample_service 1 after_row = Ok (mkCredentialPayload "a2" "r2").
Proof. vm_compute. reflexivity. Qed.

Lemma after_row_stored : credentials (w_db after_refresh) !! 11 = Some after_row.
Proof. vm_compute. reflexivity. Defined.

Lemma rotated_token_reuse_revokes_family_witness :
  (refresh sample_service 1 (Some "r1"%string) sample_env after_refresh).1 = Err RefreshReplay.
Proof.
  generalize (rotated_token_reuse_revokes_family sample_env sample_env sample_service 1 sample_now
    sample_now sample_world after_refresh 11 sample_credential (mkCredentialPayload "a1" "r1")
    (calm_quiet _) (λ _, eq_refl) (calm_quiet _) (λ _, eq_refl)
    ltac:(vm_compute; reflexivity) ltac:(vm_compute; reflexivity) ltac:(vm_compute; reflexivity)).
  intros Hf.
  assert (H1 : ∀ row1 rotated, credentials (w_db after_refresh) !! 11 = Some row1 →
     open_stored sample_service 1 row1 = Ok rotated → refresh_token rotated ≠ "r1"%string).
  { rewrite after_row_stored. intros row1 rotated [= <-]. rewrite refresh_rotates.
    intros [= <-]. discriminate. }
  assert (H2 : ∀ row1 e, credentials (w_db after_refresh) !! 11 = Some row1 →
     open_stored sample_service 1 row1 ≠ Err e).
  { rewrite after_row_stored. intros row1 e [= <-]. by rewrite refresh_rotates. }
  specialize (Hf H1 H2). simpl in Hf. revert Hf.
  destruct (refresh _ _ _ _ _) as [r w']. intros [Hr _]. exact Hr.
Defined.

Lemma revoke_notifies_then_scrubs_witness :
  let '(_, w') := revoke sample_service 1 sample_env sample_world in
  ∃ auth, w_log w' = [PostForm "r" auth (urlencoded [("token", "a1")%string])].
Proof.
  generalize (revoke_notifies_then_scrubs sample_env sample_service 1 sample_now sample_world
    (calm_quiet _) (λ _, eq_refl)).
  destruct (revoke _ _ _ _) as [r w'].
  assert (Hn : newest_credential (is_active_of 1) (w_db sample_world) = Some (11, sample_credential))
    by (vm_compute; reflexivity).
  assert (Ho : open_stored sample_service 1 sample_credential = Ok (mkCredentialPayload "a1" "r1"))
    by (vm_compute; reflexivity).
  cbv zeta. rewrite Hn, Ho. intros [[auth Hl] _]. exists auth. exact Hl.
Defined.

Lemma write_authority_is_justified_witness :
  let '(_, w') := exchange_bookmark_write_code sample_service sample_accepted "code" sample_env
                    sample_world in
  same_authority sample_db (w_db w') ∨ justified_grant sample_service sample_accepted sample_db (w_db w').
Proof.
  apply (write_authority_is_justified sample_env sample_service sample_accepted "code" sample_world).
  apply calm_rely. typeclasses eauto.
Defined.

Example write_code_activates :
  is_ok (exchange_bookmark_write_code sample_service sample_accepted "code" sample_env
           sample_world).1 = true.
Proof. vm_compute. reflexivity. Qed.
End ConnectionSamples.
