(* ===== verification/Normalize.v ===== *)
(** * Normalization of official API envelopes ([crates/x-normalize])

    [dto.rs] are the typed views of an envelope (their serde decoding is generated code and not
    modelled: an [Envelope] value here is an already decoded one), [records.rs] the row-shaped output,
    [error.rs] the refusals and [normalize.rs] the pure function between them. The theorems give the
    canonical form of every output, the exact refusal condition, and the correspondence between the
    payload objects and the emitted records. *)
From S2P Require Export Json Time.

Definition PARSER_VERSION : Z := 1.
Definition UNRESOLVED_REFERENCES_KEY : string := "ratatoskr.x/unresolved_references".

(** ** Payload objects *)

Definition Extension : Type := list (string * Value).

Module Dto.

Record ReferencedTweet := mkReferencedTweet {
  ref_reference_type : option string;
  ref_id : option string;
  ref_extension : Extension;
}.

Record PublicMetrics := mkPublicMetrics {
  pm_retweet_count : option Z;
  pm_reply_count : option Z;
  pm_like_count : option Z;
  pm_quote_count : option Z;
  pm_bookmark_count : option Z;
  pm_impression_count : option Z;
  pm_extension : Extension;
}.

Record NoteTweet := mkNoteTweet { nt_text : option string; nt_extension : Extension }.

Record PostUrlEntity := mkPostUrlEntity {
  ue_url : option string;
  ue_expanded_url : option string;
  ue_unwound_url : option string;
  ue_extension : Extension;
}.

Record PostEntities := mkPostEntities { pe_urls : list PostUrlEntity; pe_extension : Extension }.

Record Attachments := mkAttachments {
  at_media_keys : option (list string);
  at_poll_ids : option (list string);
  at_extension : Extension;
}.

Record EditControls := mkEditControls {
  ec_edits_remaining : option Z;
  ec_is_edit_eligible : option bool;
  ec_editable_until : option string;
  ec_extension : Extension;
}.

Record PostObject := mkPostObject {
  po_id : option string;
  po_text : option string;
  po_author_id : option string;
  po_conversation_id : option string;
  po_created_at : option string;
  po_lang : option string;
  po_public_metrics : option PublicMetrics;
  po_referenced_tweets : option (list ReferencedTweet);
  po_note_tweet : option NoteTweet;
  po_entities : option PostEntities;
  po_attachments : option Attachments;
  po_edit_controls : option EditControls;
  po_edit_history_tweet_ids : option (list string);
  po_extension : Extension;
}.

Record UserPublicMetrics := mkUserPublicMetrics {
  um_followers_count : option Z;
  um_following_count : option Z;
  um_tweet_count : option Z;
  um_listed_count : option Z;
  um_extension : Extension;
}.

Record UserObject := mkUserObject {
  uo_id : option string;
  uo_name : option string;
  uo_username : option string;
  uo_created_at : option string;
  uo_description : option string;
  uo_location : option string;
  uo_protected : option bool;
  uo_verified : option bool;
  uo_profile_image_url : option string;
  uo_url : option string;
  uo_pinned_tweet_id : option string;
  uo_public_metrics : option UserPublicMetrics;
  uo_extension : Extension;
}.

Record MediaVariant := mkMediaVariant {
  mv_bit_rate : option Z;
  mv_content_type : option string;
  mv_url : option string;
  mv_extension : Extension;
}.

Record MediaPublicMetrics := mkMediaPublicMetrics {
  mm_view_count : option Z;
  mm_extension : Extension;
}.

Record MediaObject := mkMediaObject {
  mo_media_key : option string;
  mo_kind : option string;
  mo_url : option string;
  mo_preview_image_url : option string;
  mo_width : option Z;
  mo_height : option Z;
  mo_alt_text : option string;
  mo_duration_ms : option Z;
  mo_variants : option (list MediaVariant);
  mo_public_metrics : option MediaPublicMetrics;
  mo_extension : Extension;
}.

Record Includes := mkIncludes {
  in_users : list UserObject;
  in_tweets : list PostObject;
  in_media : list MediaObject;
  in_extension : Extension;
}.

Record Envelope := mkEnvelope {
  env_data : list PostObject;
  env_includes : Includes;
  env_extension : Extension;
}.

Definition posts (e : Envelope) : list PostObject := env_data e.
Definition included_users (e : Envelope) : list UserObject := in_users (env_includes e).
Definition included_media (e : Envelope) : list MediaObject := in_media (env_includes e).

End Dto.
Import Dto.

(** ** Normalized records *)

Inductive Availability :=
  | Active | Deleted | Protected | AuthorSuspended | Unavailable | Unknown.

Inductive Relation := Reply | Quote | Repost.
Inductive MediaKind := Photo | Video | AnimatedGif.

#[export] Instance relation_eq_dec : EqDecision Relation.
Proof. solve_decision. Defined.

Record NormalizedUser := mkNormalizedUser {
  nu_parser_version : Z;
  nu_provider_id : string;
  nu_username : option string;
  nu_display_name : option string;
  nu_extension : Extension;
}.

Record NormalizedPost := mkNormalizedPost {
  np_parser_version : Z;
  np_provider_id : string;
  np_author_provider_id : string;
  np_text : string;
  np_long_text : option string;
  np_language : option string;
  np_published_at : option Z;
  np_edited_at : option Z;
  np_availability : Availability;
  np_conversation_provider_id : option string;
  np_like_count : option Z;
  np_retweet_count : option Z;
  np_reply_count : option Z;
  np_quote_count : option Z;
  np_bookmark_count : option Z;
  np_impression_count : option Z;
  np_media_keys : list string;
  np_expanded_urls : list string;
  np_extension : Extension;
}.

Record NormalizedRelation := mkNormalizedRelation {
  nr_parser_version : Z;
  nr_post_provider_id : string;
  nr_related_post_provider_id : string;
  nr_relation : Relation;
}.

#[export] Instance normalized_relation_eq_dec : EqDecision NormalizedRelation.
Proof. solve_decision. Defined.

Record NormalizedMedia := mkNormalizedMedia {
  nm_parser_version : Z;
  nm_post_provider_id : string;
  nm_provider_id : string;
  nm_kind : option MediaKind;
  nm_metadata : Value;
  nm_blob_ref : option string;
}.

Record NormalizedBatch := mkNormalizedBatch {
  nb_users : list NormalizedUser;
  nb_posts : list NormalizedPost;
  nb_relations : list NormalizedRelation;
  nb_media : list NormalizedMedia;
}.

Inductive NormalizeError :=
  | MissingMember (object member : string)
  | InvalidMember (object member : string)
  | UnresolvedAuthor (post_provider_id : string).

(** ** Orders *)

(** [Ord] of [Option<&str>]: [None] first. *)
Definition opt_str_leb (a b : option string) : bool :=
  match a, b with
  | None, _ => true
  | Some _, None => false
  | Some x, Some y => str_leb x y
  end.

Definition relation_rank (r : Relation) : Z :=
  match r with Reply => 0 | Quote => 1 | Repost => 2 end.

(** The derived [Ord] of [NormalizedRelation], field by field. *)
Definition relation_leb (a b : NormalizedRelation) : bool :=
  if decide (nr_parser_version a = nr_parser_version b) then
    if decide (nr_post_provider_id a = nr_post_provider_id b) then
      if decide (nr_related_post_provider_id a = nr_related_post_provider_id b) then
        relation_rank (nr_relation a) <=? relation_rank (nr_relation b)
      else str_leb (nr_related_post_provider_id a) (nr_related_post_provider_id b)
    else str_leb (nr_post_provider_id a) (nr_post_provider_id b)
  else nr_parser_version a <? nr_parser_version b.

Definition media_leb (a b : NormalizedMedia) : bool :=
  if decide (nm_post_provider_id a = nm_post_provider_id b)
  then str_leb (nm_provider_id a) (nm_provider_id b)
  else str_leb (nm_post_provider_id a) (nm_post_provider_id b).

(** ** Validation *)

Definition require_member (value : option string) (object member : string) :
    result string NormalizeError :=
  match value with
  | Some found => if String.eqb found "" then Err (MissingMember object member) else Ok found
  | None => Err (MissingMember object member)
  end.

Section Validation.
Context {ch : Chrono}.

Definition validate_post (post : PostObject) : option NormalizeError :=
  match require_member (po_id post) "post" "id" with
  | Err e => Some e
  | Ok _ =>
  match require_member (po_text post) "post" "text" with
  | Err e => Some e
  | Ok _ =>
  match require_member (po_author_id post) "post" "author_id" with
  | Err e => Some e
  | Ok _ =>
  match require_member (po_created_at post) "post" "created_at" with
  | Err e => Some e
  | Ok raw_timestamp =>
      match parse_from_rfc3339 raw_timestamp with
      | None => Some (InvalidMember "post" "created_at")
      | Some _ => None
      end
  end end end end.

Fixpoint validate_posts (ps : list PostObject) : option NormalizeError :=
  match ps with
  | [] => None
  | p :: ps => match validate_post p with Some e => Some e | None => validate_posts ps end
  end.

(** [None] is [Ok(())]. *)
Definition validate (envelope : Envelope) : option NormalizeError :=
  match env_data envelope with
  | [] => Some (MissingMember "envelope" "data")
  | ps => validate_posts ps
  end.
End Validation.

(** ** Indexes *)

Definition author_index (envelope : Envelope) : gmap string UserObject :=
  fold_left (λ index user,
    match uo_id user with Some id => <[id := user]> index | None => index end)
    (included_users envelope) ∅.

Definition media_index (envelope : Envelope) : gmap string MediaObject :=
  fold_left (λ index media,
    match mo_media_key media with Some key => <[key := media]> index | None => index end)
    (included_media envelope) ∅.

(** ** Media *)

Definition classify_media_kind (kind : option string) : option MediaKind :=
  match kind with
  | None => None
  | Some k =>
      if String.eqb k "photo" then Some Photo
      else if String.eqb k "video" then Some Video
      else if String.eqb k "animated_gif" then Some AnimatedGif
      else None
  end.

(** Inserts the members that are supplied. *)
Definition insert_supplied (members : list (string * option Value)) (document : Extension) :
    Extension :=
  fold_left (λ acc kv, match kv.2 with Some v => obj_insert kv.1 v acc | None => acc end)
    members document.

Definition variant_document (variant : MediaVariant) : Value :=
  Object (insert_supplied
    [("bit_rate", Number <$> mv_bit_rate variant);
     ("content_type", Str <$> mv_content_type variant);
     ("url", Str <$> mv_url variant)] []).

Definition metrics_document (metrics : MediaPublicMetrics) : Value :=
  Object (obj_extend
    (match mm_view_count metrics with
     | Some views => obj_insert "view_count" (Number views) []
     | None => []
     end) (mm_extension metrics)).

Definition media_metadata_document (media : MediaObject) : Value :=
  let document := insert_supplied
    [("url", Str <$> mo_url media);
     ("preview_image_url", Str <$> mo_preview_image_url media);
     ("width", Number <$> mo_width media);
     ("height", Number <$> mo_height media);
     ("alt_text", Str <$> mo_alt_text media);
     ("duration_ms", Number <$> mo_duration_ms media)] [] in
  let document :=
    match mo_variants media with
    | Some variants => obj_insert "variants" (Arr (variant_document <$> variants)) document
    | None => document
    end in
  let document :=
    match mo_public_metrics media with
    | Some metrics => obj_insert "public_metrics" (metrics_document metrics) document
    | None => document
    end in
  Object (obj_insert "extension" (Object (mo_extension media)) document).

Definition normalize_media_record (post_provider_id : string) (media : MediaObject) :
    NormalizedMedia :=
  mkNormalizedMedia PARSER_VERSION post_provider_id (default "" (mo_media_key media))
    (classify_media_kind (mo_kind media)) (media_metadata_document media) None.

(** ** References *)

Definition classify_reference (reference : ReferencedTweet) : option (string * Relation) :=
  match ref_id reference, ref_reference_type reference with
  | Some target, Some kind =>
      if String.eqb kind "replied_to" then Some (target, Reply)
      else if String.eqb kind "quoted" then Some (target, Quote)
      else if String.eqb kind "retweeted" then Some (target, Repost)
      else None
  | _, _ => None
  end.

(** [serde_json::to_value] of a reference entry: its two members, then the flattened extension. *)
Definition reference_value (reference : ReferencedTweet) : Value :=
  Object (obj_extend (obj_extend []
    [("type", opt_str (ref_reference_type reference)); ("id", opt_str (ref_id reference))])
    (ref_extension reference)).

Definition split_references (post : PostObject) : list (string * Relation) * list Value :=
  fold_left (λ acc reference,
    match classify_reference reference with
    | Some mapped => (acc.1 ++ [mapped], acc.2)
    | None => (acc.1, acc.2 ++ [reference_value reference])
    end) (default [] (po_referenced_tweets post)) ([], []).

(** ** The normalization function *)

Definition empty_batch : NormalizedBatch := mkNormalizedBatch [] [] [] [].

(** [push_user_once], on the batch and the ids seen so far. *)
Definition push_user_once (author : UserObject) (provider_id : string)
    (state : NormalizedBatch * gset string) : NormalizedBatch * gset string :=
  let '(batch, seen) := state in
  if decide (provider_id ∈ seen) then state
  else (mkNormalizedBatch
          (nb_users batch ++ [mkNormalizedUser PARSER_VERSION provider_id (uo_username author)
                                (uo_name author) (uo_extension author)])
          (nb_posts batch) (nb_relations batch) (nb_media batch),
        {[provider_id]} ∪ seen).

Definition metric (post : PostObject) (field : PublicMetrics → option Z) : option Z :=
  match po_public_metrics post with Some m => field m | None => None end.

Section Normalization.
Context {ch : Chrono}.

Definition normalize_post (post : PostObject) (author_provider_id : string)
    (unresolved_references : list Value) : result NormalizedPost NormalizeError :=
  match parse_from_rfc3339 (default "" (po_created_at post)) with
  | None => Err (InvalidMember "post" "created_at")
  | Some parsed =>
      let media_keys :=
        dedup (sort str_leb (default [] (po_attachments post ≫= at_media_keys))) in
      let expanded_urls := dedup (sort str_leb
        (omap (λ url, match ue_unwound_url url with Some u => Some u | None => ue_expanded_url url end)
              (match po_entities post with Some entities => pe_urls entities | None => [] end))) in
      let extension :=
        match unresolved_references with
        | [] => po_extension post
        | _ => obj_insert UNRESOLVED_REFERENCES_KEY (Arr unresolved_references) (po_extension post)
        end in
      Ok (mkNormalizedPost PARSER_VERSION (default "" (po_id post)) author_provider_id
            (default "" (po_text post)) (po_note_tweet post ≫= nt_text) (po_lang post)
            (Some parsed) None Active (po_conversation_id post)
            (metric post pm_like_count) (metric post pm_retweet_count)
            (metric post pm_reply_count) (metric post pm_quote_count)
            (metric post pm_bookmark_count) (metric post pm_impression_count)
            media_keys expanded_urls extension)
  end.

(** The loop body: one post's records appended to the batch. *)
Definition normalize_step (authors : gmap string UserObject) (media : gmap string MediaObject)
    (state : NormalizedBatch * gset string) (post : PostObject) :
    result (NormalizedBatch * gset string) NormalizeError :=
  let provider_id := default "" (po_id post) in
  let author_id := default "" (po_author_id post) in
  match authors !! author_id with
  | None => Err (UnresolvedAuthor provider_id)
  | Some author =>
      let '(batch, seen) := push_user_once author author_id state in
      let '(mapped_references, unresolved_references) := split_references post in
      match normalize_post post author_id unresolved_references with
      | Err e => Err e
      | Ok normalized =>
          Ok (mkNormalizedBatch (nb_users batch) (nb_posts batch ++ [normalized])
                (nb_relations batch ++
                   ((λ p, mkNormalizedRelation PARSER_VERSION provider_id p.1 p.2)
                      <$> mapped_references))
                (nb_media batch ++
                   match po_attachments post with
                   | None => []
                   | Some attachments =>
                       omap (λ key, normalize_media_record provider_id <$> media !! key)
                            (default [] (at_media_keys attachments))
                   end), seen)
      end
  end.

Fixpoint normalize_loop (authors : gmap string UserObject) (media : gmap string MediaObject)
    (state : NormalizedBatch * gset string) (ordered : list PostObject) :
    result (NormalizedBatch * gset string) NormalizeError :=
  match ordered with
  | [] => Ok state
  | post :: rest =>
      match normalize_step authors media state post with
      | Err e => Err e
      | Ok state' => normalize_loop authors media state' rest
      end
  end.

(** Posts in provider-id order. *)
Definition post_leb (l r : PostObject) : bool := opt_str_leb (po_id l) (po_id r).

Definition finish_batch (batch : NormalizedBatch) : NormalizedBatch :=
  mkNormalizedBatch
    (sort (λ l r, str_leb (nu_provider_id l) (nu_provider_id r)) (nb_users batch))
    (sort (λ l r, str_leb (np_provider_id l) (np_provider_id r)) (nb_posts batch))
    (dedup (sort relation_leb (nb_relations batch)))
    (sort media_leb (nb_media batch)).

Definition normalize (envelope : Envelope) : result NormalizedBatch NormalizeError :=
  match validate envelope with
  | Some e => Err e
  | None =>
      match normalize_loop (author_index envelope) (media_index envelope) (empty_batch, ∅)
              (sort post_leb (posts envelope)) with
      | Err e => Err e
      | Ok (batch, _) => Ok (finish_batch batch)
      end
  end.
End Normalization.

(** ** Sorting facts *)

Lemma post_leb_total l r : post_leb l r = true ∨ post_leb r l = true.
Proof. unfold post_leb. destruct (po_id l), (po_id r); simpl; auto using str_leb_total. Qed.

Lemma post_leb_trans a b c : post_leb a b = true → post_leb b c = true → post_leb a c = true.
Proof.
  unfold post_leb. destruct (po_id a), (po_id b), (po_id c); simpl; try done. apply str_leb_trans.
Qed.

Lemma relation_leb_total l r : relation_leb l r = true ∨ relation_leb r l = true.
Proof.
  unfold relation_leb. repeat case_decide; try congruence; try apply str_leb_total; lia.
Qed.

Lemma relation_leb_trans a b c :
  relation_leb a b = true → relation_leb b c = true → relation_leb a c = true.
Proof.
  unfold relation_leb. destruct a, b, c; simpl.
  repeat case_decide; subst; try congruence; try lia; try apply str_leb_trans;
    intros Hle1 Hle2; exfalso; eauto using str_leb_antisym.
Qed.

Lemma relation_leb_antisym a b : relation_leb a b = true → relation_leb b a = true → a = b.
Proof.
  unfold relation_leb. destruct a as [va pa ra ka], b as [vb pb rb kb]; simpl.
  repeat case_decide; subst; try congruence; try lia; intros Hle1 Hle2.
  - f_equal. destruct ka, kb; simpl in *; try done; lia.
  - exfalso. eauto using str_leb_antisym.
  - exfalso. eauto using str_leb_antisym.
Qed.

Lemma media_leb_total l r : media_leb l r = true ∨ media_leb r l = true.
Proof. unfold media_leb. repeat case_decide; try congruence; apply str_leb_total. Qed.

Lemma media_leb_trans a b c : media_leb a b = true → media_leb b c = true → media_leb a c = true.
Proof.
  unfold media_leb. destruct a, b, c; simpl.
  repeat case_decide; subst; try congruence; try apply str_leb_trans;
    intros Hle1 Hle2; exfalso; eauto using str_leb_antisym.
Qed.

(** ** What one post contributes *)

Definition reference_list (post : PostObject) : list ReferencedTweet :=
  default [] (po_referenced_tweets post).
Definition provider_id_of (post : PostObject) : string := default "" (po_id post).
Definition author_id_of (post : PostObject) : string := default "" (po_author_id post).
Definition attached_keys (post : PostObject) : list string :=
  match po_attachments post with Some a => default [] (at_media_keys a) | None => [] end.

Definition post_relations_of (post : PostObject) : list NormalizedRelation :=
  (λ p, mkNormalizedRelation PARSER_VERSION (provider_id_of post) p.1 p.2)
    <$> (split_references post).1.
Definition post_media_of (media : gmap string MediaObject) (post : PostObject) :
    list NormalizedMedia :=
  omap (λ key, normalize_media_record (provider_id_of post) <$> media !! key) (attached_keys post).

Lemma split_references_spec post :
  split_references post =
    (omap classify_reference (reference_list post),
     reference_value <$> filter (λ r, classify_reference r = None) (reference_list post)).
Proof.
  unfold split_references. fold (reference_list post).
  enough (H : ∀ xs a b, fold_left (λ acc reference,
      match classify_reference reference with
      | Some mapped => (acc.1 ++ [mapped], acc.2)
      | None => (acc.1, acc.2 ++ [reference_value reference])
      end) xs (a, b) =
    (a ++ omap classify_reference xs,
     b ++ (reference_value <$> filter (λ r, classify_reference r = None) xs))) by apply H.
  intros xs. induction xs as [|x xs IH]; intros a b; simpl; [by rewrite !app_nil_r|].
  destruct (classify_reference x) eqn:E; rewrite IH;
    [rewrite filter_cons_False by congruence | rewrite filter_cons_True by done];
    simpl; by rewrite <-app_assoc.
Qed.

Section LoopFacts.
Context {ch : Chrono} (authors : gmap string UserObject) (media : gmap string MediaObject).

Definition user_record (author : UserObject) (id : string) : NormalizedUser :=
  mkNormalizedUser PARSER_VERSION id (uo_username author) (uo_name author) (uo_extension author).

(** What a completed loop has added to the batch it started from. *)
Record LoopAdded (ps : list PostObject) (b b' : NormalizedBatch) (seen seen' : gset string) := {
  added_posts : list NormalizedPost;
  added_users : list NormalizedUser;
  la_posts : nb_posts b' = nb_posts b ++ added_posts;
  la_each : Forall2 (λ p np, normalize_post p (author_id_of p) (split_references p).2 = Ok np)
              ps added_posts;
  la_relations : nb_relations b' = nb_relations b ++ flat_map post_relations_of ps;
  la_media : nb_media b' = nb_media b ++ flat_map (post_media_of media) ps;
  la_users : nb_users b' = nb_users b ++ added_users;
  la_nodup : NoDup (nu_provider_id <$> added_users);
  la_ids id : id ∈ nu_provider_id <$> added_users ↔ id ∉ seen ∧ id ∈ author_id_of <$> ps;
  la_records : Forall (λ u, ∃ author, authors !! nu_provider_id u = Some author ∧
                 u = user_record author (nu_provider_id u)) added_users;
}.

Lemma normalize_step_ok b seen b' seen' p :
  normalize_step authors media (b, seen) p = Ok (b', seen') →
  ∃ author np, authors !! author_id_of p = Some author ∧
    normalize_post p (author_id_of p) (split_references p).2 = Ok np ∧
    nb_posts b' = nb_posts b ++ [np] ∧
    nb_relations b' = nb_relations b ++ post_relations_of p ∧
    nb_media b' = nb_media b ++ post_media_of media p ∧
    seen' = {[author_id_of p]} ∪ seen ∧
    nb_users b' = nb_users b ++
      (if decide (author_id_of p ∈ seen) then [] else [user_record author (author_id_of p)]).
Proof.
  unfold normalize_step. fold (author_id_of p) (provider_id_of p).
  destruct (authors !! author_id_of p) as [author|] eqn:Ea; [|done].
  unfold push_user_once. intros H. exists author.
  assert (Hm : match po_attachments p with
     | None => []
     | Some attachments => omap (λ key, normalize_media_record (provider_id_of p) <$> media !! key)
                             (default [] (at_media_keys attachments))
     end = post_media_of media p).
  { unfold post_media_of, attached_keys. by destruct (po_attachments p). }
  rewrite Hm in H. unfold post_relations_of.
  destruct (split_references p) as [mapped unresolved]; simpl.
  case_decide as Hs;
    destruct (normalize_post p (author_id_of p) unresolved) as [np|] eqn:En; try done;
    injection H as <- <-; exists np; simpl; rewrite ?app_nil_r; repeat split; try done.
  symmetry. apply subseteq_union_1_L. by apply singleton_subseteq_l.
Qed.

Lemma normalize_loop_added ps b seen b' seen' :
  normalize_loop authors media (b, seen) ps = Ok (b', seen') →
  inhabited (LoopAdded ps b b' seen seen').
Proof.
  revert b seen. induction ps as [|p ps IH]; intros b seen H; simpl in H.
  { injection H as <- <-. constructor.
    refine {| added_posts := []; added_users := [] |}; simpl; rewrite ?app_nil_r;
      try done; try constructor.
    - by intros ?%elem_of_nil.
    - by intros [_ ?%elem_of_nil]. }
  destruct (normalize_step authors media (b, seen) p) as [[b1 seen1]|] eqn:Es; [|done].
  apply normalize_step_ok in Es as (author & np & Ea & En & Hp & Hr & Hm & -> & Hu).
  destruct (IH _ _ H) as [[nps us Hp' He Hr' Hm' Hu' Hnd Hids Hrec]]. constructor.
  set (mine := if decide (author_id_of p ∈ seen) then []
               else [user_record author (author_id_of p)]) in *.
  refine {| added_posts := np :: nps; added_users := mine ++ us |}; simpl.
  - by rewrite Hp', Hp, <-app_assoc.
  - by constructor.
  - by rewrite Hr', Hr, <-app_assoc.
  - by rewrite Hm', Hm, <-app_assoc.
  - by rewrite Hu', Hu, <-app_assoc.
  - rewrite fmap_app. apply NoDup_app. unfold mine. split; [|split; [|done]].
    + case_decide; simpl; [constructor | apply NoDup_singleton].
    + intros id Hid. rewrite Hids. intros [Hns _]. apply Hns, elem_of_union_l, elem_of_singleton.
      case_decide; [by apply elem_of_nil in Hid | by apply list_elem_of_singleton in Hid].
  - intros id. rewrite fmap_app, elem_of_app, Hids, elem_of_cons, not_elem_of_union.
    rewrite not_elem_of_singleton. unfold mine. case_decide as Hs; simpl.
    + rewrite elem_of_nil. destruct (decide (id = author_id_of p)) as [->|]; tauto.
    + rewrite list_elem_of_singleton. destruct (decide (id = author_id_of p)) as [->|]; tauto.
  - apply Forall_app. split; [|done]. unfold mine. case_decide; [constructor|].
    constructor; [|constructor]. by exists author.
Qed.
End LoopFacts.

(** ** Lookups in the indexes: the last object of an id wins *)

Definition last_with {A} (key : A → option string) (id : string) (xs : list A) (a : A) : Prop :=
  ∃ before after, xs = before ++ a :: after ∧ key a = Some id ∧
    ∀ x, x ∈ after → key x ≠ Some id.

Lemma index_lookup {A} (key : A → option string) xs id :
  match fold_left (λ index a, match key a with Some id => <[id := a]> index | None => index end)
          xs (∅ : gmap string A) !! id with
  | Some a => last_with key id xs a
  | None => ∀ x, x ∈ xs → key x ≠ Some id
  end.
Proof.
  induction xs as [|x xs IH] using rev_ind.
  { simpl. rewrite lookup_empty. by intros ? ?%elem_of_nil. }
  rewrite fold_left_app. simpl. set (m := fold_left _ xs _) in *. clearbody m.
  assert (Hskip : key x ≠ Some id →
    match m !! id with
    | Some a => last_with key id (xs ++ [x]) a
    | None => ∀ y, y ∈ xs ++ [x] → key y ≠ Some id
    end).
  { intros Hx. destruct (m !! id) as [a|].
    - destruct IH as (before & after & -> & Ha & Hafter).
      exists before, (after ++ [x]). rewrite <-app_assoc. split; [done|]. split; [done|].
      intros y [Hy|Hy]%elem_of_app; [by apply Hafter | by apply list_elem_of_singleton in Hy as ->].
    - intros y [Hy|Hy]%elem_of_app; [by apply IH | by apply list_elem_of_singleton in Hy as ->]. }
  destruct (key x) as [k|] eqn:Ek; [|by apply Hskip].
  rewrite lookup_insert. case_decide as Hk; [|apply Hskip; congruence].
  subst. exists xs, []. split; [done|]. split; [done|]. by intros ? ?%elem_of_nil.
Qed.

Definition resolvable (e : Envelope) (p : PostObject) : Prop :=
  ∃ author, author ∈ included_users e ∧ uo_id author = Some (author_id_of p).

Lemma author_index_resolvable e p : is_Some (author_index e !! author_id_of p) ↔ resolvable e p.
Proof.
  pose proof (index_lookup uo_id (included_users e) (author_id_of p)) as H.
  unfold author_index. destruct (fold_left _ _ _ !! _) as [a|].
  - split; [|by eauto]. intros _. destruct H as (before & after & E & Ha & _).
    exists a. rewrite E. split; [|done]. apply elem_of_app. right. by left.
  - split; [by intros [? ?]|]. intros (author & Hin & Hid). by destruct (H author Hin).
Qed.

(** ** Completeness of a post *)

Definition present (o : option string) : Prop := ∃ s, o = Some s ∧ s ≠ "".
Definition absent (o : option string) : Prop := o = None ∨ o = Some "".

Lemma require_member_cases o obj m :
  (∃ s, require_member o obj m = Ok s ∧ o = Some s ∧ present o) ∨
  (require_member o obj m = Err (MissingMember obj m) ∧ absent o).
Proof.
  unfold require_member, present, absent. destruct o as [s|]; [|auto].
  destruct (String.eqb_spec s ""); [subst; auto|]. left. eauto 6.
Qed.

Lemma present_not_absent o : present o → absent o → False.
Proof. intros (s & -> & Hs) [|]; congruence. Qed.

Section Completeness.
Context {ch : Chrono}.

Definition complete (p : PostObject) : Prop :=
  present (po_id p) ∧ present (po_text p) ∧ present (po_author_id p) ∧ present (po_created_at p) ∧
  is_Some (parse_from_rfc3339 (default "" (po_created_at p))).

(** The refusal a post earns on its own, member by member in the documented order. *)
Definition refused_for (p : PostObject) (e : NormalizeError) : Prop :=
  (absent (po_id p) ∧ e = MissingMember "post" "id") ∨
  (present (po_id p) ∧ absent (po_text p) ∧ e = MissingMember "post" "text") ∨
  (present (po_id p) ∧ present (po_text p) ∧ absent (po_author_id p) ∧
     e = MissingMember "post" "author_id") ∨
  (present (po_id p) ∧ present (po_text p) ∧ present (po_author_id p) ∧ absent (po_created_at p) ∧
     e = MissingMember "post" "created_at") ∨
  (present (po_id p) ∧ present (po_text p) ∧ present (po_author_id p) ∧ present (po_created_at p) ∧
     parse_from_rfc3339 (default "" (po_created_at p)) = None ∧ e = InvalidMember "post" "created_at").

Lemma validate_post_spec p :
  match validate_post p with
  | None => complete p
  | Some e => refused_for p e
  end.
Proof.
  unfold validate_post, refused_for, complete.
  destruct (require_member_cases (po_id p) "post" "id") as [(? & -> & _ & H1)|[-> H1]]; [|tauto].
  destruct (require_member_cases (po_text p) "post" "text") as [(? & -> & _ & H2)|[-> H2]]; [|tauto].
  destruct (require_member_cases (po_author_id p) "post" "author_id")
    as [(? & -> & _ & H3)|[-> H3]]; [|tauto].
  destruct (require_member_cases (po_created_at p) "post" "created_at")
    as [(s & -> & Es & H4)|[-> H4]]; [|tauto].
  rewrite Es in *. simpl. destruct (parse_from_rfc3339 s) eqn:E; [by repeat split|].
  do 4 right. by repeat split.
Qed.

Lemma validate_posts_spec ps :
  match validate_posts ps with
  | None => Forall complete ps
  | Some e => ∃ before p after, ps = before ++ p :: after ∧ Forall complete before ∧ refused_for p e
  end.
Proof.
  induction ps as [|p ps IH]; simpl; [constructor|].
  pose proof (validate_post_spec p) as Hp. destruct (validate_post p) as [e|].
  - by exists [], p, ps.
  - destruct (validate_posts ps) as [e|]; [|by constructor].
    destruct IH as (before & q & after & -> & Hb & Hq). exists (p :: before), q, after.
    split; [done|]. split; [by constructor | done].
Qed.

Lemma complete_not_refused p e : complete p → refused_for p e → False.
Proof.
  intros (H1 & H2 & H3 & H4 & [t H5]).
  intros [[? _]|[(_ & ? & _)|[(_ & _ & ? & _)|[(_ & _ & _ & ? & _)|(_ & _ & _ & _ & ? & _)]]]];
    eauto using present_not_absent. congruence.
Qed.

Lemma normalize_post_complete p a refs : complete p → ∃ np, normalize_post p a refs = Ok np.
Proof. intros (_ & _ & _ & _ & [t H]). unfold normalize_post. rewrite H. eauto. Qed.

Lemma normalize_step_complete authors media state p :
  complete p →
  match authors !! author_id_of p with
  | Some _ => ∃ state', normalize_step authors media state p = Ok state'
  | None => normalize_step authors media state p = Err (UnresolvedAuthor (provider_id_of p))
  end.
Proof.
  intros Hc. unfold normalize_step. fold (author_id_of p) (provider_id_of p).
  destruct (authors !! author_id_of p) as [a|]; [|done].
  destruct (push_user_once _ _ _) as [b s], (split_references p) as [m u].
  destruct (normalize_post_complete p (author_id_of p) u Hc) as [np ->]. eauto.
Qed.

Lemma normalize_loop_complete authors media ps state :
  Forall complete ps →
  match normalize_loop authors media state ps with
  | Ok _ => Forall (λ p, is_Some (authors !! author_id_of p)) ps
  | Err e => ∃ before p after, ps = before ++ p :: after ∧
      Forall (λ p, is_Some (authors !! author_id_of p)) before ∧
      authors !! author_id_of p = None ∧ e = UnresolvedAuthor (provider_id_of p)
  end.
Proof.
  intros Hc. revert state. induction Hc as [|p ps Hp Hps IH]; intros state; simpl; [constructor|].
  pose proof (normalize_step_complete authors media state p Hp) as Hs.
  destruct (authors !! author_id_of p) as [a|] eqn:Ea.
  - destruct Hs as [state' ->]. specialize (IH state').
    destruct (normalize_loop _ _ _ _); [constructor; eauto|].
    destruct IH as (before & q & after & -> & Hb & Hq). exists (p :: before), q, after.
    repeat split; try done; try apply Hq. constructor; eauto.
  - rewrite Hs. by exists [], p, ps.
Qed.
End Completeness.

Lemma StronglySorted_app_inv_r {A} (R : A → A → Prop) xs ys :
  StronglySorted R (xs ++ ys) → StronglySorted R ys.
Proof. induction xs as [|x xs IH]; simpl; [done|]. intros [H _]%StronglySorted_inv. auto. Qed.

Lemma Forall2_elem_l {A B} (P : A → B → Prop) xs ys x :
  Forall2 P xs ys → x ∈ xs → ∃ y, y ∈ ys ∧ P x y.
Proof.
  induction 1 as [|x' y' xs ys Hp _ IH]; [by intros ?%elem_of_nil|].
  intros [->|Hx]%elem_of_cons; [exists y'; split; [by left | done]|].
  destruct (IH Hx) as (y & Hy & Hxy). exists y. split; [by right | done].
Qed.

Lemma index_lookup_Some {A} (key : A → option string) xs id a :
  fold_left (λ index a, match key a with Some id => <[id := a]> index | None => index end)
    xs (∅ : gmap string A) !! id = Some a ↔ last_with key id xs a.
Proof.
  split.
  - intros H. pose proof (index_lookup key xs id) as Hi. by rewrite H in Hi.
  - intros (before & after & -> & Ha & Hafter). rewrite fold_left_app. simpl. rewrite Ha.
    generalize (fold_left (λ index a, match key a with Some id => <[id:=a]> index | None => index end)
      before (∅ : gmap string A)). intros m.
    assert (H : (<[id := a]> m) !! id = Some a) by apply lookup_insert_eq. revert H.
    generalize (<[id := a]> m). clear m. induction after as [|x after IH]; simpl; [done|].
    intros m Hm. apply IH; [intros; apply Hafter; by right|].
    destruct (key x) as [k|] eqn:E; [|done]. rewrite lookup_insert_ne; [done|].
    intros ->. by apply (Hafter x ltac:(by left)).
Qed.

Lemma added_users_spec e ps us :
  ps ≡ₚ posts e →
  (∀ id, id ∈ nu_provider_id <$> us ↔ id ∈ author_id_of <$> ps) →
  Forall (λ u, ∃ author, author_index e !! nu_provider_id u = Some author ∧
            u = user_record author (nu_provider_id u)) us →
  ∀ u, u ∈ us ↔ ∃ p author, p ∈ posts e ∧
     last_with uo_id (author_id_of p) (included_users e) author ∧
     u = user_record author (author_id_of p).
Proof.
  intros Hperm Hids Hrec u. rewrite Forall_forall in Hrec. split.
  - intros Hu. destruct (Hrec u Hu) as (author & Ha & Hur).
    assert (Hid : nu_provider_id u ∈ author_id_of <$> ps).
    { apply Hids, list_elem_of_fmap. by exists u. }
    apply list_elem_of_fmap in Hid as (p & Hp & Hin). exists p, author.
    rewrite <-Hperm. split; [done|]. rewrite <-Hp. split; [by apply index_lookup_Some | done].
  - intros (p & author & Hin & Hl & ->).
    assert (Hid : author_id_of p ∈ nu_provider_id <$> us).
    { apply Hids, list_elem_of_fmap. exists p. by rewrite Hperm. }
    apply list_elem_of_fmap in Hid as (u & Hu & Huin). destruct (Hrec u Huin) as (a & Ha & Hur).
    apply index_lookup_Some in Hl. rewrite Hu in Hl. unfold author_index in Ha.
    rewrite Hl in Ha. injection Ha as ->. by rewrite Hu, <-Hur.
Qed.

Lemma added_relations_spec ps r :
  r ∈ flat_map post_relations_of ps ↔
    ∃ p ref target kind, p ∈ ps ∧ ref ∈ reference_list p ∧
      classify_reference ref = Some (target, kind) ∧
      r = mkNormalizedRelation PARSER_VERSION (provider_id_of p) target kind.
Proof.
  rewrite list_elem_of_In, in_flat_map. setoid_rewrite <-list_elem_of_In.
  unfold post_relations_of. split.
  - intros (p & Hp & Hr). apply list_elem_of_fmap in Hr as ([target kind] & -> & Hin).
    rewrite split_references_spec in Hin. apply list_elem_of_omap in Hin as (ref & ? & ?).
    by exists p, ref, target, kind.
  - intros (p & ref & target & kind & Hp & Href & Hc & ->). exists p. split; [done|].
    apply list_elem_of_fmap. exists (target, kind). split; [done|].
    rewrite split_references_spec. apply list_elem_of_omap. by exists ref.
Qed.

Lemma added_media_spec e ps m :
  m ∈ flat_map (post_media_of (media_index e)) ps ↔
    ∃ p key object, p ∈ ps ∧ key ∈ attached_keys p ∧
      last_with mo_media_key key (included_media e) object ∧
      m = normalize_media_record (provider_id_of p) object.
Proof.
  rewrite list_elem_of_In, in_flat_map. setoid_rewrite <-list_elem_of_In. unfold post_media_of.
  setoid_rewrite list_elem_of_omap. setoid_rewrite <-index_lookup_Some. split.
  - intros (p & Hp & key & Hk & Hm). apply fmap_Some in Hm as (object & Ho & ->).
    by exists p, key, object.
  - intros (p & key & object & Hp & Hk & Ho & ->). exists p. split; [done|]. exists key.
    split; [done|]. apply fmap_Some. by exists object.
Qed.

Section NormalizationTheorems.
Context {ch : Chrono}.

Definition key_leb {A} (f : A → string) (a b : A) : bool := str_leb (f a) (f b).

Lemma sort_keys_sorted {A} (f : A → string) xs :
  StronglySorted (λ a b, str_leb a b = true) (f <$> sort (key_leb f) xs).
Proof.
  apply sorted_fmap, (sort_sorted (key_leb f)); unfold key_leb.
  - intros a b. apply str_leb_total.
  - intros a b c. apply str_leb_trans.
Qed.

(** What a successful normalization is made of. *)
Lemma normalize_ok e b :
  normalize e = Ok b →
  posts e ≠ [] ∧ Forall complete (posts e) ∧ Forall (resolvable e) (posts e) ∧
  ∃ raw seen, inhabited (LoopAdded (author_index e) (media_index e) (sort post_leb (posts e))
                           empty_batch raw ∅ seen) ∧ b = finish_batch raw.
Proof.
  unfold normalize, validate. fold (posts e). destruct (posts e) as [|p ps] eqn:Ep; [done|].
  pose proof (validate_posts_spec (p :: ps)) as Hv.
  destruct (validate_posts (p :: ps)); [done|].
  assert (Hc : Forall complete (sort post_leb (p :: ps))) by (by rewrite sort_perm).
  pose proof (normalize_loop_complete (author_index e) (media_index e) _ (empty_batch, ∅) Hc) as Hl.
  destruct (normalize_loop _ _ _ _) as [[raw seen]|] eqn:El; [|done]. intros [= <-].
  split; [done|]. split; [done|]. split.
  - rewrite sort_perm in Hl. eapply Forall_impl; [exact Hl|].
    intros q Hq. by apply author_index_resolvable.
  - exists raw, seen. split; [|done]. by apply (normalize_loop_added _ _ _ _ _ _ _ El).
Qed.

Lemma normalize_post_fields p a refs np :
  normalize_post p a refs = Ok np →
  np_provider_id np = provider_id_of p ∧ np_author_provider_id np = a ∧
  np_parser_version np = PARSER_VERSION ∧ np_availability np = Active ∧ np_edited_at np = None ∧
  np_published_at np = parse_from_rfc3339 (default "" (po_created_at p)) ∧
  StronglySorted str_lt (np_media_keys np) ∧ StronglySorted str_lt (np_expanded_urls np) ∧
  (refs ≠ [] → obj_get UNRESOLVED_REFERENCES_KEY (np_extension np) = Some (Arr refs)).
Proof.
  unfold normalize_post. destruct (parse_from_rfc3339 _) as [t|]; [|done]. intros [= <-]. simpl.
  repeat split; try apply sort_dedup_strict. destruct refs; [done|]. intros _.
  by rewrite obj_get_insert, String.eqb_refl.
Qed.

(** The word the provider uses for each known kind of reference. *)
Definition relation_word (kind : Relation) : string :=
  match kind with Reply => "replied_to" | Quote => "quoted" | Repost => "retweeted" end.

Lemma classify_reference_iff ref target kind :
  classify_reference ref = Some (target, kind) ↔
  ref_id ref = Some target ∧ ref_reference_type ref = Some (relation_word kind).
Proof.
  unfold classify_reference, relation_word. split.
  - destruct (ref_id ref) as [t|], (ref_reference_type ref) as [k|]; try done.
    destruct (String.eqb_spec k "replied_to") as [->|]; [by intros [= <- <-]|].
    destruct (String.eqb_spec k "quoted") as [->|]; [by intros [= <- <-]|].
    destruct (String.eqb_spec k "retweeted") as [->|]; [by intros [= <- <-]|done].
  - intros [-> ->]. by destruct kind.
Qed.

(** The references of a post whose kind is not known, as they were received and in their order. *)
Definition unknown_references (post : PostObject) : list Value :=
  reference_value <$> filter (λ r, classify_reference r = None) (reference_list post).

(** A post keeps its extension members; the reserved one holds its unknown references when it has any. *)
Definition extension_kept (post : PostObject) (np : NormalizedPost) : Prop :=
  (unknown_references post = [] → np_extension np = po_extension post) ∧
  (unknown_references post ≠ [] →
     obj_get UNRESOLVED_REFERENCES_KEY (np_extension np) = Some (Arr (unknown_references post)) ∧
     ∀ key, key ≠ UNRESOLVED_REFERENCES_KEY → obj_get key (np_extension np) = obj_get key (po_extension post)).

Lemma normalize_post_extension p a np :
  normalize_post p a (split_references p).2 = Ok np →
  np_provider_id np = provider_id_of p ∧ np_author_provider_id np = a ∧ extension_kept p np.
Proof.
  rewrite split_references_spec. cbn [snd]. fold (unknown_references p). unfold normalize_post.
  destruct (parse_from_rfc3339 _) as [t|]; [|done]. intros [= <-]. split_and!; [done..|].
  unfold extension_kept. simpl. destruct (unknown_references p) as [|v vs]; split; try done. intros _.
  split; [by rewrite obj_get_insert, String.eqb_refl|]. intros key Hk.
  rewrite obj_get_insert. by destruct (String.eqb_spec key UNRESOLVED_REFERENCES_KEY).
Qed.

Lemma added_post_ids ps nps :
  Forall2 (λ p np, normalize_post p (author_id_of p) (split_references p).2 = Ok np) ps nps →
  np_provider_id <$> nps = provider_id_of <$> ps.
Proof.
  induction 1 as [|p np ps nps Hp Hps IH]; simpl; [done|].
  f_equal; [by apply normalize_post_fields in Hp as [? _] | exact IH].
Qed.

Lemma normalized_posts e b :
  normalize e = Ok b →
  StronglySorted (λ x y, str_leb x y = true) (np_provider_id <$> nb_posts b) ∧
  np_provider_id <$> nb_posts b ≡ₚ provider_id_of <$> posts e ∧ nb_posts b ≠ [].
Proof.
  intros (Hne & _ & _ & raw & seen & [[nps us Hp He _ _ _ _ _ _]] & ->)%normalize_ok.
  simpl in *. unfold finish_batch. rewrite Hp. cbn [nb_posts].
  assert (Hids : np_provider_id <$> sort (λ l r, str_leb (np_provider_id l) (np_provider_id r)) nps
            ≡ₚ provider_id_of <$> posts e).
  { rewrite sort_perm, (added_post_ids _ _ He). by rewrite sort_perm. }
  split; [apply (sort_keys_sorted np_provider_id)|]. split; [exact Hids|].
  intros E. rewrite E in Hids. apply Permutation_length in Hids. rewrite length_fmap in Hids.
  by destruct (posts e).
Qed.

(** C25. The collections of a normalized batch are in their canonical order. Users are strictly ascending
    by provider id and relations strictly ascending in their derived order, so neither holds a
    duplicate; inside a post the media keys and the expanded URLs are strictly ascending too. Posts are
    ascending by provider id, one per payload post, and media ascending by owner and key, one per
    attached key whose object is included: of these two, duplicates in the payload stay duplicates.
    Every post carries the parser version, is active, has no edit time and no media record claims a
    blob. *)
Theorem normalize_canonical e b :
  normalize e = Ok b →
  StronglySorted str_lt (nu_provider_id <$> nb_users b) ∧
  StronglySorted (λ x y, str_leb x y = true) (np_provider_id <$> nb_posts b) ∧
  np_provider_id <$> nb_posts b ≡ₚ provider_id_of <$> posts e ∧
  StronglySorted (strict relation_leb) (nb_relations b) ∧
  StronglySorted (λ x y, media_leb x y = true) (nb_media b) ∧
  nb_media b ≡ₚ flat_map (post_media_of (media_index e)) (posts e) ∧
  Forall (λ p, StronglySorted str_lt (np_media_keys p) ∧ StronglySorted str_lt (np_expanded_urls p) ∧
               np_parser_version p = PARSER_VERSION ∧ np_availability p = Active ∧
               np_edited_at p = None) (nb_posts b) ∧
  Forall (λ m, nm_blob_ref m = None) (nb_media b).
Proof.
  intros Hn. pose proof (normalized_posts _ _ Hn) as (Hsorted & Hids & _). revert Hn Hsorted Hids.
  intros (_ & _ & _ & raw & seen & [[nps us Hp He Hr Hm Hu Hnd _ _]] & ->)%normalize_ok Hsorted Hids.
  simpl in *. unfold finish_batch in *. rewrite Hr, Hm, Hu, ?Hp in *.
  cbn [nb_users nb_posts nb_relations nb_media] in *. split_and!; [|done|done|..].
  - apply sorted_nodup_strict; [apply (sort_keys_sorted nu_provider_id)|]. by rewrite sort_perm.
  - apply dedup_strict; [apply relation_leb_antisym|].
    apply sort_sorted; [apply relation_leb_total | apply relation_leb_trans].
  - apply sort_sorted; [apply media_leb_total | apply media_leb_trans].
  - rewrite sort_perm. apply Permutation_flat_map, sort_perm.
  - rewrite sort_perm. eapply Forall2_Forall_r; [exact He|]. apply Forall_forall. intros p _ np Hnp.
    apply normalize_post_fields in Hnp as (_ & _ & ? & ? & ? & _ & ? & ? & _). done.
  - rewrite sort_perm. apply Forall_forall. intros m Hin. rewrite list_elem_of_In in Hin.
    apply in_flat_map in Hin as (p & _ & Hin). rewrite <-list_elem_of_In in Hin.
    apply list_elem_of_omap in Hin as (key & _ & Hk).
    destruct (_ !! key); simplify_eq/=. done.
Qed.

(** The outcome of normalization is decided exactly by the envelope. It succeeds only when there
    is a post, every post is complete and every author is included; it reports a member error for
    the first offending post in payload order, and for a complete envelope the unresolved author of
    the post that comes first in provider-id order. *)
Theorem normalize_refusals e :
  match normalize e with
  | Ok _ => posts e ≠ [] ∧ Forall complete (posts e) ∧ Forall (resolvable e) (posts e)
  | Err (UnresolvedAuthor id) =>
      posts e ≠ [] ∧ Forall complete (posts e) ∧
      ∃ p, p ∈ posts e ∧ provider_id_of p = id ∧ ¬ resolvable e p ∧
        ∀ q, q ∈ posts e → ¬ resolvable e q → str_leb id (provider_id_of q) = true
  | Err err =>
      (posts e = [] ∧ err = MissingMember "envelope" "data") ∨
      ∃ before p after, posts e = before ++ p :: after ∧ Forall complete before ∧ refused_for p err
  end.
Proof.
  destruct (normalize e) as [b|err] eqn:En.
  { apply normalize_ok in En as (? & ? & ? & _). done. }
  revert En. unfold normalize, validate. fold (posts e).
  destruct (posts e) as [|p ps] eqn:Ep; [intros [= <-]; by left|].
  pose proof (validate_posts_spec (p :: ps)) as Hv.
  destruct (validate_posts (p :: ps)) as [err'|].
  { intros [= ->]. destruct Hv as (before & q & after & E & Hb & Hq).
    destruct err; [right; eauto 7..|].
    exfalso. unfold refused_for in Hq. destruct_or! Hq; by destruct_and! Hq. }
  assert (Hc : Forall complete (sort post_leb (p :: ps))) by (by rewrite sort_perm).
  pose proof (normalize_loop_complete (author_index e) (media_index e) _ (empty_batch, ∅) Hc) as Hl.
  destruct (normalize_loop _ _ _ _) as [[raw seen]|]; [done|]. intros [= ->].
  destruct Hl as (before & q & after & E & Hb & Hq & ->).
  assert (Hin : ∀ x, x ∈ before ++ q :: after ↔ x ∈ p :: ps) by (intros x; by rewrite <-E, elem_of_sort).
  split; [done|]. split; [done|]. exists q. split; [|split; [done|split]].
  - apply Hin, elem_of_app. right. by left.
  - rewrite <-author_index_resolvable, Hq. by intros [? ?].
  - intros x Hx Hun. apply Hin, elem_of_app in Hx as [Hx|Hx].
    { rewrite Forall_forall in Hb. exfalso. by apply Hun, author_index_resolvable, Hb. }
    apply elem_of_cons in Hx as [->|Hx]; [apply str_leb_refl|].
    pose proof (sort_sorted post_leb post_leb_total post_leb_trans (p :: ps)) as Hs.
    rewrite E in Hs. apply StronglySorted_app_inv_r in Hs.
    apply StronglySorted_inv in Hs as [_ Hs]. rewrite Forall_forall in Hs.
    specialize (Hs x Hx). unfold post_leb, opt_str_leb, provider_id_of in *.
    destruct (po_id q); simpl; [|done]. by destruct (po_id x).
Qed.

(** C26. Normalization neither loses nor invents evidence. The emitted users are exactly the last
    included user object of each author, the emitted relations exactly the references of the three known
    kinds, the emitted media exactly the attached keys joined with the last included object of that
    key. The emitted posts correspond to the payload posts one to one, by provider id and author, and
    each keeps its post's extension members: its reserved key holds exactly the post's references of
    unknown kind, as received and in their order, and is not added when there are none. *)
Theorem normalize_preserves_evidence e b :
  normalize e = Ok b →
  (∀ u, u ∈ nb_users b ↔ ∃ p author, p ∈ posts e ∧
     last_with uo_id (author_id_of p) (included_users e) author ∧
     u = user_record author (author_id_of p)) ∧
  (∀ r, r ∈ nb_relations b ↔ ∃ p ref target kind, p ∈ posts e ∧ ref ∈ reference_list p ∧
     classify_reference ref = Some (target, kind) ∧
     r = mkNormalizedRelation PARSER_VERSION (provider_id_of p) target kind) ∧
  (∀ m, m ∈ nb_media b ↔ ∃ p key object, p ∈ posts e ∧ key ∈ attached_keys p ∧
     last_with mo_media_key key (included_media e) object ∧
     m = normalize_media_record (provider_id_of p) object) ∧
  (∃ nps, nb_posts b ≡ₚ nps ∧ Forall2 (λ p np, np_provider_id np = provider_id_of p ∧
     np_author_provider_id np = author_id_of p ∧ extension_kept p np) (posts e) nps) ∧
  (∀ ref target kind, classify_reference ref = Some (target, kind) ↔
     ref_id ref = Some target ∧ ref_reference_type ref = Some (relation_word kind)).
Proof.
  intros (_ & _ & _ & raw & seen & [[nps us Hp He Hr Hm Hu _ Hids Hrec]] & ->)%normalize_ok.
  simpl in *. unfold finish_batch. rewrite Hp, Hr, Hm, Hu. cbn [nb_users nb_posts nb_relations nb_media].
  split_and!; [| | | |apply classify_reference_iff].
  - intros u. rewrite elem_of_sort. apply (added_users_spec e _ us (sort_perm post_leb _)); [|done].
    intros id. rewrite Hids. split; [tauto|]. intros H. split; [apply not_elem_of_empty | done].
  - intros r. rewrite elem_of_dedup, elem_of_sort, added_relations_spec.
    by setoid_rewrite (elem_of_sort post_leb).
  - intros m. rewrite elem_of_sort, added_media_spec. by setoid_rewrite (elem_of_sort post_leb).
  - destruct (Permutation_Forall2 (sort_perm post_leb (posts e)) He) as (nps' & Hperm & Hall).
    exists nps'. rewrite sort_perm. split; [done|]. eapply Forall2_impl; [exact Hall|].
    intros p np. apply normalize_post_extension.
Qed.
End NormalizationTheorems.

(** ** A concrete envelope *)
Module NormalizeSamples.
Import SampleChrono.

Definition sample_post (id author : string) (refs : list ReferencedTweet) (keys : list string) :
    PostObject :=
  mkPostObject (Some id) (Some "text") (Some author) None (Some "2026-01-01T00:00:00Z") None None
    (Some refs) None None (Some (mkAttachments (Some keys) None [])) None None [].
Definition sample_user (id name : string) : UserObject :=
  mkUserObject (Some id) (Some name) None None None None None None None None None None [].
Definition sample_media (key kind : string) : MediaObject :=
  mkMediaObject (Some key) (Some kind) None None (Some 4) None None None None None [].

Definition sample_envelope : Envelope :=
  mkEnvelope
    [sample_post "9" "u1" [mkReferencedTweet (Some "quoted") (Some "5") [];
                           mkReferencedTweet (Some "boosted") (Some "6") []] ["m2"; "m1"; "zz"];
     sample_post "5" "u1" [] []]
    (mkIncludes [sample_user "u1" "old"; sample_user "u1" "new"] []
       [sample_media "m1" "photo"; sample_media "m2" "hologram"] []) [].

Definition sample_batch : NormalizedBatch :=
  match normalize sample_envelope with Ok b => b | Err _ => empty_batch end.

Example sample_users : nu_display_name <$> nb_users sample_batch = [Some "new"].
Proof. vm_compute. reflexivity. Qed.

Example sample_post_order : np_provider_id <$> nb_posts sample_batch = ["5"; "9"].
Proof. vm_compute. reflexivity. Qed.

Example sample_media_order :
  (λ m, (nm_provider_id m, nm_kind m)) <$> nb_media sample_batch = [("m1", Some Photo); ("m2", None)].
Proof. vm_compute. reflexivity. Qed.

Lemma normalize_canonical_witness :
  StronglySorted str_lt (nu_provider_id <$> nb_users sample_batch).
Proof.
  refine (proj1 (normalize_canonical sample_envelope sample_batch _)). vm_compute. reflexivity.
Defined.

(** The post with a reference of an unknown kind keeps exactly that one under the reserved key. *)
Lemma normalize_preserves_evidence_witness :
  ∃ np, np ∈ nb_posts sample_batch ∧ np_provider_id np = "9" ∧ np_author_provider_id np = "u1" ∧
    obj_get UNRESOLVED_REFERENCES_KEY (np_extension np) =
      Some (Arr [reference_value (mkReferencedTweet (Some "boosted") (Some "6") [])]).
Proof.
  destruct (normalize_preserves_evidence sample_envelope sample_batch) as (_ & _ & _ & (nps & Hperm & Hall) & _);
    [vm_compute; reflexivity|].
  inversion Hall as [|p np ps nps' (Hid & Hau & Hext) Hrest Ep Enp]. subst nps. exists np.
  rewrite Hperm. split; [by left|]. split; [exact Hid|]. split; [exact Hau|].
  apply Hext. vm_compute. discriminate.
Defined.
End NormalizeSamples.
