(* ===== verification/Envelopes.v ===== *)
(** * Complete envelopes for the outbox ([crates/x-sync/src/envelopes.rs])

    Identifiers, wire timestamps, printed documents and the payload encodings belong to the contract
    crates and to [serde_json]: they are the members of [Contracts]. Everything this crate decides
    (producer, tenant, spelling of an instant, which reference goes where) is defined here. *)
From S2P Require Export Outbox Oauth.

Class Contracts := {
  uuid_text : Z → string;                 (* [Uuid]'s [Display] *)
  rfc3339_nanos : Z → string;             (* [to_rfc3339_opts(Nanos, true)] *)
  json_text : Value → string;             (* [serde_json::to_vec] and [Value]'s [Display] *)
  entity_ref_ok : string → bool;          (* [EntityRef::parse] *)
  wire_timestamp_ok : string → bool;      (* [WireTimestamp::parse] *)
  producer_name_ok : string → bool;       (* [ProducerName::parse] *)
  payload_fields : string → Value → option Value;   (* [set_payload], by event type *)
}.

Definition PRODUCER : string := "ratatoskr-x".

Inductive QueueError :=
  | Identifier
  | Payload
  | QueueOutbox (e : OutboxError).

Record EnvelopeFacts := mkEnvelopeFacts {
  ef_aggregate : string;
  ef_correlation : string;
  ef_causation : option string;
  ef_owner : Z;
  ef_occurred_at : Z;
}.

Section Envelopes.
Context {ct : Contracts} {ec : EnvelopeCodec}.

(** [<kind>:<id>]. *)
Definition entity (kind id : string) : result string QueueError :=
  let reference := kind +:+ ":" +:+ id in
  if entity_ref_ok reference then Ok reference else Err Identifier.

Definition tenant (owner : Z) : string := "user:" +:+ uuid_text owner.

(** RFC 3339 UTC with a literal [Z] and the shortest fraction. *)
Definition wire_timestamp (value : Z) : string :=
  let nanos := rfc3339_nanos value in
  let body := default nanos (str_strip_suffix "Z" nanos) in
  let body := trim_end_char "." (trim_end_char "0" body) in
  body +:+ "Z".

Definition instant (value : Z) : result string QueueError :=
  if wire_timestamp_ok (wire_timestamp value) then Ok (wire_timestamp value) else Err Identifier.

(** [event_envelope], and the same construction for a command. The stored instant is the one the
    wire text spells. *)
Definition build_envelope (id : Z) (event_type : string) (facts : EnvelopeFacts) (payload : Value) :
    result Envelope QueueError :=
  match instant (ef_occurred_at facts) with
  | Err e => Err e
  | Ok _ =>
      if negb (producer_name_ok PRODUCER) then Err Identifier
      else
        match payload_fields event_type payload with
        | None => Err Payload
        | Some fields =>
            Ok (mkEnvelope id event_type (ef_occurred_at facts) PRODUCER (ef_aggregate facts)
                  (ef_correlation facts) (ef_causation facts) (Some (tenant (ef_owner facts))) fields)
        end
  end.

(** [queue_event] and [queue_command]: a fresh identity, the complete envelope, one outbox row. *)
Definition queue_envelope (event_type : string) (facts : EnvelopeFacts) (payload : Value) :
    Prog QueueError Envelope :=
  let! id := new_uuid in
  let! envelope := of_result (build_envelope id event_type facts payload) in
  do! map_err QueueOutbox (enqueue envelope) in
  ret envelope.

Lemma build_envelope_fields id event_type facts payload envelope :
  build_envelope id event_type facts payload = Ok envelope →
  env_id envelope = id ∧ env_type envelope = event_type ∧
  env_tenant envelope = Some (tenant (ef_owner facts)) ∧
  env_aggregate envelope = ef_aggregate facts ∧ env_correlation envelope = ef_correlation facts ∧
  env_causation envelope = ef_causation facts ∧
  payload_fields event_type payload = Some (env_payload envelope).
Proof.
  unfold build_envelope. destruct (instant _); [|done]. destruct (negb _); [done|].
  destruct (payload_fields _ _) as [v|]; [|done]. by intros [= <-].
Qed.

Lemma queue_envelope_silent env event_type facts payload :
  guar (Ev:=Event) env silent (queue_envelope event_type facts payload).
Proof. unfold queue_envelope, enqueue. silently. Qed.

(** What a queued envelope does: exactly one fresh row. *)
Definition queued (event_type : string) (facts : EnvelopeFacts) (payload : Value) (d d' : Db)
    (envelope : Envelope) : Prop :=
  ∃ now, build_envelope (env_id envelope) event_type facts payload = Ok envelope ∧
    event_type ∈ event_types ∧ outbox_events d !! env_id envelope = None ∧
    d' = on_outbox_events (λ _, <[env_id envelope := fresh_row envelope now]> (outbox_events d)) d.

Lemma queue_envelope_ok env event_type facts payload (w : W) :
  wp env (queue_envelope event_type facts payload) (λ r w',
    match r with
    | Ok envelope => queued event_type facts payload (w_db w) (w_db w') envelope
    | Err _ => True
    end) w.
Proof.
  unfold queue_envelope. wp_steps. destruct (build_envelope _ _ _ _) as [e|] eqn:Eb; [|done].
  wp_steps. unfold enqueue. destruct (negb (envelope_encodes e)); wp_steps; [done| |done].
  intros u d. pose proof (build_envelope_fields _ _ _ _ _ Eb) as (Hid & Hty & _).
  intros (Hin & Hnone & ->)%insert_outbox_Some. split; [|done]. cbn [result_map_err]. wp_steps.
  exists (e_pgnow env (S (w_tick w))). cbn [w_db set_db tick w_tick] in *. rewrite Hty in Hin.
  subst. rewrite Hid in *. done.
Qed.

(** On every path the database is untouched or the envelope is queued. *)
Lemma queue_envelope_effect env event_type facts payload (w : W) :
  wp env (queue_envelope event_type facts payload) (λ _ w',
    w_db w' = w_db w ∨ ∃ envelope, queued event_type facts payload (w_db w) (w_db w') envelope) w.
Proof.
  unfold queue_envelope. wp_steps. destruct (build_envelope _ _ _ _) as [e|] eqn:Eb; [|by left].
  wp_steps. unfold enqueue. destruct (negb (envelope_encodes e)); wp_steps; [by left| |by left].
  intros u d. pose proof (build_envelope_fields _ _ _ _ _ Eb) as (Hid & Hty & _).
  intros (Hin & Hnone & ->)%insert_outbox_Some. cbn [result_map_err].
  assert (Hq : ∃ envelope, queued event_type facts payload (w_db w)
            (on_outbox_events (λ _, <[env_id e := fresh_row e (e_pgnow env (S (w_tick w)))]>
               (outbox_events (w_db w))) (w_db w)) envelope).
  { exists e, (e_pgnow env (S (w_tick w))). cbn [w_db set_db tick w_tick] in *. rewrite Hty in Hin.
    subst. rewrite Hid in *. done. }
  split; [wp_steps|]; right; exact Hq.
Qed.

Lemma queue_envelope_advances env event_type facts payload :
  guar env (on_db outbox_advances) (queue_envelope event_type facts payload).
Proof. unfold queue_envelope. guar_steps. Qed.
End Envelopes.
#[export] Hint Resolve queue_envelope_advances : guar.

(** ** A concrete wire format *)
Module SampleContracts.
Definition sample_uuid (z : Z) : string := if z <? 0 then "-" +:+ decimal (- z) else decimal z.

#[export] Instance sample_contracts : Contracts := {|
  uuid_text z := sample_uuid z;
  rfc3339_nanos t := decimal (t / usec) +:+ ".000000000Z";
  json_text v := "{}";
  entity_ref_ok s := negb (String.eqb s "");
  wire_timestamp_ok s := ends_with "Z" s;
  producer_name_ok s := negb (String.eqb s "");
  payload_fields _ v := Some v;
|}.

#[export] Instance sample_codec : EnvelopeCodec := {|
  envelope_encodes _ := true;
  payload_text e := env_type e;
|}.

Lemma sample_uuid_inj : Inj (=) (=) uuid_text.
Proof.
  assert (Hinj : ∀ a b, 0 ≤ a → 0 ≤ b → decimal a = decimal b → a = b).
  { intros a b Ha Hb E. apply (f_equal (from_str_radix 10 (Z.max a b))) in E.
    rewrite !from_str_radix_decimal in E by lia. by injection E. }
  assert (Hsign : ∀ a s, 0 ≤ a → decimal a ≠ String "-" s).
  { intros a s Ha E. pose proof (decimal_chars a Ha) as Hc. by rewrite E in Hc. }
  intros a b. change (uuid_text a = uuid_text b) with (sample_uuid a = sample_uuid b).
  unfold sample_uuid. destruct (Z.ltb_spec a 0), (Z.ltb_spec b 0); intros E.
  - injection E as E. apply Hinj in E; lia.
  - symmetry in E. by apply Hsign in E.
  - by apply Hsign in E.
  - by apply Hinj.
Qed.

Example sample_wire_timestamp : wire_timestamp (15 * usec) = "15Z".
Proof. vm_compute. reflexivity. Qed.
End SampleContracts.
