(* ===== verification/Articles.v ===== *)
(** * Linked external articles ([crates/x-sync/src/articles.rs])

    Selection and canonical form of external URLs, the account-scoped capture request (one row and
    one command per canonical URL) and the projection of the extractor's outcome. The contract
    decoding of an extractor report is a parameter ([ArticleContracts]). *)
From S2P Require Export Envelopes.

Record SelectedArticleUrl := mkSelectedArticleUrl { original_url : string; normalized_url : string }.

Inductive ArticleCaptureError :=
  | InvalidOutcome
  | SourceUnavailable
  | ArticleQuery
  | ArticleQueue (e : QueueError).

(** ** Canonical URLs *)

Definition is_ascii_whitespace (c : ascii) : bool :=
  byte_in 32 32 c || byte_in 9 10 c || byte_in 12 13 c.
Definition is_ascii_control (c : ascii) : bool := byte_in 0 31 c || byte_in 127 127 c.
Definition visible (c : ascii) : bool := negb (is_ascii_whitespace c || is_ascii_control c).
Definition host_char (c : ascii) : bool :=
  is_ascii_alphanumeric c || Ascii.eqb c "." || Ascii.eqb c "-".
Definition contains_char (a : ascii) (s : string) : bool := negb (all_chars (not_char a) s).

Definition parse_u16 (s : string) : option Z := from_str_radix 10 65535 s.

Definition checked_host (host : string) (port : option Z) : option (string * option Z) :=
  if String.eqb host "" || negb (all_chars host_char host) then None
  else Some (to_ascii_lowercase host, port).

Definition split_host_and_port (authority : string) : option (string * option Z) :=
  match rsplit_once ":" authority with
  | Some (host, raw_port) =>
      if String.eqb raw_port "" then None
      else port ← parse_u16 raw_port; checked_host host (Some port)
  | None => checked_host authority None
  end.

Definition is_x_host (host : string) : bool :=
  existsb (λ suffix, String.eqb host suffix ||
    match str_strip_suffix suffix host with Some prefix => ends_with "." prefix | None => false end)
    ["x.com"; "twitter.com"; "t.co"]%string.

Definition is_tracking_key (key : string) : bool :=
  let key := to_ascii_lowercase key in
  starts_with "utm_" key || String.eqb key "fbclid" || String.eqb key "gclid".

Definition component_key (component : string) : string :=
  match split_once "=" component with Some (key, _) => key | None => component end.

Definition retained (component : string) : bool :=
  negb (String.eqb component "") && negb (is_tracking_key (component_key component)).

Definition canonical_query (query : option string) : option string :=
  query ← query;
  match sort str_leb (List.filter retained (split_on "&" query)) with
  | [] => None
  | components => Some (str_join "&" components)
  end.

Definition authority_end (c : ascii) : bool :=
  Ascii.eqb c "/" || Ascii.eqb c "?" || Ascii.eqb c "#".

Definition default_port (scheme : string) (port : option Z) : bool :=
  match port with
  | Some p => (String.eqb scheme "http" && (p =? 80)) || (String.eqb scheme "https" && (p =? 443))
  | None => false
  end.

(** The canonical text of its parts. *)
Definition render_url (scheme host : string) (port : option Z) (path : string)
    (query : option string) : string :=
  let authority :=
    match port, default_port scheme port with
    | Some p, false => host +:+ ":" +:+ decimal p
    | _, _ => host
    end in
  let suffix := match query with Some q => "?" +:+ q | None => "" end in
  scheme +:+ "://" +:+ authority +:+ path +:+ suffix.

Definition split_path (path_and_query : string) : string * option string :=
  let without_fragment :=
    match split_once "#" path_and_query with Some (prefix, _) => prefix | None => path_and_query end in
  match split_once "?" without_fragment with
  | Some (path, query) => (path, Some query)
  | None => (without_fragment, None)
  end.

Definition normalize_external_url (raw : string) : option string :=
  if String.eqb raw "" || negb (all_chars visible raw) then None
  else
    '(scheme, rest) ← split_once_str "://" raw;
    let scheme := to_ascii_lowercase scheme in
    if negb (String.eqb scheme "http" || String.eqb scheme "https") then None
    else
      let '(authority, path_and_query) := break_at authority_end rest in
      if String.eqb authority "" || contains_char "@" authority || starts_with "[" authority then None
      else
        '(host, port) ← split_host_and_port authority;
        if is_x_host host then None
        else
          let '(path, query) := split_path path_and_query in
          let path := if String.eqb path "" then "/" else path in
          Some (render_url scheme host port path (canonical_query query)).

(** [select_external_expanded_urls]: the first spelling of every canonical URL. *)
Definition select_external_expanded_urls (urls : list string) : list SelectedArticleUrl :=
  (fold_left (λ acc original,
     match normalize_external_url original with
     | None => acc
     | Some url =>
         if decide (url ∈ acc.1) then acc
         else ({[url]} ∪ acc.1, acc.2 ++ [mkSelectedArticleUrl original url])
     end) urls (∅ : gset string, [])).2.

(** ** The canonical form is a fixed point *)

Definition host_lower (c : ascii) : bool := host_char c && negb (is_ascii_upper c).
(** The characters of a rendered authority. *)
Definition authority_char (c : ascii) : bool := host_lower c || Ascii.eqb c ":".
Definition path_char (c : ascii) : bool := visible c && not_char "#" c && not_char "?" c.
Definition query_char (c : ascii) : bool := visible c && not_char "#" c.

(** Decides a statement about every character by evaluating it. *)
Ltac by_ascii := intros [[] [] [] [] [] [] [] []]; vm_compute; first [done | discriminate].

Lemma lower_cons a s : to_ascii_lowercase (String a s) = String (to_ascii_lower a) (to_ascii_lowercase s).
Proof. done. Qed.

Lemma lower_char c : host_char c = true → host_lower (to_ascii_lower c) = true.
Proof. revert c. by_ascii. Qed.

Lemma lower_fixed_char c : host_lower c = true → to_ascii_lower c = c.
Proof. revert c. by_ascii. Qed.

Lemma lower_host s : all_chars host_char s = true → all_chars host_lower (to_ascii_lowercase s) = true.
Proof.
  induction s as [|a s IH]; [done|]. rewrite lower_cons. simpl. rewrite !andb_true_iff.
  intros [Ha Hs]. split; [by apply lower_char | by apply IH].
Qed.

Lemma lower_fixed s : all_chars host_lower s = true → to_ascii_lowercase s = s.
Proof.
  induction s as [|a s IH]; [done|]. rewrite lower_cons. simpl. rewrite andb_true_iff.
  intros [Ha Hs]. by rewrite lower_fixed_char, IH.
Qed.

Lemma all_chars_join p sep xs :
  all_chars p sep = true → Forall (λ x, all_chars p x = true) xs → all_chars p (str_join sep xs) = true.
Proof.
  intros Hsep. induction 1 as [|x xs Hx Hxs IH]; [done|]. destruct xs as [|y ys]; [done|].
  change (all_chars p (x +:+ sep +:+ str_join sep (y :: ys)) = true).
  by rewrite !all_chars_app, Hx, Hsep, IH.
Qed.

Lemma split_on_chars p c s :
  all_chars p s = true → Forall (λ x, all_chars p x = true) (split_on c s).
Proof.
  induction s as [|a s IH]; simpl; [by repeat constructor|]. rewrite andb_true_iff.
  intros [Ha Hs]. specialize (IH Hs). destruct (Ascii.eqb a c); [by constructor|].
  destruct (split_on c s) as [|w ws]; [|apply Forall_cons in IH as [Hw Hws]];
    (constructor; [simpl; by rewrite Ha | done]).
Qed.

(** Sorting a sorted list changes nothing. *)
Lemma sort_id {A} (leb : A → A → bool) xs :
  StronglySorted (λ a b, leb a b = true) xs → sort leb xs = xs.
Proof.
  induction 1 as [|x xs Hs IH Hx]; [done|]. cbn [sort foldr]. fold (sort leb xs). rewrite IH.
  destruct xs as [|y ys]; [done|]. simpl. apply Forall_cons in Hx as [-> _]. done.
Qed.

Lemma filter_all {A} (f : A → bool) xs : (∀ x, x ∈ xs → f x = true) → List.filter f xs = xs.
Proof.
  induction xs as [|x xs IH]; intros H; simpl; [done|]. rewrite (H x) by (by left).
  f_equal. apply IH. intros y Hy. apply H. by right.
Qed.

Lemma canonical_query_spec q q' :
  canonical_query (Some q) = Some q' →
  canonical_query (Some q') = Some q' ∧
  (∀ p, p "&"%char = true → all_chars p q = true → all_chars p q' = true).
Proof.
  unfold canonical_query. cbn [mbind option_bind].
  set (kept := sort str_leb (List.filter retained (split_on "&" q))).
  assert (Hkept : ∀ x, x ∈ kept → retained x = true ∧ x ∈ split_on "&" q).
  { intros x. unfold kept. rewrite elem_of_sort, !list_elem_of_In, filter_In. tauto. }
  assert (Hsorted : StronglySorted (λ a b, str_leb a b = true) kept)
    by (apply sort_sorted; [apply str_leb_total | apply str_leb_trans]).
  clearbody kept. destruct kept as [|x xs]; [done|]. intros Hj.
  assert (q' = str_join "&" (x :: xs)) as -> by congruence. split.
  - rewrite (split_on_join "&" (x :: xs)); [|done|].
    + rewrite filter_all by (intros y Hy; by apply Hkept). by rewrite sort_id.
    + apply Forall_forall. intros y Hy. destruct (Hkept y Hy) as [_ Hin].
      pose proof (split_on_pieces "&" q) as Hp. rewrite Forall_forall in Hp. by apply Hp.
  - intros p Hp Hq. apply (all_chars_join p "&" (x :: xs)); [simpl; by rewrite Hp|].
    apply Forall_forall. intros y Hy. destruct (Hkept y Hy) as [_ Hin].
    pose proof (split_on_chars p "&" q Hq) as Hall. rewrite Forall_forall in Hall. by apply Hall.
Qed.

(** The parts of a canonical URL. *)
Record CanonicalParts (scheme host : string) (port : option Z) (path : string) (q : option string) :
    Prop := {
  cp_scheme : scheme = "http" ∨ scheme = "https";
  cp_host_ne : host ≠ "";
  cp_host : all_chars host_lower host = true;
  cp_external : is_x_host host = false;
  cp_port : match port with Some p => 0 ≤ p ≤ 65535 | None => True end;
  cp_path : ∃ r, path = String "/" r;
  cp_path_chars : all_chars path_char path = true;
  cp_query : match q with Some q => all_chars query_char q = true | None => True end;
  cp_canonical : canonical_query q = q;
}.

Definition render_authority (scheme host : string) (port : option Z) : string :=
  match port, default_port scheme port with
  | Some p, false => host +:+ ":" +:+ decimal p
  | _, _ => host
  end.

Lemma host_lower_other c :
  host_lower c = true →
  host_char c = true ∧ visible c = true ∧ authority_end c = false ∧ not_char "@" c = true ∧
  not_char ":" c = true ∧ Ascii.eqb "[" c = false ∧ authority_char c = true.
Proof. revert c. intros [[] [] [] [] [] [] [] []]; vm_compute; intros Hc; first [discriminate Hc | by split_and!]. Qed.

Lemma digit_host_lower c : is_ascii_digit c = true → host_lower c = true.
Proof. revert c. by_ascii. Qed.

Lemma authority_char_other c :
  authority_char c = true → visible c = true ∧ negb (authority_end c) = true ∧ not_char "@" c = true ∧
  Ascii.eqb "[" c = false.
Proof. revert c. intros [[] [] [] [] [] [] [] []]; vm_compute; intros Hc; first [discriminate Hc | by split_and!]. Qed.

Lemma render_authority_chars scheme host port :
  all_chars host_lower host = true → match port with Some p => 0 ≤ p ≤ 65535 | None => True end →
  all_chars authority_char (render_authority scheme host port) = true.
Proof.
  intros Hh Hp. assert (H : all_chars authority_char host = true).
  { eapply all_chars_impl; [|exact Hh]. intros c Hc. apply host_lower_other in Hc; tauto. }
  unfold render_authority. destruct port as [p|]; [|done]. simpl in Hp.
  destruct (default_port scheme _); [done|].
  rewrite !all_chars_app, H. simpl. eapply all_chars_impl; [|apply decimal_chars; lia].
  intros c Hc. apply digit_host_lower, host_lower_other in Hc; tauto.
Qed.

(** Reading a rendered authority gives the host and the port that is written. *)
Lemma split_rendered_authority scheme host port :
  host ≠ "" → all_chars host_lower host = true →
  match port with Some p => 0 ≤ p ≤ 65535 | None => True end →
  split_host_and_port (render_authority scheme host port) =
    Some (host, if default_port scheme port then None else port).
Proof.
  intros Hne Hh Hp.
  assert (Hchk : ∀ port', checked_host host port' = Some (host, port')).
  { intros port'. unfold checked_host. destruct (String.eqb_spec host ""); [done|].
    rewrite (all_chars_impl host_lower host_char host), lower_fixed; [done|done| |done].
    intros c Hc. apply host_lower_other in Hc; tauto. }
  assert (Hcol : ∀ s, all_chars host_lower s = true → all_chars (not_char ":") s = true).
  { intros s. apply all_chars_impl. intros c Hc. apply host_lower_other in Hc; tauto. }
  assert (Hbare : split_host_and_port host = Some (host, None)).
  { unfold split_host_and_port. rewrite rsplit_once_no by auto. apply Hchk. }
  unfold render_authority. destruct port as [p|]; [simpl in Hp|by simpl].
  destruct (default_port scheme (Some p)); [done|]. unfold split_host_and_port.
  change (":" +:+ decimal p) with (String ":" (decimal p)).
  assert (Hd : all_chars host_lower (decimal p) = true).
  { eapply all_chars_impl; [|apply decimal_chars; lia]. apply digit_host_lower. }
  rewrite rsplit_once_app by auto.
  destruct (String.eqb_spec (decimal p) "") as [E|].
  { pose proof (from_str_radix_decimal 65535 p Hp) as Hr. by rewrite E in Hr. }
  unfold parse_u16. rewrite from_str_radix_decimal by done. simpl. apply Hchk.
Qed.

Lemma render_default_port scheme host port path q :
  render_url scheme host (if default_port scheme port then None else port) path q =
  render_url scheme host port path q.
Proof. unfold render_url. destruct port as [p|]; [|done]. destruct (default_port scheme (Some p)) eqn:E; by rewrite ?E. Qed.

(** What follows the authority, and its characters. *)
Definition url_tail (path : string) (q : option string) : string :=
  path +:+ match q with Some q => "?" +:+ q | None => "" end.

Lemma tail_chars (P : ascii → bool) path q :
  (∀ c, path_char c = true → P c = true) → (∀ c, query_char c = true → P c = true) → P "?"%char = true →
  all_chars path_char path = true → match q with Some q => all_chars query_char q = true | None => True end →
  all_chars P (url_tail path q) = true.
Proof.
  intros HP HQ Hmark Hpath Hq. unfold url_tail. rewrite all_chars_app, (all_chars_impl path_char P) by done.
  destruct q as [q|]; [|done]. simpl. rewrite Hmark. by eapply all_chars_impl.
Qed.

Lemma split_rendered_tail path q :
  all_chars path_char path = true → match q with Some q => all_chars query_char q = true | None => True end →
  split_path (url_tail path q) = (path, q).
Proof.
  intros Hpath Hq. unfold split_path. rewrite (split_once_no "#").
  2:{ apply tail_chars; try done; intros c; [unfold path_char|unfold query_char]; rewrite ?andb_true_iff; tauto. }
  assert (Hnq : all_chars (not_char "?") path = true).
  { eapply all_chars_impl; [|exact Hpath]. intros c. unfold path_char. rewrite !andb_true_iff. tauto. }
  unfold url_tail. destruct q as [q|].
  - change ("?" +:+ q) with (String "?" q). by rewrite split_once_app.
  - rewrite str_app_nil_r. by rewrite split_once_no.
Qed.

Lemma rendered_visible scheme host port path q :
  CanonicalParts scheme host port path q → all_chars visible (render_url scheme host port path q) = true.
Proof.
  intros [Hs _ Hh _ Hp _ Hpath Hq _]. change (render_url scheme host port path q)
    with (scheme +:+ "://" +:+ render_authority scheme host port +:+ url_tail path q).
  rewrite !all_chars_app, (tail_chars visible); try done;
    [|intros c; unfold path_char, query_char; rewrite ?andb_true_iff; tauto..].
  rewrite (all_chars_impl authority_char visible _ (λ c Hc, proj1 (authority_char_other c Hc))
    (render_authority_chars scheme host port Hh Hp)).
  by destruct Hs as [-> | ->].
Qed.

Lemma authority_not_bracketed a : all_chars authority_char a = true → starts_with "[" a = false.
Proof.
  unfold starts_with. destruct a as [|c a]; [done|]. intros Ha. simpl in Ha.
  apply andb_true_iff in Ha as [Hc _]. apply authority_char_other in Hc as (_ & _ & _ & Hc).
  cbn [str_strip_prefix]. by rewrite Hc.
Qed.

Lemma render_authority_nonempty scheme host port : host ≠ "" → render_authority scheme host port ≠ "".
Proof.
  unfold render_authority. destruct host as [|c h]; [done|]. destruct port; [|done].
  by destruct (default_port _ _).
Qed.

(** Normalizing a rendered canonical URL gives it back. *)
Lemma normalize_rendered scheme host port path q :
  CanonicalParts scheme host port path q →
  normalize_external_url (render_url scheme host port path q) =
    Some (render_url scheme host port path q).
Proof.
  intros HC. pose proof (rendered_visible _ _ _ _ _ HC) as Hvis.
  destruct HC as [Hs Hne Hh Hx Hp [r Hr] Hpath Hq Hcan].
  pose proof (render_authority_chars scheme host port Hh Hp) as Ha.
  assert (Hurl : render_url scheme host port path q =
    scheme +:+ "://" +:+ render_authority scheme host port +:+ url_tail path q) by done.
  unfold normalize_external_url. rewrite Hvis.
  destruct (String.eqb_spec (render_url scheme host port path q) "") as [E|_].
  { rewrite Hurl in E. by destruct Hs as [-> | ->]. }
  rewrite Hurl. cbn [negb orb].
  assert (Hso : split_once_str "://" (scheme +:+ "://" +:+ render_authority scheme host port +:+ url_tail path q)
            = Some (scheme, render_authority scheme host port +:+ url_tail path q))
    by (destruct Hs as [-> | ->]; reflexivity).
  rewrite Hso. cbn [mbind option_bind].
  assert (Hlow : to_ascii_lowercase scheme = scheme ∧
            (String.eqb scheme "http" || String.eqb scheme "https") = true)
    by (destruct Hs as [-> | ->]; done).
  destruct Hlow as [-> ->]. cbn [negb].
  rewrite break_at_app; [| |right; exists "/"%char; unfold url_tail; rewrite Hr; by eexists].
  2:{ eapply all_chars_impl; [|exact Ha]. intros c Hc. apply (authority_char_other c Hc). }
  destruct (String.eqb_spec (render_authority scheme host port) "") as [E|_].
  { by apply render_authority_nonempty in E. }
  unfold contains_char.
  rewrite (all_chars_impl authority_char (not_char "@") _
    (λ c Hc, proj1 (proj2 (proj2 (authority_char_other c Hc)))) Ha), authority_not_bracketed by done.
  cbn [negb orb]. rewrite split_rendered_authority by done. cbn [mbind option_bind].
  rewrite Hx, split_rendered_tail by done.
  destruct (String.eqb_spec path ""); [by subst|]. rewrite Hcan.
  f_equal. rewrite render_default_port. exact Hurl.
Qed.

(** *** Reading a raw URL yields canonical parts *)

Lemma split_once_str_Some sep s a b : split_once_str sep s = Some (a, b) → s = a +:+ sep +:+ b.
Proof.
  revert a b. induction s as [|c s IH]; intros a b; cbn [split_once_str].
  - destruct (str_strip_prefix sep "") as [r|] eqn:E; [|done]. intros [= <- <-].
    by apply str_strip_prefix_Some in E.
  - destruct (str_strip_prefix sep (String c s)) as [r|] eqn:E.
    + intros [= <- <-]. by apply str_strip_prefix_Some in E.
    + destruct (split_once_str sep s) as [[x y]|]; cbn [mbind option_bind]; [|done].
      intros [= <- <-]. by rewrite (IH x y eq_refl).
Qed.

Lemma digits_in_nonneg r acc s z : 0 ≤ r → 0 ≤ acc → digits_in r acc s = Some z → 0 ≤ z.
Proof.
  intros Hr. revert acc. induction s as [|c s IH]; intros acc Ha; simpl; [by intros [= <-]|].
  destruct (hex_val c) as [d|] eqn:Ed; simpl; [|done]. case_bool_decide; [|done].
  apply IH. assert (0 ≤ d); [|nia]. revert Ed. unfold hex_val, byte_in.
  destruct (in_range 48 57 (byte_val c)) eqn:E1; [apply in_range_spec in E1; intros [= <-]; lia|].
  destruct (in_range 65 70 (byte_val c)) eqn:E2; [apply in_range_spec in E2; intros [= <-]; lia|].
  destruct (in_range 97 102 (byte_val c)) eqn:E3; [|done].
  apply in_range_spec in E3. intros [= <-]. lia.
Qed.

Lemma parse_u16_range s p : parse_u16 s = Some p → 0 ≤ p ≤ 65535.
Proof.
  unfold parse_u16, from_str_radix.
  set (body := match s with String "+" r => r | _ => s end).
  destruct (String.eqb body ""); [done|].
  destruct (digits_in 10 0 body) as [z|] eqn:E; simpl; [|done]. case_bool_decide; [|done].
  intros [= <-]. apply digits_in_nonneg in E; lia.
Qed.

Lemma split_host_and_port_parts authority host port :
  split_host_and_port authority = Some (host, port) →
  host ≠ "" ∧ all_chars host_lower host = true ∧
  match port with Some p => 0 ≤ p ≤ 65535 | None => True end.
Proof.
  assert (Hc : ∀ h port host port', checked_host h port = Some (host, port') →
    host ≠ "" ∧ all_chars host_lower host = true ∧ port' = port).
  { intros h po ho po'. unfold checked_host. destruct (String.eqb_spec h ""); [done|].
    destruct (all_chars host_char h) eqn:E; [|done]. intros [= <- <-].
    split; [by destruct h|]. split; [by apply lower_host | done]. }
  unfold split_host_and_port. destruct (rsplit_once ":" authority) as [[h raw]|].
  - destruct (String.eqb raw ""); [done|]. destruct (parse_u16 raw) as [p|] eqn:E; simpl; [|done].
    intros (? & ? & ->)%Hc. by apply parse_u16_range in E.
  - by intros (? & ? & ->)%Hc.
Qed.

Lemma split_path_parts tail path q :
  all_chars visible tail = true → split_path tail = (path, q) →
  all_chars path_char path = true ∧
  match q with Some q => all_chars query_char q = true | None => True end ∧
  (tail = "" ∨ (∃ x r, tail = String x r ∧ authority_end x = true) → path = "" ∨ ∃ r, path = String "/" r).
Proof.
  intros Hv. unfold split_path.
  set (front := match split_once "#" tail with Some (prefix, _) => prefix | None => tail end).
  assert (Hf : all_chars query_char front = true ∧
    (tail = "" ∨ (∃ x r, tail = String x r ∧ authority_end x = true) →
     front = "" ∨ ∃ x r, front = String x r ∧ (x = "/"%char ∨ x = "?"%char))).
  { assert (Hq : ∀ s, all_chars visible s = true → all_chars (not_char "#") s = true →
              all_chars query_char s = true).
    { induction s as [|c s IH]; simpl; [done|]. unfold query_char at 1. rewrite !andb_true_iff.
      intros [? ?] [? ?]. auto. }
    unfold front. destruct (split_once "#" tail) as [[a b]|] eqn:E.
    - apply split_once_Some in E as [-> Ha]. rewrite all_chars_app in Hv.
      apply andb_true_iff in Hv as [Hva _]. split; [by apply Hq|].
      intros [Ht|(x & r & Ht & Hx)]; destruct a as [|c a]; [by left|done|by left|].
      right. injection Ht as -> _. exists x, a. split; [done|].
      simpl in Ha. apply andb_true_iff in Ha as [Hn _]. revert Hx Hn. clear. revert x.
      intros [[] [] [] [] [] [] [] []]; vm_compute; intros H1 H2; first [discriminate H1 | discriminate H2 | by left | by right].
    - apply split_once_None in E. split; [by apply Hq|].
      intros [Ht|(x & r & Ht & Hx)]; [by left|]. right. exists x, r. split; [done|].
      rewrite Ht in E. simpl in E. apply andb_true_iff in E as [Hn _]. revert Hx Hn. clear.
      revert x. intros [[] [] [] [] [] [] [] []]; vm_compute; intros H1 H2; first [discriminate H1 | discriminate H2 | by left | by right]. }
  clearbody front. destruct Hf as [Hf Hstart].
  assert (Hp : ∀ s, all_chars query_char s = true → all_chars (not_char "?") s = true →
            all_chars path_char s = true).
  { induction s as [|c s IH]; simpl; [done|]. unfold path_char at 1, query_char at 1.
    rewrite !andb_true_iff. intros [[? ?] ?] [? ?]. auto. }
  destruct (split_once "?" front) as [[a b]|] eqn:E; intros [= <- <-].
  - apply split_once_Some in E as [-> Ha]. rewrite all_chars_app in Hf.
    apply andb_true_iff in Hf as [Hfa Hfb]. simpl in Hfb.
    split; [by apply Hp|]. split; [done|]. intros Ht. destruct a as [|c a]; [by left|].
    destruct (Hstart Ht) as [?|(x & r & Hx & [-> | ->])]; [done| |]; injection Hx as -> _.
    + right. by exists a.
    + done.
  - apply split_once_None in E. split; [by apply Hp|]. split; [done|]. intros Ht.
    destruct (Hstart Ht) as [?|(x & r & -> & [-> | ->])]; [by left|right; by exists r|done].
Qed.

Lemma normalize_external_url_parts u v :
  normalize_external_url u = Some v →
  ∃ scheme host port path q, CanonicalParts scheme host port path q ∧
    v = render_url scheme host port path q.
Proof.
  unfold normalize_external_url. destruct (String.eqb u ""); [done|].
  destruct (all_chars visible u) eqn:Hv; [|done]. cbn [negb orb].
  destruct (split_once_str "://" u) as [[scheme rest]|] eqn:Es; cbn [mbind option_bind]; [|done].
  apply split_once_str_Some in Es as ->. rewrite !all_chars_app in Hv.
  apply andb_true_iff in Hv as [_ Hv]. apply andb_true_iff in Hv as [_ Hv].
  destruct (String.eqb (to_ascii_lowercase scheme) "http" ||
            String.eqb (to_ascii_lowercase scheme) "https") eqn:Hs; [|done]. cbn [negb].
  pose proof (break_at_spec authority_end rest) as Hb.
  destruct (break_at authority_end rest) as [authority tail]. destruct Hb as (-> & _ & Htail).
  rewrite all_chars_app in Hv. apply andb_true_iff in Hv as [_ Hv].
  destruct (String.eqb authority "" || _ || _); [done|].
  destruct (split_host_and_port authority) as [[host port]|] eqn:Eh; cbn [mbind option_bind]; [|done].
  destruct (is_x_host host) eqn:Ex; [done|].
  destruct (split_path tail) as [path q] eqn:Ep. intros [= <-].
  apply split_host_and_port_parts in Eh as (Hne & Hh & Hp).
  destruct (split_path_parts _ _ _ Hv Ep) as (Hpath & Hq & Hslash).
  eexists _, host, port, _, (canonical_query q). split; [|done].
  apply orb_true_iff in Hs. rewrite !String.eqb_eq in Hs.
  split; try done.
  - destruct (String.eqb_spec path ""); [by eexists|]. by destruct (Hslash Htail).
  - by destruct (String.eqb_spec path "").
  - destruct q as [q|]; [|done]. destruct (canonical_query (Some q)) as [q'|] eqn:Ec; [|done].
    apply canonical_query_spec in Ec as [_ Hc]. by apply Hc.
  - destruct q as [q|]; [|done]. destruct (canonical_query (Some q)) as [q'|] eqn:Ec; [|done].
    by apply canonical_query_spec in Ec as [? _].
Qed.

Lemma selected_urls urls :
  let selected := select_external_expanded_urls urls in
  NoDup (normalized_url <$> selected) ∧
  (∀ s, s ∈ selected → original_url s ∈ urls ∧ normalize_external_url (original_url s) = Some (normalized_url s)) ∧
  (∀ url, url ∈ normalized_url <$> selected ↔ ∃ original, original ∈ urls ∧ normalize_external_url original = Some url).
Proof.
  cbv zeta. unfold select_external_expanded_urls.
  set (step := λ (acc : gset string * list SelectedArticleUrl) original, _).
  induction urls as [|u urls IH] using rev_ind.
  { simpl. split; [constructor|]. split; [by intros ? ?%elem_of_nil|].
    intros url. split; [by intros ?%elem_of_nil|]. by intros (? & ?%elem_of_nil & _). }
  assert (Hseen : ∀ url, url ∈ (fold_left step urls (∅, [])).1 ↔
             url ∈ normalized_url <$> (fold_left step urls (∅, [])).2).
  { clear. induction urls as [|u urls IH] using rev_ind; intros url.
    - simpl. rewrite elem_of_nil. split; [by intros ?%elem_of_empty | done].
    - rewrite fold_left_app. simpl. destruct (fold_left step urls (∅, [])) as [seen out].
      unfold step at 1 2. simpl in *. destruct (normalize_external_url u) as [n|]; [|apply IH].
      case_decide; [apply IH|]. simpl.
      rewrite fmap_app, elem_of_app, elem_of_union, elem_of_singleton, IH. simpl.
      rewrite list_elem_of_singleton. tauto. }
  rewrite fold_left_app. simpl. destruct (fold_left step urls (∅, [])) as [seen out].
  simpl in Hseen. destruct IH as (Hnd & Hin & Hall). simpl in Hnd, Hin, Hall.
  unfold step at 1 2 3. simpl.
  assert (Hweak : ∀ s, s ∈ out → original_url s ∈ urls ++ [u] ∧
            normalize_external_url (original_url s) = Some (normalized_url s)).
  { intros s Hs. destruct (Hin s Hs). split; [apply elem_of_app; by left | done]. }
  assert (Hsplit : ∀ url, (∃ original, original ∈ urls ++ [u] ∧ normalize_external_url original = Some url)
            ↔ url ∈ normalized_url <$> out ∨ normalize_external_url u = Some url).
  { intros url. rewrite Hall. setoid_rewrite elem_of_app. setoid_rewrite list_elem_of_singleton.
    split; [intros (o & [Ho| ->] & ?); eauto|]. intros [(o & ? & ?)|?]; eauto. }
  setoid_rewrite Hsplit.
  destruct (normalize_external_url u) as [n|] eqn:En; simpl.
  - case_decide as Hs; simpl.
    + split; [done|]. split; [done|]. intros url. split; [by left|]. intros [?|[= <-]]; [done|].
      by apply Hseen.
    + rewrite fmap_app. split; [|split].
      * apply NoDup_app. split; [done|]. split; [|apply NoDup_singleton].
        intros x Hx ->%list_elem_of_singleton. by apply Hs, Hseen.
      * intros s [Hs'|Hs']%elem_of_app; [by apply Hweak|]. apply list_elem_of_singleton in Hs' as ->.
        simpl. split; [apply elem_of_app; right; by left | done].
      * intros url. rewrite elem_of_app. simpl. rewrite list_elem_of_singleton. naive_solver.
  - split; [done|]. split; [done|]. intros url. split; [by left | by intros [?|?]].
Qed.

(** ** Capture requests *)

(** Contract parsing this component relies on: the capture URL's bound, and the decoded parts of an
    extractor report. *)
Record ReportResult := mkReportResult {
  rr_kind : string;
  rr_target_kind : string;
  rr_target_uuid : option Z;
  rr_blob : option (string * Value);      (* the owning service and the whole reference *)
}.
Record OperationReport := mkOperationReport {
  or_operation_id : string;
  or_succeeded : bool;
  or_results : list ReportResult;
}.
Record InboundEvent := mkInboundEvent {
  ie_event_id : string;
  ie_producer : string;
  ie_correlation : string;
  ie_tenant : option string;
  ie_report : option OperationReport;     (* [payload_as::<OperationReported>] *)
}.
Class ArticleContracts := {
  capture_url_ok : string → bool;                    (* [CaptureUrl::parse] *)
  parse_event : string → option InboundEvent;        (* [serde_json::from_str::<EventEnvelope>] *)
}.

Definition OPERATION_REPORTED : string := "platform.operation.reported.v1".
Definition CONTENT_CAPTURE_REQUESTED : string := "content.capture.requested.v1".

Record ExtractorOutcome := mkExtractorOutcome {
  eo_event_id : string;
  eo_correlation_id : string;
  eo_operation_id : string;
  eo_tenant_id : string;
  eo_document_id : string;
  eo_document_ir_blob : Value;
}.

Section Capture.
Context {ct : Contracts} {ec : EnvelopeCodec} {cr : Crypto} {ac : ArticleContracts}.

Definition source_owner (account source : Z) (d : Db) : option (Z * Db) :=
  row ← social_sources d !! source;
  if bool_decide (ss_account_id row = account) then
    acc ← accounts d !! account; Some (acc_internal_user_id acc, d)
  else None.

(** The insert-or-find statement: the row of the canonical URL, and whether it is new. *)
Definition find_or_insert_capture (id account : Z) (selected : SelectedArticleUrl)
    (correlation : string) (d : Db) : option (Z * bool * Db) :=
  match find_row (λ _ row, bool_decide (art_account_id row = account) &&
                           String.eqb (art_normalized_url row) (normalized_url selected))
          (article_captures d) with
  | Some (existing, _) => Some (existing, false, d)
  | None =>
      table ← insert_new id (mkArticleCapture account (normalized_url selected)
                (original_url selected) correlation "requested" None None None) (article_captures d);
      Some (id, true, on_article_captures (λ _, table) d)
  end.

Definition link_capture (source capture : Z) (d : Db) : Db :=
  on_post_article_links (λ links, {[(source, capture)]} ∪ links) d.

Definition capture_requested (capture_id : Z) (url : string) : Value :=
  obj [("operation_id", Str (uuid_text capture_id));
       ("idempotency_key", obj [("algorithm", Str "sha256");
                                ("hex", Str (hex (sha256 (uuid_text capture_id))))]);
       ("url", Str url); ("blob", Null)].

Definition queue_article_command (owner source capture_id : Z) (url : string) :
    Prog QueueError unit :=
  let! aggregate := of_result (entity "operation" (uuid_text capture_id)) in
  let! correlation := of_result (entity "article_capture" (uuid_text capture_id)) in
  let! causation := of_result (entity "social_source" (uuid_text source)) in
  let! now := clock_now in
  do! queue_envelope CONTENT_CAPTURE_REQUESTED
        (mkEnvelopeFacts aggregate correlation (Some causation) owner now)
        (capture_requested capture_id url) in
  ret tt.

Definition capture_link (account source owner : Z) (selected : SelectedArticleUrl) :
    Prog ArticleCaptureError unit :=
  if negb (capture_url_ok (normalized_url selected)) then ret tt
  else
    let! fresh := new_uuid in
    let correlation := "article_capture:" +:+ uuid_text fresh in
    let! capture := stmt ArticleQuery (find_or_insert_capture fresh account selected correlation) in
    let '(capture_id, created) := capture in
    do! execute ArticleQuery (link_capture source capture_id) in
    if (created : bool)
    then map_err ArticleQueue (queue_article_command owner source capture_id (normalized_url selected))
    else ret tt.

(** [capture_expanded_links_in_transaction]. *)
Definition capture_expanded_links_in_transaction (account source : Z) (urls : list string) :
    Prog ArticleCaptureError unit :=
  match select_external_expanded_urls urls with
  | [] => ret tt
  | selected =>
      let! owner := stmt ArticleQuery (source_owner account source) in
      for_each selected (capture_link account source owner)
  end.

(** [ArticleCaptureService::capture_expanded_links]. *)
Definition capture_expanded_links (account source : Z) (urls : list string) :
    Prog ArticleCaptureError unit :=
  transaction ArticleQuery (
    do! capture_expanded_links_in_transaction account source urls in
    ret (Commit tt)).

(** ** Extractor outcomes *)

Definition belongs_to (outcome : ExtractorOutcome) (capture_id owner_id : Z) : bool :=
  String.eqb (eo_operation_id outcome) (uuid_text capture_id) &&
  String.eqb (eo_tenant_id outcome) ("user:" +:+ uuid_text owner_id).

Definition decode_extractor_outcome (serialized_event : string) :
    result ExtractorOutcome ArticleCaptureError :=
  match parse_event serialized_event with
  | None => Err InvalidOutcome
  | Some envelope =>
      if negb (String.eqb (ie_producer envelope) "ratatoskr-extractor") then Err InvalidOutcome
      else
        match ie_report envelope with
        | None => Err InvalidOutcome
        | Some report =>
            if negb (or_succeeded report) then Err InvalidOutcome
            else
              match find (λ r, String.eqb (rr_kind r) "content.document") (or_results report) with
              | None => Err InvalidOutcome
              | Some found =>
                  if negb (String.eqb (rr_target_kind found) "document") then Err InvalidOutcome
                  else
                    match rr_target_uuid found, rr_blob found, ie_tenant envelope with
                    | Some document, Some (service, blob), Some tenant_id =>
                        if String.eqb service "ratatoskr-extractor"
                        then Ok (mkExtractorOutcome (ie_event_id envelope) (ie_correlation envelope)
                                   (or_operation_id report) tenant_id (uuid_text document) blob)
                        else Err InvalidOutcome
                    | _, _, _ => Err InvalidOutcome
                    end
              end
        end
  end.

Definition capture_of_correlation (correlation : string) (d : Db) : option (Z * Z) :=
  '(capture_id, row) ← find_row (λ _ row, String.eqb (art_correlation_id row) correlation &&
      bool_decide (is_Some (accounts d !! art_account_id row))) (article_captures d);
  account ← accounts d !! art_account_id row;
  Some (capture_id, acc_internal_user_id account).

(** [on conflict (event_id) do nothing returning id]. *)
Definition claim_inbox_row (event_id : string) (row : InboxRow) (d : Db) : option (bool * Db) :=
  match inbox_events d !! event_id with
  | Some _ => Some (false, d)
  | None => Some (true, on_inbox_events (insert event_id row) d)
  end.

Definition claim_outcome_inbox (outcome : ExtractorOutcome) (serialized_event : string) :
    Prog ArticleCaptureError bool :=
  let! now := pg_now in
  stmt ArticleQuery (claim_inbox_row (eo_event_id outcome)
    (mkInboxRow "ratatoskr-extractor" OPERATION_REPORTED serialized_event now)).

(** The guarded update and the number of rows it affected. *)
Definition completed_capture (outcome : ExtractorOutcome) (now : Z) (row : ArticleCapture) :
    ArticleCapture :=
  mkArticleCapture (art_account_id row) (art_normalized_url row) (art_original_url row)
    (art_correlation_id row) "completed" (Some (eo_document_id outcome))
    (Some (eo_document_ir_blob outcome)) (Some now).
Definition complete_capture_update (capture_id : Z) (outcome : ExtractorOutcome) (now : Z) (d : Db) :
    option (Z * Db) :=
  match article_captures d !! capture_id with
  | Some row =>
      if String.eqb (art_state row) "requested"
      then Some (1, on_article_captures (insert capture_id (completed_capture outcome now row)) d)
      else Some (0, d)
  | None => Some (0, d)
  end.

Definition complete_capture (capture_id : Z) (outcome : ExtractorOutcome) :
    Prog ArticleCaptureError unit :=
  let! now := pg_now in
  let! affected := stmt ArticleQuery (complete_capture_update capture_id outcome now) in
  if (affected : Z) =? 1 then ret tt else throw InvalidOutcome.

(** [ArticleCaptureService::consume_extractor_operation_report]. *)
Definition consume_extractor_operation_report (serialized_event : string) :
    Prog ArticleCaptureError unit :=
  let! outcome := of_result (decode_extractor_outcome serialized_event) in
  transaction ArticleQuery (
    let! capture := select ArticleQuery (capture_of_correlation (eo_correlation_id outcome)) in
    match capture with
    | None => throw InvalidOutcome
    | Some (capture_id, owner_id) =>
        if negb (belongs_to outcome capture_id owner_id) then throw InvalidOutcome
        else
          let! claimed := claim_outcome_inbox outcome serialized_event in
          if negb claimed then ret (Commit tt)
          else
            do! complete_capture capture_id outcome in
            ret (Commit tt)
    end).
End Capture.

(** ** Captures and commands correspond *)

Section CaptureTheorems.
Context {ct : Contracts} {ec : EnvelopeCodec} {cr : Crypto} {ac : ArticleContracts}.
Context (Huuid : Inj (=) (=) uuid_text).

Definition article_correlation (capture_id : Z) : string := "article_capture:" +:+ uuid_text capture_id.

(** A queued extractor command. *)
Definition capture_command (d : Db) (id : Z) (row : OutboxRow) : Prop :=
  outbox_events d !! id = Some row ∧ ob_event_type row = CONTENT_CAPTURE_REQUESTED.

(** Every capture request has exactly one command, every command a capture request, and an account
    has one request per canonical URL. *)
Record ArticlesMatched (d : Db) : Prop := {
  am_commanded id row : article_captures d !! id = Some row →
    ∃ oid o, capture_command d oid o ∧ ob_correlation_id o = article_correlation id;
  am_requested oid o : capture_command d oid o →
    ∃ id, is_Some (article_captures d !! id) ∧ ob_correlation_id o = article_correlation id;
  am_once oid1 o1 oid2 o2 : capture_command d oid1 o1 → capture_command d oid2 o2 →
    ob_correlation_id o1 = ob_correlation_id o2 → oid1 = oid2;
  am_unique i j r s : article_captures d !! i = Some r → article_captures d !! j = Some s →
    art_account_id r = art_account_id s → art_normalized_url r = art_normalized_url s → i = j;
}.

Lemma article_correlation_inj i j : article_correlation i = article_correlation j → i = j.
Proof. unfold article_correlation. intros E. apply Huuid. by repeat injection E as E. Qed.

(** [ArticlesMatched] is about two tables only. *)
Lemma articles_matched_frame d d' :
  article_captures d' = article_captures d → outbox_events d' = outbox_events d →
  ArticlesMatched d → ArticlesMatched d'.
Proof.
  intros E1 E2 [H1 H2 H3 H4]. unfold capture_command in *.
  split; unfold capture_command; rewrite ?E1, ?E2; eauto.
Qed.

(** Rewriting a capture in place, without its identity, keeps the correspondence. *)
Lemma articles_matched_update d id row row' :
  article_captures d !! id = Some row → art_account_id row' = art_account_id row →
  art_normalized_url row' = art_normalized_url row →
  ArticlesMatched d → ArticlesMatched (on_article_captures (insert id row') d).
Proof.
  intros Hid Ha Hu [H1 H2 H3 H4].
  assert (Hback : ∀ i r, <[id := row']> (article_captures d) !! i = Some r →
    ∃ r0, article_captures d !! i = Some r0 ∧ art_account_id r = art_account_id r0 ∧
          art_normalized_url r = art_normalized_url r0).
  { intros i r. rewrite lookup_insert. case_decide; [intros [= <-]; subst; by exists row|].
    intros Hr. by exists r. }
  split; simpl; try done.
  - intros i r Hr. destruct (Hback i r Hr) as (r0 & Hr0 & _). by apply (H1 i r0).
  - intros oid o Ho. destruct (H2 oid o Ho) as (i & Hi & Hc). exists i. split; [|done].
    rewrite lookup_insert. by case_decide.
  - intros i j r s Hr Hs Eacc Eurl. destruct (Hback i r Hr) as (r0 & Hr0 & Er & Er').
    destruct (Hback j s Hs) as (s0 & Hs0 & Es & Es'). apply (H4 i j r0 s0); congruence.
Qed.

(** A fresh request together with its command. *)
Lemma articles_matched_new d id row oid o :
  article_captures d !! id = None → outbox_events d !! oid = None →
  ob_event_type o = CONTENT_CAPTURE_REQUESTED → ob_correlation_id o = article_correlation id →
  (∀ j s, article_captures d !! j = Some s →
     ¬ (art_account_id s = art_account_id row ∧ art_normalized_url s = art_normalized_url row)) →
  ArticlesMatched d →
  ArticlesMatched (on_outbox_events (λ _, <[oid := o]> (outbox_events d))
                     (on_article_captures (λ _, <[id := row]> (article_captures d)) d)).
Proof.
  intros Hid Hoid Hty Hcorr Hnew [H1 H2 H3 H4]. unfold capture_command in *.
  split; unfold capture_command; simpl.
  - intros i r. rewrite lookup_insert. case_decide as Hi.
    + intros _. subst. exists oid, o. by rewrite lookup_insert_eq.
    + intros Hr. destruct (H1 i r Hr) as (oi & oo & [Ho Ht] & Hc). exists oi, oo.
      rewrite lookup_insert_ne by congruence. done.
  - intros oi oo. rewrite lookup_insert. case_decide as Hi.
    + intros [[= <-] _]. exists id. by rewrite lookup_insert_eq.
    + intros Ho. destruct (H2 oi oo Ho) as (i & Hi' & Hc). exists i. split; [|done].
      rewrite lookup_insert. by case_decide.
  - assert (Hfresh : ∀ oi oo, outbox_events d !! oi = Some oo ∧ ob_event_type oo = CONTENT_CAPTURE_REQUESTED →
              ob_correlation_id oo ≠ article_correlation id).
    { intros oi oo Ho E. destruct (H2 oi oo Ho) as (i & [r Hr] & Hc). rewrite Hc in E.
      apply article_correlation_inj in E as ->. congruence. }
    intros o1 r1 o2 r2. rewrite !lookup_insert. repeat case_decide; subst; try done.
    + intros [[= <-] _] Ho2 E. exfalso. apply (Hfresh o2 r2 Ho2). congruence.
    + intros Ho1 [[= <-] _] E. exfalso. apply (Hfresh o1 r1 Ho1). congruence.
    + by apply H3.
  - intros i j r s. rewrite !lookup_insert. repeat case_decide; subst; try done.
    + intros [= <-] Hs Ea Eu. exfalso. by apply (Hnew j s Hs).
    + intros Hr [= <-] Ea Eu. exfalso. by apply (Hnew i r Hr).
    + by apply H4.
Qed.

(** Queueing anything but an extractor command does not concern the correspondence. *)
Lemma queue_other_keeps env event_type facts payload :
  event_type ≠ CONTENT_CAPTURE_REQUESTED →
  keeps_ok env ArticlesMatched (queue_envelope event_type facts payload).
Proof.
  intros Hne w HI. eapply wp_mono; [apply queue_envelope_ok|]. intros [e|e] w'; [|done].
  intros (now & Hb & _ & Hnone & ->). apply build_envelope_fields in Hb as (_ & Hty & _).
  assert (Hsame : ∀ oid o, capture_command (on_outbox_events
            (λ _, <[env_id e := fresh_row e now]> (outbox_events (w_db w))) (w_db w)) oid o ↔
            capture_command (w_db w) oid o).
  { intros oid o. unfold capture_command. simpl. rewrite lookup_insert. case_decide; [|done].
    subst. rewrite Hnone. split; [intros [[= <-] E]; simpl in E; congruence | by intros [? _]]. }
  destruct HI as [H1 H2 H3 H4].
  split; [setoid_rewrite Hsame; exact H1 | setoid_rewrite Hsame; exact H2
         | setoid_rewrite Hsame; exact H3 | exact H4].
Qed.

Lemma capture_link_keeps env account source owner selected :
  keeps_ok env ArticlesMatched (capture_link account source owner selected).
Proof.
  intros w HI. unfold capture_link. destruct (negb (capture_url_ok _)); wp_steps; [done| |done].
  intros [id created] d1. cbn [w_db tick]. unfold find_or_insert_capture.
  destruct (find_row _ (article_captures (w_db w))) as [[existing row]|] eqn:Ef.
  - intros [= <- <- <-]. split; [|done]. wp_steps; [|done..].
    eapply articles_matched_frame; [..|exact HI]; done.
  - unfold insert_new. destruct (article_captures (w_db w) !! _) eqn:En; [done|].
    set (row := mkArticleCapture _ _ _ _ _ _ _ _).
    cbn [mbind option_bind]. intros [= <- <- <-]. split; [|done]. wp_steps; [|done..].
    unfold queue_article_command, entity. repeat (destruct (entity_ref_ok _); [|wp_steps; done]).
    wp_steps. eapply wp_mono; [apply queue_envelope_ok|]. intros [e|e] w'; [|done].
    intros (now & Hb & _ & Hnone & Hd). cbn [result_map_err]. wp_steps.
    apply build_envelope_fields in Hb as (_ & Hty & _ & _ & Hcorr & _). rewrite Hd.
    cbn [w_db set_db tick] in *. eapply articles_matched_frame;
      [| |apply (articles_matched_new (w_db w) _ row (env_id e) (fresh_row e now) En); try exact HI];
      try reflexivity; try done.
    intros j s Hs [Ea Eu]. pose proof (find_row_None _ _ _ _ Ef Hs) as Hf. cbv beta in Hf.
    rewrite Ea, Eu in Hf. simpl in Hf. rewrite bool_decide_eq_true_2, String.eqb_refl in Hf by done.
    done.
Qed.

Lemma capture_in_transaction_keeps env account source urls :
  keeps_ok env ArticlesMatched (capture_expanded_links_in_transaction account source urls).
Proof.
  unfold capture_expanded_links_in_transaction. destruct (select_external_expanded_urls urls);
    keeps_steps; [|apply capture_link_keeps].
  unfold source_owner in *. destruct (social_sources _ !! _); simpl in *; [|done].
  case_bool_decide; [|done]. destruct (accounts _ !! _); simpl in *; [|done]. congruence.
Qed.

Lemma complete_capture_update_keeps capture_id outcome now d n d' :
  complete_capture_update capture_id outcome now d = Some (n, d') →
  ArticlesMatched d → ArticlesMatched d'.
Proof.
  unfold complete_capture_update. destruct (article_captures d !! capture_id) as [row|] eqn:E;
    [|by intros [= _ <-]].
  destruct (String.eqb _ _); [|by intros [= _ <-]]. intros [= _ <-].
  by apply (articles_matched_update d capture_id row).
Qed.

Lemma claim_inbox_row_keeps event_id row d b d' :
  claim_inbox_row event_id row d = Some (b, d') → ArticlesMatched d → ArticlesMatched d'.
Proof.
  unfold claim_inbox_row. destruct (inbox_events d !! event_id); intros [= _ <-]; [done|].
  by apply articles_matched_frame.
Qed.

Lemma capture_expanded_links_matched env account source urls :
  rely (Ev:=Event) env (on_db (keeps ArticlesMatched)) →
  guar env (on_db (keeps ArticlesMatched)) (capture_expanded_links account source urls).
Proof.
  intros Hr. apply guar_transaction_keeps; [done|]. keeps_steps. apply capture_in_transaction_keeps.
Qed.

Lemma extractor_report_matched env serialized_event :
  rely (Ev:=Event) env (on_db (keeps ArticlesMatched)) →
  guar env (on_db (keeps ArticlesMatched)) (consume_extractor_operation_report serialized_event).
Proof.
  intros Hr. unfold consume_extractor_operation_report. apply guar_bind; [typeclasses eauto|guar_steps|].
  intros outcome. apply guar_transaction_keeps; [done|].
  unfold claim_outcome_inbox, complete_capture. keeps_steps.
  - by eapply claim_inbox_row_keeps.
  - by eapply complete_capture_update_keeps.
Qed.

(** C27. Whatever fails and whoever else runs, as long as the rest of the program respects it, the
    article tables and the outbox correspond: every capture request has exactly one extractor
    command, every command its request, and an account never has two requests for one canonical URL.
    Requesting the links of a source and applying an extractor outcome both preserve it. *)
Theorem article_captures_match_commands env account source urls serialized_event :
  rely (Ev:=Event) env (on_db (keeps ArticlesMatched)) →
  guar env (on_db (keeps ArticlesMatched)) (capture_expanded_links account source urls) ∧
  guar env (on_db (keeps ArticlesMatched)) (consume_extractor_operation_report serialized_event).
Proof. intros Hr. split; [by apply capture_expanded_links_matched|by apply extractor_report_matched]. Qed.

(** An extractor report can change a capture only when it is a successful document result of the
    extractor for exactly that capture, sent for its owner, not consumed before, and the capture was
    still waiting: then precisely that capture is completed with the reported document. In every
    other case, faults included, no capture changes. *)
Theorem extractor_outcome_completes_its_capture env serialized_event (w : W) :
  (∀ n d, e_other env n d = d) →
  wp env (consume_extractor_operation_report serialized_event) (λ r w',
    article_captures (w_db w') = article_captures (w_db w) ∨
    ∃ outcome capture_id owner_id row now,
      decode_extractor_outcome serialized_event = Ok outcome ∧
      capture_of_correlation (eo_correlation_id outcome) (w_db w) = Some (capture_id, owner_id) ∧
      eo_operation_id outcome = uuid_text capture_id ∧
      eo_tenant_id outcome = tenant owner_id ∧
      inbox_events (w_db w) !! eo_event_id outcome = None ∧
      article_captures (w_db w) !! capture_id = Some row ∧ art_state row = "requested" ∧
      article_captures (w_db w') =
        <[capture_id := completed_capture outcome now row]> (article_captures (w_db w))) w.
Proof.
  intros Ho. unfold consume_extractor_operation_report, claim_outcome_inbox, complete_capture.
  wp_steps. destruct (decode_extractor_outcome serialized_event) as [outcome|e] eqn:Ed; [|by left].
  wp_steps; rewrite ?Ho; [by left| |by left].
  destruct (capture_of_correlation _ _) as [[capture_id owner_id]|] eqn:Ec; [|wp_steps; by left].
  destruct (belongs_to outcome capture_id owner_id) eqn:Eb; [|wp_steps; by left]. cbn [negb].
  wp_steps; [|by left]. intros claimed d. unfold claim_inbox_row.
  cbn [w_db w_tick set_db tick] in *.
  destruct (inbox_events (w_db w) !! _) eqn:Ei; intros [= <- <-]; (split; [|by left]).
  { cbn [negb]. wp_steps. split_and!; by left. }
  cbn [negb]. wp_steps; [|by left]. intros n d. unfold complete_capture_update.
  cbn [w_db w_tick set_db tick article_captures on_inbox_events].
  destruct (article_captures (w_db w) !! capture_id) as [row|] eqn:Er;
    [|intros [= <- <-]; split; [wp_steps|]; by left].
  destruct (String.eqb_spec (art_state row) "requested") as [Es|];
    [|intros [= <- <-]; split; [wp_steps|]; by left].
  intros [= <- <-]. split; [|by left]. wp_steps. unfold belongs_to in Eb.
  apply andb_true_iff in Eb as [Eb1 Eb2]. apply String.eqb_eq in Eb1, Eb2.
  assert (Hdone : ∃ outcome' capture_id' owner_id' row' now',
    Ok (E:=ArticleCaptureError) outcome = Ok outcome' ∧
    capture_of_correlation (eo_correlation_id outcome') (w_db w) = Some (capture_id', owner_id') ∧
    eo_operation_id outcome' = uuid_text capture_id' ∧
    eo_tenant_id outcome' = tenant owner_id' ∧
    inbox_events (w_db w) !! eo_event_id outcome' = None ∧
    article_captures (w_db w) !! capture_id' = Some row' ∧ art_state row' = "requested" ∧
    <[capture_id := completed_capture outcome (e_pgnow env (S (S (S (S (S (w_tick w)))))))
                      row]> (article_captures (w_db w)) =
      <[capture_id' := completed_capture outcome' now' row']> (article_captures (w_db w))).
  { by exists outcome, capture_id, owner_id, row, (e_pgnow env (S (S (S (S (S (w_tick w))))))). }
  split_and!; [right; exact Hdone | by left | right; exact Hdone].
Qed.
End CaptureTheorems.

(** ** The selected links *)

(** The links selected for capture are exactly the external canonical forms of the given URLs,
    each once and with one of its original spellings, and a canonical form is a fixed point: the
    deduplication key of an already canonical URL is that URL itself. *)
Theorem selected_links_are_canonical urls :
  let selected := select_external_expanded_urls urls in
  NoDup (normalized_url <$> selected) ∧
  (∀ s, s ∈ selected →
     original_url s ∈ urls ∧ normalize_external_url (original_url s) = Some (normalized_url s) ∧
     normalize_external_url (normalized_url s) = Some (normalized_url s)) ∧
  (∀ url, url ∈ normalized_url <$> selected ↔
     ∃ original, original ∈ urls ∧ normalize_external_url original = Some url).
Proof.
  cbv zeta. pose proof (selected_urls urls) as H. cbv zeta in H. destruct H as (Hnd & Hin & Hall).
  split; [done|]. split; [|done]. intros s Hs. destruct (Hin s Hs) as [Ho Hn].
  split; [done|]. split; [done|].
  destruct (normalize_external_url_parts _ _ Hn) as (scheme & host & port & path & q & Hp & ->).
  by apply normalize_rendered.
Qed.

(** ** A concrete capture *)
Module ArticleSamples.
Import SampleContracts.

Example sample_canonical :
  normalize_external_url "HTTPS://Example.COM:443/a/b?utm_source=x&z=1&a=2#frag" =
    Some "https://example.com/a/b?a=2&z=1".
Proof. vm_compute. reflexivity. Qed.

Example sample_rejected :
  omap normalize_external_url
    ["ftp://a.b/"; "https://user@a.b/"; "https://t.co/x"; "https://mobile.twitter.com/y"; "http://"]%string = [].
Proof. vm_compute. reflexivity. Qed.

Example sample_port : normalize_external_url "http://a.b:+8080" = Some "http://a.b:8080/".
Proof. vm_compute. reflexivity. Qed.

#[export] Instance sample_crypto : Crypto := {|
  sha256 s := s;
  gcm_encrypt k n p := p;
  gcm_decrypt k n p := Some p;
  url_safe_no_pad_encode s := s;
|}.

Definition sample_report : InboundEvent :=
  mkInboundEvent "e1" "ratatoskr-extractor" "article_capture:7" (Some "user:5")
    (Some (mkOperationReport "7" true
       [mkReportResult "content.document" "document" (Some 77) (Some ("ratatoskr-extractor"%string, Null))])).

#[export] Instance sample_article_contracts : ArticleContracts := {|
  capture_url_ok s := (String.length s <=? 2048)%nat;
  parse_event s := if String.eqb s "report" then Some sample_report else None;
|}.

Definition sample_articles_db : Db :=
  on_article_captures (insert 7 (mkArticleCapture 1 "https://a.b/" "https://a.b" "article_capture:7"
                                   "requested" None None None))
    (on_accounts (insert 1 (mkAccount 5 "x" "connected" 0)) empty_db).
Definition sample_articles_world : W := mkWorld sample_articles_db 0 [].

Example sample_report_completes :
  (λ row, (art_state row, art_document_id row)) <$>
    article_captures (w_db (consume_extractor_operation_report "report" (calm 3) sample_articles_world).2)
      !! 7 = Some ("completed"%string, Some "77"%string).
Proof. vm_compute. reflexivity. Qed.

Lemma article_captures_match_commands_witness :
  guar (Ev:=Event) (calm 3) (on_db (keeps ArticlesMatched))
    (capture_expanded_links 1 2 ["https://a.b/"]).
Proof.
  refine (proj1 (article_captures_match_commands sample_uuid_inj (calm 3) 1 2 ["https://a.b/"]
    "report" _)).
  apply calm_rely. typeclasses eauto.
Defined.

Lemma extractor_outcome_completes_its_capture_witness :
  wp (calm 3) (consume_extractor_operation_report "report") (λ r w',
    article_captures (w_db w') = article_captures sample_articles_db ∨
    ∃ outcome capture_id owner_id row now,
      decode_extractor_outcome "report" = Ok outcome ∧
      capture_of_correlation (eo_correlation_id outcome) sample_articles_db
        = Some (capture_id, owner_id) ∧
      eo_operation_id outcome = uuid_text capture_id ∧ eo_tenant_id outcome = tenant owner_id ∧
      inbox_events sample_articles_db !! eo_event_id outcome = None ∧
      article_captures sample_articles_db !! capture_id = Some row ∧ art_state row = "requested" ∧
      article_captures (w_db w') =
        <[capture_id := completed_capture outcome now row]> (article_captures sample_articles_db))
    sample_articles_world.
Proof.
  apply (extractor_outcome_completes_its_capture (calm 3) "report" sample_articles_world). done.
Defined.
End ArticleSamples.
