(* ===== verification/Consumers.v ===== *)
(** * The stream consumers ([services/x/src/deletion_acks.rs], [services/x/src/extractor_reports.rs])

    The pull loop all durable consumers of the service run, and its two instances here: Knowledge's
    deletion acknowledgements, which end the resend of a removal, and the extractor's operation
    reports, which complete article captures. What the broker delivers is a list of stream items; the
    end of the list is the moment the shutdown future resolves. *)
From S2P Require Export Articles.

(** ** The pull loop *)

(** The kinds of stream errors the loop distinguishes. *)
Inductive MessagesErrorKind :=
  | ConsumerDeleted
  | PushBasedConsumer
  | OtherMessagesError.

Inductive StreamItem :=
  | StreamEnded
  | StreamError (kind : MessagesErrorKind) (text : string)
  | Message (payload : string).

Inductive ConsumerError :=
  | Bus (text : string)
  | Stopped.

Definition is_fatal (kind : MessagesErrorKind) : bool :=
  match kind with ConsumerDeleted | PushBasedConsumer => true | OtherMessagesError => false end.

(** The messages of a stream, in order. *)
Definition payloads (items : list StreamItem) : list string :=
  omap (λ item, match item with Message payload => Some payload | _ => None end) items.

Section Loop.
Context {Summary : Type} (handle : string → Summary → Prog ConsumerError (Summary * AckKind)).

(** The loop: a message is handled and settled before the next one is taken; a failed settlement is
    only logged; a recoverable stream error pauses and goes on. *)
Fixpoint consume (items : list StreamItem) (summary : Summary) : Prog ConsumerError Summary :=
  match items with
  | [] => ret summary
  | StreamEnded :: _ => throw Stopped
  | StreamError kind text :: items =>
      if is_fatal kind then throw (Bus text) else consume items summary
  | Message payload :: items =>
      let! handled := handle payload summary in
      do! call (Settle payload handled.2) (λ _, tt) in
      consume items handled.1
  end.
End Loop.

(** ** The provisioned durable *)

(** The members of a consumer's configuration the service verifies. *)
Record ConsumerConfig := mkConsumerConfig {
  cc_durable_name : option string;
  cc_filter_subject : string;
  cc_ack_explicit : bool;
  cc_ack_wait : Z;
  cc_deliver_subject : option string;
}.

Definition durable_matches (filter_subject durable_name : string) (ack_wait : option Z)
    (config : ConsumerConfig) : bool :=
  bool_decide (cc_durable_name config = Some durable_name) &&
  String.eqb (cc_filter_subject config) filter_subject && cc_ack_explicit config &&
  match ack_wait with Some wait => cc_ack_wait config =? wait | None => true end &&
  negb (bool_decide (is_Some (cc_deliver_subject config))).

(** [get_consumer_from_stream] answered [lookup]. *)
Definition checked_consumer (filter_subject durable_name : string) (ack_wait : option Z)
    (mismatch : string) (lookup : result ConsumerConfig string) : result unit ConsumerError :=
  match lookup with
  | Err text => Err (Bus text)
  | Ok config =>
      if durable_matches filter_subject durable_name ack_wait config then Ok tt else Err (Bus mismatch)
  end.

(** ** Deletion acknowledgements *)

Definition ACKS_DURABLE : string := "ratatoskr_x_deletion_acks".
Definition ACKS_FILTER_SUBJECT : string := "evt.knowledge.deletion.acknowledged.v1".
Definition ACK_WAIT : Z := 30 * usec.
Definition NAK_DELAY : Z := 2 * usec.
Definition KNOWLEDGE : string := "ratatoskr-knowledge".

(** The members of the contract's enums and record the consumer reads. *)
Inductive DeletionAckFamily := SocialFamily | OtherFamily.
Inductive DeletionAckOutcome := DeletionApplied | DeletionRefused | DeletionOther.
Record KnowledgeDeletionAcknowledged := mkKnowledgeDeletionAcknowledged {
  kd_owner : string;
  kd_family : DeletionAckFamily;
  kd_outcome : DeletionAckOutcome;
  kd_acknowledged_event_id : Z;
}.

(** An event envelope as this consumer reads it; [payload_as] may fail. *)
Record InboundDeletionAck := mkInboundDeletionAck {
  ia_producer : string;
  ia_tenant : option string;
  ia_payload : option KnowledgeDeletionAcknowledged;
}.

Class AckContracts := {
  parse_deletion_ack : string → option InboundDeletionAck;   (* [EventEnvelope::from_json] *)
}.

Record AcksSummary := mkAcksSummary {
  as_applied : Z;
  as_refused : Z;
  as_ignored : Z;
  as_terminated : Z;
  as_retried : Z;
}.
Definition no_acks : AcksSummary := mkAcksSummary 0 0 0 0 0.

Inductive Handled := HandledApplied | HandledRefused | HandledIgnored.
Inductive Rejected := RejectedUnattributable | RejectedDatabase.

Section DeletionAcks.
Context {kc : AckContracts}.

Definition acks_consumer (durable_name : string) (lookup : result ConsumerConfig string) :
    result unit ConsumerError :=
  checked_consumer ACKS_FILTER_SUBJECT durable_name (Some ACK_WAIT)
    "the Edge-provisioned deletion-acknowledgement durable is mismatched" lookup.

Definition decode_ack (payload : string) : option KnowledgeDeletionAcknowledged :=
  envelope ← parse_deletion_ack payload;
  if negb (String.eqb (ia_producer envelope) KNOWLEDGE) then None
  else
    acknowledgement ← ia_payload envelope;
    if bool_decide (ia_tenant envelope = Some (kd_owner acknowledgement))
    then Some acknowledgement else None.

Definition ack_outcome (acknowledgement : KnowledgeDeletionAcknowledged) : option AckOutcome :=
  match kd_outcome acknowledgement with
  | DeletionApplied => Some Applied
  | DeletionRefused => Some Refused
  | DeletionOther => None
  end.

Definition apply_ack (payload : string) : Prog Rejected Handled :=
  match decode_ack payload with
  | None => throw RejectedUnattributable
  | Some acknowledgement =>
      match kd_family acknowledgement with
      | OtherFamily => ret HandledIgnored
      | SocialFamily =>
          match ack_outcome acknowledgement with
          | None => throw RejectedUnattributable
          | Some outcome =>
              let! changed := map_err (λ _, RejectedDatabase)
                (acknowledge (kd_acknowledged_event_id acknowledgement) (kd_owner acknowledgement)
                   outcome) in
              ret (match changed : bool, outcome with
                   | false, _ => HandledIgnored
                   | true, Applied => HandledApplied
                   | true, Refused => HandledRefused
                   end)
          end
      end
  end.

Definition acks_disposition (outcome : result Handled Rejected) (s : AcksSummary) :
    AcksSummary * AckKind :=
  match outcome with
  | Ok HandledApplied =>
      (mkAcksSummary (as_applied s + 1) (as_refused s) (as_ignored s) (as_terminated s) (as_retried s), Ack)
  | Ok HandledRefused =>
      (mkAcksSummary (as_applied s) (as_refused s + 1) (as_ignored s) (as_terminated s) (as_retried s), Ack)
  | Ok HandledIgnored =>
      (mkAcksSummary (as_applied s) (as_refused s) (as_ignored s + 1) (as_terminated s) (as_retried s), Ack)
  | Err RejectedUnattributable =>
      (mkAcksSummary (as_applied s) (as_refused s) (as_ignored s) (as_terminated s + 1) (as_retried s), Term)
  | Err RejectedDatabase =>
      (mkAcksSummary (as_applied s) (as_refused s) (as_ignored s) (as_terminated s) (as_retried s + 1),
       Nak (Some NAK_DELAY))
  end.

Definition handle_ack (payload : string) (summary : AcksSummary) :
    Prog ConsumerError (AcksSummary * AckKind) :=
  let! outcome := attempt (apply_ack payload) in
  ret (acks_disposition outcome summary).

(** [consume_deletion_acks]. *)
Definition consume_deletion_acks (durable_name : string) (lookup : result ConsumerConfig string)
    (items : list StreamItem) : Prog ConsumerError AcksSummary :=
  do! of_result (acks_consumer durable_name lookup) in
  consume handle_ack items no_acks.
End DeletionAcks.

(** ** Extractor reports *)

Definition REPORTS_DURABLE : string := "ratatoskr_x_extractor_reports".
Definition REPORTS_FILTER_SUBJECT : string := "evt.platform.operation.reported.v1".

Record ReportsSummary := mkReportsSummary {
  rs_applied : Z;
  rs_ignored : Z;
  rs_retried : Z;
}.
Definition no_reports : ReportsSummary := mkReportsSummary 0 0 0.

Section ExtractorReports.
Context {ct : Contracts} {ec : EnvelopeCodec} {cr : Crypto} {ac : ArticleContracts}.

Definition reports_consumer (durable_name : string) (lookup : result ConsumerConfig string) :
    result unit ConsumerError :=
  checked_consumer REPORTS_FILTER_SUBJECT durable_name (Some ACK_WAIT)
    "the Edge-provisioned extractor-report durable is mismatched" lookup.

Definition reports_disposition (outcome : result unit ArticleCaptureError) (s : ReportsSummary) :
    ReportsSummary * AckKind :=
  match outcome with
  | Ok _ => (mkReportsSummary (rs_applied s + 1) (rs_ignored s) (rs_retried s), Ack)
  | Err (InvalidOutcome | SourceUnavailable) =>
      (mkReportsSummary (rs_applied s) (rs_ignored s + 1) (rs_retried s), Ack)
  | Err _ =>
      (mkReportsSummary (rs_applied s) (rs_ignored s) (rs_retried s + 1), Nak (Some NAK_DELAY))
  end.

Definition handle_report (payload : string) (summary : ReportsSummary) :
    Prog ConsumerError (ReportsSummary * AckKind) :=
  let! outcome :=
    if utf8_valid payload then attempt (consume_extractor_operation_report payload)
    else ret (Err InvalidOutcome) in
  ret (reports_disposition outcome summary).

(** [consume_extractor_reports]. *)
Definition consume_extractor_reports (durable_name : string) (lookup : result ConsumerConfig string)
    (items : list StreamItem) : Prog ConsumerError ReportsSummary :=
  do! of_result (reports_consumer durable_name lookup) in
  consume handle_report items no_reports.
End ExtractorReports.

(** ** The loop keeps an account of what it settled *)

Section LoopTheorems.
Context {Summary : Type} (handle : string → Summary → Prog ConsumerError (Summary * AckKind)).

Definition settlements (settled : list (string * AckKind)) : list Event :=
  (λ pk, Settle pk.1 pk.2) <$> settled.

(** An invariant of the messages settled so far, the summary and the world. *)
Lemma consume_invariant env (I : list (string * AckKind) → Summary → W → Prop) items :
  (∀ settled s payload w, I settled s w →
     wp env (handle payload s) (λ r w', match r with
       | Ok (s', kind) => I (settled ++ [(payload, kind)]) s' (tick (emit (Settle payload kind) w'))
       | Err _ => False
       end) w) →
  ∀ settled s w, I settled s w →
  wp env (consume handle items s) (λ r w', ∃ more s',
    I (settled ++ more) s' w' ∧ more.*1 `prefix_of` payloads items ∧
    (∀ final, r = Ok final → final = s' ∧ more.*1 = payloads items)) w.
Proof.
  intros Hstep. induction items as [|item items IH]; intros settled s w HI; simpl.
  - wp_steps. exists [], s. rewrite app_nil_r. split_and!; [done..|]. by intros ? [= <-].
  - assert (Hstop : ∀ (e : ConsumerError) (ps : list string), ∃ more s', I (settled ++ more) s' w ∧
        more.*1 `prefix_of` ps ∧
        (∀ final, Err e = Ok (E:=ConsumerError) final → final = s' ∧ more.*1 = ps)).
    { intros e ps. exists [], s. rewrite app_nil_r. split_and!; [done|apply prefix_nil|done]. }
    destruct item as [|kind text|payload].
    + wp_steps. apply Hstop.
    + destruct (is_fatal kind); [wp_steps; apply Hstop | by apply IH].
    + wp_steps. eapply wp_mono; [by apply Hstep|]. intros [[s1 kind]|e] w1 H1; [|done].
      wp_steps. cbn [fst snd]. eapply wp_mono; [by apply IH|].
      intros r w2 (more & s2 & H2 & Hpre & Hfin). exists ((payload, kind) :: more), s2.
      rewrite <-app_assoc in H2. split_and!; [done| |].
      * cbn [fmap list_fmap fst]. by apply prefix_cons.
      * intros final Hf. destruct (Hfin final Hf) as [-> E]. split; [done|].
        cbn [fmap list_fmap fst]. by rewrite E.
Qed.

(** A session does to the database what its messages do. *)
Lemma consume_guar env (R : relation Db) `{!PreOrder R} items summary :
  (∀ payload s, guar env (on_db R) (handle payload s)) →
  guar env (on_db R) (consume handle items summary).
Proof.
  intros Hh. revert summary. induction items as [|[|kind text|payload] items IH]; intros summary; simpl;
    [guar_steps..| |].
  - destruct (is_fatal kind); [guar_steps | apply IH].
  - apply guar_bind; [typeclasses eauto|apply Hh|]. intros [s kind].
    apply guar_bind; [typeclasses eauto| |intros _; apply IH].
    apply guar_call; [typeclasses eauto|]. intros w. unfold on_db. simpl. reflexivity.
Qed.
End LoopTheorems.

(** ** Resends end on Knowledge's word *)

Section AckTheorems.
Context {kc : AckContracts}.

(** The message is Knowledge's own, for the tenant its payload names. *)
Definition from_knowledge (payload : string) (ack : KnowledgeDeletionAcknowledged) : Prop :=
  ∃ envelope, parse_deletion_ack payload = Some envelope ∧
    ia_producer envelope = "ratatoskr-knowledge"%string ∧ ia_payload envelope = Some ack ∧
    ia_tenant envelope = Some (kd_owner ack).

Lemma decode_ack_spec payload ack : decode_ack payload = Some ack ↔ from_knowledge payload ack.
Proof.
  unfold decode_ack, from_knowledge, KNOWLEDGE.
  destruct (parse_deletion_ack payload) as [envelope|]; cbn; [|split; [done|by intros (e & ? & _)]].
  destruct (String.eqb _ _) eqn:Hp; cbn [negb]; [apply String.eqb_eq in Hp|apply String.eqb_neq in Hp];
    [|split; [done|by intros (e & [= <-] & ? & _)]].
  destruct (ia_payload envelope) as [a|] eqn:Ea; cbn; [|split; [done|intros (e & [= <-] & _ & ? & _); congruence]].
  case_bool_decide as Ht.
  - split; [intros [= <-]; eauto|]. intros (e & [= <-] & _ & ? & _). congruence.
  - split; [done|]. intros (e & [= <-] & _ & ? & ?). congruence.
Qed.

(** The acknowledgement of [payload] names the removal [id] and its row says so. *)
Definition acknowledged_by (payload : string) (id : Z) (row : OutboxRow) : Prop :=
  ∃ ack, from_knowledge payload ack ∧ kd_family ack = SocialFamily ∧
    kd_acknowledged_event_id ack = id ∧ is_removal row = true ∧
    env_tenant (ob_payload row) = Some (kd_owner ack) ∧
    (kd_outcome ack = DeletionApplied ∧ ob_ack_outcome row = Some "applied"%string ∨
     kd_outcome ack = DeletionRefused ∧ ob_ack_outcome row = Some "refused"%string).

(** Every acknowledgement that is new is the word of one of the messages. *)
Definition resends_ended (messages : list string) (d d' : Db) : Prop :=
  outbox_advances d d' ∧
  ∀ id row', outbox_events d' !! id = Some row' → is_acknowledged row' = true →
    acknowledged_row id d ∨ ∃ payload, payload ∈ messages ∧ acknowledged_by payload id row'.

Lemma acknowledged_by_advances payload id row row' :
  row_advances row row' → is_acknowledged row = true →
  acknowledged_by payload id row → acknowledged_by payload id row'.
Proof.
  intros (_ & Ht & Hp & _ & _ & _ & _ & _ & Ha) Hack (ack & ? & ? & ? & ? & ? & Ho).
  apply bool_decide_eq_true in Hack. destruct (Ha Hack) as [_ Eo].
  exists ack. unfold is_removal in *. rewrite Ht, Hp, Eo. done.
Qed.

#[export] Instance resends_ended_preorder messages : PreOrder (resends_ended messages).
Proof.
  split.
  - intros d. split; [reflexivity|]. intros id row ? ?. left. by exists row.
  - intros d1 d2 d3 [A1 H1] [A2 H2]. split; [by etrans|]. intros id row3 E3 Hack3.
    destruct (H2 id row3 E3 Hack3) as [(row2 & E2 & Hack2)|]; [|by right].
    destruct (H1 id row2 E2 Hack2) as [|(p & Hp & Hby)]; [by left|]. right. exists p. split; [done|].
    destruct (A2 id row2 E2) as (r & Er & Hadv). assert (r = row3) as -> by congruence.
    by eapply acknowledged_by_advances.
Qed.

Lemma resends_ended_mono ms ms' d d' : ms ⊆ ms' → resends_ended ms d d' → resends_ended ms' d d'.
Proof.
  intros Hs [Ha H]. split; [done|]. intros id row E Hack.
  destruct (H id row E Hack) as [|(p & Hp & Hby)]; [by left|]. right. exists p. auto.
Qed.

Lemma apply_ack_guar env payload :
  rely (Ev:=Event) env (on_db (resends_ended [])) →
  guar env (on_db (resends_ended [payload])) (apply_ack payload).
Proof.
  intros Hr. assert (Hr' : rely (Ev:=Event) env (on_db (resends_ended [payload]))).
  { intros n w. eapply resends_ended_mono; [|apply (Hr n w)]. set_solver. }
  unfold apply_ack, acknowledge. guar_steps.
  match goal with H : update_row _ _ _ _ = _ |- _ => rename H into Hu end.
  match goal with H : decode_ack _ = Some _ |- _ => apply decode_ack_spec in H end.
  match goal with H : ack_outcome _ = Some _ |- _ => rename H into Hout end.
  unfold on_db. cbn [w_db set_db]. split.
  { eapply update_row_advances; [|exact Hu]. intros row dl Hg [= <-]. by eapply acknowledged_advances. }
  unfold update_row in Hu. intros id row' E' Hack.
  destruct (outbox_events (w_db w) !! _) as [row|] eqn:Er;
    [|injection Hu as <- <-; left; by exists row'].
  destruct (acknowledgeable _ row) eqn:Eg; [|injection Hu as <- <-; left; by exists row'].
  injection Hu as <- <-. cbn [outbox_events on_outbox_events] in E'. apply lookup_insert_Some in E'.
  destruct E' as [[Eid <-]|[_ E']]; [|left; by exists row'].
  right. exists payload. split; [by left|]. unfold acknowledgeable in Eg. rewrite !andb_true_iff in Eg.
  destruct Eg as [[Hrem Hten] _]. apply bool_decide_eq_true in Hten.
  eexists. split_and!; [eassumption|done..|]. unfold ack_outcome in Hout.
  destruct (kd_outcome _); simplify_eq; auto.
Qed.

Lemma apply_ack_silent env payload : guar env silent (apply_ack payload).
Proof.
  pose proof (silent_rely (Ev:=Event) env). unfold apply_ack, acknowledge. guar_steps. done.
Qed.

(** Whether a message can be attributed to Knowledge and understood. *)
Definition attributable (payload : string) : Prop :=
  ∃ ack, from_knowledge payload ack ∧ (kd_family ack = SocialFamily → kd_outcome ack ≠ DeletionOther).

Lemma apply_ack_rejects env payload (w : W) :
  wp env (apply_ack payload) (λ r _, r = Err RejectedUnattributable ↔ ¬ attributable payload) w.
Proof.
  unfold apply_ack. destruct (decode_ack payload) as [ack|] eqn:E.
  - assert (Hat : attributable payload ↔ (kd_family ack = SocialFamily → kd_outcome ack ≠ DeletionOther)).
    { split; [|intros H; exists ack; by rewrite <-decode_ack_spec].
      intros (a & Ha%decode_ack_spec & Hk). by assert (a = ack) as -> by congruence. }
    assert (Hno : ∀ h : result Handled Rejected, h ≠ Err RejectedUnattributable → attributable payload →
      h = Err RejectedUnattributable ↔ ¬ attributable payload) by tauto.
    unfold ack_outcome. destruct (kd_family ack); [|wp_steps; apply Hno; [done|by apply Hat]].
    destruct (kd_outcome ack); [..|wp_steps; split; [intros _ Hx; by destruct (proj1 Hat Hx)|done]];
      (assert (Hy : attributable payload) by (by apply Hat); unfold acknowledge;
       wp_steps; [intros b d _; split; [|by apply Hno]; wp_steps; by apply Hno|by apply Hno]).
  - wp_steps. split; [|done]. intros _ (a & Ha%decode_ack_spec & _). congruence.
Qed.

(** How many messages were settled one way. *)
Definition settled_as (kind : AckKind) (settled : list (string * AckKind)) : Z :=
  Z.of_nat (length (filter (λ pk, pk.2 = kind) settled)).

Lemma settled_as_snoc kind settled payload kind' :
  settled_as kind (settled ++ [(payload, kind')]) =
    settled_as kind settled + (if decide (kind' = kind) then 1 else 0).
Proof.
  unfold settled_as. rewrite filter_app, length_app, filter_cons, filter_nil. simpl.
  case_decide; simpl; lia.
Qed.

(** What the session's totals say about its settlements. *)
Definition acks_accounted (settled : list (string * AckKind)) (s : AcksSummary) : Prop :=
  as_applied s + as_refused s + as_ignored s = settled_as Ack settled ∧
  as_terminated s = settled_as Term settled ∧
  as_retried s = settled_as (Nak (Some NAK_DELAY)) settled ∧
  (∀ payload kind, (payload, kind) ∈ settled → kind = Term ↔ ¬ attributable payload).

Lemma acks_disposition_accounted settled s payload outcome :
  (outcome = Err RejectedUnattributable ↔ ¬ attributable payload) →
  acks_accounted settled s →
  acks_accounted (settled ++ [(payload, (acks_disposition outcome s).2)]) (acks_disposition outcome s).1.
Proof.
  intros Ho (H1 & H2 & H3 & H4). unfold acks_accounted. rewrite !settled_as_snoc.
  split_and!; try by destruct outcome as [[]|[]]; cbn [acks_disposition fst snd as_applied as_refused
    as_ignored as_terminated as_retried]; repeat case_decide; try congruence; lia.
  intros p k [Hin|Hin%list_elem_of_singleton]%elem_of_app; [by apply H4|]. injection Hin as -> ->.
  rewrite <-Ho. by destruct outcome as [[]|[]].
Qed.

(** C15. A session of the deletion-acknowledgement consumer, whatever its stream delivers and whatever
    fails: the resend of a removal ends only through a message that is Knowledge's own, names that
    removal and its owner, and carries the outcome recorded. Every message handled is settled exactly
    once and in order; a message is terminated exactly when it cannot be attributed to Knowledge; and
    a session that ends by shutdown has settled every message and accounts for each of them. *)
Theorem resends_end_on_knowledge_word env durable_name lookup items (w : W) :
  rely (Ev:=Event) env (on_db (resends_ended [])) →
  wp env (consume_deletion_acks durable_name lookup items) (λ r w', ∃ settled,
    settled.*1 `prefix_of` payloads items ∧ w_log w' = w_log w ++ settlements settled ∧
    resends_ended settled.*1 (w_db w) (w_db w') ∧
    (∀ payload kind, (payload, kind) ∈ settled → kind = Term ↔ ¬ attributable payload) ∧
    (∀ summary, r = Ok summary → settled.*1 = payloads items ∧ acks_accounted settled summary)) w.
Proof.
  intros Hr. unfold consume_deletion_acks. wp_steps.
  assert (H0 : resends_ended [] (w_db w) (w_db w)) by reflexivity.
  destruct (acks_consumer _ _); cycle 1.
  { exists []. cbn. rewrite app_nil_r. split_and!; [apply prefix_nil|done..|set_solver|done]. }
  eapply wp_mono; [apply (consume_invariant _ env (λ settled s w', acks_accounted settled s ∧
    w_log w' = w_log w ++ settlements settled ∧ resends_ended settled.*1 (w_db w) (w_db w')) items
    ) with (settled := [])|].
  - intros settled s payload w1 (Hacc & Hlog & Hres). unfold handle_ack. wp_steps.
    pose proof (apply_ack_rejects env payload w1) as Hrej.
    pose proof (guar_elim (apply_ack_guar env payload Hr) w1) as Hg.
    pose proof (guar_elim (apply_ack_silent env payload) w1) as Hs.
    unfold wp in *. destruct (apply_ack payload env w1) as [r w2]. cbn [fst snd] in *. unfold ret. cbn [fst snd].
    destruct (acks_disposition r s) as [s' kind] eqn:Ed.
    pose proof (acks_disposition_accounted settled s payload r Hrej Hacc) as Hd. rewrite Ed in Hd.
    split_and!; [done| |].
    + unfold silent in Hs. cbn [w_log tick emit]. rewrite Hs, Hlog. unfold settlements.
      by rewrite fmap_app, app_assoc.
    + rewrite fmap_app. etrans; (eapply resends_ended_mono; [|eassumption]); set_solver.
  - split_and!; [|by rewrite app_nil_r|done]. split_and!; [done..|set_solver].
  - intros r w' (settled & s' & (Hacc & Hlog & Hres) & Hpre & Hfin). exists settled.
    rewrite app_nil_l in *. split_and!; try done; [by apply Hacc|].
    intros summary Hok. destruct (Hfin summary Hok) as [-> E]. done.
Qed.
End AckTheorems.

(** ** A concrete session *)
Module ConsumerSamples.

#[export] Instance sample_ack_contracts : AckContracts := {|
  parse_deletion_ack s :=
    if String.eqb s "ack"
    then Some (mkInboundDeletionAck KNOWLEDGE (Some "user:5"%string)
           (Some (mkKnowledgeDeletionAcknowledged "user:5" SocialFamily DeletionApplied 7)))
    else if String.eqb s "forged"
    then Some (mkInboundDeletionAck "somebody" (Some "user:5"%string)
           (Some (mkKnowledgeDeletionAcknowledged "user:5" SocialFamily DeletionApplied 8)))
    else None;
|}.

Definition sample_removal (id : Z) : OutboxRow :=
  fresh_row (mkEnvelope id REMOVAL_EVENT_TYPE 0 "ratatoskr-x" "social_source:1" "social_source:1" None
    (Some "user:5"%string) Null) 0.
Definition sample_removals : W :=
  mkWorld (on_outbox_events (λ _, {[7 := sample_removal 7; 8 := sample_removal 8]}) empty_db) 0 [].
Definition sample_durable : result ConsumerConfig string :=
  Ok (mkConsumerConfig (Some ACKS_DURABLE) ACKS_FILTER_SUBJECT true ACK_WAIT None).
Definition sample_items : list StreamItem := [Message "ack"; Message "forged"; Message "ack"].

Example sample_session :
  let '(r, w') := consume_deletion_acks ACKS_DURABLE sample_durable sample_items (calm 3) sample_removals in
  r = Ok (mkAcksSummary 1 0 1 1 0) ∧
  w_log w' = [Settle "ack" Ack; Settle "forged" Term; Settle "ack" Ack] ∧
  (is_acknowledged <$> outbox_events (w_db w') !! 7) = Some true ∧
  (is_acknowledged <$> outbox_events (w_db w') !! 8) = Some false.
Proof. vm_compute. done. Qed.

Lemma resends_end_on_knowledge_word_witness :
  wp (calm 3) (consume_deletion_acks ACKS_DURABLE sample_durable sample_items) (λ r w', ∃ settled,
    settled.*1 `prefix_of` payloads sample_items ∧
    w_log w' = w_log sample_removals ++ settlements settled ∧
    resends_ended settled.*1 (w_db sample_removals) (w_db w') ∧
    (∀ payload kind, (payload, kind) ∈ settled → kind = Term ↔ ¬ attributable payload) ∧
    (∀ summary, r = Ok summary → settled.*1 = payloads sample_items ∧ acks_accounted settled summary))
    sample_removals.
Proof.
  apply (resends_end_on_knowledge_word (calm 3) ACKS_DURABLE sample_durable sample_items sample_removals).
  apply calm_rely. typeclasses eauto.
Defined.
End ConsumerSamples.
