(* ===== verification/BrowserCapture.v ===== *)
(** * Explicit browser captures ([crates/x-capture/src/lib.rs])

    Platform's browser-capture command: its validation, the permalink grammar, the one transaction
    that claims the inbox, stores the owner's capture and queues its first report, and the consumer
    session that settles each command. The command envelope, the social-capture payload and the
    operation reports belong to the contract crates ([CaptureContracts]). *)
From S2P Require Export Consumers.

(** ** Commands *)

(** The members of the contract's enums the validation compares with. *)
Inductive SocialCaptureProvider := ProviderX | OtherProvider.
Inductive AcquisitionMethod := BrowserExtension | OtherAcquisition.
Inductive SavedAuthority := ExplicitUserCapture | OtherAuthority.

Record SocialCaptureRequested := mkSocialCaptureRequested {
  sc_operation_id : Z;
  sc_provider : SocialCaptureProvider;
  sc_acquisition : AcquisitionMethod;
  sc_saved_authority : SavedAuthority;
  sc_original_permalink : string;
  sc_captured_at : option Z;      (* [to_wire().parse()] *)
}.

(** A command envelope as the service reads it; [payload_as] may fail. *)
Record CommandEnvelope := mkCommandEnvelope {
  cm_command_id : string;
  cm_command_type : string;
  cm_tenant : option Z;
  cm_capture : option SocialCaptureRequested;
}.

Inductive SourceUnavailability := UnavailableDeleted | UnavailableInaccessible | UnavailableTransient.

(** A report stands for the document it serializes to. *)
Class CaptureContracts := {
  parse_command : string → option CommandEnvelope;       (* [CommandEnvelope::from_json] *)
  command_document : CommandEnvelope → option string;    (* [serde_json::to_value] *)
  command_id_ok : string → bool;                         (* [CommandId::parse] *)
  queued_report : Z → option Value;
  unavailable_report : Z → SourceUnavailability → option Value;
  preserved_report : Z → Z → option Value;
  (* producer, owner, operation, aggregate, command, event id, report *)
  report_envelope : string → Z → Z → string → string → Z → Value → option Envelope;
}.

(** What [report_envelope] documents: a complete operation report about the named aggregate. *)
Class CaptureContractsLaws {ct : Contracts} {cc : CaptureContracts} := {
  report_envelope_fields producer owner operation aggregate command event_id report e :
    report_envelope producer owner operation aggregate command event_id report = Some e →
    env_id e = event_id ∧ env_type e = OPERATION_REPORTED ∧ env_aggregate e = aggregate ∧
    env_tenant e = Some (tenant owner) ∧ env_payload e = report;
}.

Definition REPORT_PRODUCER : string := "ratatoskr-x".
Definition REDELIVERY_DELAY : Z := 5 * usec.
Definition COMMAND_SUBJECT : string := "cmd.x.capture.requested.v1".

Inductive CaptureCommandError := InvalidPayload | InvalidProvenance | WrongProvider | MissingTenant.

Definition validate_browser_capture (command : CommandEnvelope) : result unit CaptureCommandError :=
  match cm_capture command with
  | None => Err InvalidPayload
  | Some capture =>
      match sc_provider capture with
      | OtherProvider => Err WrongProvider
      | ProviderX =>
          match sc_acquisition capture, sc_saved_authority capture with
          | BrowserExtension, ExplicitUserCapture =>
              match cm_tenant command with None => Err MissingTenant | Some _ => Ok tt end
          | _, _ => Err InvalidProvenance
          end
      end
  end.

(** ** Permalinks *)

Definition STATUS_HOSTS : list string :=
  ["x.com"; "www.x.com"; "mobile.x.com"; "twitter.com"; "www.twitter.com"; "mobile.twitter.com"].

Definition eq_ignore_ascii_case (a b : string) : bool :=
  String.eqb (to_ascii_lowercase a) (to_ascii_lowercase b).
Definition path_end (c : ascii) : bool := Ascii.eqb c "?" || Ascii.eqb c "#".
Definition is_status_keyword (segment : string) : bool :=
  String.eqb segment "status" || String.eqb segment "statuses".

(** [segments.find(..)] and the segment after it. *)
Fixpoint after_status (segments : list string) : option string :=
  match segments with
  | [] => None
  | segment :: rest => if is_status_keyword segment then head rest else after_status rest
  end.

Definition is_status_id (id : string) : bool :=
  (1 <=? String.length id)%nat && (String.length id <=? 19)%nat && all_chars is_ascii_digit id.

Definition status_id_from_permalink (permalink : string) : option string :=
  '(scheme, rest) ← split_once_str "://" permalink;
  if negb (eq_ignore_ascii_case scheme "https") && negb (eq_ignore_ascii_case scheme "http") then None
  else
    '(host, path) ← split_once "/" rest;
    if negb (existsb (λ allowed, eq_ignore_ascii_case allowed host) STATUS_HOSTS) then None
    else
      let path := (break_at path_end path).1 in
      id ← after_status (split_on "/" path);
      if is_status_id id then Some id else None.

(** ** Acceptance *)

Inductive CommandDelivery := DeliveryApplied | DeliveryDuplicate.

Inductive DeliveryError :=
  | DeliveryCommand (e : CaptureCommandError)
  | DeliveryPersistence
  | DeliverySerialize
  | DeliveryInvalidTimestamp
  | DeliveryInvalidIdentifier
  | DeliveryReport
  | DeliveryOutbox (e : OutboxError).

Definition is_permanent_delivery (error : DeliveryError) : bool :=
  match error with
  | DeliveryCommand _ | DeliveryInvalidTimestamp | DeliverySerialize => true
  | _ => false
  end.

(** The stored capture: terminal from the start when the permalink names no status. *)
Definition fresh_capture (command : CommandEnvelope) (capture : SocialCaptureRequested)
    (owner captured_at : Z) (provider_post_id : option string) (now : Z) : ExplicitCapture :=
  mkExplicitCapture (cm_command_id command) (sc_operation_id capture) owner provider_post_id
    (sc_original_permalink capture) captured_at
    (match provider_post_id with Some _ => "accepted" | None => "unavailable" end) 0 now None
    (match provider_post_id with Some _ => None | None => Some now end).

(** The table's keys: the capture id and the command id. *)
Definition capture_of_command (command_id : string) (d : Db) : option (Z * ExplicitCapture) :=
  find_row (λ _ row, String.eqb (xc_command_id row) command_id) (explicit_captures d).
Definition insert_capture (capture_id : Z) (row : ExplicitCapture) (d : Db) : option (unit * Db) :=
  match capture_of_command (xc_command_id row) d with
  | Some _ => None
  | None =>
      table ← insert_new capture_id row (explicit_captures d);
      Some (tt, on_explicit_captures (λ _, table) d)
  end.

Section Acceptance.
Context {ct : Contracts} {ec : EnvelopeCodec} {cc : CaptureContracts}.

Definition claim_inbox (command : CommandEnvelope) : Prog DeliveryError bool :=
  match command_document command with
  | None => throw DeliverySerialize
  | Some document =>
      let! now := pg_now in
      stmt DeliveryPersistence (claim_inbox_row (cm_command_id command)
        (mkInboxRow "platform" (cm_command_type command) document now))
  end.

Definition queue_capture_report (owner operation capture_id : Z) (command_id : string) (report : Value) :
    Prog DeliveryError unit :=
  let aggregate := "capture:" +:+ uuid_text capture_id in
  if negb (entity_ref_ok aggregate) then throw DeliveryInvalidIdentifier
  else
    let! event_id := new_uuid in
    match report_envelope REPORT_PRODUCER owner operation aggregate command_id event_id report with
    | None => throw DeliveryReport
    | Some envelope => map_err DeliveryOutbox (enqueue envelope)
    end.

(** The first report of a capture: queued, or terminal for a permalink that names no status. *)
Definition first_report (operation : Z) (provider_post_id : option string) : option Value :=
  match provider_post_id with
  | Some _ => queued_report operation
  | None => unavailable_report operation UnavailableInaccessible
  end.

Definition accept_capture (command : CommandEnvelope) (capture : SocialCaptureRequested)
    (owner captured_at : Z) : Prog DeliveryError (ending CommandDelivery) :=
  let! claimed := claim_inbox command in
  if negb claimed then ret (Rollback DeliveryDuplicate)
  else
    let! capture_id := new_uuid in
    let provider_post_id := status_id_from_permalink (sc_original_permalink capture) in
    let! report := of_result (ok_or (first_report (sc_operation_id capture) provider_post_id) DeliveryReport) in
    let! now := pg_now in
    do! stmt DeliveryPersistence
      (insert_capture capture_id (fresh_capture command capture owner captured_at provider_post_id now)) in
    do! queue_capture_report owner (sc_operation_id capture) capture_id (cm_command_id command) report in
    ret (Commit DeliveryApplied).

Definition persist_browser_capture (command : CommandEnvelope) : Prog DeliveryError CommandDelivery :=
  do! of_result (result_map_err DeliveryCommand (validate_browser_capture command)) in
  let! capture := of_result (ok_or (cm_capture command) (DeliveryCommand InvalidPayload)) in
  let! owner := of_result (ok_or (cm_tenant command) (DeliveryCommand MissingTenant)) in
  let! captured_at := of_result (ok_or (sc_captured_at capture) DeliveryInvalidTimestamp) in
  transaction DeliveryPersistence (accept_capture command capture owner captured_at).

(** ** The consumer *)

Record ConsumerReport := mkConsumerReport {
  cr_applied : Z;
  cr_duplicates : Z;
  cr_rejected : Z;
  cr_retryable_failures : Z;
}.
Definition no_commands : ConsumerReport := mkConsumerReport 0 0 0 0.

Definition browser_consumer (durable_name : string) (lookup : result ConsumerConfig string) :
    result unit ConsumerError :=
  checked_consumer COMMAND_SUBJECT durable_name None
    "the Platform-preprovisioned X browser-capture consumer is mismatched" lookup.

Definition command_disposition (outcome : result CommandDelivery DeliveryError) (r : ConsumerReport) :
    ConsumerReport * AckKind :=
  match outcome with
  | Ok DeliveryApplied =>
      (mkConsumerReport (cr_applied r + 1) (cr_duplicates r) (cr_rejected r) (cr_retryable_failures r), Ack)
  | Ok DeliveryDuplicate =>
      (mkConsumerReport (cr_applied r) (cr_duplicates r + 1) (cr_rejected r) (cr_retryable_failures r), Ack)
  | Err error =>
      if is_permanent_delivery error
      then (mkConsumerReport (cr_applied r) (cr_duplicates r) (cr_rejected r + 1)
              (cr_retryable_failures r), Term)
      else (mkConsumerReport (cr_applied r) (cr_duplicates r) (cr_rejected r)
              (cr_retryable_failures r + 1), Nak (Some REDELIVERY_DELAY))
  end.

Definition accept_delivery (payload : string) : Prog DeliveryError CommandDelivery :=
  match parse_command payload with
  | Some command => persist_browser_capture command
  | None => throw (DeliveryCommand InvalidPayload)
  end.

Definition handle_command (payload : string) (report : ConsumerReport) :
    Prog ConsumerError (ConsumerReport * AckKind) :=
  let! outcome := attempt (accept_delivery payload) in
  ret (command_disposition outcome report).

Definition consume_browser_commands (durable_name : string) (lookup : result ConsumerConfig string)
    (items : list StreamItem) : Prog ConsumerError ConsumerReport :=
  do! of_result (browser_consumer durable_name lookup) in
  consume handle_command items no_commands.
End Acceptance.

(** ** The permalink grammar *)

Lemma split_once_str_app c sep a b :
  all_chars (not_char c) a = true →
  split_once_str (String c sep) (a +:+ String c sep +:+ b) = Some (a, b).
Proof.
  induction a as [|x a IH]; intros Ha.
  - change (split_once_str (String c sep) (String c sep +:+ b) = Some (""%string, b)).
    pose proof (str_strip_prefix_app (String c sep) b) as Hp.
    destruct (String c sep +:+ b) eqn:E; cbn [split_once_str]; by rewrite Hp.
  - apply andb_true_iff in Ha as [Hx Ha]. apply negb_true_iff in Hx.
    change (String x a +:+ String c sep +:+ b) with (String x (a +:+ String c sep +:+ b)).
    cbn [split_once_str]. rewrite (IH Ha).
    destruct (str_strip_prefix (String c sep) (String x _)) eqn:E; [|done].
    apply str_strip_prefix_Some in E. injection E as -> _. by rewrite Ascii.eqb_refl in Hx.
Qed.

Lemma lower_keeps_separators c :
  not_char ":" (to_ascii_lower c) = not_char ":" c ∧ not_char "/" (to_ascii_lower c) = not_char "/" c.
Proof. revert c. by_ascii. Qed.

(** Lowering a text never introduces or hides a separator. *)
Lemma lower_all_chars (p : ascii → bool) s :
  (∀ c, p (to_ascii_lower c) = p c) → all_chars p (to_ascii_lowercase s) = all_chars p s.
Proof. intros Hp. induction s as [|c s IH]; [done|]. rewrite lower_cons. simpl. by rewrite Hp, IH. Qed.

Lemma lowered_spelling s spelling c :
  (∀ a, not_char c (to_ascii_lower a) = not_char c a) →
  to_ascii_lowercase s = spelling → all_chars (not_char c) spelling = true →
  all_chars (not_char c) s = true.
Proof. intros Hc <-. by rewrite (lower_all_chars _ _ Hc). Qed.

Lemma existsb_spelling host allowed :
  Forall (λ a, to_ascii_lowercase a = a) allowed →
  existsb (λ a, eq_ignore_ascii_case a host) allowed = true ↔ to_ascii_lowercase host ∈ allowed.
Proof.
  intros Hl. rewrite existsb_exists. unfold eq_ignore_ascii_case. setoid_rewrite <-list_elem_of_In.
  rewrite Forall_forall in Hl. split.
  - intros (a & Ha & E). apply String.eqb_eq in E. rewrite <-E. by rewrite Hl.
  - intros Hin. exists (to_ascii_lowercase host). split; [done|]. rewrite Hl by done. apply String.eqb_refl.
Qed.

Lemma after_status_iff segments id :
  after_status segments = Some id ↔
  ∃ before keyword after, segments = before ++ keyword :: id :: after ∧
    is_status_keyword keyword = true ∧ Forall (λ s, is_status_keyword s = false) before.
Proof.
  split.
  - induction segments as [|s rest IH]; simpl; [done|]. destruct (is_status_keyword s) eqn:Es.
    + destruct rest as [|i after]; [done|]. intros [= ->]. exists [], s, after. by split_and!.
    + intros H. destruct (IH H) as (before & k & after & -> & Hk & Hb).
      exists (s :: before), k, after. split_and!; [done..|by constructor].
  - intros (before & k & after & -> & Hk & Hb). induction Hb as [|s before Hs Hb IH]; simpl.
    + by rewrite Hk.
    + by rewrite Hs.
Qed.

Lemma str_join_split c s : str_join (String c "") (split_on c s) = s.
Proof.
  induction s as [|a s IH]; simpl; [done|]. destruct (Ascii.eqb_spec a c) as [->|].
  - destruct (split_on c s) as [|w ws] eqn:E; [by destruct s; simpl in E; repeat case_match|].
    change (str_join (String c "") ("" :: w :: ws)) with (String c (str_join (String c "") (w :: ws))).
    by rewrite IH.
  - destruct (split_on c s) as [|w ws] eqn:E; [by destruct s; simpl in E; repeat case_match|].
    rewrite <-IH. by destruct ws.
Qed.

(** A status permalink: a web URL on one of the six hosts whose path, up to its query or fragment,
    names the id right after its first status segment. *)
Definition names_status (permalink id : string) : Prop :=
  ∃ scheme host before keyword after tail,
    permalink = scheme +:+ "://" +:+ host +:+ "/" +:+
                str_join "/" (before ++ keyword :: id :: after) +:+ tail ∧
    to_ascii_lowercase scheme ∈ ["https"; "http"]%string ∧ to_ascii_lowercase host ∈ STATUS_HOSTS ∧
    is_status_keyword keyword = true ∧ is_status_id id = true ∧
    Forall (λ s, is_status_keyword s = false) before ∧
    Forall (λ s, all_chars (λ c, not_char "/" c && negb (path_end c)) s = true)
      (before ++ keyword :: id :: after) ∧
    (tail = "" ∨ ∃ c r, tail = String c r ∧ path_end c = true).

Lemma all_chars_joined c p xs :
  p c = true → all_chars p (str_join (String c "") xs) = forallb (all_chars p) xs.
Proof.
  intros Hc. induction xs as [|x xs IH]; [done|]. destruct xs as [|y ys].
  - simpl. by rewrite andb_true_r.
  - change (str_join (String c "") (x :: y :: ys)) with (x +:+ String c (str_join (String c "") (y :: ys))).
    rewrite all_chars_app. cbn [all_chars]. by rewrite IH, Hc.
Qed.

Lemma all_chars_and p q s :
  all_chars (λ c, p c && q c) s = true ↔ all_chars p s = true ∧ all_chars q s = true.
Proof. induction s as [|c s IH]; simpl; [done|]. rewrite !andb_true_iff, IH. tauto. Qed.

Lemma status_segments before keyword id after :
  let segments := before ++ keyword :: id :: after in
  Forall (λ s, all_chars (λ c, not_char "/" c && negb (path_end c)) s = true) segments →
  split_on "/" (str_join "/" segments) = segments ∧
  all_chars (λ c, negb (path_end c)) (str_join "/" segments) = true.
Proof.
  cbv zeta. intros Hs. split.
  - apply split_on_join; [by destruct before|]. eapply Forall_impl; [exact Hs|].
    intros s. cbv beta. rewrite all_chars_and. by intros [? _].
  - rewrite all_chars_joined by done. apply forallb_forall. intros s Hin%list_elem_of_In.
    rewrite Forall_forall in Hs. specialize (Hs s Hin). cbv beta in Hs. apply all_chars_and in Hs. tauto.
Qed.

(** A permalink yields a status id exactly when it is a status permalink for that id. *)
Theorem status_ids_are_exact permalink id :
  status_id_from_permalink permalink = Some id ↔ names_status permalink id.
Proof.
  assert (Hhosts : Forall (λ a, to_ascii_lowercase a = a) STATUS_HOSTS) by repeat constructor.
  assert (Hschemes : ∀ s, negb (eq_ignore_ascii_case s "https") && negb (eq_ignore_ascii_case s "http") = false
            ↔ to_ascii_lowercase s ∈ ["https"; "http"]%string).
  { intros s. unfold eq_ignore_ascii_case. rewrite <-negb_orb, negb_false_iff, orb_true_iff, !String.eqb_eq.
    rewrite elem_of_cons, list_elem_of_singleton. done. }
  unfold status_id_from_permalink. split.
  - destruct (split_once_str "://" permalink) as [[scheme rest]|] eqn:E1; cbn [mbind option_bind]; [|done].
    apply split_once_str_Some in E1 as ->.
    destruct (negb _ && negb _) eqn:E2; [done|]. apply Hschemes in E2.
    destruct (split_once "/" rest) as [[host path]|] eqn:E3; cbn [mbind option_bind]; [|done].
    apply split_once_Some in E3 as [-> _].
    destruct (negb (existsb _ _)) eqn:E4; [done|].
    apply negb_false_iff, existsb_spelling in E4; [|done].
    pose proof (break_at_spec path_end path) as Hb. destruct (break_at path_end path) as [head tail].
    destruct Hb as (-> & Hhead & Htail). cbn [fst].
    destruct (after_status _) as [i|] eqn:E5; cbn [mbind option_bind]; [|done].
    destruct (is_status_id i) eqn:E6; [|done]. intros [= <-].
    apply after_status_iff in E5 as (before & keyword & after & E5 & Hk & Hbefore).
    exists scheme, host, before, keyword, after, tail. split_and!; try done.
    + rewrite <-E5, str_join_split. done.
    + rewrite <-E5. apply Forall_forall. intros s Hs. apply all_chars_and. split.
      * pose proof (split_on_pieces "/" head) as Hp. rewrite Forall_forall in Hp. by apply Hp.
      * rewrite <-(str_join_split "/" head), all_chars_joined in Hhead by done.
        rewrite forallb_forall in Hhead. apply Hhead. by apply list_elem_of_In.
  - intros (scheme & host & before & keyword & after & tail & -> & Hscheme & Hhost & Hk & Hid & Hb & Hseg & Htail).
    rewrite split_once_str_app; cbn [mbind option_bind].
    2:{ eapply lowered_spelling; [intros a; apply lower_keeps_separators|done|].
        apply elem_of_cons in Hscheme as [Hs|Hs%list_elem_of_singleton]; by rewrite Hs. }
    apply Hschemes in Hscheme as Hs. rewrite Hs.
    change ("/" +:+ ?x) with (String "/" x). rewrite split_once_app; cbn [mbind option_bind].
    2:{ eapply (lowered_spelling host _ "/"); [intros a; apply lower_keeps_separators|done|].
        unfold STATUS_HOSTS in Hhost. rewrite !elem_of_cons in Hhost.
        repeat (destruct Hhost as [Hhost|Hhost]; [by rewrite Hhost|]). by apply not_elem_of_nil in Hhost. }
    apply existsb_spelling in Hhost; [|done]. rewrite Hhost. cbn [negb].
    destruct (status_segments _ _ _ _ Hseg) as [Hsplit Hend].
    rewrite break_at_app by done. cbn [fst]. rewrite Hsplit.
    assert (Ha : after_status (before ++ keyword :: id :: after) = Some id).
    { apply after_status_iff. by exists before, keyword, after. }
    rewrite Ha. cbn [mbind option_bind]. by rewrite Hid.
Qed.

(** ** Reports of captures *)

Section Reports.
Context {ct : Contracts} {ec : EnvelopeCodec} {cc : CaptureContracts} {cl : CaptureContractsLaws}.

Definition capture_aggregate (capture_id : Z) : string := "capture:" +:+ uuid_text capture_id.

(** The operation reports queued about one capture, and their documents. *)
Definition is_report_of (capture_id : Z) (row : OutboxRow) : Prop :=
  ob_event_type row = OPERATION_REPORTED ∧ ob_aggregate row = capture_aggregate capture_id.
#[export] Instance is_report_of_dec capture_id row : Decision (is_report_of capture_id row).
Proof. unfold is_report_of. apply _. Defined.

Definition report_documents (capture_id : Z) (d : Db) : list Value :=
  (λ kv, env_payload (ob_payload kv.2)) <$>
    map_to_list (filter (λ kv, is_report_of capture_id kv.2) (outbox_events d)).

(** One more report about a capture. *)
Definition report_queued (owner capture_id : Z) (report : Value) (d d' : Db) : Prop :=
  ∃ e now, outbox_events d !! env_id e = None ∧
    d' = on_outbox_events (λ _, <[env_id e := fresh_row e now]> (outbox_events d)) d ∧
    env_type e = OPERATION_REPORTED ∧ env_aggregate e = capture_aggregate capture_id ∧
    env_tenant e = Some (tenant owner) ∧ env_payload e = report.

Lemma report_documents_insert capture_id id row d :
  outbox_events d !! id = None →
  report_documents capture_id (on_outbox_events (λ _, <[id := row]> (outbox_events d)) d) ≡ₚ
    (if decide (is_report_of capture_id row) then [env_payload (ob_payload row)] else []) ++
    report_documents capture_id d.
Proof.
  intros Hn. unfold report_documents. cbn [outbox_events on_outbox_events]. case_decide as Hr.
  - rewrite map_filter_insert_True by done. rewrite map_to_list_insert; [done|].
    apply map_lookup_filter_None. by left.
  - rewrite map_filter_insert_False by done. by rewrite delete_id.
Qed.

Lemma report_documents_same capture_id d d' :
  outbox_events d' = outbox_events d → report_documents capture_id d' = report_documents capture_id d.
Proof. unfold report_documents. by intros ->. Qed.

Lemma report_queued_documents `{!Inj (=) (=) uuid_text} owner capture_id report d d' other :
  report_queued owner capture_id report d d' →
  report_documents other d' ≡ₚ
    (if decide (other = capture_id) then [report] else []) ++ report_documents other d.
Proof.
  intros (e & now & Hn & -> & Hty & Hagg & _ & Hp). rewrite report_documents_insert by done.
  unfold is_report_of, fresh_row. cbn [ob_event_type ob_aggregate ob_payload].
  destruct (decide (other = capture_id)) as [->|Hne].
  - rewrite decide_True by done. by rewrite Hp.
  - rewrite decide_False; [done|]. intros [_ E]. rewrite Hagg in E. unfold capture_aggregate in E.
    apply Hne. apply (inj uuid_text). by repeat injection E as E.
Qed.

Lemma enqueue_report_queued env owner operation capture_id command event_id report e (w : W) :
  report_envelope REPORT_PRODUCER owner operation (capture_aggregate capture_id) command event_id report
    = Some e →
  yields env (enqueue e) (λ _ w', report_queued owner capture_id report (w_db w) (w_db w')) w.
Proof.
  intros He. apply report_envelope_fields in He as (_ & Hty & Hagg & Hten & Hp).
  unfold enqueue. destruct (negb _); yields_steps. intros u d (_ & Hn & ->)%insert_outbox_Some.
  by exists e, (e_pgnow env (w_tick w)).
Qed.

Lemma queue_capture_report_queued env owner operation capture_id command report (w : W) :
  yields env (queue_capture_report owner operation capture_id command report)
    (λ _ w', report_queued owner capture_id report (w_db w) (w_db w')) w.
Proof.
  unfold queue_capture_report. destruct (negb _); [by yields_steps|]. yields_steps.
  destruct (report_envelope _ _ _ _ _ _ _) as [e|] eqn:E; yields_steps.
  eapply yields_mono; [by eapply enqueue_report_queued|]. done.
Qed.

(** ** Every capture is reported as far as it got

    A capture that waits has its queued report only. One that ended has exactly one terminal report
    more, which says how it ended; one whose permalink names no status has that report only. *)
Inductive reported_so_far (capture : ExplicitCapture) : list Value → Prop :=
  | report_waiting first docs :
      xc_status capture = "accepted" → xc_reported_at capture = None →
      is_Some (xc_provider_post_id capture) →
      queued_report (xc_operation_id capture) = Some first → docs ≡ₚ [first] →
      reported_so_far capture docs
  | report_refused last docs :
      xc_status capture = "unavailable" → is_Some (xc_reported_at capture) →
      xc_provider_post_id capture = None →
      unavailable_report (xc_operation_id capture) UnavailableInaccessible = Some last →
      docs ≡ₚ [last] → reported_so_far capture docs
  | report_unavailable first reason last docs :
      xc_status capture = "unavailable" → is_Some (xc_reported_at capture) →
      is_Some (xc_provider_post_id capture) →
      queued_report (xc_operation_id capture) = Some first →
      unavailable_report (xc_operation_id capture) reason = Some last → docs ≡ₚ [last; first] →
      reported_so_far capture docs
  | report_preserved first source last docs :
      xc_status capture = "resolved" → is_Some (xc_reported_at capture) →
      is_Some (xc_provider_post_id capture) → xc_social_source_id capture = Some source →
      queued_report (xc_operation_id capture) = Some first →
      preserved_report (xc_operation_id capture) source = Some last → docs ≡ₚ [last; first] →
      reported_so_far capture docs.

Record CapturesReported (d : Db) : Prop := {
  cp_reported id capture : explicit_captures d !! id = Some capture →
    reported_so_far capture (report_documents id d);
  cp_unknown id : explicit_captures d !! id = None → report_documents id d = [];
  cp_command i j c c' : explicit_captures d !! i = Some c → explicit_captures d !! j = Some c' →
    xc_command_id c = xc_command_id c' → i = j;
}.

Lemma reported_so_far_perm capture docs docs' :
  docs ≡ₚ docs' → reported_so_far capture docs → reported_so_far capture docs'.
Proof.
  intros Hp H. destruct H.
  - eapply report_waiting; try eassumption; by rewrite <-Hp.
  - eapply report_refused; try eassumption; by rewrite <-Hp.
  - eapply report_unavailable; try eassumption; by rewrite <-Hp.
  - eapply report_preserved; try eassumption; by rewrite <-Hp.
Qed.

Lemma captures_reported_frame d d' :
  explicit_captures d' = explicit_captures d → outbox_events d' = outbox_events d →
  CapturesReported d → CapturesReported d'.
Proof.
  intros Hc Ho [H1 H2 H3]. split; rewrite ?Hc; [|intros id Hn|done].
  - intros id c. rewrite (report_documents_same id d d' Ho). apply H1.
  - rewrite (report_documents_same id d d' Ho). by apply H2.
Qed.

Lemma insert_capture_Some id row d u d' :
  insert_capture id row d = Some (u, d') →
  explicit_captures d !! id = None ∧
  (∀ i c, explicit_captures d !! i = Some c → xc_command_id c ≠ xc_command_id row) ∧
  d' = on_explicit_captures (λ _, <[id := row]> (explicit_captures d)) d.
Proof.
  unfold insert_capture. destruct (capture_of_command _ _) eqn:Ef; [done|]. unfold insert_new.
  destruct (explicit_captures d !! id) eqn:Ei; [done|]. intros [= _ <-]. split_and!; [done| |done].
  intros i c Hc E. apply (find_row_None _ _ _ _ Ef) in Hc. by apply String.eqb_neq in Hc.
Qed.

(** A new capture with its first report. *)
Lemma captures_reported_accept `{!Inj (=) (=) uuid_text} id command capture owner captured_at now report d d1 d2 u :
  let post := status_id_from_permalink (sc_original_permalink capture) in
  let row := fresh_capture command capture owner captured_at post now in
  first_report (sc_operation_id capture) post = Some report →
  insert_capture id row d = Some (u, d1) → report_queued owner id report d1 d2 →
  CapturesReported d → CapturesReported d2.
Proof.
  cbv zeta. intros Hf (Hn & Hfresh & ->)%insert_capture_Some Hq [H1 H2 H3].
  set (row := fresh_capture _ _ _ _ _ _) in *.
  assert (Hdocs : ∀ other, report_documents other d2 ≡ₚ
    (if decide (other = id) then [report] else []) ++ report_documents other d).
  { intros other. rewrite (report_queued_documents _ _ _ _ _ other Hq). done. }
  assert (Hc : explicit_captures d2 = <[id := row]> (explicit_captures d)).
  { by destruct Hq as (e & t & _ & -> & _). }
  split; rewrite ?Hc.
  - intros i c [[<- <-]|[Hne Hi]]%lookup_insert_Some.
    + eapply reported_so_far_perm; [symmetry; apply Hdocs|]. rewrite decide_True by done.
      rewrite (H2 id Hn). simpl. unfold row, fresh_capture.
      destruct (status_id_from_permalink _) as [post|]; [eapply report_waiting | eapply report_refused];
        simpl; eauto.
    + eapply reported_so_far_perm; [symmetry; apply Hdocs|]. rewrite decide_False by done. by apply H1.
  - intros i [Hi Hne]%lookup_insert_None. specialize (Hdocs i). rewrite decide_False in Hdocs by done.
    rewrite (H2 i Hi) in Hdocs. by apply Permutation_nil_r in Hdocs.
  - intros i j c c' [[<- <-]|[? Hi]]%lookup_insert_Some [[<- <-]|[? Hj]]%lookup_insert_Some E;
      [done | by destruct (Hfresh j c' Hj) | by destruct (Hfresh i c Hi) | by eapply H3].
Qed.

Lemma accept_capture_keeps `{!Inj (=) (=) uuid_text} env command capture owner captured_at :
  keeps_ok (Ev:=Event) env CapturesReported (accept_capture command capture owner captured_at).
Proof.
  intros w HI. change (yields env (accept_capture command capture owner captured_at)
    (λ _ w', CapturesReported (w_db w')) w). unfold accept_capture, claim_inbox.
  destruct (command_document command); yields_steps. intros claimed d Hclaim.
  assert (H0 : CapturesReported d).
  { unfold claim_inbox_row in Hclaim. destruct (inbox_events _ !! _); injection Hclaim as _ <-; [done|].
    by eapply captures_reported_frame; [| |exact HI]. }
  destruct claimed; cbn [negb]; yields_steps; [|done]. intros report Hreport. yields_steps.
  intros u d1 Hins. yields_steps. eapply yields_mono; [apply queue_capture_report_queued|].
  intros [] w' Hq. yields_steps. cbn [w_db set_db tick] in *.
  destruct (first_report _ _) as [r|] eqn:Ef; [|done]. injection Hreport as ->.
  by eapply captures_reported_accept.
Qed.

Lemma persist_browser_capture_keeps `{!Inj (=) (=) uuid_text} env command :
  rely (Ev:=Event) env (on_db (keeps CapturesReported)) →
  guar env (on_db (keeps CapturesReported)) (persist_browser_capture command).
Proof.
  intros Hr. unfold persist_browser_capture. do 4 (apply guar_bind; [typeclasses eauto|apply guar_of_result; typeclasses eauto|intros ?]).
  apply guar_transaction_keeps; [done|]. apply accept_capture_keeps.
Qed.
End Reports.

(** ** An acknowledged command is durable *)

Section Durability.
Context {ct : Contracts} {ec : EnvelopeCodec} {cc : CaptureContracts} {cl : CaptureContractsLaws}.

(** The outbox holds the first report of a capture. *)
Definition first_reported (capture_id : Z) (capture : ExplicitCapture) (d : Db) : Prop :=
  ∃ event row report, outbox_events d !! event = Some row ∧ is_report_of capture_id row ∧
    first_report (xc_operation_id capture) (xc_provider_post_id capture) = Some report ∧
    env_payload (ob_payload row) = report.

(** What a capture was accepted as. *)
Definition capture_identity (c : ExplicitCapture) :=
  (xc_command_id c, xc_operation_id c, xc_owner c, xc_provider_post_id c, xc_original_permalink c,
   xc_captured_at c).

(** A capture with these members is stored, and its first report is queued. *)
Definition captured_as identity (d : Db) : Prop :=
  ∃ id capture, explicit_captures d !! id = Some capture ∧ capture_identity capture = identity ∧
    first_reported id capture d.
Definition captured (command_id : string) (d : Db) : Prop :=
  ∃ operation owner post permalink at_,
    captured_as (command_id, operation, owner, post, permalink, at_) d.

(** Every Platform delivery in the inbox created its capture and reported it. *)
Definition PlatformCaptured (d : Db) : Prop :=
  ∀ command_id row, inbox_events d !! command_id = Some row → ib_source row = "platform"%string →
    captured command_id d.

(** Consumed deliveries, captured commands and queued reports are never forgotten. *)
Definition commands_kept (d d' : Db) : Prop :=
  (∀ id row, inbox_events d !! id = Some row → inbox_events d' !! id = Some row) ∧
  (∀ id c, explicit_captures d !! id = Some c →
     ∃ c', explicit_captures d' !! id = Some c' ∧ capture_identity c' = capture_identity c) ∧
  outbox_advances d d' ∧
  (PlatformCaptured d → PlatformCaptured d').

#[export] Instance commands_kept_preorder : PreOrder commands_kept.
Proof.
  split.
  - intros d. split_and!; [done| |done|done]. intros id c Hc. by exists c.
  - intros d1 d2 d3 (A1 & B1 & O1 & C1) (A2 & B2 & O2 & C2). split_and!; [auto| |by etrans|auto].
    intros id c Hc. destruct (B1 id c Hc) as (c2 & H2 & E2). destruct (B2 id c2 H2) as (c3 & H3 & E3).
    exists c3. split; [done|congruence].
Qed.

(** Captures and their reports in a database that keeps both. *)
Lemma captured_as_kept identity d d' :
  (∀ id c, explicit_captures d !! id = Some c →
     ∃ c', explicit_captures d' !! id = Some c' ∧ capture_identity c' = capture_identity c) →
  outbox_advances d d' → captured_as identity d → captured_as identity d'.
Proof.
  intros HB HO (id & c & Hc & E & event & row & report & Hrow & [Hty Hagg] & Hfirst & Hp).
  destruct (HB id c Hc) as (c' & Hc' & E'). destruct (HO event row Hrow) as (row' & Hrow' & Hadv).
  destruct Hadv as (Ea & Et & Ep & _). exists id, c'. split_and!; [done|congruence|].
  injection E' as _ Eo _ Epost _ _. exists event, row', report. unfold is_report_of.
  rewrite Eo, Epost, Ea, Et, Ep. done.
Qed.

(** Whether redelivery of a payload can never change its outcome. *)
Definition unacceptable (payload : string) : bool :=
  match parse_command payload with
  | None => true
  | Some command =>
      match validate_browser_capture command, cm_capture command with
      | Ok _, Some capture =>
          negb (bool_decide (is_Some (sc_captured_at capture))) ||
          negb (bool_decide (is_Some (command_document command)))
      | _, _ => true
      end
  end.

(** A payload that is refused without opening a transaction. *)
Definition refused_outright (payload : string) : bool :=
  match parse_command payload with
  | None => true
  | Some command =>
      match validate_browser_capture command, cm_capture command with
      | Ok _, Some capture => negb (bool_decide (is_Some (sc_captured_at capture)))
      | _, _ => true
      end
  end.

(** The delivery is consumed, and if Platform's command was stored under that id, so are its capture and
    its first report. *)
Definition durable (payload : string) (d : Db) : Prop :=
  ∃ command row, parse_command payload = Some command ∧
    inbox_events d !! cm_command_id command = Some row ∧
    (ib_source row = "platform"%string → captured (cm_command_id command) d).

(** The delivery's own command is stored: its inbox row, its capture and that capture's first report. *)
Definition stored (payload : string) (d : Db) : Prop :=
  ∃ command capture owner at_, parse_command payload = Some command ∧
    cm_capture command = Some capture ∧ cm_tenant command = Some owner ∧ sc_captured_at capture = Some at_ ∧
    is_Some (inbox_events d !! cm_command_id command) ∧
    captured_as (cm_command_id command, sc_operation_id capture, owner,
      status_id_from_permalink (sc_original_permalink capture), sc_original_permalink capture, at_) d.

Lemma durable_kept payload d d' : commands_kept d d' → durable payload d → durable payload d'.
Proof.
  intros (A & B & O & _) (command & row & Hp & Hi & Hc). exists command, row. split_and!; [done|by apply A|].
  intros (op & ow & po & pe & at_ & H)%Hc. exists op, ow, po, pe, at_. by eapply captured_as_kept.
Qed.

Lemma stored_kept payload d d' : commands_kept d d' → stored payload d → stored payload d'.
Proof.
  intros (A & B & O & _) (command & capture & owner & at_ & ? & ? & ? & ? & [row Hi] & Hc).
  exists command, capture, owner, at_. split_and!; try done; [exists row; by apply A|by eapply captured_as_kept].
Qed.

Lemma claim_row_kept command_id row d b d' :
  claim_inbox_row command_id row d = Some (b, d') →
  (∀ id r, inbox_events d !! id = Some r → inbox_events d' !! id = Some r) ∧
  explicit_captures d' = explicit_captures d ∧ outbox_events d' = outbox_events d ∧
  is_Some (inbox_events d' !! command_id) ∧
  (b = false → d' = d) ∧
  (∀ id r, inbox_events d' !! id = Some r → inbox_events d !! id = Some r ∨ id = command_id).
Proof.
  unfold claim_inbox_row. destruct (inbox_events d !! command_id) as [r0|] eqn:E; intros [= <- <-].
  - split_and!; [done..|by rewrite E|done|auto].
  - cbn [inbox_events on_inbox_events explicit_captures outbox_events]. split_and!; [|done|done| |done|].
    + intros id r Hr. rewrite lookup_insert_ne by congruence. done.
    + rewrite lookup_insert_eq. done.
    + intros id r [[<- _]|[_ Hr]]%lookup_insert_Some; auto.
Qed.

Lemma report_queued_kept owner capture_id report d d' :
  report_queued owner capture_id report d d' →
  inbox_events d' = inbox_events d ∧ explicit_captures d' = explicit_captures d ∧ outbox_advances d d' ∧
  ∃ event row, outbox_events d' !! event = Some row ∧ is_report_of capture_id row ∧
    env_payload (ob_payload row) = report.
Proof.
  intros (e & now & Hn & -> & Hty & Hagg & _ & Hp). cbn. split_and!; [done..| |].
  - intros id row Hr. exists row. cbn. split; [|done]. rewrite lookup_insert_ne by congruence. done.
  - exists (env_id e), (fresh_row e now). rewrite lookup_insert_eq. done.
Qed.

(** The acceptance transaction when it returns: nothing for a duplicate; otherwise the claim, the
    capture and its first report. *)
Lemma accept_capture_effect env command capture owner captured_at (w : W) :
  yields env (accept_capture command capture owner captured_at) (λ e w',
    is_Some (command_document command) ∧
    match e with
    | Rollback DeliveryDuplicate => w_db w' = w_db w ∧ is_Some (inbox_events (w_db w) !! cm_command_id command)
    | Commit DeliveryApplied => commands_kept (w_db w) (w_db w') ∧
        is_Some (inbox_events (w_db w') !! cm_command_id command) ∧
        captured_as (cm_command_id command, sc_operation_id capture, owner,
          status_id_from_permalink (sc_original_permalink capture), sc_original_permalink capture, captured_at)
          (w_db w')
    | _ => False
    end) w.
Proof.
  unfold accept_capture, claim_inbox. destruct (command_document command) eqn:Edoc; yields_steps.
  intros claimed d1 Hclaim.
  destruct (claim_row_kept _ _ _ _ _ Hclaim) as (Hk & Hc & Ho & Hin & Hfalse & Hnew).
  destruct claimed; cbn [negb]; yields_steps.
  2:{ split; [done|]. rewrite (Hfalse eq_refl) in *. cbn [w_db set_db tick] in *. by split. }
  intros report Hreport. yields_steps. intros u d2 Hins.
  destruct (insert_capture_Some _ _ _ _ _ Hins) as (Hnone & _ & ->). yields_steps.
  eapply yields_mono; [apply queue_capture_report_queued|].
  intros [] w3 Hq%report_queued_kept. yields_steps. cbn [w_db set_db tick] in *. split; [done|].
  destruct Hq as (Ei & Ec & Hadv & event & row & Hrow & Hrep & Hp).
  cbn [inbox_events explicit_captures on_explicit_captures] in Ei, Ec. set (id := e_uuid env _) in *.
  set (c := fresh_capture _ _ _ _ _ _) in *.
  assert (Hout : outbox_advances (w_db w) (w_db w3)).
  { intros i r Hr. apply (Hadv i r). cbn. by rewrite Ho. }
  assert (Hcaps : ∀ i x, explicit_captures (w_db w) !! i = Some x →
    ∃ x', explicit_captures (w_db w3) !! i = Some x' ∧ capture_identity x' = capture_identity x).
  { intros i x Hi. exists x. split; [|done]. rewrite Ec, lookup_insert_ne by congruence. congruence. }
  assert (Hnow : captured_as (capture_identity c) (w_db w3)).
  { exists id, c. split_and!; [by rewrite Ec, lookup_insert_eq|done|].
    exists event, row, report. split_and!; try done. unfold c. cbn. by destruct (first_report _ _); simplify_eq/=. }
  split_and!; [|by rewrite Ei|exact Hnow]. split_and!; [by rewrite Ei|done|done|].
  intros Hplat cid r Hr Hsrc. rewrite Ei in Hr. destruct (Hnew cid r Hr) as [Hold| ->].
  - destruct (Hplat cid r Hold Hsrc) as (op & ow & po & pe & at_ & H). exists op, ow, po, pe, at_.
    by eapply captured_as_kept.
  - by exists (sc_operation_id capture), owner, (status_id_from_permalink (sc_original_permalink capture)),
      (sc_original_permalink capture), captured_at.
Qed.

Lemma validate_tenant command :
  validate_browser_capture command = Ok () → is_Some (cm_tenant command).
Proof. unfold validate_browser_capture. repeat case_match; eauto; done. Qed.

Lemma accept_capture_rejects env command capture owner captured_at (w : W) :
  wp env (accept_capture command capture owner captured_at) (λ r _, match r with
    | Err error => is_permanent_delivery error = true → command_document command = None
    | Ok _ => True
    end) w.
Proof.
  unfold accept_capture, claim_inbox. destruct (command_document command); wp_steps; [|done..].
  intros claimed d _. split; [|done]. destruct claimed; cbn [negb]; wp_steps; [|done].
  destruct (first_report _ _); [|done]. cbn [ok_or]. wp_steps; [|done]. intros u d' _. split; [|done].
  unfold queue_capture_report, enqueue. destruct (negb _); [by wp_steps|]. wp_steps.
  destruct (report_envelope _ _ _ _ _ _ _); wp_steps; [|done]. destruct (negb _); wp_steps; [done| |done].
  intros ? ? _. split; [|done]. by wp_steps.
Qed.

(** *** Attempts *)

Definition Outcome : Type := result CommandDelivery DeliveryError.

(** How a delivery with this outcome is to be settled. *)
Definition verdict (outcome : Outcome) : AckKind :=
  match outcome with
  | Ok _ => Ack
  | Err (DeliveryCommand _ | DeliveryInvalidTimestamp | DeliverySerialize) => Term
  | Err _ => Nak (Some (5 * usec))
  end.

(** What an outcome means for its payload and the database. *)
Definition outcome_holds (payload : string) (outcome : Outcome) (d : Db) : Prop :=
  match outcome with
  | Ok DeliveryApplied => unacceptable payload = false ∧ stored payload d
  | Ok DeliveryDuplicate => unacceptable payload = false ∧ durable payload d
  | Err _ => if bool_decide (verdict outcome = Term) then unacceptable payload = true
             else refused_outright payload = false
  end.

Lemma outcome_kept payload outcome d d' :
  commands_kept d d' → outcome_holds payload outcome d → outcome_holds payload outcome d'.
Proof.
  intros Hk. destruct outcome as [[]|e]; simpl; [| |done]; intros [? ?]; split; try done;
    [by eapply stored_kept|by eapply durable_kept].
Qed.

Lemma accept_delivery_outcome env payload :
  rely (Ev:=Event) env (on_db commands_kept) →
  ∀ w : W, PlatformCaptured (w_db w) →
  wp env (accept_delivery payload) (λ r w', commands_kept (w_db w) (w_db w') ∧
    outcome_holds payload r (w_db w')) w.
Proof.
  intros Hr w Hplat. assert (Hid : ∀ w : W, commands_kept (w_db w) (w_db w)) by (intros; reflexivity).
  unfold outcome_holds, unacceptable, refused_outright, accept_delivery.
  destruct (parse_command payload) as [command|] eqn:Ep; [|wp_steps; simpl; auto].
  unfold persist_browser_capture. wp_steps.
  destruct (validate_browser_capture command) as [[]|] eqn:Ev; [|simpl; auto].
  apply validate_tenant in Ev as [owner Eo]. rewrite Eo. cbn [result_map_err]. wp_steps.
  destruct (cm_capture command) as [capture|] eqn:Ecap; [|simpl; auto]. cbn [ok_or]. wp_steps.
  destruct (sc_captured_at capture) as [at_|] eqn:Eat; [|simpl; auto]. cbn [ok_or]. wp_steps.
  { split; [exact (Hr (w_tick w) w)|]. done. }
  set (w1 := tick (set_db _ _)).
  assert (H1 : commands_kept (w_db w) (w_db w1)) by exact (Hr (w_tick w) w).
  pose proof (accept_capture_effect env command capture owner at_ w1) as He.
  pose proof (accept_capture_rejects env command capture owner at_ w1) as Hrej.
  unfold yields, wp in *. destruct (accept_capture command capture owner at_ env w1) as [[[[]|[]|[]]|e] w2];
    cbn [fst snd] in *; try (by destruct He as [_ []]).
  - destruct He as (Hdoc & H2 & Hin & Hcap).
    assert (H3 : commands_kept (w_db w) (w_db w2)) by by etrans.
    rewrite !bool_decide_eq_true_2 by done. split_and!; try done.
    exists command, capture, owner, at_. done.
  - destruct He as (Hdoc & E & [row Hin]). rewrite !bool_decide_eq_true_2 by done.
    split_and!; try done. exists command, row. split_and!; [done..|]. by apply H1.
  - split; [exact H1|]. rewrite (bool_decide_eq_true_2 (is_Some (Some at_))) by done.
    case_bool_decide as Hv; [|done]. rewrite Hrej; [done|]. by destruct e.
Qed.

Lemma accept_delivery_silent env payload : guar env silent (accept_delivery payload).
Proof.
  pose proof (silent_rely (Ev:=Event) env).
  unfold accept_delivery, persist_browser_capture, accept_capture, claim_inbox, queue_capture_report, enqueue.
  guar_steps; done.
Qed.

(** What the session's totals say about its attempts. *)
Definition counted (p : Outcome → bool) (attempts : list (string * Outcome)) : Z :=
  Z.of_nat (length (List.filter (λ attempt, p attempt.2) attempts)).
Definition session_accounted (attempts : list (string * Outcome)) (r : ConsumerReport) : Prop :=
  cr_applied r = counted (λ o, match o with Ok DeliveryApplied => true | _ => false end) attempts ∧
  cr_duplicates r = counted (λ o, match o with Ok DeliveryDuplicate => true | _ => false end) attempts ∧
  cr_rejected r = counted (λ o, bool_decide (verdict o = Term)) attempts ∧
  cr_retryable_failures r = counted (λ o, bool_decide (verdict o = Nak (Some (5 * usec)))) attempts.

Lemma counted_snoc p attempts payload outcome :
  counted p (attempts ++ [(payload, outcome)]) = counted p attempts + (if p outcome then 1 else 0).
Proof. unfold counted. rewrite List.filter_app, length_app. simpl. destruct (p outcome); simpl; lia. Qed.

Lemma disposition_accounted attempts payload outcome r :
  session_accounted attempts r →
  session_accounted (attempts ++ [(payload, outcome)]) (command_disposition outcome r).1 ∧
  (command_disposition outcome r).2 = verdict outcome.
Proof.
  intros (H1 & H2 & H3 & H4). unfold session_accounted. rewrite !counted_snoc, <-H1, <-H2, <-H3, <-H4.
  destruct outcome as [[]|[]]; split_and!; simpl; repeat case_bool_decide; try congruence; first [reflexivity | lia].
Qed.

(** Each attempt was made after the settlements before it, on what the program had kept until then. *)
Definition attempted env (w : W) (d' : Db) (attempts : list (string * Outcome)) : Prop :=
  ∀ before payload outcome after, attempts = before ++ (payload, outcome) :: after →
    ∃ w1 : W, commands_kept (w_db w) (w_db w1) ∧
      w_log w1 = w_log w ++ settlements (prod_map id verdict <$> before) ∧
      (accept_delivery payload env w1).1 = outcome ∧ outcome_holds payload outcome d'.

Lemma attempted_snoc env (w w1 : W) d1 d2 attempts payload outcome :
  commands_kept d1 d2 → commands_kept (w_db w) (w_db w1) →
  w_log w1 = w_log w ++ settlements (prod_map id verdict <$> attempts) →
  (accept_delivery payload env w1).1 = outcome → outcome_holds payload outcome d2 →
  attempted env w d1 attempts → attempted env w d2 (attempts ++ [(payload, outcome)]).
Proof.
  intros Hk Hk1 Hlog Hrun Hout Hall before p o after E. destruct after as [|x after _] using rev_ind.
  - apply app_inj_tail in E as [<- [= <- <-]]. exists w1. done.
  - rewrite app_comm_cons, app_assoc in E. apply app_inj_tail in E as [E _].
    destruct (Hall before p o after E) as (w2 & ? & ? & ? & ?). exists w2. split_and!; [done..|].
    by eapply outcome_kept.
Qed.

(** C14. The acceptance session, whatever its stream delivers and whatever fails, attempts its messages in
    order and settles each one before it takes the next, and nothing else reaches the bus. A message is
    acknowledged exactly when its attempt returned, terminated when the attempt refused the command
    itself, its timestamp or its serialization, and handed back for redelivery in five seconds
    otherwise. At the end of the session as much as when it was acknowledged, an applied command is
    stored: its inbox row, its capture with the command's own members, and that capture's first report
    in the outbox; for a duplicate the command's id is consumed, with its capture and first report when
    it was Platform's. A terminated command could never have been accepted; one that is handed back was
    not refused outright. A session that ends by shutdown has settled every message and counts each
    attempt once. *)
Theorem acknowledged_commands_are_durable env durable_name lookup items (w : W) :
  rely (Ev:=Event) env (on_db commands_kept) → PlatformCaptured (w_db w) →
  wp env (consume_browser_commands durable_name lookup items) (λ r w', ∃ attempts,
    attempts.*1 `prefix_of` payloads items ∧
    w_log w' = w_log w ++ settlements (prod_map id verdict <$> attempts) ∧
    attempted env w (w_db w') attempts ∧ PlatformCaptured (w_db w') ∧
    (∀ report, r = Ok report → attempts.*1 = payloads items ∧ session_accounted attempts report)) w.
Proof.
  intros Hr Hplat. unfold consume_browser_commands. wp_steps. destruct (browser_consumer _ _); cycle 1.
  { exists []. cbn. rewrite app_nil_r. split_and!; [apply prefix_nil|done| |done|done].
    by intros [|? []] ? ? ? ?. }
  eapply wp_mono; [apply (consume_invariant handle_command env (λ settled s w', ∃ attempts,
    settled = prod_map id verdict <$> attempts ∧ commands_kept (w_db w) (w_db w') ∧
    PlatformCaptured (w_db w') ∧ w_log w' = w_log w ++ settlements settled ∧
    attempted env w (w_db w') attempts ∧ session_accounted attempts s) items) with (settled := [])|].
  - intros settled s payload w1 (attempts & -> & Hk & Hp1 & Hlog & Hatt & Hacc). unfold handle_command. wp_steps.
    pose proof (accept_delivery_outcome env payload Hr w1 Hp1) as H.
    pose proof (guar_elim (accept_delivery_silent env payload) w1) as Hs. unfold wp in *.
    destruct (accept_delivery payload env w1) as [r w2] eqn:Erun. cbn [fst snd] in *. unfold ret. cbn [fst snd].
    destruct H as [Hkept Hout]. pose proof (disposition_accounted attempts payload r s Hacc) as [Hacc' Hv].
    destruct (command_disposition r s) as [s' kind] eqn:Ed. cbn [w_db tick emit fst snd] in *. subst kind.
    exists (attempts ++ [(payload, r)]). rewrite fmap_app. split_and!; [done|by etrans|by apply Hkept| | |done].
    + unfold silent in Hs. cbn [w_log tick emit]. rewrite Hs, Hlog. unfold settlements.
      by rewrite fmap_app, app_assoc.
    + eapply attempted_snoc; try done. by rewrite Erun.
  - exists []. split_and!; [done|reflexivity|done|by rewrite app_nil_r| |done]. by intros [|? []] ? ? ? ?.
  - intros r w' (settled & s' & (attempts & E & Hk & Hp & Hlog & Hatt & Hacc) & Hpre & Hfin).
    rewrite app_nil_l in *. subst settled.
    assert (Hfst : (prod_map id verdict <$> attempts).*1 = attempts.*1)
      by (rewrite <-list_fmap_compose; by apply list_fmap_ext).
    rewrite Hfst in *. exists attempts. split_and!; try done.
    intros report Hok. destruct (Hfin report Hok) as [-> ->]. done.
Qed.
End Durability.

(** A whole session keeps the reports in step with the captures. *)
Lemma consume_browser_commands_keeps {ct : Contracts} {ec : EnvelopeCodec} {cc : CaptureContracts}
    {cl : CaptureContractsLaws} `{!Inj (=) (=) uuid_text} env durable_name lookup items :
  rely (Ev:=Event) env (on_db (keeps CapturesReported)) →
  guar env (on_db (keeps CapturesReported)) (consume_browser_commands durable_name lookup items).
Proof.
  intros Hr. unfold consume_browser_commands. apply guar_bind; [typeclasses eauto|guar_steps|].
  intros _. apply consume_guar; [typeclasses eauto|]. intros payload s. unfold handle_command, accept_delivery.
  guar_steps. by apply persist_browser_capture_keeps.
Qed.

(** ** A concrete session *)
Module BrowserSamples.
Import SampleContracts.

Definition sample_capture (permalink : string) : SocialCaptureRequested :=
  mkSocialCaptureRequested 70 ProviderX BrowserExtension ExplicitUserCapture permalink (Some 11).
Definition sample_command (id permalink : string) : CommandEnvelope :=
  mkCommandEnvelope id COMMAND_SUBJECT (Some 5) (Some (sample_capture permalink)).

#[export] Instance sample_capture_contracts : CaptureContracts := {|
  parse_command s :=
    if String.eqb s "post" then Some (sample_command "c1" "https://x.com/u/status/20?s=1")
    else if String.eqb s "profile" then Some (sample_command "c2" "https://x.com/u")
    else None;
  command_document c := Some (cm_command_id c);
  command_id_ok _ := true;
  queued_report _ := Some (Str "queued");
  unavailable_report _ reason := Some (Str match reason with
    | UnavailableDeleted => "deleted" | UnavailableInaccessible => "inaccessible"
    | UnavailableTransient => "transient" end);
  preserved_report _ source := Some (Str ("preserved:" +:+ sample_uuid source));
  report_envelope producer owner operation aggregate command event_id report :=
    Some (mkEnvelope event_id OPERATION_REPORTED 0 producer aggregate aggregate (Some command)
            (Some (tenant owner)) report);
|}.

#[export] Instance sample_capture_laws : CaptureContractsLaws.
Proof. split. by intros ???????? [= <-]. Qed.

Definition sample_browser_durable : result ConsumerConfig string :=
  Ok (mkConsumerConfig (Some "d"%string) COMMAND_SUBJECT true 0 None).
Definition sample_commands : list StreamItem :=
  [Message "post"; Message "junk"; Message "post"; Message "profile"].

Example sample_browser_session :
  let '(r, w') := consume_browser_commands "d" sample_browser_durable sample_commands (calm 3)
                    (mkWorld empty_db 0 []) in
  r = Ok (mkConsumerReport 2 1 1 0) ∧
  w_log w' = [Settle "post" Ack; Settle "junk" Term; Settle "post" Ack; Settle "profile" Ack] ∧
  ((λ kv, (xc_command_id kv.2, xc_provider_post_id kv.2, xc_status kv.2)) <$>
     map_to_list (explicit_captures (w_db w'))) ≡ₚ
    [("c1", Some "20", "accepted"); ("c2", None, "unavailable")]%string ∧
  ((λ kv, env_payload (ob_payload kv.2)) <$> map_to_list (outbox_events (w_db w'))) ≡ₚ
    [Str "queued"; Str "inaccessible"].
Proof. vm_compute. split_and!; try done; apply Permutation_swap. Qed.

Example sample_permalinks :
  status_id_from_permalink <$>
    ["https://X.com/user/status/1234567890123456789/photo/1"; "http://mobile.twitter.com/i/web/status/9#x";
     "https://x.com/user/status/12345678901234567890"; "https://evil.com/user/status/1";
     "https://x.com/user?status/1"]%string =
    [Some "1234567890123456789"; Some "9"; None; None; None]%string.
Proof. vm_compute. reflexivity. Qed.

Lemma acknowledged_commands_are_durable_witness :
  let '(r, w') := consume_browser_commands "d" sample_browser_durable sample_commands (calm 3)
                    (mkWorld empty_db 0 []) in
  r = Ok (mkConsumerReport 2 1 1 0) ∧
  ∃ o1 o2 o3 o4, verdict <$> [o1; o2; o3; o4] = [Ack; Term; Ack; Ack] ∧
    counted (λ o, match o with Ok DeliveryApplied => true | _ => false end)
      [("post", o1); ("junk", o2); ("post", o3); ("profile", o4)]%string = 2 ∧
    outcome_holds "post" o1 (w_db w') ∧ outcome_holds "junk" o2 (w_db w') ∧
    outcome_holds "post" o3 (w_db w') ∧ outcome_holds "profile" o4 (w_db w').
Proof.
  destruct (acknowledged_commands_are_durable (calm 3) "d" sample_browser_durable sample_commands
    (mkWorld empty_db 0 [])) as (attempts & _ & Hlog & Hatt & _ & Hok).
  { apply calm_rely. typeclasses eauto. }
  { intros id row Hr. change ((∅ : gmap string InboxRow) !! id = Some row) in Hr. by rewrite lookup_empty in Hr. }
  pose proof sample_browser_session as Hrun. destruct (consume_browser_commands _ _ _ _ _) as [r w'].
  destruct Hrun as (-> & Elog & _). cbn [fst snd] in *. split; [done|].
  destruct (Hok _ eq_refl) as [Hall (Happ & _)]. unfold sample_commands in Hall. cbn in Hall.
  destruct attempts as [|[p1 o1] [|[p2 o2] [|[p3 o3] [|[p4 o4] [|]]]]]; try done. injection Hall as -> -> -> ->.
  exists o1, o2, o3, o4. rewrite Elog in Hlog. cbn in Hlog. injection Hlog as V1 V2 V3 V4.
  split; [cbn; congruence|]. split; [done|].
  split_and!; [destruct (Hatt [] _ _ _ eq_refl) as (? & _ & _ & _ & H)
    | destruct (Hatt [_] _ _ _ eq_refl) as (? & _ & _ & _ & H)
    | destruct (Hatt [_; _] _ _ _ eq_refl) as (? & _ & _ & _ & H)
    | destruct (Hatt [_; _; _] _ _ _ eq_refl) as (? & _ & _ & _ & H)]; exact H.
Defined.
End BrowserSamples.
