(* ===== verification/Social.v ===== *)
(** * Published social sources ([crates/x-sync/src/social_sources.rs])

    The projection of a normalized post into an account-scoped source: the semantic digest, the
    retained revisions and exactly one event per material change, on the caller's transaction. The
    snapshot contract is a parameter. [SnapshotError] of [lib.rs] is declared here because this
    component already fails with it. *)
From S2P Require Export Articles Budget Normalize.

Class SocialContracts := {
  source_snapshot_ok : Value → bool;     (* [serde_json::from_value::<SocialSourceSnapshot>] *)
}.

Inductive SnapshotError :=
  | RunUnavailable
  | SnapshotBudget (e : BudgetError)
  | SnapshotNormalize (e : NormalizeError)
  | SnapshotContract
  | SnapshotQuery
  | SnapshotQueue (e : QueueError)
  | SnapshotArticle (e : ArticleCaptureError)
  | PersistedAuthorMissing
  | StatisticsOverflow.

Record SourceProvenance := mkSourceProvenance { acquisition : string; saved_authority : string }.

Definition BOOKMARK_PROVENANCE : SourceProvenance :=
  mkSourceProvenance "official_api" "authoritative_platform_state".
Definition EXPLICIT_PROVENANCE : SourceProvenance :=
  mkSourceProvenance "browser_extension" "explicit_user_capture".

Record SourceFacts := mkSourceFacts {
  sf_provider_id : string;
  sf_text : string;
  sf_long_text : option string;
  sf_published_at : option Z;
  sf_availability : string;
  sf_author_provider_id : string;
  sf_author_username : option string;
  sf_author_display_name : option string;
  sf_expanded_urls : list string;
}.

Inductive SourceFact := Captured | Updated.

Definition SOURCE_CAPTURED : string := "social.source.captured.v1".
Definition SOURCE_UPDATED : string := "social.source.updated.v1".

Definition upstream_availability (availability : string) : string :=
  if String.eqb availability "active" then "available"
  else if String.eqb availability "deleted" then "deleted_upstream"
  else "unavailable".

(** An account-scoped source as the bookmark path reads it. *)
Record LoadedSource := mkLoadedSource {
  ls_owner : Z;
  ls_source_id : option Z;
  ls_digest : option (string * string);
  ls_removed_at : option Z;
  ls_facts : SourceFacts;
}.

Definition digest_value (digest : string * string) : Value :=
  obj [("algorithm", Str digest.1); ("hex", Str digest.2)].

Definition digest_is_current (loaded : LoadedSource) (digest : string * string) : bool :=
  bool_decide (ls_digest loaded = Some digest).

Section Sources.
Context {ct : Contracts} {ec : EnvelopeCodec} {cr : Crypto} {ac : ArticleContracts}
  {sc : SocialContracts}.

Definition content_digest (semantic : Value) : string * string :=
  ("sha256"%string, hex (sha256 (json_text semantic))).

Definition opt_timestamp (t : option Z) : Value := opt_str (wire_timestamp <$> t).

(** [SourceFacts::digest]. *)
Definition semantic_document (facts : SourceFacts) (provenance : SourceProvenance) : Value :=
  obj [("provider_id", Str (sf_provider_id facts));
       ("text", Str (default (sf_text facts) (sf_long_text facts)));
       ("published_at", opt_timestamp (sf_published_at facts));
       ("availability", Str (sf_availability facts));
       ("author_provider_id", Str (sf_author_provider_id facts));
       ("author_username", opt_str (sf_author_username facts));
       ("author_display_name", opt_str (sf_author_display_name facts));
       ("expanded_urls", Arr (Str <$> sf_expanded_urls facts));
       ("acquisition", Str (acquisition provenance));
       ("saved_authority", Str (saved_authority provenance))].
Definition facts_digest (facts : SourceFacts) (provenance : SourceProvenance) : string * string :=
  content_digest (semantic_document facts provenance).

(** [SourceFacts::snapshot]. *)
Definition snapshot_document (facts : SourceFacts) (source_id owner : Z) (digest : string * string)
    (captured_at : Z) (provenance : SourceProvenance) : Value :=
  obj [("social_source_id", Str (uuid_text source_id));
       ("platform", Str "x");
       ("external_post_id", Str (sf_provider_id facts));
       ("owner", Str ("user:" +:+ uuid_text owner));
       ("author", obj [("platform", Str "x");
                       ("external_author_id", Str (sf_author_provider_id facts));
                       ("handle", opt_str (sf_author_username facts));
                       ("display_name", opt_str (sf_author_display_name facts))]);
       ("published_at", opt_timestamp (sf_published_at facts));
       ("captured_at", Str (wire_timestamp captured_at));
       ("text", Str (default (sf_text facts) (sf_long_text facts)));
       ("content_digest", digest_value digest);
       ("acquisition", Str (acquisition provenance));
       ("saved_authority", Str (saved_authority provenance));
       ("completeness", Str "complete");
       ("upstream_availability", Str (upstream_availability (sf_availability facts)))].
Definition facts_snapshot (facts : SourceFacts) (source_id owner : Z) (digest : string * string)
    (captured_at : Z) (provenance : SourceProvenance) : result Value SnapshotError :=
  let document := snapshot_document facts source_id owner digest captured_at provenance in
  if source_snapshot_ok document then Ok document else Err SnapshotContract.

Definition fact_event_type (fact : SourceFact) : string :=
  match fact with Captured => SOURCE_CAPTURED | Updated => SOURCE_UPDATED end.

Definition source_event_facts (owner : Z) (aggregate : string) (captured_at : Z) : EnvelopeFacts :=
  mkEnvelopeFacts aggregate aggregate None owner captured_at.

(** [queue_source_event]. *)
Definition queue_source_event (owner : Z) (fact : SourceFact) (source_id : Z) (snapshot : Value)
    (captured_at : Z) : Prog SnapshotError unit :=
  let! aggregate := of_result (result_map_err SnapshotQueue
                                 (entity "social_source" (uuid_text source_id))) in
  do! map_err SnapshotQueue
        (queue_envelope (fact_event_type fact) (source_event_facts owner aggregate captured_at)
           (obj [("source", snapshot)])) in
  ret tt.

(** [load_source]: the joins of the account, the post, its author and the source when there is one. *)
Definition post_by_id (post_id : Z) (d : Db) : option (string * PostRow) :=
  find_row (λ _ row, bool_decide (pst_id row = post_id)) (posts d).
Definition user_by_id (user_id : Z) (d : Db) : option (string * UserRow) :=
  find_row (λ _ row, bool_decide (usr_id row = user_id)) (users d).
Definition source_of (account post_id : Z) (d : Db) : option (Z * SocialSource) :=
  find_row (λ _ row, bool_decide (ss_account_id row = account) &&
                     bool_decide (ss_post_id row = post_id)) (social_sources d).

Definition source_facts_of (provider_id : string) (post : PostRow) (author_provider_id : string)
    (author : UserRow) : SourceFacts :=
  mkSourceFacts provider_id (pst_text post) (pst_long_text post) (pst_published_at post)
    (pst_availability post) author_provider_id (usr_username author) (usr_display_name author)
    (pst_expanded_urls post).

Definition load_source (account post_id : Z) (d : Db) : option LoadedSource :=
  acc ← accounts d !! account;
  '(provider_id, post) ← post_by_id post_id d;
  author_id ← pst_author_user_id post;
  '(author_provider_id, author) ← user_by_id author_id d;
  let source := source_of account post_id d in
  Some (mkLoadedSource (acc_internal_user_id acc) (fst <$> source)
          ((λ s, ss_current_content_digest s.2) <$> source) (source ≫= λ s, ss_removed_at s.2)
          (source_facts_of provider_id post author_provider_id author)).

Definition revised_source (digest : string * string) (captured_at : Z)
    (provenance : SourceProvenance) (row : SocialSource) : SocialSource :=
  mkSocialSource (ss_account_id row) (ss_post_id row) digest (acquisition provenance)
    (saved_authority provenance) captured_at (ss_removed_at row) (ss_removal_reason row).
Definition update_source (source_id : Z) (digest : string * string) (captured_at : Z)
    (provenance : SourceProvenance) (d : Db) : Db :=
  on_social_sources (alter (revised_source digest captured_at provenance) source_id) d.

(** The unique keys of the table: the source id, and account with post. *)
Definition insert_source (source_id account post_id : Z) (digest : string * string) (captured_at : Z)
    (provenance : SourceProvenance) (d : Db) : option (unit * Db) :=
  match source_of account post_id d with
  | Some _ => None
  | None =>
      table ← insert_new source_id (mkSocialSource account post_id digest (acquisition provenance)
                (saved_authority provenance) captured_at None None) (social_sources d);
      Some (tt, on_social_sources (λ _, table) d)
  end.

(** A source keeps one revision per digest: a second one violates the table's unique key. *)
Definition insert_revision (source_id : Z) (digest : string * string) (captured_at : Z)
    (provenance : SourceProvenance) (d : Db) : option (unit * Db) :=
  table ← insert_new (source_id, digest) (mkSourceRevision captured_at (acquisition provenance)
            (saved_authority provenance)) (social_source_revisions d);
  Some (tt, on_social_source_revisions (λ _, table) d).

(** The changed branch of [publish_source]: the revision, its event and its linked articles follow
    the source row. *)
Definition record_revision (account captured_at : Z) (provenance : SourceProvenance)
    (loaded : LoadedSource) (digest : string * string) (source_id : Z) (snapshot : Value)
    (fact : SourceFact) : Prog SnapshotError unit :=
  do! stmt SnapshotQuery (insert_revision source_id digest captured_at provenance) in
  do! queue_source_event (ls_owner loaded) fact source_id snapshot captured_at in
  map_err SnapshotArticle
    (capture_expanded_links_in_transaction account source_id (sf_expanded_urls (ls_facts loaded))).


Definition publish_revision (account post_id captured_at : Z) (provenance : SourceProvenance)
    (loaded : LoadedSource) (digest : string * string) (source_id : Z) : Prog SnapshotError unit :=
  let! snapshot := of_result (facts_snapshot (ls_facts loaded) source_id (ls_owner loaded) digest
                                captured_at provenance) in
  let! fact :=
    match ls_source_id loaded with
    | Some _ =>
        do! execute SnapshotQuery (update_source source_id digest captured_at provenance) in
        ret Updated
    | None =>
        do! stmt SnapshotQuery (insert_source source_id account post_id digest captured_at provenance) in
        ret Captured
    end in
  record_revision account captured_at provenance loaded digest source_id snapshot fact.

(** [publish_source]. The advisory lock is a statement that can fail; within the model a transaction
    is serial. *)
Definition publish_source (account post_id captured_at : Z) : Prog SnapshotError unit :=
  let provenance := BOOKMARK_PROVENANCE in
  do! execute SnapshotQuery (λ d, d) in
  let! loaded := stmt SnapshotQuery (λ d, loaded ← load_source account post_id d; Some (loaded, d)) in
  if bool_decide (is_Some (ls_removed_at loaded)) then ret tt
  else
    let digest := facts_digest (ls_facts loaded) provenance in
    if digest_is_current loaded digest then ret tt
    else
      match ls_source_id loaded with
      | Some source_id => publish_revision account post_id captured_at provenance loaded digest source_id
      | None =>
          let! source_id := new_uuid in
          publish_revision account post_id captured_at provenance loaded digest source_id
      end.

(** [publish_bookmark_sources]. *)
Definition publish_bookmark_sources (account : Z) (post_ids : list Z) (captured_at : Z) :
    Prog SnapshotError unit :=
  for_each post_ids (λ post_id, publish_source account post_id captured_at).
End Sources.

(** ** What a publication changes *)

Section SourceTheorems.
Context {ct : Contracts} {ec : EnvelopeCodec} {cr : Crypto} {ac : ArticleContracts}
  {sc : SocialContracts}.

(** The queued rows other than extractor commands. *)
Definition source_events (d : Db) : gmap Z OutboxRow :=
  filter (λ kv, ob_event_type kv.2 ≠ CONTENT_CAPTURE_REQUESTED) (outbox_events d).

(** What the capture of links leaves alone. *)
Definition source_frame (d d' : Db) : Prop :=
  social_sources d' = social_sources d ∧
  social_source_revisions d' = social_source_revisions d ∧
  source_events d' = source_events d.

#[export] Instance source_frame_preorder : PreOrder source_frame.
Proof.
  split; [done|]. intros d1 d2 d3 (? & ? & ?) (? & ? & ?). unfold source_frame.
  split_and!; by etrans.
Qed.

Lemma queued_event_frame event_type facts payload d d' envelope :
  queued event_type facts payload d d' envelope →
  ∃ now, outbox_events d' = <[env_id envelope := fresh_row envelope now]> (outbox_events d) ∧
    outbox_events d !! env_id envelope = None ∧ env_type envelope = event_type ∧
    env_tenant envelope = Some (tenant (ef_owner facts)) ∧
    env_aggregate envelope = ef_aggregate facts ∧
    social_sources d' = social_sources d ∧ social_source_revisions d' = social_source_revisions d.
Proof.
  intros (now & Hb & _ & Hnone & ->). apply build_envelope_fields in Hb as (_ & ? & ? & ? & _).
  by exists now.
Qed.

Lemma queued_command_frame facts payload d d' envelope :
  queued CONTENT_CAPTURE_REQUESTED facts payload d d' envelope → source_frame d d'.
Proof.
  intros (now & Ho & Hnone & Hty & _ & _ & Hs & Hr)%queued_event_frame.
  split_and!; [done..|]. unfold source_events. rewrite Ho.
  rewrite map_filter_insert_False by (simpl; intros Hn; by apply Hn). by rewrite delete_id.
Qed.

Lemma queued_source_event event_type facts payload d d' envelope :
  event_type ≠ CONTENT_CAPTURE_REQUESTED →
  queued event_type facts payload d d' envelope →
  ∃ now, source_events d' = <[env_id envelope := fresh_row envelope now]> (source_events d) ∧
    outbox_events d !! env_id envelope = None.
Proof.
  intros Hne (now & Ho & Hnone & Hty & _)%queued_event_frame. exists now. split; [|done].
  unfold source_events. rewrite Ho. apply map_filter_insert_True. simpl. congruence.
Qed.

Lemma capture_in_transaction_frame env account source urls :
  guar env (on_db source_frame) (capture_expanded_links_in_transaction account source urls).
Proof.
  assert (Hq : ∀ facts payload,
    guar env (on_db source_frame) (queue_envelope CONTENT_CAPTURE_REQUESTED facts payload)).
  { intros facts payload. apply guar_wp. intros w. eapply wp_mono; [apply queue_envelope_effect|].
    intros r w' [E|[e He]]; unfold on_db; [by rewrite E | by apply queued_command_frame in He]. }
  unfold capture_expanded_links_in_transaction, capture_link, queue_article_command.
  guar_steps; try (apply Hq).
  - unfold source_owner, on_db in *. destruct (social_sources _ !! _); simpl in *; [|done].
    case_bool_decide; [|done]. destruct (accounts _ !! _); simpl in *; [|done]. simplify_eq. done.
  - unfold find_or_insert_capture, on_db in *.
    destruct (find_row _ _) as [[existing row]|]; [by simplify_eq|].
    destruct (insert_new _ _ _); simpl in *; [|done]. by simplify_eq.
  - done.
Qed.

(** The source row a publication leaves behind. *)
Definition published_sources (account post_id captured_at source_id : Z) (loaded : LoadedSource)
    (digest : string * string) (sources : gmap Z SocialSource) : gmap Z SocialSource :=
  match ls_source_id loaded with
  | Some _ => alter (revised_source digest captured_at BOOKMARK_PROVENANCE) source_id sources
  | None => <[source_id := mkSocialSource account post_id digest "official_api"
                             "authoritative_platform_state" captured_at None None]> sources
  end.

(** One published change: a new revision, the source row and exactly one event of the right kind. *)
Definition published (account post_id captured_at : Z) (loaded : LoadedSource)
    (digest : string * string) (d d' : Db) : Prop :=
  ∃ source_id envelope now,
    default source_id (ls_source_id loaded) = source_id ∧
    (ls_source_id loaded = None → social_sources d !! source_id = None) ∧
    social_source_revisions d !! (source_id, digest) = None ∧
    social_source_revisions d' =
      <[(source_id, digest) := mkSourceRevision captured_at "official_api" "authoritative_platform_state"]>
        (social_source_revisions d) ∧
    social_sources d' = published_sources account post_id captured_at source_id loaded digest
                          (social_sources d) ∧
    source_events d' = <[env_id envelope := fresh_row envelope now]> (source_events d) ∧
    outbox_events d !! env_id envelope = None ∧
    env_type envelope = (match ls_source_id loaded with Some _ => SOURCE_UPDATED | None => SOURCE_CAPTURED end) ∧
    env_tenant envelope = Some (tenant (ls_owner loaded)) ∧
    env_aggregate envelope = "social_source:" +:+ uuid_text source_id.

Lemma insert_revision_Some source_id digest captured_at provenance d u d' :
  insert_revision source_id digest captured_at provenance d = Some (u, d') →
  social_source_revisions d !! (source_id, digest) = None ∧
  d' = on_social_source_revisions (λ _, <[(source_id, digest) :=
         mkSourceRevision captured_at (acquisition provenance) (saved_authority provenance)]>
         (social_source_revisions d)) d.
Proof.
  unfold insert_revision, insert_new. destruct (social_source_revisions d !! _); [done|].
  by intros [= _ <-].
Qed.

(** The second half of a publication, after the source row is written. *)
Lemma record_revision_spec env account captured_at loaded fact source_id digest snapshot (w : W) :
  wp env (record_revision account captured_at BOOKMARK_PROVENANCE loaded digest source_id snapshot fact)
    (λ r w', match r with
     | Err _ => True
     | Ok _ => ∃ envelope now,
         social_source_revisions (w_db w) !! (source_id, digest) = None ∧
         social_source_revisions (w_db w') = <[(source_id, digest) :=
           mkSourceRevision captured_at "official_api" "authoritative_platform_state"]>
             (social_source_revisions (w_db w)) ∧
         social_sources (w_db w') = social_sources (w_db w) ∧
         source_events (w_db w') = <[env_id envelope := fresh_row envelope now]> (source_events (w_db w)) ∧
         outbox_events (w_db w) !! env_id envelope = None ∧
         env_type envelope = fact_event_type fact ∧ env_tenant envelope = Some (tenant (ls_owner loaded)) ∧
         env_aggregate envelope = "social_source:" +:+ uuid_text source_id
     end) w.
Proof.
  unfold record_revision. wp_steps; [|done]. intros u d1 (Hnone & ->)%insert_revision_Some. split; [|done].
  unfold queue_source_event, entity. wp_steps.
  destruct (entity_ref_ok _); [cbn [result_map_err]|by simpl].
  wp_steps. eapply wp_mono; [apply queue_envelope_ok|]. intros [e|e] w2 Hq; [|done].
  cbn [result_map_err]. wp_steps.
  assert (Hne : fact_event_type fact ≠ CONTENT_CAPTURE_REQUESTED) by by destruct fact.
  destruct (queued_source_event _ _ _ _ _ _ Hne Hq) as (now & Hev & Hfresh).
  apply queued_event_frame in Hq as (_ & _ & _ & Hty & Hten & Hagg & Hs & Hr).
  eapply (wp_mono _ _ (λ _ w', source_frame (w_db w2) (w_db w')));
    [exact (guar_elim (capture_in_transaction_frame env account source_id _) w2)|].
  intros [v|e'] w3 (Hs3 & Hr3 & He3); [|done]. cbn [result_map_err w_db set_db tick] in *.
  exists e, now. rewrite Hs3, Hr3, He3, Hs, Hr, Hev. split_and!; done.
Qed.

Lemma publish_revision_spec env account post_id captured_at loaded digest source_id (w : W) :
  default source_id (ls_source_id loaded) = source_id →
  wp env (publish_revision account post_id captured_at BOOKMARK_PROVENANCE loaded digest source_id)
    (λ r w', match r with
     | Err _ => True
     | Ok _ => published account post_id captured_at loaded digest (w_db w) (w_db w')
     end) w.
Proof.
  intros Hid. unfold publish_revision. wp_steps. destruct (facts_snapshot _ _ _ _ _ _) as [snap|]; [|done].
  wp_steps. destruct (ls_source_id loaded) as [existing|] eqn:El; wp_steps; try done.
  - eapply wp_mono; [apply record_revision_spec|]. intros [u|e] w'; [|done].
    intros (envelope & now & H1 & H2 & H3 & H4 & H5 & H6 & H7 & H8).
    exists source_id, envelope, now. unfold published_sources. rewrite El.
    cbn [w_db set_db tick] in *. split_and!; try done.
  - intros u d1. unfold insert_source. destruct (source_of _ _ _); [done|]. unfold insert_new.
    destruct (social_sources _ !! source_id) eqn:Es; [done|]. intros [= _ <-]. split; [|done].
    wp_steps. eapply wp_mono; [apply record_revision_spec|]. intros [v|e] w'; [|done].
    intros (envelope & now & H1 & H2 & H3 & H4 & H5 & H6 & H7 & H8).
    exists source_id, envelope, now. unfold published_sources. rewrite El.
    cbn [w_db set_db tick] in *. split_and!; try done.
Qed.

(** C28. Publishing a source succeeds in exactly two ways, whatever fails around it. Either the source
    was removed or its digest is unchanged, and then nothing at all is written; or its content
    changed, and then one new revision, the source row and exactly one event for its owner appear,
    a captured event for a new source and an updated event for a known one. *)
Theorem publish_source_exactly_once env account post_id captured_at (w : W) :
  wp env (publish_source account post_id captured_at) (λ r w',
    match r with
    | Err _ => True
    | Ok _ => ∃ loaded, load_source account post_id (w_db w) = Some loaded ∧
        let digest := facts_digest (ls_facts loaded) BOOKMARK_PROVENANCE in
        ((is_Some (ls_removed_at loaded) ∨ ls_digest loaded = Some digest) ∧ w_db w' = w_db w) ∨
        (ls_removed_at loaded = None ∧ ls_digest loaded ≠ Some digest ∧
         published account post_id captured_at loaded digest (w_db w) (w_db w'))
    end) w.
Proof.
  unfold publish_source. wp_steps; [|done..]. intros loaded d.
  destruct (load_source _ _ _) as [l|] eqn:El; [|done]. intros [= <- <-]. split; [|done].
  cbn [w_db set_db tick] in El.
  case_bool_decide as Hrem; [wp_steps; exists l; auto|].
  assert (Hnone : ls_removed_at l = None) by (destruct (ls_removed_at l); [destruct Hrem; eauto|done]).
  unfold digest_is_current. case_bool_decide as Hdig; [wp_steps; exists l; auto|].
  destruct (ls_source_id l) as [id|] eqn:Eid; wp_steps;
    (eapply wp_mono; [apply publish_revision_spec; by rewrite Eid|]);
    (intros [u|e] w' Hp; [|done]); exists l; (split; [done|]); right; done.
Qed.

(** Content that returns to an earlier revision is never published: the revision already exists,
    so the publication fails, whatever the environment, and with it the whole page transaction it is
    part of. *)
Theorem returning_content_is_refused env account post_id captured_at loaded source_id (w : W) :
  let digest := facts_digest (ls_facts loaded) BOOKMARK_PROVENANCE in
  load_source account post_id (w_db w) = Some loaded →
  ls_removed_at loaded = None → ls_source_id loaded = Some source_id →
  ls_digest loaded ≠ Some digest →
  is_Some (social_source_revisions (w_db w) !! (source_id, digest)) →
  ∀ r, (publish_bookmark_sources account [post_id] captured_at env w).1 ≠ Ok r.
Proof.
  cbv zeta. intros Hl Hrem Hid Hdig [rev Hrev] r.
  assert (H : wp env (publish_bookmark_sources account [post_id] captured_at)
            (λ r _, match r with Ok _ => False | Err _ => True end) w).
  { unfold publish_bookmark_sources. simpl. apply wp_bind. unfold publish_source. wp_steps; [|done..].
    intros l d. cbn [w_db set_db tick]. rewrite Hl. intros [= <- <-]. split; [|done].
    rewrite Hrem. rewrite bool_decide_eq_false_2 by by intros [? ?].
    unfold digest_is_current. rewrite bool_decide_eq_false_2 by done. rewrite Hid.
    unfold publish_revision. wp_steps. destruct (facts_snapshot _ _ _ _ _ _); [|done].
    rewrite Hid. unfold record_revision. wp_steps; [|done..]. intros u d' (Hnone & _)%insert_revision_Some.
    cbn [w_db set_db tick] in Hnone. simpl in Hnone. congruence. }
  unfold wp in H. intros E. by rewrite E in H.
Qed.
End SourceTheorems.

(** ** A concrete source *)
Module SocialSamples.
Import SampleContracts ArticleSamples.

#[export] Instance sample_social_contracts : SocialContracts := {| source_snapshot_ok _ := true |}.

Definition sample_post_row : PostRow :=
  mkPostRow 10 (Some 20) "text" None ["https://a.b/c"] None None None None [] 1 "official-api" "active".
Definition sample_facts : SourceFacts :=
  source_facts_of "900" sample_post_row "800" (mkUserRow 20 (Some "handle") None 1).
Definition sample_digest : string * string := facts_digest sample_facts BOOKMARK_PROVENANCE.

(** The post is stored; its source, when there is one, currently has another digest. *)
Definition sample_base : Db :=
  on_posts (insert "900" sample_post_row)
    (on_users (insert "800" (mkUserRow 20 (Some "handle") None 1))
       (on_accounts (insert 1 (mkAccount 5 "x" "connected" 0)) empty_db)).
Definition sample_returning : W :=
  mkWorld (on_social_source_revisions (insert (30, sample_digest) (mkSourceRevision 0 "official_api"
             "authoritative_platform_state"))
    (on_social_sources (insert 30 (mkSocialSource 1 10 ("sha256", "other")%string "official_api"
       "authoritative_platform_state" 0 None None)) sample_base)) 0 [].

Example sample_first_publication :
  let w' := (publish_bookmark_sources 1 [10] 7 (calm 3) (mkWorld sample_base 0 [])).2 in
  (ob_event_type <$> (map_to_list (outbox_events (w_db w'))).*2)
    = [SOURCE_CAPTURED; CONTENT_CAPTURE_REQUESTED].
Proof. vm_compute. reflexivity. Qed.

Lemma returning_content_is_refused_witness :
  (publish_bookmark_sources 1 [10] 7 (calm 3) sample_returning).1 ≠ Ok tt.
Proof.
  apply (returning_content_is_refused (calm 3) 1 10 7
    (mkLoadedSource 5 (Some 30) (Some ("sha256", "other")%string) None sample_facts) 30 sample_returning).
  - vm_compute. reflexivity.
  - reflexivity.
  - reflexivity.
  - vm_compute. discriminate.
  - exists (mkSourceRevision 0 "official_api" "authoritative_platform_state").
    vm_compute. reflexivity.
Defined.
End SocialSamples.
