(* ===== verification/Knowledge.v ===== *)
(** * Knowledge completion linkage ([crates/x-sync/src/knowledge.rs])

    One completion fact of Knowledge links a retained revision of an account's source, at most once,
    in one transaction with the claim of its delivery. The event envelope and the completion payload
    belong to the contract crates: their decoding is a parameter. *)
From S2P Require Export Social.

Inductive KnowledgeAnalysisAdmission := LinkedCurrent | LinkedHistorical | LinkDuplicate.
Inductive KnowledgeIntegrationError := InvalidCompletion | KnowledgeQuery.

(** The members of the completion the service reads. *)
Record AnalysisCompleted := mkAnalysisCompleted {
  an_social_source_id : Z;
  an_owner : string;
  an_content_digest : option (string * string);   (* [serde_json::to_value] *)
  an_completed_at : option Z;                      (* [to_string().parse()] *)
}.

Record InboundCompletion := mkInboundCompletion {
  ic_event_id : string;
  ic_producer : string;
  ic_tenant : option string;
  ic_payload : option AnalysisCompleted;           (* [payload_as] *)
}.

Class KnowledgeContracts := {
  parse_completion : string → option InboundCompletion;   (* [serde_json::from_str::<EventEnvelope>] *)
  analysis_event_type : string;                           (* [SocialSourceAnalysisCompleted::EVENT_TYPE] *)
}.

(** A valid completion: what the checks before the transaction leave of it. *)
Record Completion := mkCompletion {
  cn_event_id : string;
  cn_source : Z;
  cn_owner : string;
  cn_digest : string * string;
  cn_completed_at : Z;
}.

Section Knowledge.
Context {ct : Contracts} {kn : KnowledgeContracts}.

Definition decode_completion (serialized_event : string) : result Completion KnowledgeIntegrationError :=
  match parse_completion serialized_event with
  | None => Err InvalidCompletion
  | Some envelope =>
      if negb (String.eqb (ic_producer envelope) "ratatoskr-knowledge") then Err InvalidCompletion
      else
        match ic_payload envelope with
        | None => Err InvalidCompletion
        | Some completion =>
            if negb (bool_decide (ic_tenant envelope = Some (an_owner completion)))
            then Err InvalidCompletion
            else
              match an_content_digest completion, an_completed_at completion with
              | Some digest, Some completed_at =>
                  Ok (mkCompletion (ic_event_id envelope) (an_social_source_id completion)
                        (an_owner completion) digest completed_at)
              | _, _ => Err InvalidCompletion
              end
        end
  end.

(** The source, its account and the named revision, joined. *)
Definition completed_source (source : Z) (digest : string * string) (d : Db) :
    option (Z * (string * string) * option Z) :=
  row ← social_sources d !! source;
  account ← accounts d !! ss_account_id row;
  _ ← social_source_revisions d !! (source, digest);
  Some (acc_internal_user_id account, ss_current_content_digest row, ss_removed_at row).

(** [on conflict (social_source_id, content_digest) do nothing returning id]; the delivery's id is
    unique as well. *)
Definition link_analysis (event_id : string) (source : Z) (digest : string * string) (completed_at : Z)
    (d : Db) : option (bool * Db) :=
  match knowledge_analysis_links d !! (source, digest) with
  | Some _ => Some (false, d)
  | None =>
      if bool_decide (is_Some (find_row (λ _ row, String.eqb (kl_inbox_event_id row) event_id)
                                 (knowledge_analysis_links d)))
      then None
      else
        match social_source_revisions d !! (source, digest) with
        | None => None
        | Some _ =>
            Some (true, on_knowledge_analysis_links
                          (insert (source, digest) (mkAnalysisLink event_id completed_at)) d)
        end
  end.

Definition link_body (serialized_event : string) (c : Completion) :
    Prog KnowledgeIntegrationError (ending KnowledgeAnalysisAdmission) :=
  let! source := select KnowledgeQuery (completed_source (cn_source c) (cn_digest c)) in
  match source with
  | None => throw InvalidCompletion
  | Some (owner_id, current_digest, removed_at) =>
      if negb (String.eqb (cn_owner c) ("user:" +:+ uuid_text owner_id)) ||
         bool_decide (is_Some removed_at)
      then throw InvalidCompletion
      else
        let! now := pg_now in
        let! claimed := stmt KnowledgeQuery (claim_inbox_row (cn_event_id c)
          (mkInboxRow "ratatoskr-knowledge" analysis_event_type serialized_event now)) in
        if negb claimed then ret (Commit LinkDuplicate)
        else
          let! linked := stmt KnowledgeQuery
            (link_analysis (cn_event_id c) (cn_source c) (cn_digest c) (cn_completed_at c)) in
          ret (Commit (match linked : bool, bool_decide (current_digest = cn_digest c) with
                       | true, true => LinkedCurrent
                       | true, false => LinkedHistorical
                       | false, _ => LinkDuplicate
                       end))
  end.

(** [KnowledgeAnalysisService::consume_completion]. *)
Definition consume_completion (serialized_event : string) :
    Prog KnowledgeIntegrationError KnowledgeAnalysisAdmission :=
  let! c := of_result (decode_completion serialized_event) in
  transaction KnowledgeQuery (link_body serialized_event c).

(** ** What a completion changes *)

(** The completion names a retained revision of a live source of its owner. *)
Definition linkable (c : Completion) (current : string * string) (d : Db) : Prop :=
  ∃ owner, completed_source (cn_source c) (cn_digest c) d = Some (owner, current, None) ∧
    cn_owner c = "user:" +:+ uuid_text owner.

Definition linked_by (serialized_event : string) (now : Z) (c : Completion) (d : Db) : Db :=
  on_knowledge_analysis_links
    (insert (cn_source c, cn_digest c) (mkAnalysisLink (cn_event_id c) (cn_completed_at c)))
    (on_inbox_events (insert (cn_event_id c)
       (mkInboxRow "ratatoskr-knowledge" analysis_event_type serialized_event now)) d).

(** What an admission says was done. *)
Definition admitted (serialized_event : string) (c : Completion) (admission : KnowledgeAnalysisAdmission)
    (d d' : Db) : Prop :=
  ∃ current, linkable c current d ∧
  match admission with
  | LinkDuplicate =>
      (is_Some (inbox_events d !! cn_event_id c) ∧ d' = d) ∨
      (inbox_events d !! cn_event_id c = None ∧
       is_Some (knowledge_analysis_links d !! (cn_source c, cn_digest c)) ∧
       ∃ now, d' = on_inbox_events (insert (cn_event_id c)
         (mkInboxRow "ratatoskr-knowledge" analysis_event_type serialized_event now)) d)
  | _ =>
      (admission = LinkedCurrent ↔ current = cn_digest c) ∧
      inbox_events d !! cn_event_id c = None ∧
      knowledge_analysis_links d !! (cn_source c, cn_digest c) = None ∧
      (∃ now, d' = linked_by serialized_event now c d)
  end.

Lemma link_analysis_Some event_id source digest completed_at d b d' :
  link_analysis event_id source digest completed_at d = Some (b, d') →
  (b = false ∧ d' = d ∧ is_Some (knowledge_analysis_links d !! (source, digest))) ∨
  (b = true ∧ knowledge_analysis_links d !! (source, digest) = None ∧
   d' = on_knowledge_analysis_links (insert (source, digest) (mkAnalysisLink event_id completed_at)) d).
Proof.
  unfold link_analysis. destruct (knowledge_analysis_links d !! _) as [l|]; [intros [= <- <-]; left; eauto|].
  case_bool_decide; [done|]. destruct (social_source_revisions d !! _); [|done]. intros [= <- <-]. auto.
Qed.

Lemma link_body_admits env serialized_event c (w : W) :
  yields env (link_body serialized_event c) (λ e w', match e with
    | Commit admission => admitted serialized_event c admission (w_db w) (w_db w')
    | _ => False
    end) w.
Proof.
  unfold link_body. yields_steps. destruct (completed_source _ _ _) as [[[owner current] removed]|] eqn:Es;
    [|by yields_steps].
  destruct (negb _ || _) eqn:Eg; [by yields_steps|]. apply orb_false_iff in Eg as [Eo Er].
  apply negb_false_iff, String.eqb_eq in Eo. apply bool_decide_eq_false in Er.
  assert (removed = None) as -> by (destruct removed; [exfalso; eauto|done]).
  yields_steps. intros claimed d Hclaim. cbn [w_db set_db tick] in Hclaim.
  assert (Hl : linkable c current (w_db w)) by (exists owner; by split).
  unfold claim_inbox_row in Hclaim. destruct (inbox_events (w_db w) !! cn_event_id c) eqn:Ei;
    injection Hclaim as <- <-; cbn [negb]; yields_steps.
  { exists current. split; [done|]. left. rewrite Ei. by split. }
  intros linked d Hlink. yields_steps.
  destruct (link_analysis_Some _ _ _ _ _ _ _ Hlink) as [(-> & -> & Hk)|(-> & Hk & ->)];
    cbn [w_db set_db tick knowledge_analysis_links on_inbox_events] in Hk.
  - exists current. split; [done|]. right. eauto.
  - exists current. split; [done|]. case_bool_decide; (split_and!; [done|done|done|by eexists]).
Qed.

(** C35. One completion, nobody interfering: on success the admission is exactly what was done. A linked
    completion was Knowledge's, for the tenant owning a live source, named a retained revision, and
    now has its one link and its consumed delivery; it is current exactly when the revision still is.
    A duplicate linked nothing. A failure changed nothing, unless the commit itself was lost, which
    then did all of one of these. *)
Theorem completions_link_exactly env serialized_event (w : W) :
  (∀ n d, e_other env n d = d) →
  wp env (consume_completion serialized_event) (λ r w',
    match r with
    | Ok admission => ∃ c, decode_completion serialized_event = Ok c ∧
        admitted serialized_event c admission (w_db w) (w_db w')
    | Err _ => w_db w' = w_db w ∨ ∃ c admission, decode_completion serialized_event = Ok c ∧
        admitted serialized_event c admission (w_db w) (w_db w')
    end) w.
Proof.
  intros Ho. unfold consume_completion. wp_steps.
  destruct (decode_completion serialized_event) as [c|] eqn:Ed; [|by left].
  eapply wp_mono; [apply (wp_atomic env KnowledgeQuery _ (λ admission d',
    admitted serialized_event c admission (w_db w) d') w Ho)|].
  - eapply yields_mono; [apply link_body_admits|]. by intros [] w'.
  - intros [admission|e] w'; [eauto|]. intros [E|[a Ha]]; eauto 6.
Qed.

(** ** Links stay justified *)

(** Every link names a retained revision and a consumed delivery of Knowledge, and a delivery links
    once. *)
Record LinksJustified (d : Db) : Prop := {
  lj_revision key link : knowledge_analysis_links d !! key = Some link →
    is_Some (social_source_revisions d !! key);
  lj_consumed key link : knowledge_analysis_links d !! key = Some link →
    is_Some (inbox_events d !! kl_inbox_event_id link);
  lj_once key key' link link' : knowledge_analysis_links d !! key = Some link →
    knowledge_analysis_links d !! key' = Some link' →
    kl_inbox_event_id link = kl_inbox_event_id link' → key = key';
}.

Lemma admitted_justified serialized_event c admission d d' :
  admitted serialized_event c admission d d' → LinksJustified d → LinksJustified d'.
Proof.
  intros (current & (owner & Hs & _) & Ha) [H1 H2 H3].
  assert (Hrev : is_Some (social_source_revisions d !! (cn_source c, cn_digest c))).
  { unfold completed_source in Hs. destruct (social_sources d !! _); [|done]. cbn in Hs.
    destruct (accounts d !! _); [|done]. cbn in Hs. by destruct (social_source_revisions d !! _). }
  assert (Hclaim : ∀ row, inbox_events d !! cn_event_id c = None →
    LinksJustified (on_inbox_events (insert (cn_event_id c) row) d)).
  { intros row Hn. split; cbn; [exact H1| |exact H3]. intros key link Hl.
    rewrite lookup_insert_is_Some'. right. by eapply H2. }
  assert (Hlink : ∀ now, inbox_events d !! cn_event_id c = None → d' = linked_by serialized_event now c d →
    LinksJustified d').
  { intros now Hn ->. specialize (Hclaim (mkInboxRow "ratatoskr-knowledge" analysis_event_type serialized_event now) Hn).
    destruct Hclaim as [C1 C2 C3]. unfold linked_by. cbn in C1, C2, C3.
    assert (Hnew : ∀ key link, knowledge_analysis_links d !! key = Some link →
      kl_inbox_event_id link ≠ cn_event_id c).
    { intros key link Hl E. destruct (H2 key link Hl) as [r Hr]. rewrite E in Hr. congruence. }
    split; cbn.
    - by intros key link [[<- _]|[_ Hl]]%lookup_insert_Some; [|eapply C1].
    - intros key link [[_ <-]|[_ Hl]]%lookup_insert_Some; [|by eapply C2].
      rewrite lookup_insert_is_Some'. by left.
    - intros key key' link link' [[<- <-]|[? Hl]]%lookup_insert_Some [[<- <-]|[? Hl']]%lookup_insert_Some E;
        [done|cbn in E; by destruct (Hnew _ _ Hl')|cbn in E; by destruct (Hnew _ _ Hl)|by eapply C3]. }
  destruct admission.
  - destruct Ha as (_ & Hn & _ & now & E). by eapply Hlink.
  - destruct Ha as (_ & Hn & _ & now & E). by eapply Hlink.
  - destruct Ha as [[_ ->]|(Hn & _ & now & ->)]; [done|by apply Hclaim].
Qed.

(** Consuming completions keeps every link justified, whatever fails and interferes. *)
Lemma consume_completion_keeps env serialized_event :
  rely (Ev:=Event) env (on_db (keeps LinksJustified)) →
  guar env (on_db (keeps LinksJustified)) (consume_completion serialized_event).
Proof.
  intros Hr. unfold consume_completion. apply guar_bind; [typeclasses eauto|guar_steps|]. intros c.
  apply guar_transaction_keeps; [done|]. intros w HI.
  change (yields env (link_body serialized_event c) (λ _ w', LinksJustified (w_db w')) w).
  eapply yields_mono; [apply link_body_admits|]. intros [admission|?|?] w' H; [|done..].
  by eapply admitted_justified.
Qed.
End Knowledge.

(** ** A concrete completion *)
Module KnowledgeSamples.
Import SampleContracts ArticleSamples SocialSamples.

#[export] Instance sample_knowledge_contracts : KnowledgeContracts := {|
  parse_completion s :=
    if String.eqb s "done"
    then Some (mkInboundCompletion "k1" "ratatoskr-knowledge" (Some "user:5"%string)
           (Some (mkAnalysisCompleted 30 "user:5" (Some sample_digest) (Some 9))))
    else None;
  analysis_event_type := "social.source.analysis.completed.v1";
|}.

Definition sample_linkable : W :=
  mkWorld (on_social_source_revisions (insert (30, sample_digest) (mkSourceRevision 0 "official_api"
             "authoritative_platform_state"))
    (on_social_sources (insert 30 (mkSocialSource 1 10 ("sha256", "other")%string "official_api"
       "authoritative_platform_state" 0 None None)) sample_base)) 0 [].

Example sample_links_once :
  let '(r, w') := consume_completion "done" (calm 3) sample_linkable in
  r = Ok LinkedHistorical ∧ (consume_completion "done" (calm 3) w').1 = Ok LinkDuplicate.
Proof. vm_compute. done. Qed.

Lemma completions_link_exactly_witness :
  wp (calm 3) (consume_completion "done") (λ r w',
    match r with
    | Ok admission => ∃ c, decode_completion "done" = Ok c ∧
        admitted "done" c admission (w_db sample_linkable) (w_db w')
    | Err _ => w_db w' = w_db sample_linkable ∨ ∃ c admission, decode_completion "done" = Ok c ∧
        admitted "done" c admission (w_db sample_linkable) (w_db w')
    end) sample_linkable.
Proof. apply (completions_link_exactly (calm 3) "done" sample_linkable). done. Defined.
End KnowledgeSamples.
