(* ===== verification/PublicPost.v ===== *)
(** * Public resolution of one post ([crates/x-sync/src/public_post.rs])

    The app-only lookup of a post: the closed classification of what the HTTP exchange gave, and the
    post read from a successful one. The HTTP client, URL parsing and the decoding of the document are
    parameters; the worker sees only the interface [PublicPostResolver]. *)
From S2P Require Export Social.

(** ** Posts and failures *)

Record PublicAuthor := mkPublicAuthor {
  pa_id : string;
  pa_username : option string;
  pa_name : option string;
}.

Record PublicPost := mkPublicPost {
  pp_provider_id : string;
  pp_author : PublicAuthor;
  pp_text : string;
  pp_long_text : option string;
  pp_published_at : option Z;
  pp_expanded_urls : list string;
}.

Inductive PublicPostFailure := PostDeleted | PostInaccessible | PostTransient.

#[export] Instance public_post_failure_eq_dec : EqDecision PublicPostFailure.
Proof. solve_decision. Defined.

(** The resolver the worker is given: an answer per step. *)
Class PublicPostResolver := {
  resolve_answer : string → nat → result PublicPost PublicPostFailure;
}.

Definition resolve `{PublicPostResolver} {E} (provider_post_id : string) :
    Prog E (result PublicPost PublicPostFailure) :=
  call (ResolvePost provider_post_id) (resolve_answer provider_post_id).

(** ** The HTTP exchange *)

Definition EXPANSIONS : string := "author_id,attachments.media_keys,referenced_tweets.id".
Definition TWEET_FIELDS : string :=
  "created_at,text,entities,note_tweet,lang,conversation_id,public_metrics,referenced_tweets,attachments".
Definition USER_FIELDS : string := "username,name".
Definition MEDIA_FIELDS : string := "type,url,preview_image_url,width,height,alt_text,duration_ms".
Definition MAX_BODY_BYTES : Z := 1024 * 1024.

(** A response: its status, its declared length, the chunks of its body, and whether reading failed
    after them. *)
Record PostResponse := mkPostResponse {
  pr_status : Z;
  pr_content_length : option Z;
  pr_chunks : list string;
  pr_broken : bool;
}.

Class PostHttp := {
  url_ok : string → list (string * string) → bool;      (* [Url::parse_with_params] *)
  post_answer : string → nat → option PostResponse;     (* [send]: [None] is a transport failure *)
  parse_envelope : string → option Dto.Envelope;        (* [serde_json::from_slice::<Envelope>] *)
}.

Inductive PublicPostConfigError := BaseUrl | CaBundle | ClientBuild.

Record AppBearerResolver := mkAppBearerResolver { ab_endpoint : string; ab_bearer_token : string }.

(** [with_timeouts]: the extra trust bundle is the number of certificates read from it, when it could
    be read, and [client_ready] whether the HTTP client could be built. *)
Definition with_timeouts `{PostHttp} (api_base_url bearer_token : string) (extra_ca : option (option nat))
    (client_ready : bool) : result AppBearerResolver PublicPostConfigError :=
  let endpoint := trim_end_char "/" api_base_url +:+ "/2/tweets" in
  if negb (url_ok endpoint []) then Err BaseUrl
  else
    match extra_ca with
    | Some None | Some (Some O) => Err CaBundle
    | _ => if client_ready then Ok (mkAppBearerResolver endpoint bearer_token) else Err ClientBuild
    end.

(** [StatusCode]'s classes. *)
Definition is_success (status : Z) : bool := in_range 200 299 status.
Definition is_redirection (status : Z) : bool := in_range 300 399 status.
Definition is_server_error (status : Z) : bool := in_range 500 599 status.

Definition classify_status (status : Z) : option PublicPostFailure :=
  if is_success status then None
  else if (status =? 401) || (status =? 403) then Some PostTransient
  else if status =? 402 then Some PostTransient
  else if (status =? 429) || (status =? 408) || is_server_error status || is_redirection status
  then Some PostTransient
  else Some PostInaccessible.

Fixpoint read_chunks (body : string) (chunks : list string) (broken : bool) :
    result string PublicPostFailure :=
  match chunks with
  | [] => if broken then Err PostTransient else Ok body
  | chunk :: chunks =>
      if bool_decide (Z.of_nat (String.length body) + Z.of_nat (String.length chunk) > MAX_BODY_BYTES)
      then Err PostInaccessible
      else read_chunks (body +:+ chunk) chunks broken
  end.

Definition read_capped (response : PostResponse) : result string PublicPostFailure :=
  if match pr_content_length response with
     | Some length => bool_decide (length > MAX_BODY_BYTES)
     | None => false
     end
  then Err PostInaccessible
  else read_chunks "" (pr_chunks response) (pr_broken response).

(** [problem.get("type")?.as_str()] for every problem of the [errors] member. *)
Definition problem_type (problem : Value) : option string :=
  match problem with
  | Object members => match obj_get "type" members with Some (Str text) => Some text | _ => None end
  | _ => None
  end.
Definition problem_types (envelope : Dto.Envelope) : list string :=
  match obj_get "errors" (Dto.env_extension envelope) with
  | Some (Arr problems) => omap problem_type problems
  | _ => []
  end.
Definition classify_problems (envelope : Dto.Envelope) : PublicPostFailure :=
  if existsb (ends_with "resource-not-found") (problem_types envelope)
  then PostDeleted else PostInaccessible.

Section Lookup.
Context {ch : Chrono} {http : PostHttp}.

Definition public_post (batch : NormalizedBatch) (post : NormalizedPost) : PublicPost :=
  let author := find (λ user, String.eqb (nu_provider_id user) (np_author_provider_id post))
                  (nb_users batch) in
  mkPublicPost (np_provider_id post)
    (mkPublicAuthor (np_author_provider_id post) (author ≫= nu_username) (author ≫= nu_display_name))
    (np_text post) (np_long_text post) (np_published_at post) (np_expanded_urls post).

Definition parse_post (body : string) : result PublicPost PublicPostFailure :=
  match parse_envelope body with
  | None => Err PostInaccessible
  | Some envelope =>
      match Dto.posts envelope with
      | [] => Err (classify_problems envelope)
      | _ =>
          match validate envelope with
          | Some _ => Err PostInaccessible
          | None =>
              match normalize envelope with
              | Err _ => Err PostInaccessible
              | Ok batch =>
                  match nb_posts batch with
                  | [] => Err PostInaccessible
                  | post :: _ => Ok (public_post batch post)
                  end
              end
          end
      end
  end.

Definition lookup_params (provider_post_id : string) : list (string * string) :=
  [("ids", provider_post_id); ("expansions", EXPANSIONS); ("tweet.fields", TWEET_FIELDS);
   ("user.fields", USER_FIELDS); ("media.fields", MEDIA_FIELDS)]%string.

(** The judgement of a completed exchange. *)
Definition judge_response (response : PostResponse) : result PublicPost PublicPostFailure :=
  match classify_status (pr_status response) with
  | Some failure => Err failure
  | None =>
      match read_capped response with
      | Err failure => Err failure
      | Ok body => parse_post body
      end
  end.

Definition lookup_post (resolver : AppBearerResolver) (provider_post_id : string) (step : nat) :
    result PublicPost PublicPostFailure :=
  if negb (url_ok (ab_endpoint resolver) (lookup_params provider_post_id)) then Err PostTransient
  else
    match post_answer provider_post_id step with
    | None => Err PostTransient
    | Some response => judge_response response
    end.

(** The resolver over the official API is one. *)
Definition app_bearer_resolver (resolver : AppBearerResolver) : PublicPostResolver :=
  {| resolve_answer := lookup_post resolver |}.
End Lookup.

(** ** What a failure means *)

(** The body a response carries, when all of it arrived within the bound. *)
Definition joined (chunks : list string) : string := foldr String.append "" chunks.
Definition declared_fits (response : PostResponse) : bool :=
  match pr_content_length response with
  | Some length => bool_decide (length ≤ MAX_BODY_BYTES)
  | None => true
  end.
Definition within_cap (response : PostResponse) : bool :=
  declared_fits response && bool_decide (Z.of_nat (String.length (joined (pr_chunks response))) ≤ MAX_BODY_BYTES).

Lemma read_chunks_spec body chunks broken :
  Z.of_nat (String.length body) ≤ MAX_BODY_BYTES →
  read_chunks body chunks broken =
    if decide (Z.of_nat (String.length (body +:+ joined chunks)) ≤ MAX_BODY_BYTES)
    then if broken then Err PostTransient else Ok (body +:+ joined chunks)
    else Err PostInaccessible.
Proof.
  revert body. induction chunks as [|chunk chunks IH]; intros body Hb; cbn [read_chunks joined foldr].
  - rewrite str_app_nil_r, decide_True by done. done.
  - fold (joined chunks). case_bool_decide as Hn.
    + rewrite decide_False; [done|]. rewrite !str_length_app. lia.
    + rewrite IH by (rewrite str_length_app; lia). by rewrite str_app_assoc.
Qed.

(** Reading under the cap is the whole body or nothing: oversized bodies are refused wherever the
    bound is crossed, and a broken transfer is transient only for a body that could have fitted. *)
Lemma read_capped_spec response :
  read_capped response =
    if within_cap response
    then if pr_broken response then Err PostTransient else Ok (joined (pr_chunks response))
    else Err PostInaccessible.
Proof.
  unfold read_capped, within_cap. rewrite read_chunks_spec by (simpl; unfold MAX_BODY_BYTES; lia).
  change (("" +:+ joined (pr_chunks response))%string) with (joined (pr_chunks response)).
  assert (Hlen : match pr_content_length response with
            | Some length => bool_decide (length > MAX_BODY_BYTES) | None => false end =
          negb (declared_fits response)).
  { unfold declared_fits. destruct (pr_content_length response) as [n|]; [|done]. do 2 case_bool_decide; done || lia. }
  rewrite Hlen. destruct (declared_fits response); [|done].
  cbn [negb andb]. case_bool_decide; [by rewrite decide_True | by rewrite decide_False].
Qed.

(** Statuses that say something about the operator, the plan or the moment, not about the post. *)
Definition not_about_the_post (status : Z) : Prop :=
  status = 401 ∨ status = 402 ∨ status = 403 ∨ status = 408 ∨ status = 429 ∨
  300 ≤ status ≤ 399 ∨ 500 ≤ status ≤ 599.

Lemma classify_status_spec status :
  match classify_status status with
  | None => 200 ≤ status ≤ 299
  | Some PostTransient => not_about_the_post status
  | Some PostInaccessible => ¬ (200 ≤ status ≤ 299) ∧ ¬ not_about_the_post status
  | Some PostDeleted => False
  end.
Proof.
  unfold classify_status, not_about_the_post, is_success, is_redirection, is_server_error, in_range.
  case_bool_decide; [done|].
  destruct (Z.eqb_spec status 401), (Z.eqb_spec status 403), (Z.eqb_spec status 402),
    (Z.eqb_spec status 429), (Z.eqb_spec status 408); simpl; try tauto.
  do 2 case_bool_decide; simpl; tauto.
Qed.

(** The problem of a response that carries no post. *)
Definition reports_missing (envelope : Dto.Envelope) : Prop :=
  ∃ kind, kind ∈ problem_types envelope ∧ ends_with "resource-not-found" kind = true.

Lemma classify_problems_spec envelope :
  classify_problems envelope = PostDeleted ↔ reports_missing envelope.
Proof.
  unfold classify_problems, reports_missing. destruct (existsb _ _) eqn:E.
  - apply existsb_exists in E as (k & Hk & He). split; [|done]. intros _. exists k.
    by rewrite list_elem_of_In.
  - split; [done|]. intros (k & Hk & He). apply not_true_iff_false in E. exfalso. apply E.
    apply existsb_exists. exists k. by rewrite <-list_elem_of_In.
Qed.

Section Outcomes.
Context {ch : Chrono} {http : PostHttp}.

(** Every post of a batch is the normal form of a post of the payload. *)
Lemma batch_post_origin e b np :
  normalize e = Ok b → np ∈ nb_posts b →
  ∃ p, p ∈ Dto.posts e ∧ normalize_post p (author_id_of p) (split_references p).2 = Ok np.
Proof.
  intros (_ & _ & _ & raw & seen & [[nps us Hp He _ _ _ _ _ _]] & ->)%normalize_ok.
  simpl in *. unfold finish_batch. rewrite Hp. cbn [nb_posts]. rewrite elem_of_sort. intros Hin.
  apply list_elem_of_lookup_1 in Hin as [i Hi]. destruct (Forall2_lookup_r _ _ _ _ _ He Hi) as (p & Hpi & Hok).
  exists p. split; [|done]. rewrite <-(elem_of_sort post_leb). by eapply list_elem_of_lookup_2.
Qed.

(** What a lookup's answer rests on, outcome by outcome. A post is called deleted only when a complete
    successful response carries no post and says resource-not-found. It is called inaccessible only
    on a response about the post itself: never for a transport failure, a broken transfer that could
    have fitted, or a status about the credential, the plan, throttling, a redirect or a server. An
    answered post is the payload post with the least identity, of a payload in which every post is
    complete. *)
Theorem lookup_outcomes_are_conservative resolver provider_post_id step :
  match lookup_post resolver provider_post_id step with
  | Err PostTransient => True
  | outcome => ∃ response, post_answer provider_post_id step = Some response ∧
      ¬ not_about_the_post (pr_status response) ∧
      (within_cap response = true → 200 ≤ pr_status response ≤ 299 → pr_broken response = false) ∧
      match outcome with
      | Err PostDeleted => 200 ≤ pr_status response ≤ 299 ∧ within_cap response = true ∧
          ∃ envelope, parse_envelope (joined (pr_chunks response)) = Some envelope ∧
            Dto.posts envelope = [] ∧ reports_missing envelope
      | Ok post => 200 ≤ pr_status response ≤ 299 ∧ within_cap response = true ∧
          ∃ envelope p, parse_envelope (joined (pr_chunks response)) = Some envelope ∧
            p ∈ Dto.posts envelope ∧ Forall complete (Dto.posts envelope) ∧
            (∀ q, q ∈ Dto.posts envelope → str_leb (provider_id_of p) (provider_id_of q) = true) ∧
            pp_provider_id post = provider_id_of p ∧ pa_id (pp_author post) = author_id_of p ∧
            Some (pp_text post) = Dto.po_text p
      | Err _ => True
      end
  end.
Proof.
  unfold lookup_post. destruct (negb _); [done|].
  destruct (post_answer _ _) as [response|] eqn:Ea; [|done]. unfold judge_response.
  pose proof (classify_status_spec (pr_status response)) as Hs.
  assert (Hok : 200 ≤ pr_status response ≤ 299 → ¬ not_about_the_post (pr_status response)).
  { unfold not_about_the_post. lia. }
  destruct (classify_status _) as [[]|]; [done| |done|].
  { exists response. by destruct Hs. }
  rewrite read_capped_spec. destruct (within_cap response) eqn:Ew.
  2:{ exists response. split_and!; auto. by rewrite Ew. }
  destruct (pr_broken response) eqn:Eb; [done|]. unfold parse_post.
  destruct (parse_envelope _) as [e|] eqn:Ee; [|exists response; auto].
  destruct (Dto.posts e) as [|p0 ps] eqn:Ep.
  { pose proof (classify_problems_spec e) as Hc. destruct (classify_problems e); [| |done].
    - exists response. split_and!; auto; try lia. exists e. split_and!; auto. by apply Hc.
    - exists response. auto. }
  destruct (validate e); [exists response; auto|].
  destruct (normalize e) as [b|] eqn:En; [|exists response; auto].
  destruct (normalized_posts e b En) as (Hsorted & Hids & Hne).
  destruct (nb_posts b) as [|np nps] eqn:Enp; [done|].
  destruct (batch_post_origin e b np En) as (p & Hp & Hok'); [rewrite Enp; by left|].
  pose proof (normalize_post_fields _ _ _ _ Hok') as (Hid & Hau & _).
  exists response. split_and!; auto; try lia. exists e, p. split_and!; try done.
  - by apply normalize_ok in En as (_ & ? & _).
  - intros q Hq. assert (Hin : provider_id_of q ∈ np_provider_id <$> np :: nps).
    { rewrite Hids. apply list_elem_of_fmap. by exists q. }
    cbn [fmap list_fmap] in Hsorted, Hin. rewrite <-Hid.
    apply elem_of_cons in Hin as [->|Hin]; [apply str_leb_refl|].
    inversion Hsorted as [|? ? _ Hall]; subst. rewrite Forall_forall in Hall. by apply Hall.
  - apply normalize_ok in En as (_ & Hc & _). rewrite Forall_forall in Hc.
    destruct (Hc p Hp) as (_ & (text & Et & _) & _). unfold normalize_post in Hok'.
    destruct (parse_from_rfc3339 _); [|done]. injection Hok' as <-. by rewrite Et.
Qed.
End Outcomes.
