(* ===== verification/PublicCapture.v ===== *)
(** * The public capture worker ([crates/x-sync/src/public_capture.rs])

    A pass claims the captures that are due, asks the resolver for each post, and commits one outcome
    per capture in one transaction: the owner's source and its event, and the one terminal report. *)
From S2P Require Export BrowserCapture PublicPost.

Definition LEASE : Z := 120 * usec.
Definition FIRST_RETRY_SECONDS : Z := 30.
Definition MAX_RETRY_SECONDS : Z := 30 * 60.

Record CapturePolicy := mkCapturePolicy { cp_max_attempts : Z; cp_batch_size : Z }.

Record CaptureRunSummary := mkCaptureRunSummary {
  cs_claimed : Z;
  cs_preserved : Z;
  cs_unavailable : Z;
  cs_deferred : Z;
}.

Inductive PublicCaptureError :=
  | CaptureQuery
  | CaptureSnapshot (e : SnapshotError)
  | CaptureQueue (e : QueueError)
  | CaptureReport
  | CaptureOutbox (e : OutboxError).

Record ClaimedCapture := mkClaimedCapture {
  cl_capture_id : Z;
  cl_command_id : string;
  cl_operation_id : Z;
  cl_owner : Z;
  cl_provider_post_id : string;
  cl_attempts : Z;
  cl_captured_at : Z;
}.

(** What the worker needs of the contract crates besides the reports: the removal payload. *)
Class RemovalContracts := {
  removal_payload_ok : Value → bool;     (* [serde_json::from_value::<SocialSourceRemoved>] *)
}.

(** ** Claiming *)

Definition i32_saturating_succ (z : Z) : Z := Z.min i32_max (z + 1).

Definition is_due (now : Z) (row : ExplicitCapture) : bool :=
  String.eqb (xc_status row) "accepted" && bool_decide (is_Some (xc_provider_post_id row)) &&
  bool_decide (xc_next_attempt_at row ≤ now).

(** [order by next_attempt_at, capture_id]. *)
Definition due_leb (a b : Z * ExplicitCapture) : bool :=
  (xc_next_attempt_at a.2 <? xc_next_attempt_at b.2) ||
  ((xc_next_attempt_at a.2 =? xc_next_attempt_at b.2) && (a.1 <=? b.1)).

(** The due rows no other transaction holds, in order and up to the limit. *)
Definition due_captures (now limit : Z) (locked : gset Z) (d : Db) : list (Z * ExplicitCapture) :=
  take (Z.to_nat limit) (sort due_leb
    (List.filter (λ kv, is_due now kv.2 && negb (bool_decide (kv.1 ∈ locked)))
       (map_to_list (explicit_captures d)))).

Definition leased (until : Z) (row : ExplicitCapture) : ExplicitCapture :=
  mkExplicitCapture (xc_command_id row) (xc_operation_id row) (xc_owner row) (xc_provider_post_id row)
    (xc_original_permalink row) (xc_captured_at row) (xc_status row) (xc_attempts row) until
    (xc_social_source_id row) (xc_reported_at row).

Definition claimed_row (kv : Z * ExplicitCapture) : ClaimedCapture :=
  mkClaimedCapture kv.1 (xc_command_id kv.2) (xc_operation_id kv.2) (xc_owner kv.2)
    (default "" (xc_provider_post_id kv.2)) (xc_attempts kv.2) (xc_captured_at kv.2).

(** The claiming statement: the leased rows are returned. Postgres leaves their order open; the model
    returns them in the order they were selected. *)
Definition claim_statement (now limit : Z) (locked : gset Z) (d : Db) : list ClaimedCapture * Db :=
  let due := due_captures now limit locked d in
  (claimed_row <$> due,
   on_explicit_captures (λ captures,
     foldr (λ kv m, alter (leased (now + LEASE)) kv.1 m) captures due) d).

(** ** Retries *)

(** The wait before attempt [failures + 1], in microseconds. *)
Definition retry_delay (failures : Z) : Z :=
  let predecessor := Z.max i32_min (failures - 1) in
  let exponent := Z.min (if predecessor <? 0 then 0 else predecessor) 8 in
  let seconds := Z.min i64_max (FIRST_RETRY_SECONDS * 4 ^ exponent) in
  Z.min seconds MAX_RETRY_SECONDS * usec.

(** A guarded update of one waiting capture: whether it was still waiting. *)
Definition is_waiting (row : ExplicitCapture) : bool :=
  String.eqb (xc_status row) "accepted" && negb (bool_decide (is_Some (xc_reported_at row))).
Definition update_waiting (id : Z) (change : Z → ExplicitCapture → ExplicitCapture) (d : Db) :
    option (bool * Db) :=
  match explicit_captures d !! id with
  | Some row =>
      if is_waiting row then
        attempts ← int4 (xc_attempts row + 1);
        Some (true, on_explicit_captures (insert id (change attempts row)) d)
      else Some (false, d)
  | None => Some (false, d)
  end.

Definition deferred_capture (until attempts : Z) (row : ExplicitCapture) : ExplicitCapture :=
  mkExplicitCapture (xc_command_id row) (xc_operation_id row) (xc_owner row) (xc_provider_post_id row)
    (xc_original_permalink row) (xc_captured_at row) (xc_status row) attempts until
    (xc_social_source_id row) (xc_reported_at row).
Definition unavailable_capture (now attempts : Z) (row : ExplicitCapture) : ExplicitCapture :=
  mkExplicitCapture (xc_command_id row) (xc_operation_id row) (xc_owner row) (xc_provider_post_id row)
    (xc_original_permalink row) (xc_captured_at row) "unavailable" attempts now
    (xc_social_source_id row) (Some now).
Definition resolved_capture (source now attempts : Z) (row : ExplicitCapture) : ExplicitCapture :=
  mkExplicitCapture (xc_command_id row) (xc_operation_id row) (xc_owner row) (xc_provider_post_id row)
    (xc_original_permalink row) (xc_captured_at row) "resolved" attempts now (Some source) (Some now).

(** ** The owner's source *)

Definition explicit_facts (post : PublicPost) : SourceFacts :=
  mkSourceFacts (pp_provider_id post) (pp_text post) (pp_long_text post) (pp_published_at post) "active"
    (pa_id (pp_author post)) (pa_username (pp_author post)) (pa_name (pp_author post))
    (pp_expanded_urls post).

Definition explicit_row (source : Z) (post : PublicPost) (digest : string * string) (captured_at : Z) :
    ExplicitSource :=
  mkExplicitSource source (pa_id (pp_author post)) (pa_username (pp_author post)) (pa_name (pp_author post))
    (pp_text post) (pp_long_text post) (pp_published_at post) (pp_expanded_urls post) digest captured_at.

(** [insert ... on conflict (owner, provider_post_id) do update]: a known source keeps its identity;
    a new one needs a fresh identity and a valid post id. *)
Definition upsert_explicit (owner : Z) (provider_post_id : string) (source : Z) (post : PublicPost)
    (digest : string * string) (captured_at : Z) (d : Db) : option (unit * Db) :=
  let key := (owner, provider_post_id) in
  match explicit_sources d !! key with
  | Some row =>
      Some (tt, on_explicit_sources
        (insert key (explicit_row (xs_social_source_id row) post digest captured_at)) d)
  | None =>
      if negb (is_status_id provider_post_id) ||
         bool_decide (is_Some (find_row (λ _ row, bool_decide (xs_social_source_id row = source))
                                 (explicit_sources d)))
      then None
      else Some (tt, on_explicit_sources (insert key (explicit_row source post digest captured_at)) d)
  end.

Definition delete_explicit (owner : Z) (provider_post_id : string) (d : Db) :
    option (option Z * Db) :=
  let key := (owner, provider_post_id) in
  Some (xs_social_source_id <$> explicit_sources d !! key, on_explicit_sources (delete key) d).

Section Worker.
Context {ct : Contracts} {ec : EnvelopeCodec} {cr : Crypto} {ac : ArticleContracts}
  {sc : SocialContracts} {cc : CaptureContracts} {rc : RemovalContracts} {resolver : PublicPostResolver}.
(** The rows other transactions hold when a step's statement skips locked rows. *)
Context (locked : nat → gset Z).

(** [skip locked] consults the locks when the statement runs. *)
Definition locked_rows {E} : Prog E (gset Z) := λ _ w, (Ok (locked (w_tick w)), w).

Definition claim_due (policy : CapturePolicy) : Prog PublicCaptureError (list ClaimedCapture) :=
  let! now := clock_now in
  on_pool (
    let! held := locked_rows in
    stmt CaptureQuery (λ d, Some (claim_statement now (cp_batch_size policy) held d))).

Definition has_attempts_left (policy : CapturePolicy) (capture : ClaimedCapture) : bool :=
  let made := i32_saturating_succ (cl_attempts capture) in
  (0 <=? made) && (made <? cp_max_attempts policy).

Definition defer (capture : ClaimedCapture) : Prog PublicCaptureError unit :=
  let delay := retry_delay (i32_saturating_succ (cl_attempts capture)) in
  let! now := clock_now in
  on_pool (
    do! stmt CaptureQuery (update_waiting (cl_capture_id capture) (deferred_capture (now + delay))) in
    ret tt).

Definition unavailability (failure : PublicPostFailure) : SourceUnavailability :=
  match failure with
  | PostDeleted => UnavailableDeleted
  | PostInaccessible => UnavailableInaccessible
  | PostTransient => UnavailableTransient
  end.

Definition removal_document (source owner removed_at : Z) : Value :=
  obj [("social_source_id", Str (uuid_text source)); ("owner", Str ("user:" +:+ uuid_text owner));
       ("reason", Str "retention_policy"); ("removed_at", Str (wire_timestamp removed_at))].

Definition remove_owner_source (capture : ClaimedCapture) (removed_at : Z) : Prog PublicCaptureError unit :=
  let! removed := stmt CaptureQuery (delete_explicit (cl_owner capture) (cl_provider_post_id capture)) in
  match removed with
  | None => ret tt
  | Some source =>
      let payload := removal_document source (cl_owner capture) removed_at in
      if negb (removal_payload_ok payload) then throw (CaptureQueue Payload)
      else
        let! aggregate := of_result (result_map_err CaptureQueue (entity "social_source" (uuid_text source))) in
        let! causation := of_result (result_map_err CaptureQueue
                                       (entity "capture" (uuid_text (cl_capture_id capture)))) in
        do! map_err CaptureQueue (queue_envelope REMOVAL_EVENT_TYPE
              (mkEnvelopeFacts aggregate aggregate (Some causation) (cl_owner capture) removed_at) payload) in
        ret tt
  end.

(** The worker's own [queue_report]. *)
Definition queue_terminal_report (capture : ClaimedCapture) (report : Value) : Prog PublicCaptureError unit :=
  if negb (command_id_ok (cl_command_id capture)) then throw (CaptureQueue Identifier)
  else
    let! aggregate := of_result (result_map_err CaptureQueue
                                   (entity "capture" (uuid_text (cl_capture_id capture)))) in
    let! event_id := new_uuid in
    match report_envelope PRODUCER (cl_owner capture) (cl_operation_id capture) aggregate
            (cl_command_id capture) event_id report with
    | None => throw CaptureReport
    | Some envelope => map_err CaptureOutbox (enqueue envelope)
    end.

(** The transaction body of [terminate]. The advisory lock is a statement that can fail. *)
Definition terminate_body (capture : ClaimedCapture) (failure : PublicPostFailure) :
    Prog PublicCaptureError (ending unit) :=
  do! execute CaptureQuery (λ d, d) in
  let! now := clock_now in
  let! guarded := stmt CaptureQuery (update_waiting (cl_capture_id capture) (unavailable_capture now)) in
  if (guarded : bool) then
    do! (match failure with
         | PostDeleted => let! now := clock_now in remove_owner_source capture now
         | _ => ret tt
         end) in
    let! report := of_result (ok_or (unavailable_report (cl_operation_id capture) (unavailability failure))
                                CaptureReport) in
    do! queue_terminal_report capture report in
    ret (Commit tt)
  else ret (Commit tt).

Definition terminate (capture : ClaimedCapture) (failure : PublicPostFailure) :
    Prog PublicCaptureError unit :=
  transaction CaptureQuery (terminate_body capture failure).

(** The changed branch of [upsert_owner_source]. *)
Definition publish_owner_source (capture : ClaimedCapture) (post : PublicPost) (digest : string * string)
    (source : Z) (fact : SourceFact) : Prog PublicCaptureError Z :=
  let! snapshot := of_result (result_map_err CaptureSnapshot
    (facts_snapshot (explicit_facts post) source (cl_owner capture) digest (cl_captured_at capture)
       EXPLICIT_PROVENANCE)) in
  do! stmt CaptureQuery (upsert_explicit (cl_owner capture) (cl_provider_post_id capture) source post digest
                           (cl_captured_at capture)) in
  do! map_err CaptureSnapshot
        (queue_source_event (cl_owner capture) fact source snapshot (cl_captured_at capture)) in
  ret source.

Definition upsert_owner_source (capture : ClaimedCapture) (post : PublicPost) : Prog PublicCaptureError Z :=
  let digest := facts_digest (explicit_facts post) EXPLICIT_PROVENANCE in
  let! existing := select CaptureQuery (λ d,
    explicit_sources d !! (cl_owner capture, cl_provider_post_id capture)) in
  match existing with
  | Some row =>
      if bool_decide (xs_current_content_digest row = digest) then ret (xs_social_source_id row)
      else publish_owner_source capture post digest (xs_social_source_id row) Updated
  | None =>
      let! source := new_uuid in
      publish_owner_source capture post digest source Captured
  end.

Definition preserve_body (capture : ClaimedCapture) (post : PublicPost) :
    Prog PublicCaptureError (ending unit) :=
  do! execute CaptureQuery (λ d, d) in
  let! source := upsert_owner_source capture post in
  let! now := clock_now in
  let! guarded := stmt CaptureQuery (update_waiting (cl_capture_id capture) (resolved_capture source now)) in
  if (guarded : bool) then
    let! report := of_result (ok_or (preserved_report (cl_operation_id capture) source) CaptureReport) in
    do! queue_terminal_report capture report in
    ret (Commit tt)
  else ret (Rollback tt).

Definition preserve (capture : ClaimedCapture) (post : PublicPost) : Prog PublicCaptureError unit :=
  transaction CaptureQuery (preserve_body capture post).

Definition count_preserved (s : CaptureRunSummary) : CaptureRunSummary :=
  mkCaptureRunSummary (cs_claimed s) (cs_preserved s + 1) (cs_unavailable s) (cs_deferred s).
Definition count_unavailable (s : CaptureRunSummary) : CaptureRunSummary :=
  mkCaptureRunSummary (cs_claimed s) (cs_preserved s) (cs_unavailable s + 1) (cs_deferred s).
Definition count_deferred (s : CaptureRunSummary) : CaptureRunSummary :=
  mkCaptureRunSummary (cs_claimed s) (cs_preserved s) (cs_unavailable s) (cs_deferred s + 1).

Definition end_unavailable (capture : ClaimedCapture) (failure : PublicPostFailure)
    (summary : CaptureRunSummary) : Prog PublicCaptureError CaptureRunSummary :=
  do! terminate capture failure in
  ret (count_unavailable summary).

(** The loop body of [run_due_once]. *)
Definition process_capture (policy : CapturePolicy) (summary : CaptureRunSummary)
    (capture : ClaimedCapture) : Prog PublicCaptureError CaptureRunSummary :=
  let! resolved := resolve (cl_provider_post_id capture) in
  match resolved with
  | Ok post =>
      if String.eqb (pp_provider_id post) (cl_provider_post_id capture) then
        let! preserved := attempt (preserve capture post) in
        match preserved with
        | Ok _ => ret (count_preserved summary)
        | Err (CaptureSnapshot SnapshotContract) => end_unavailable capture PostInaccessible summary
        | Err error => throw error
        end
      else end_unavailable capture PostInaccessible summary
  | Err failure =>
      if bool_decide (failure = PostTransient) && has_attempts_left policy capture then
        do! defer capture in
        ret (count_deferred summary)
      else end_unavailable capture failure summary
  end.

Definition run_due_once (policy : CapturePolicy) : Prog PublicCaptureError CaptureRunSummary :=
  let! claimed := claim_due policy in
  fold_m (process_capture policy)
    (mkCaptureRunSummary (Z.min u32_max (Z.of_nat (length claimed))) 0 0 0) claimed.
End Worker.
