(* ===== verification/PublicCaptureSafety.v ===== *)
(** * Every capture is reported once

    What the acceptance consumer ([BrowserCapture.v]) and the capture worker ([PublicCapture.v]) do to
    the captures and their reports, whatever fails and however they interleave. *)
From S2P Require Export PublicCapture.

(** ** A capture keeps its identity, and its end is final *)

Definition same_capture (c c' : ExplicitCapture) : Prop :=
  xc_command_id c' = xc_command_id c ∧ xc_operation_id c' = xc_operation_id c ∧
  xc_owner c' = xc_owner c ∧ xc_provider_post_id c' = xc_provider_post_id c ∧
  xc_original_permalink c' = xc_original_permalink c ∧ xc_captured_at c' = xc_captured_at c ∧
  (xc_status c ≠ "accepted"%string → c' = c).

#[export] Instance same_capture_preorder : PreOrder same_capture.
Proof.
  split; [by intros c; repeat split|]. unfold same_capture.
  intros c1 c2 c3 (? & ? & ? & ? & ? & ? & S1) (? & ? & ? & ? & ? & ? & S2).
  split_and!; try congruence. intros Hs. pose proof (S1 Hs) as ->. auto.
Qed.

Definition captures_kept (d d' : Db) : Prop :=
  ∀ id c, explicit_captures d !! id = Some c →
    ∃ c', explicit_captures d' !! id = Some c' ∧ same_capture c c'.

#[export] Instance captures_kept_preorder : PreOrder captures_kept.
Proof.
  split; [intros d id c Hc; exists c; by split|]. intros d1 d2 d3 H1 H2 id c Hc.
  destruct (H1 id c Hc) as (c2 & Hc2 & S1). destruct (H2 id c2 Hc2) as (c3 & Hc3 & S2).
  exists c3. split; [done|]. by etrans.
Qed.

Lemma captures_kept_same d d' : explicit_captures d' = explicit_captures d → captures_kept d d'.
Proof. intros E id c Hc. exists c. by rewrite E. Qed.

Lemma captures_kept_insert d id c c' :
  explicit_captures d !! id = Some c → same_capture c c' →
  captures_kept d (on_explicit_captures (insert id c') d).
Proof.
  intros Hc Hs i x Hx. cbn [explicit_captures on_explicit_captures].
  destruct (decide (id = i)) as [<-|Hne].
  - exists c'. rewrite lookup_insert_eq. split; [done|]. by simplify_eq.
  - exists x. by rewrite lookup_insert_ne.
Qed.

Lemma waiting_status row : is_waiting row = true → xc_status row = "accepted"%string ∧ xc_reported_at row = None.
Proof.
  unfold is_waiting. rewrite andb_true_iff, negb_true_iff, bool_decide_eq_false, String.eqb_eq.
  intros [? Hn]. split; [done|]. destruct (xc_reported_at row); [|done]. exfalso. apply Hn. eauto.
Qed.

(** A guarded update either did nothing or rewrote one waiting row. *)
Lemma update_waiting_Some id change d b d' :
  update_waiting id change d = Some (b, d') →
  (b = false ∧ d' = d) ∨
  (b = true ∧ ∃ row attempts, explicit_captures d !! id = Some row ∧ is_waiting row = true ∧
     attempts = xc_attempts row + 1 ∧ d' = on_explicit_captures (insert id (change attempts row)) d).
Proof.
  unfold update_waiting. destruct (explicit_captures d !! id) as [row|]; [|intros [= <- <-]; auto].
  destruct (is_waiting row) eqn:Ew; [|intros [= <- <-]; auto].
  destruct (int4 _) as [n|] eqn:En; [|done]. apply int4_Some in En as [-> _]. intros [= <- <-].
  right. split; [done|]. by exists row, (xc_attempts row + 1).
Qed.

Lemma update_waiting_kept id change d b d' :
  (∀ attempts row, xc_status row = "accepted"%string → same_capture row (change attempts row)) →
  update_waiting id change d = Some (b, d') → captures_kept d d'.
Proof.
  intros Hc [(_ & ->)|(_ & row & n & Hr & Hw & _ & ->)]%update_waiting_Some; [reflexivity|].
  apply waiting_status in Hw as [Hs _]. eapply captures_kept_insert; [done|]. by apply Hc.
Qed.

Lemma deferred_same until attempts row :
  xc_status row = "accepted"%string → same_capture row (deferred_capture until attempts row).
Proof. by repeat split. Qed.
Lemma unavailable_same now attempts row :
  xc_status row = "accepted"%string → same_capture row (unavailable_capture now attempts row).
Proof. by repeat split. Qed.
Lemma resolved_same source now attempts row :
  xc_status row = "accepted"%string → same_capture row (resolved_capture source now attempts row).
Proof. by repeat split. Qed.

(** ** Claims *)

(** What a claim remembers of its row; it stays true of the row. *)
Definition claimed_in (capture : ClaimedCapture) (d : Db) : Prop :=
  ∃ c, explicit_captures d !! cl_capture_id capture = Some c ∧
    xc_command_id c = cl_command_id capture ∧ xc_operation_id c = cl_operation_id capture ∧
    xc_owner c = cl_owner capture ∧ xc_provider_post_id c = Some (cl_provider_post_id capture).

Lemma claimed_in_kept capture d d' : captures_kept d d' → claimed_in capture d → claimed_in capture d'.
Proof.
  intros Hk (c & Hc & ? & ? & ? & ?). destruct (Hk _ c Hc) as (c' & Hc' & S).
  destruct S as (? & ? & ? & ? & _). exists c'. split_and!; congruence.
Qed.

(** The rows a claim leases. *)
Definition lease_all (until : Z) (due : list (Z * ExplicitCapture)) (captures : gmap Z ExplicitCapture) :
    gmap Z ExplicitCapture :=
  foldr (λ kv m, alter (leased until) kv.1 m) captures due.

Lemma lookup_leased until due captures id :
  lease_all until due captures !! id =
    if decide (id ∈ due.*1) then leased until <$> captures !! id else captures !! id.
Proof.
  induction due as [|[k c] due IH]; [done|].
  change (lease_all until ((k, c) :: due) captures) with (alter (leased until) k (lease_all until due captures)).
  rewrite fmap_cons. cbn [fst]. rewrite lookup_alter, IH.
  destruct (decide (id ∈ k :: due.*1)) as [Hc|Hc]; rewrite elem_of_cons in Hc.
  - destruct (decide (k = id)) as [->|Hne].
    + rewrite IH. destruct (decide (id ∈ due.*1)); by destruct (captures !! id).
    + rewrite decide_True; [done|]. destruct Hc; [congruence|done].
  - rewrite (decide_False (P:=k = id)) by (intros ->; apply Hc; by left).
    rewrite decide_False; [done|]. intros Hin. apply Hc. by right.
Qed.

Lemma due_capture_row now limit locked d id c :
  (id, c) ∈ due_captures now limit locked d →
  explicit_captures d !! id = Some c ∧ is_due now c = true.
Proof.
  unfold due_captures. intros (i & Hi & _)%elem_of_take. apply list_elem_of_lookup_2 in Hi.
  apply elem_of_sort, list_elem_of_In, filter_In in Hi as [Hin Hd]. apply andb_true_iff in Hd as [Hd _].
  split; [|done]. by apply elem_of_map_to_list, list_elem_of_In.
Qed.

Lemma is_due_spec now c :
  is_due now c = true →
  xc_status c = "accepted"%string ∧ is_Some (xc_provider_post_id c) ∧ xc_next_attempt_at c ≤ now.
Proof.
  unfold is_due. rewrite !andb_true_iff, String.eqb_eq, !bool_decide_eq_true. tauto.
Qed.

Lemma claim_statement_spec now limit locked d claimed d' :
  claim_statement now limit locked d = (claimed, d') →
  captures_kept d d' ∧ outbox_events d' = outbox_events d ∧
  Forall (λ capture, claimed_in capture d) claimed ∧
  ∃ due, d' = on_explicit_captures (lease_all (now + LEASE) due) d ∧
    ∀ id c, (id, c) ∈ due → explicit_captures d !! id = Some c ∧ is_due now c = true.
Proof.
  unfold claim_statement. intros [= <- <-]. pose proof (due_capture_row now limit locked d) as Hdue.
  set (due := due_captures now limit locked d) in *. split_and!; [|done| |by exists due].
  - intros id c Hc. cbn [explicit_captures on_explicit_captures].
    fold (lease_all (now + LEASE) due (explicit_captures d)). rewrite lookup_leased, Hc.
    case_decide as Hin; [|by exists c]. exists (leased (now + LEASE) c). split; [done|].
    apply list_elem_of_fmap in Hin as ([k x] & -> & Hin). apply Hdue in Hin as [Hx Hd].
    cbn [fst] in Hc. assert (x = c) as -> by congruence. apply is_due_spec in Hd as [Hs _]. by repeat split.
  - apply Forall_forall. intros capture Hin. apply list_elem_of_fmap in Hin as ([id c] & -> & Hin).
    apply Hdue in Hin as [Hc Hd]. apply is_due_spec in Hd as (_ & [post Hp] & _).
    exists c. unfold claimed_row. cbn. by rewrite Hp.
Qed.

(** ** What leaves the reports alone *)

Section Frames.
Context {ct : Contracts} {ec : EnvelopeCodec} {cr : Crypto} {ac : ArticleContracts}
  {sc : SocialContracts} {cc : CaptureContracts} {cl : CaptureContractsLaws} {rc : RemovalContracts}
  {resolver : PublicPostResolver}.

Definition reports_frame (d d' : Db) : Prop :=
  explicit_captures d' = explicit_captures d ∧
  ∀ id, report_documents id d' ≡ₚ report_documents id d.

#[export] Instance reports_frame_preorder : PreOrder reports_frame.
Proof.
  split; [by intros d|]. intros d1 d2 d3 [E1 P1] [E2 P2]. split; [congruence|].
  intros id. by rewrite P2, P1.
Qed.

Lemma queue_envelope_reports env event_type facts payload :
  event_type ≠ OPERATION_REPORTED →
  guar env (on_db reports_frame) (queue_envelope event_type facts payload).
Proof.
  intros Hne. apply guar_wp. intros w. eapply wp_mono; [apply queue_envelope_effect|].
  intros r w' [E|(e & now & Hb & _ & Hn & E)]; unfold on_db; rewrite E; [reflexivity|].
  split; [done|]. intros id. rewrite report_documents_insert by done.
  apply build_envelope_fields in Hb as (_ & Hty & _). rewrite decide_False; [done|].
  intros [Ht _]. unfold fresh_row in Ht. cbn in Ht. congruence.
Qed.

Lemma queue_source_event_reports env owner fact source snapshot captured_at :
  guar env (on_db reports_frame) (queue_source_event owner fact source snapshot captured_at).
Proof.
  unfold queue_source_event. guar_steps. apply queue_envelope_reports. by destruct fact.
Qed.

Lemma remove_owner_source_reports env capture removed_at :
  guar env (on_db reports_frame) (remove_owner_source capture removed_at).
Proof.
  unfold remove_owner_source. guar_steps; [|by apply queue_envelope_reports].
  unfold on_db. match goal with H : delete_explicit _ _ _ = _ |- _ => injection H as _ <- end. by split.
Qed.

Lemma publish_owner_source_reports env capture post digest source fact :
  guar env (on_db reports_frame) (publish_owner_source capture post digest source fact).
Proof.
  unfold publish_owner_source. guar_steps; [|apply queue_source_event_reports].
  unfold on_db, upsert_explicit in *.
  match goal with H : match explicit_sources _ !! _ with _ => _ end = _ |- _ => rename H into Hu end.
  destruct (explicit_sources _ !! _); [by injection Hu as _ <-|]. destruct (_ || _); [done|].
  by injection Hu as _ <-.
Qed.

Lemma upsert_owner_source_reports env capture post :
  guar env (on_db reports_frame) (upsert_owner_source capture post).
Proof.
  unfold upsert_owner_source. guar_steps; apply publish_owner_source_reports.
Qed.

Lemma queue_terminal_report_queued env capture report (w : W) :
  yields env (queue_terminal_report capture report)
    (λ _ w', report_queued (cl_owner capture) (cl_capture_id capture) report (w_db w) (w_db w')) w.
Proof.
  unfold queue_terminal_report, entity. destruct (negb _); [by yields_steps|]. yields_steps.
  intros aggregate Ha. destruct (entity_ref_ok _); [|done]. injection Ha as <-. yields_steps.
  destruct (report_envelope _ _ _ _ _ _ _) as [e|] eqn:E; yields_steps.
  exact (enqueue_report_queued env _ _ (cl_capture_id capture) _ _ _ _ _ E).
Qed.
End Frames.

(** ** The worker's transactions *)

Section Safety.
Context {ct : Contracts} {ec : EnvelopeCodec} {cr : Crypto} {ac : ArticleContracts}
  {sc : SocialContracts} {cc : CaptureContracts} {cl : CaptureContractsLaws} {rc : RemovalContracts}
  {resolver : PublicPostResolver} {Huuid : Inj (=) (=) uuid_text}.

(** What both services do to the captures: nothing is forgotten, ends are final, and the reports stay
    in step. *)
Definition captures_follow (d d' : Db) : Prop :=
  captures_kept d d' ∧ (CapturesReported d → CapturesReported d').

#[export] Instance captures_follow_preorder : PreOrder captures_follow.
Proof.
  split; [by intros d; split|]. intros d1 d2 d3 [K1 R1] [K2 R2]. split; [by etrans|auto].
Qed.

Lemma captures_reported_iff d d' :
  explicit_captures d' = explicit_captures d →
  (∀ id, report_documents id d' ≡ₚ report_documents id d) →
  CapturesReported d → CapturesReported d'.
Proof.
  intros Hc Hp [H1 H2 H3]. split; rewrite ?Hc; [| |done].
  - intros id c Hid. eapply reported_so_far_perm; [symmetry; apply Hp|]. by apply H1.
  - intros id Hn. specialize (Hp id). rewrite (H2 id Hn) in Hp. by apply Permutation_nil_r in Hp.
Qed.

Lemma reports_frame_follows d d' : reports_frame d d' → captures_follow d d'.
Proof.
  intros [E P]. split; [by apply captures_kept_same|]. by apply captures_reported_iff.
Qed.

(** A rewritten row whose reports are still right. *)
Lemma captures_reported_rewrite d d' id row row' :
  CapturesReported d → explicit_captures d !! id = Some row → same_capture row row' →
  explicit_captures d' = <[id := row']> (explicit_captures d) →
  (∀ other, other ≠ id → report_documents other d' ≡ₚ report_documents other d) →
  reported_so_far row' (report_documents id d') → CapturesReported d'.
Proof.
  intros [H1 H2 H3] Hr (Hcmd & _) Hc Hother Hrow. split; rewrite ?Hc.
  - intros i c [[<- <-]|[Hne Hi]]%lookup_insert_Some; [done|].
    eapply reported_so_far_perm; [symmetry; by apply Hother|]. by apply H1.
  - intros i [Hi Hne]%lookup_insert_None. specialize (Hother i). rewrite (H2 i Hi) in Hother.
    by apply Permutation_nil_r, Hother.
  - intros i j c c' [[<- <-]|[? Hi]]%lookup_insert_Some [[<- <-]|[? Hj]]%lookup_insert_Some E;
      [done| | |by eapply H3].
    + eapply (H3 _ _ row c'); [done..|congruence].
    + eapply (H3 _ _ c row); [done..|congruence].
Qed.

Lemma waiting_reported row docs :
  is_waiting row = true → reported_so_far row docs →
  ∃ first, is_Some (xc_provider_post_id row) ∧ queued_report (xc_operation_id row) = Some first ∧
    docs ≡ₚ [first].
Proof. intros [Hs _]%waiting_status H. destruct H; try congruence. eauto. Qed.

(** A row that changes while it waits: its reports do not. *)
Lemma captures_reported_waiting d id row row' :
  CapturesReported d → explicit_captures d !! id = Some row → is_waiting row = true →
  same_capture row row' → xc_status row' = xc_status row → xc_reported_at row' = xc_reported_at row →
  CapturesReported (on_explicit_captures (insert id row') d).
Proof.
  intros HI Hr Hw Hsame Hs Hrep. destruct (waiting_status row Hw) as [Es Er].
  destruct (waiting_reported row _ Hw (cp_reported d HI id row Hr)) as (first & Hpost & Hq & Hp).
  eapply captures_reported_rewrite; [exact HI|exact Hr|exact Hsame|done|by intros|].
  destruct Hsame as (_ & Eop & _ & Epost & _).
  eapply report_waiting; rewrite ?Eop, ?Epost; eauto; congruence.
Qed.

(** The end of a capture: the row and the one terminal report. *)
Lemma captures_reported_ends d d1 d2 d3 id row row' owner last :
  CapturesReported d → explicit_captures d !! id = Some row → is_waiting row = true →
  same_capture row row' → is_Some (xc_reported_at row') →
  ((xc_status row' = "unavailable"%string ∧
      ∃ reason, unavailable_report (xc_operation_id row) reason = Some last) ∨
   (xc_status row' = "resolved"%string ∧ ∃ source, xc_social_source_id row' = Some source ∧
      preserved_report (xc_operation_id row) source = Some last)) →
  d1 = on_explicit_captures (insert id row') d → reports_frame d1 d2 →
  report_queued owner id last d2 d3 → CapturesReported d3.
Proof.
  intros HI Hr Hw Hsame Hrep Hend -> [Ec Ep] Hq.
  destruct (waiting_reported row _ Hw (cp_reported d HI id row Hr)) as (first & Hpost & Hfirst & Hp).
  assert (Hdocs : ∀ other, report_documents other d3 ≡ₚ
    (if decide (other = id) then [last] else []) ++ report_documents other d).
  { intros other. rewrite (report_queued_documents _ _ _ _ _ other Hq), (Ep other). done. }
  assert (Hc : explicit_captures d3 = <[id := row']> (explicit_captures d)).
  { destruct Hq as (e & now & _ & -> & _). exact Ec. }
  eapply captures_reported_rewrite; [exact HI|exact Hr|exact Hsame|exact Hc| |].
  - intros other Hne. rewrite Hdocs. by rewrite decide_False.
  - assert (Hid : report_documents id d3 ≡ₚ [last; first]).
    { rewrite Hdocs, decide_True, Hp by done. done. }
    destruct Hsame as (_ & Eop & _ & Epost & _).
    destruct Hend as [[Hs [reason Hu]]|[Hs (source & Hsrc & Hu)]].
    + eapply report_unavailable; rewrite ?Eop, ?Epost; eauto.
    + eapply report_preserved; rewrite ?Eop, ?Epost; eauto.
Qed.

(** A transaction on a state others may have moved along [R]. *)
Lemma wp_transaction_follows (R : relation Db) `{!PreOrder R} env {A} (err : PublicCaptureError)
    (body : Prog PublicCaptureError (ending A)) (w : W) :
  rely (Ev:=Event) env (on_db R) →
  (∀ w1 : W, R (w_db w) (w_db w1) → yields env body (λ e w', match e with
     | Commit _ => R (w_db w1) (w_db w')
     | _ => True
     end) w1) →
  wp env (transaction err body) (λ _ w', R (w_db w) (w_db w')) w.
Proof.
  intros Hr Hb. apply wp_transaction. cbv zeta. set (w1 := set_db _ (tick w)).
  assert (H1 : R (w_db w) (w_db w1)) by exact (Hr (w_tick w) w). split; [exact H1|].
  specialize (Hb (tick w1) H1). unfold yields, wp in *.
  destruct (body env (tick w1)) as [[[a|a|a]|e] w2]; cbn [fst snd w_db set_db tick] in *; split_and?;
    try exact H1; by etrans.
Qed.

Lemma terminate_follows env capture failure (w : W) :
  rely (Ev:=Event) env (on_db captures_follow) → claimed_in capture (w_db w) →
  wp env (terminate capture failure) (λ _ w', captures_follow (w_db w) (w_db w')) w.
Proof.
  intros Hr Hcl. apply wp_transaction_follows; [typeclasses eauto|done|]. intros w1 [Hk _].
  destruct (claimed_in_kept _ _ _ Hk Hcl) as (c & Hc & _ & Hop & _). unfold terminate_body. yields_steps.
  intros b d Hu.
  destruct (update_waiting_Some _ _ _ _ _ Hu) as [(-> & ->)|(-> & row & n & Hrow & Hw & _ & ->)];
    yields_steps; [reflexivity|].
  assert (row = c) as -> by congruence.
  eapply (yields_guar _ reports_frame).
  { destruct failure; guar_steps. apply remove_owner_source_reports. }
  intros [] w2 Hf. yields_steps. intros report Hrep. yields_steps.
  eapply yields_mono; [apply queue_terminal_report_queued|]. intros [] w3 Hq. yields_steps.
  cbn [w_db set_db tick] in *.
  destruct (unavailable_report _ _) as [last|] eqn:El; [|done]. injection Hrep as ->.
  set (now := e_clock env _) in *.
  assert (Hst : xc_status c = "accepted"%string) by by apply waiting_status in Hw as [? _].
  split.
  - etrans; [eapply captures_kept_insert; [exact Hrow|by apply unavailable_same]|].
    apply captures_kept_same. destruct Hq as (e & t & _ & -> & _). by apply Hf.
  - intros HI. eapply (captures_reported_ends (w_db w1)); [exact HI|exact Hrow|exact Hw| | | |done|exact Hf|exact Hq];
      [by apply unavailable_same|by eexists|]. left. split; [done|]. rewrite Hop. eauto.
Qed.

Lemma preserve_follows env capture post (w : W) :
  rely (Ev:=Event) env (on_db captures_follow) → claimed_in capture (w_db w) →
  wp env (preserve capture post) (λ _ w', captures_follow (w_db w) (w_db w')) w.
Proof.
  intros Hr Hcl. apply wp_transaction_follows; [typeclasses eauto|done|]. intros w1 [Hk _].
  destruct (claimed_in_kept _ _ _ Hk Hcl) as (c & Hc & _ & Hop & _). unfold preserve_body. yields_steps.
  eapply (yields_guar _ reports_frame); [apply upsert_owner_source_reports|].
  intros source w2 Hf. yields_steps. intros b d Hu.
  destruct (update_waiting_Some _ _ _ _ _ Hu) as [(-> & ->)|(-> & row & n & Hrow & Hw & _ & ->)];
    yields_steps; [done|].
  cbn [w_db set_db tick] in *. assert (row = c) as ->.
  { destruct Hf as [Ec _]. rewrite Ec in Hrow. congruence. }
  intros report Hrep. yields_steps. eapply yields_mono; [apply queue_terminal_report_queued|].
  intros [] w3 Hq. yields_steps. cbn [w_db set_db tick] in *.
  destruct (preserved_report _ _) as [last|] eqn:El; [|done]. injection Hrep as ->.
  assert (Hst : xc_status c = "accepted"%string) by by apply waiting_status in Hw as [? _].
  etrans; [by apply reports_frame_follows|]. split.
  - etrans; [eapply captures_kept_insert; [exact Hrow|by apply resolved_same]|].
    apply captures_kept_same. by destruct Hq as (e & t & _ & -> & _).
  - intros HI. eapply (captures_reported_ends (w_db w2)); [exact HI|exact Hrow|exact Hw| | | |done|reflexivity|exact Hq];
      [by apply resolved_same|by eexists|]. right. split; [done|]. eexists. split; [done|]. by rewrite Hop.
Qed.

Lemma defer_follows env capture :
  rely (Ev:=Event) env (on_db captures_follow) → guar env (on_db captures_follow) (defer capture).
Proof.
  intros Hr. unfold defer. guar_steps. unfold on_db. cbn [w_db set_db].
  match goal with H : update_waiting _ _ _ = _ |- _ => rename H into Hu end.
  destruct (update_waiting_Some _ _ _ _ _ Hu) as [(-> & ->)|(-> & row & n & Hrow & Hw & _ & ->)]; [reflexivity|].
  destruct (waiting_status row Hw) as [Hs _]. split.
  - eapply captures_kept_insert; [done|by apply deferred_same].
  - intros HI. by eapply captures_reported_waiting.
Qed.
End Safety.

(** ** A pass, capture by capture

    Whatever relation the three transactions of the worker respect from a state in which the claim is
    still true of its row, a whole pass respects. *)
Section Passes.
Context {ct : Contracts} {ec : EnvelopeCodec} {cr : Crypto} {ac : ArticleContracts}
  {sc : SocialContracts} {cc : CaptureContracts} {rc : RemovalContracts} {resolver : PublicPostResolver}.
Context (env : Env Db) (R : relation Db) {HR : PreOrder R}.
Context (Hkept : ∀ d d', R d d' → captures_kept d d').
Context (Hterminate : ∀ capture failure (w : W), claimed_in capture (w_db w) →
  wp env (terminate capture failure) (λ _ w', R (w_db w) (w_db w')) w).
Context (Hpreserve : ∀ capture post (w : W), claimed_in capture (w_db w) →
  wp env (preserve capture post) (λ _ w', R (w_db w) (w_db w')) w).
Context (Hdefer : ∀ capture, guar env (on_db R) (defer capture)).

Lemma end_unavailable_respects capture failure summary (w : W) :
  claimed_in capture (w_db w) →
  wp env (end_unavailable capture failure summary) (λ _ w', R (w_db w) (w_db w')) w.
Proof using Hterminate.
  intros Hcl. unfold end_unavailable. apply wp_bind.
  eapply wp_mono; [by apply Hterminate|]. by intros [[]|e] w1 H1; wp_steps.
Qed.

Lemma process_capture_respects policy summary capture (w : W) :
  claimed_in capture (w_db w) →
  wp env (process_capture policy summary capture) (λ _ w', R (w_db w) (w_db w')) w.
Proof using All.
  intros Hcl. unfold process_capture, resolve. wp_steps. set (w0 := tick (emit _ w)).
  change (w_db w) with (w_db w0) in *. destruct (resolve_answer _ _) as [post|failure].
  - destruct (String.eqb _ _); [|by apply end_unavailable_respects]. wp_steps.
    eapply wp_mono; [by apply Hpreserve|]. intros [[]|e] w1 H1; [by wp_steps|].
    assert (Hcl1 : claimed_in capture (w_db w1)) by (eapply claimed_in_kept; [by apply Hkept|done]).
    destruct e as [|[]| | |]; try by wp_steps.
    eapply wp_mono; [by apply end_unavailable_respects|]. intros r w2 H2. cbv beta in H2. by etrans.
  - destruct (_ && _); [|by apply end_unavailable_respects]. wp_steps.
    eapply wp_mono; [apply wp_of_guar; by apply Hdefer|]. by intros [[]|e] w1 H1; wp_steps.
Qed.

Lemma process_all_respects policy claimed : ∀ summary (w : W),
  Forall (λ c, claimed_in c (w_db w)) claimed →
  wp env (fold_m (process_capture policy) summary claimed) (λ _ w', R (w_db w) (w_db w')) w.
Proof using All.
  induction claimed as [|capture claimed IH]; intros summary w Hall; cbn [fold_m]; [by wp_steps|].
  apply Forall_cons in Hall as [Hcl Hall]. apply wp_bind.
  eapply wp_mono; [by apply process_capture_respects|]. intros [s|e] w1 H1; [|done].
  eapply wp_mono; [apply IH|].
  - eapply Forall_impl; [exact Hall|]. intros c Hc. eapply claimed_in_kept; [by apply Hkept|done].
  - intros r w2 H2. cbv beta in H2. by etrans.
Qed.

Lemma run_due_once_respects locked policy :
  (∀ w : W, wp env (claim_due locked policy) (λ r w', R (w_db w) (w_db w') ∧
     match r with Ok claimed => Forall (λ c, claimed_in c (w_db w')) claimed | Err _ => True end) w) →
  guar env (on_db R) (run_due_once locked policy).
Proof using All.
  intros Hclaim. apply guar_wp. intros w. unfold run_due_once. apply wp_bind.
  eapply wp_mono; [by apply Hclaim|]. intros [claimed|e] w1 [H1 Hall]; [|done].
  eapply wp_mono; [by apply process_all_respects|]. intros r w2 H2. unfold on_db. cbv beta in H2. by etrans.
Qed.
End Passes.

(** ** Both services *)

Section Together.
Context {ct : Contracts} {ec : EnvelopeCodec} {cr : Crypto} {ac : ArticleContracts}
  {sc : SocialContracts} {cc : CaptureContracts} {cl : CaptureContractsLaws} {rc : RemovalContracts}
  {resolver : PublicPostResolver} {Huuid : Inj (=) (=) uuid_text}.

Lemma reported_leased until capture docs :
  reported_so_far capture docs → reported_so_far (leased until capture) docs.
Proof.
  intros H. destruct H; [eapply report_waiting | eapply report_refused | eapply report_unavailable |
    eapply report_preserved]; eassumption.
Qed.

Lemma captures_reported_lease until due d :
  CapturesReported d → CapturesReported (on_explicit_captures (lease_all until due) d).
Proof.
  intros [H1 H2 H3].
  assert (Hback : ∀ id c, lease_all until due (explicit_captures d) !! id = Some c →
    ∃ x, explicit_captures d !! id = Some x ∧ (c = x ∨ c = leased until x)).
  { intros id c. rewrite lookup_leased. case_decide; [|intros Hc; exists c; auto].
    destruct (explicit_captures d !! id) as [x|]; [|done]. intros [= <-]. exists x. auto. }
  split; cbn [explicit_captures on_explicit_captures].
  - intros id c Hc. change (report_documents id _) with (report_documents id d).
    destruct (Hback id c Hc) as (x & Hx & [->| ->]); [|apply reported_leased]; by apply H1.
  - intros id Hn. apply (H2 id). rewrite lookup_leased in Hn. case_decide; [|done].
    by destruct (explicit_captures d !! id).
  - intros i j c c' Hi Hj E. destruct (Hback i c Hi) as (x & Hx & Ex), (Hback j c' Hj) as (y & Hy & Ey).
    apply (H3 i j x y Hx Hy). by destruct Ex as [->| ->], Ey as [->| ->].
Qed.

Lemma claim_due_follows env locked policy (w : W) :
  rely (Ev:=Event) env (on_db captures_follow) →
  wp env (claim_due locked policy) (λ r w', captures_follow (w_db w) (w_db w') ∧
    match r with Ok claimed => Forall (λ c, claimed_in c (w_db w')) claimed | Err _ => True end) w.
Proof.
  intros Hr. unfold claim_due. wp_steps. set (now := e_clock env _).
  set (w1 := set_db _ (tick (tick w))).
  assert (H1 : captures_follow (w_db w) (w_db w1)) by exact (Hr (S (w_tick w)) w).
  unfold wp at 1. cbn [locked_rows fst snd]. set (held := locked (w_tick w1)).
  apply wp_stmt; [|split; [exact H1|done]]. intros claimed d Hstmt.
  apply (inj Some) in Hstmt.
  destruct (claim_statement_spec _ _ _ _ _ _ Hstmt) as (Hk & _ & Hall & due & -> & _).
  assert (H2 : captures_follow (w_db w1) (on_explicit_captures (lease_all (now + LEASE) due) (w_db w1))).
  { split; [exact Hk|apply captures_reported_lease]. }
  split; (split; [by etrans|]); [|done]. eapply Forall_impl; [exact Hall|].
  intros c Hc. by eapply claimed_in_kept.
Qed.

Lemma run_due_once_follows env locked policy :
  rely (Ev:=Event) env (on_db captures_follow) →
  guar env (on_db captures_follow) (run_due_once locked policy).
Proof.
  intros Hr. apply run_due_once_respects; try typeclasses eauto.
  - by intros d d' [? _].
  - intros capture failure w. by apply terminate_follows.
  - intros capture post w. by apply preserve_follows.
  - intros capture. by apply defer_follows.
  - intros w. by apply claim_due_follows.
Qed.

(** The acceptance side. *)
Lemma accept_capture_kept env command capture owner captured_at :
  guar env (on_db captures_kept) (accept_capture command capture owner captured_at).
Proof.
  unfold accept_capture, claim_inbox, queue_capture_report, enqueue. guar_steps; unfold on_db; cbn [w_db set_db].
  - apply captures_kept_same. match goal with H : claim_inbox_row _ _ _ = _ |- _ => rename H into Hc end.
    unfold claim_inbox_row in Hc. by destruct (inbox_events _ !! _); injection Hc as _ <-.
  - match goal with H : insert_capture _ _ _ = _ |- _ => apply insert_capture_Some in H as (Hn & _ & ->) end.
    intros id c Hc. exists c. cbn [explicit_captures on_explicit_captures].
    rewrite lookup_insert_ne by congruence. split; [done|reflexivity].
  - match goal with H : insert_outbox _ _ _ = _ |- _ => apply insert_outbox_Some in H as (_ & _ & ->) end.
    by apply captures_kept_same.
Qed.

Lemma guar_transaction_follows {E A} env (err : E) (body : Prog E (ending A)) :
  rely (Ev:=Event) env (on_db captures_follow) → guar env (on_db captures_kept) body →
  keeps_ok env CapturesReported body → guar env (on_db captures_follow) (transaction err body).
Proof.
  intros Hr Hk HI. apply guar_atomic; [typeclasses eauto|done|]. intros w.
  pose proof (guar_elim Hk w) as Hkept. unfold yields, wp. specialize (HI w). unfold wp in HI.
  destruct (body env w) as [[[a|a|a]|e] w']; cbn [fst snd] in *; done.
Qed.

Lemma consume_browser_commands_follows env durable_name lookup items :
  rely (Ev:=Event) env (on_db captures_follow) →
  guar env (on_db captures_follow) (consume_browser_commands durable_name lookup items).
Proof.
  intros Hr. unfold consume_browser_commands. apply guar_bind; [typeclasses eauto|guar_steps|].
  intros _. apply consume_guar; [typeclasses eauto|]. intros payload s. unfold handle_command.
  apply guar_bind; [typeclasses eauto|apply guar_attempt|guar_steps].
  unfold accept_delivery. destruct (parse_command payload) as [command|]; [|guar_steps].
  unfold persist_browser_capture.
  do 4 (apply guar_bind; [typeclasses eauto|apply guar_of_result; typeclasses eauto|intros ?]).
  apply guar_transaction_follows; [done|apply accept_capture_kept|apply accept_capture_keeps].
Qed.

(** C6. Acceptance and resolution together, whatever fails, in any interleaving with each other and with
    whatever else respects the same contract: a capture keeps its identity, an ended one never
    changes again, and every capture stays reported exactly as far as it got. One that waits has only
    its queued report, one that ended has exactly one terminal report more, saying how it ended and,
    when preserved, as which source; redelivered commands, crashes between steps, expired leases and
    competing workers add none. *)
Theorem captures_are_reported_once env locked policy durable_name lookup items :
  rely (Ev:=Event) env (on_db captures_follow) →
  guar env (on_db captures_follow) (consume_browser_commands durable_name lookup items) ∧
  guar env (on_db captures_follow) (run_due_once locked policy).
Proof.
  intros Hr. split; [by apply consume_browser_commands_follows | by apply run_due_once_follows].
Qed.
End Together.

(** ** What a pass may write, and for whom *)

Section Footprint.
Context {ct : Contracts} {ec : EnvelopeCodec} {cr : Crypto} {ac : ArticleContracts}
  {sc : SocialContracts} {cc : CaptureContracts} {cl : CaptureContractsLaws} {rc : RemovalContracts}
  {resolver : PublicPostResolver}.

(** Everything but the worker's three tables. *)
Definition rest (d : Db) : Db :=
  on_outbox_events (λ _, ∅) (on_explicit_sources (λ _, ∅) (on_explicit_captures (λ _, ∅) d)).

(** Steps on behalf of one claim. *)
Record writes_for (owner : Z) (post : string) (d d' : Db) : Prop := {
  wf_kept : captures_kept d d';
  wf_rest : rest d' = rest d;
  wf_sources key : key ≠ (owner, post) → explicit_sources d' !! key = explicit_sources d !! key;
  wf_events id row : outbox_events d' !! id = Some row →
    outbox_events d !! id = Some row ∨ env_tenant (ob_payload row) = Some (tenant owner);
}.

#[export] Instance writes_for_preorder owner post : PreOrder (writes_for owner post).
Proof.
  split; [intros d; split; auto; reflexivity|]. intros d1 d2 d3 [K1 R1 S1 E1] [K2 R2 S2 E2]. split.
  - by etrans.
  - congruence.
  - intros key Hk. by rewrite S2, S1.
  - intros id row Hr. destruct (E2 id row Hr) as [|]; auto.
Qed.

(** The captures of a database name an owner's post. *)
Definition captured_by (owner : Z) (post : string) (d : Db) : Prop :=
  ∃ id c, explicit_captures d !! id = Some c ∧ xc_owner c = owner ∧ xc_provider_post_id c = Some post.
Definition is_owner (owner : Z) (d : Db) : Prop :=
  ∃ id c, explicit_captures d !! id = Some c ∧ xc_owner c = owner.

(** Steps of the whole worker: only its own tables; only sources of captured posts of their owners;
    only events and reports for owners of captures. *)
Record worker_writes (d d' : Db) : Prop := {
  ww_kept : captures_kept d d';
  ww_rest : rest d' = rest d;
  ww_sources owner post : explicit_sources d' !! (owner, post) = explicit_sources d !! (owner, post) ∨
    captured_by owner post d';
  ww_events id row : outbox_events d' !! id = Some row → outbox_events d !! id = Some row ∨
    ∃ owner, is_owner owner d' ∧ env_tenant (ob_payload row) = Some (tenant owner);
}.

Lemma captured_by_kept owner post d d' : captures_kept d d' → captured_by owner post d → captured_by owner post d'.
Proof.
  intros Hk (id & c & Hc & ? & ?). destruct (Hk id c Hc) as (c' & Hc' & S).
  destruct S as (_ & _ & ? & ? & _). exists id, c'. split_and!; congruence.
Qed.
Lemma is_owner_kept owner d d' : captures_kept d d' → is_owner owner d → is_owner owner d'.
Proof.
  intros Hk (id & c & Hc & ?). destruct (Hk id c Hc) as (c' & Hc' & S).
  destruct S as (_ & _ & ? & _). exists id, c'. split; congruence.
Qed.

#[export] Instance worker_writes_preorder : PreOrder worker_writes.
Proof.
  split; [intros d; split; auto; reflexivity|]. intros d1 d2 d3 [K1 R1 S1 E1] [K2 R2 S2 E2]. split.
  - by etrans.
  - congruence.
  - intros owner post. destruct (S2 owner post) as [->|]; [|by right].
    destruct (S1 owner post) as [|Hc]; [by left|right]. by eapply captured_by_kept.
  - intros id row Hr. destruct (E2 id row Hr) as [Hr2|]; [|by right].
    destruct (E1 id row Hr2) as [|(owner & Ho & Ht)]; [by left|right]. exists owner. split; [|done].
    by eapply is_owner_kept.
Qed.

Lemma claimed_writes capture d d' :
  claimed_in capture d → writes_for (cl_owner capture) (cl_provider_post_id capture) d d' →
  worker_writes d d'.
Proof.
  intros (c & Hc & _ & _ & Ho & Hp) [K R S E].
  destruct (K _ c Hc) as (c' & Hc' & S'). destruct S' as (_ & _ & Eo & Ep & _). split; [done|done| |].
  - intros owner post. destruct (decide ((owner, post) = (cl_owner capture, cl_provider_post_id capture)))
      as [[= -> ->]|Hne]; [right|left; by apply S].
    exists (cl_capture_id capture), c'. split_and!; congruence.
  - intros id row Hr. destruct (E id row Hr) as [|Ht]; [by left|right]. exists (cl_owner capture).
    split; [|done]. exists (cl_capture_id capture), c'. split; congruence.
Qed.

(** New outbox rows for one owner. *)
Lemma outbox_writes owner post d envelope now :
  env_tenant envelope = Some (tenant owner) →
  writes_for owner post d (on_outbox_events (λ _, <[env_id envelope := fresh_row envelope now]> (outbox_events d)) d).
Proof.
  intros Ht. split; [by apply captures_kept_same|done|done|]. cbn [outbox_events on_outbox_events].
  intros id row [[_ <-]|[_ Hr]]%lookup_insert_Some; auto.
Qed.

Lemma queue_envelope_writes env owner post event_type facts payload :
  ef_owner facts = owner →
  guar env (on_db (writes_for owner post)) (queue_envelope event_type facts payload).
Proof.
  intros <-. apply guar_wp. intros w. eapply wp_mono; [apply queue_envelope_effect|].
  intros r w' [E|(e & now & Hb & _ & _ & E)]; unfold on_db; rewrite E; [reflexivity|].
  apply outbox_writes. by apply build_envelope_fields in Hb as (_ & _ & ? & _).
Qed.

Lemma queue_terminal_report_writes env capture post report :
  guar env (on_db (writes_for (cl_owner capture) post)) (queue_terminal_report capture report).
Proof.
  unfold queue_terminal_report, enqueue. guar_steps. unfold on_db. cbn [w_db set_db].
  match goal with H : insert_outbox _ _ _ = _ |- _ => apply insert_outbox_Some in H as (_ & _ & ->) end.
  match goal with H : report_envelope _ _ _ _ _ _ _ = _ |- _ =>
    apply report_envelope_fields in H as (_ & _ & _ & Ht & _) end.
  by apply outbox_writes.
Qed.

Lemma update_waiting_writes owner post id change d b d' :
  (∀ attempts row, xc_status row = "accepted"%string → same_capture row (change attempts row)) →
  update_waiting id change d = Some (b, d') → writes_for owner post d d'.
Proof.
  intros Hc Hu. pose proof (update_waiting_kept _ _ _ _ _ Hc Hu) as Hk. split; [exact Hk|..];
    destruct (update_waiting_Some _ _ _ _ _ Hu) as [(_ & ->)|(_ & row & n & _ & _ & _ & ->)]; auto.
Qed.

(** The owner's source is the only one a claim's transaction may touch. *)
Lemma source_writes owner post change d :
  (∀ key, key ≠ (owner, post) → change (explicit_sources d) !! key = explicit_sources d !! key) →
  writes_for owner post d (on_explicit_sources change d).
Proof. intros Hc. split; [by apply captures_kept_same|done|exact Hc|auto]. Qed.

Lemma terminate_body_writes env capture failure :
  guar env (on_db (writes_for (cl_owner capture) (cl_provider_post_id capture))) (terminate_body capture failure).
Proof.
  unfold terminate_body, remove_owner_source. guar_steps; unfold on_db; cbn [w_db set_db];
    try by apply queue_terminal_report_writes.
  all: try by apply queue_envelope_writes.
  all: try (reflexivity || (eapply update_waiting_writes; [|eassumption]; by intros; apply unavailable_same)).
  all: match goal with H : delete_explicit _ _ _ = _ |- _ => injection H as _ <- end;
    apply source_writes; intros key Hk; by rewrite lookup_delete_ne.
Qed.

Lemma preserve_body_writes env capture post :
  guar env (on_db (writes_for (cl_owner capture) (cl_provider_post_id capture))) (preserve_body capture post).
Proof.
  unfold preserve_body, upsert_owner_source, publish_owner_source, queue_source_event.
  guar_steps; unfold on_db; cbn [w_db set_db]; try by apply queue_terminal_report_writes.
  all: try by apply queue_envelope_writes.
  all: try (reflexivity || (eapply update_waiting_writes; [|eassumption]; by intros; apply resolved_same)).
  all: match goal with H : upsert_explicit _ _ _ _ _ _ _ = _ |- _ => unfold upsert_explicit in H; rename H into Hu end;
    destruct (explicit_sources _ !! _); [|destruct (_ || _); [done|]]; injection Hu as _ <-;
    apply source_writes; intros key Hk; by rewrite lookup_insert_ne.
Qed.

(** A pass of the worker, alone or beside connections that respect the same footprint, and whatever
    fails: it writes captures, explicit sources and the outbox and nothing else, so nothing another
    tenant's synchronization produced; it creates, revises or deletes an owner's source only for a
    post that owner captured; and every event and report it queues carries the tenant of an owner
    with a capture. *)
Theorem worker_stays_with_the_owner env locked policy :
  rely (Ev:=Event) env (on_db worker_writes) →
  guar env (on_db worker_writes) (run_due_once locked policy).
Proof.
  intros Hr. apply run_due_once_respects; [typeclasses eauto|by intros d d' []|..].
  - intros capture failure w Hcl. apply wp_transaction_follows; [typeclasses eauto|done|]. intros w1 H1.
    eapply (yields_guar _ (writes_for (cl_owner capture) (cl_provider_post_id capture)));
      [apply terminate_body_writes|].
    intros [?|?|?] w2 H2; [|done..]. eapply claimed_writes; [|done]. eapply claimed_in_kept; [apply H1|done].
  - intros capture post w Hcl. apply wp_transaction_follows; [typeclasses eauto|done|]. intros w1 H1.
    eapply (yields_guar _ (writes_for (cl_owner capture) (cl_provider_post_id capture)));
      [apply preserve_body_writes|].
    intros [?|?|?] w2 H2; [|done..]. eapply claimed_writes; [|done]. eapply claimed_in_kept; [apply H1|done].
  - intros capture. unfold defer. guar_steps. unfold on_db. cbn [w_db set_db].
    match goal with H : update_waiting _ _ _ = _ |- _ => rename H into Hu end.
    assert (Hs : ∀ until attempts row, xc_status row = "accepted"%string →
      same_capture row (deferred_capture until attempts row)) by (intros; by apply deferred_same).
    pose proof (update_waiting_kept _ _ _ _ _ (Hs _) Hu) as Hk. split; [exact Hk|..];
      destruct (update_waiting_Some _ _ _ _ _ Hu) as [(_ & ->)|(_ & row & n & _ & _ & _ & ->)]; auto.
  - intros w. unfold claim_due. wp_steps. set (now := e_clock env _). set (w1 := set_db _ (tick (tick w))).
    assert (H1 : worker_writes (w_db w) (w_db w1)) by exact (Hr (S (w_tick w)) w).
    unfold wp at 1. cbn [locked_rows fst snd]. set (held := locked (w_tick w1)).
    apply wp_stmt; [|split; [exact H1|done]]. intros claimed d Hstmt. apply (inj Some) in Hstmt.
    destruct (claim_statement_spec _ _ _ _ _ _ Hstmt) as (Hk & Ho & Hall & due & -> & _).
    assert (H2 : worker_writes (w_db w1) (on_explicit_captures (lease_all (now + LEASE) due) (w_db w1))).
    { split; [exact Hk|done|by left|by left]. }
    split; (split; [by etrans|]); [|done]. eapply Forall_impl; [exact Hall|].
    intros c Hc. by eapply claimed_in_kept.
Qed.
End Footprint.

(** ** What one pass achieves *)

Section Progress.
Context {ct : Contracts} {ec : EnvelopeCodec} {cr : Crypto} {ac : ArticleContracts}
  {sc : SocialContracts} {cc : CaptureContracts} {cl : CaptureContractsLaws} {rc : RemovalContracts}
  {resolver : PublicPostResolver}.
Context (env : Env Db) (Ho : ∀ n d, e_other env n d = d).

(** A waiting row ended with [status], its report time set and its last attempt counted. *)
Definition ended (status : string) (row row' : ExplicitCapture) : Prop :=
  xc_status row' = status ∧ is_Some (xc_reported_at row') ∧ xc_attempts row' = xc_attempts row + 1.

(** Steps only ever count up. *)
Definition later : relation W := λ w w', (w_tick w ≤ w_tick w')%nat.
#[local] Instance later_guarantee : Guarantee later.
Proof. split; [split; unfold later; [intros w|intros ???]; lia|unfold later; simpl; intros; lia..]. Qed.

Lemma process_capture_later policy s capture : guar env later (process_capture policy s capture).
Proof.
  assert (Hr : rely env later) by (intros n w; unfold later; simpl; lia).
  unfold process_capture, end_unavailable, resolve, preserve, terminate, defer, preserve_body, terminate_body,
    upsert_owner_source, publish_owner_source, queue_source_event, remove_owner_source, queue_terminal_report,
    queue_envelope, enqueue.
  guar_steps; try (unfold later; simpl; lia). all: try (apply guar_call; [typeclasses eauto|unfold later; simpl; lia]).
Qed.

Lemma terminate_later capture failure : guar env later (terminate capture failure).
Proof.
  assert (Hr : rely env later) by (intros n w; unfold later; simpl; lia).
  unfold terminate, terminate_body, remove_owner_source, queue_terminal_report, queue_envelope, enqueue.
  guar_steps; unfold later; simpl; lia.
Qed.

Lemma preserve_later capture post : guar env later (preserve capture post).
Proof.
  assert (Hr : rely env later) by (intros n w; unfold later; simpl; lia).
  unfold preserve, preserve_body, upsert_owner_source, publish_owner_source, queue_source_event,
    queue_terminal_report, queue_envelope, enqueue. guar_steps; unfold later; simpl; lia.
Qed.

(** The backoff after so many failures: 30 s, then four times as long after each, at most 30 min. *)
Definition backoff (failures : Z) : Z := Z.min (30 * 4 ^ Z.min (failures - 1) 8) 1800 * usec.

(** One failed attempt more, still below the limit: between the steps [since] and [upto] the resolver
    answered that the post is out of reach for now, and the next attempt is due when the backoff that
    started at the clock of one of these steps is over. *)
Record retried (policy : CapturePolicy) (since upto : nat) (row row' : ExplicitCapture) : Prop := {
  re_status : xc_status row' = "accepted"%string;
  re_unreported : xc_reported_at row' = None;
  re_attempts : xc_attempts row' = xc_attempts row + 1;
  re_limit : xc_attempts row' < cp_max_attempts policy;
  re_transient : ∃ t, (since ≤ t < upto)%nat ∧
    resolve_answer (default "" (xc_provider_post_id row)) t = Err PostTransient;
  re_due : ∃ t, (since ≤ t < upto)%nat ∧ xc_next_attempt_at row' = e_clock env t + backoff (xc_attempts row');
}.

(** One that ended for a reason: the status fits what the resolver answered at a step between [since] and
    [upto], and an answer that only puts the post off ends a capture when the limit is reached. *)
Definition finished (policy : CapturePolicy) (since upto : nat) (row row' : ExplicitCapture) : Prop :=
  ∃ t, (since ≤ t < upto)%nat ∧
    match resolve_answer (default "" (xc_provider_post_id row)) t with
    | Ok post => xc_provider_post_id row = Some (pp_provider_id post) ∧ ended "resolved" row row' ∨
                 ended "unavailable" row row'
    | Err PostTransient => ended "unavailable" row row' ∧ cp_max_attempts policy ≤ xc_attempts row'
    | Err _ => ended "unavailable" row row'
    end.

Definition decided (policy : CapturePolicy) (since upto : nat) (row row' : ExplicitCapture) : Prop :=
  finished policy since upto row row' ∨ retried policy since upto row row'.

Lemma retried_wider policy since upto since' upto' row row' :
  (since' ≤ since)%nat → (upto ≤ upto')%nat →
  retried policy since upto row row' → retried policy since' upto' row row'.
Proof.
  intros Hs Hu [H1 H2 H3 H4 (t & Ht & H5) (u & Hu' & H6)].
  split; [done..|exists t; split; [lia|done]|exists u; split; [lia|done]].
Qed.

Lemma decided_wider policy since upto since' upto' row row' :
  (since' ≤ since)%nat → (upto ≤ upto')%nat →
  decided policy since upto row row' → decided policy since' upto' row row'.
Proof.
  intros Hs Hu [(t & Ht & Hf)|Hr]; [left; exists t; split; [lia|done]|right; by eapply retried_wider].
Qed.

Lemma retry_delay_backoff failures : 1 ≤ failures ≤ i32_max → retry_delay failures = backoff failures.
Proof.
  intros Hf. unfold retry_delay, backoff, FIRST_RETRY_SECONDS, MAX_RETRY_SECONDS. cbv zeta.
  rewrite (Z.max_r i32_min) by (unfold i32_min; lia).
  destruct (Z.ltb_spec (failures - 1) 0); [lia|]. f_equal.
  pose proof (Z.pow_le_mono_r 4 (Z.min (failures - 1) 8) 8). change (4 ^ 8) with 65536 in *.
  unfold i64_max. lia.
Qed.

(** One row was rewritten, to one that ended. *)
Definition ends_row (id : Z) (status : string) (d d' : Db) : Prop :=
  ∃ row row', explicit_captures d !! id = Some row ∧
    explicit_captures d' = <[id := row']> (explicit_captures d) ∧ ended status row row'.

Definition waiting_in (id : Z) (d : Db) : Prop :=
  ∃ c, explicit_captures d !! id = Some c ∧ is_waiting c = true.

Lemma report_keeps_captures capture report (w : W) (P : unit → W → Prop) :
  (∀ w', explicit_captures (w_db w') = explicit_captures (w_db w) → P tt w') →
  yields env (queue_terminal_report capture report) P w.
Proof.
  intros HP. eapply yields_mono; [apply queue_terminal_report_queued|].
  intros [] w' (e & now & _ & E & _). apply HP. by rewrite E.
Qed.

Lemma terminate_ends capture failure (w : W) :
  waiting_in (cl_capture_id capture) (w_db w) →
  yields env (terminate capture failure) (λ _ w', ends_row (cl_capture_id capture) "unavailable" (w_db w) (w_db w')) w.
Proof using All.
  intros (c & Hc & Hw). apply yields_transaction. cbv zeta. rewrite Ho. unfold terminate_body. yields_steps.
  intros b d Hu. cbn [w_db set_db tick] in Hu.
  destruct (update_waiting_Some _ _ _ _ _ Hu) as [(-> & ->)|(-> & row & n & Hrow & _ & -> & ->)].
  { unfold update_waiting in Hu. rewrite Hc, Hw in Hu. by destruct (int4 _). }
  assert (row = c) as -> by congruence.
  yields_steps. eapply (yields_guar _ reports_frame).
  { destruct failure; guar_steps. apply remove_owner_source_reports. }
  intros [] w2 [Ec _]. yields_steps. intros report _. yields_steps. apply report_keeps_captures.
  intros w3 E3. yields_steps. cbn [w_db set_db tick] in *. exists c. eexists.
  split; [done|]. split; [by rewrite E3, Ec|]. split; [done|split; [by eexists|done]].
Qed.

(** A preserved capture ended; one whose snapshot the contract refuses left nothing behind. *)
Lemma preserve_ends capture post (w : W) :
  waiting_in (cl_capture_id capture) (w_db w) →
  wp env (preserve capture post) (λ r w', match r with
    | Ok _ => ends_row (cl_capture_id capture) "resolved" (w_db w) (w_db w')
    | Err (CaptureSnapshot _) => w_db w' = w_db w
    | Err _ => True
    end) w.
Proof using All.
  intros (c & Hc & Hw). apply wp_transaction. cbv zeta. rewrite Ho. split; [done|].
  set (w1 := tick (set_db _ (tick w))).
  assert (Hb : yields env (preserve_body capture post) (λ e w', match e with
      | Commit _ => ends_row (cl_capture_id capture) "resolved" (w_db w) (w_db w')
      | _ => False
      end) w1).
  { unfold preserve_body. yields_steps. eapply (yields_guar _ reports_frame); [apply upsert_owner_source_reports|].
    intros source w2 [Ec _]. yields_steps. intros b d Hu. cbn [w_db set_db tick] in *.
    change (explicit_captures (w_db w2) = explicit_captures (w_db w)) in Ec.
    destruct (update_waiting_Some _ _ _ _ _ Hu) as [(-> & ->)|(-> & row & n & Hrow & _ & -> & ->)].
    { unfold update_waiting in Hu. rewrite Ec, Hc, Hw in Hu. by destruct (int4 _). }
    yields_steps. intros report _. yields_steps. apply report_keeps_captures. intros w3 E3. yields_steps.
    cbn [w_db set_db tick] in *. rewrite Ec in Hrow. exists row. eexists.
    split; [done|]. split; [by rewrite E3; cbn; rewrite Ec|]. split; [done|split; [by eexists|done]]. }
  unfold yields, wp in *. destruct (preserve_body capture post env w1) as [[[a|a|a]|e] w2];
    cbn [fst snd w_db set_db tick] in *; try done. by destruct e.
Qed.

Lemma defer_retries policy capture c since (w : W) :
  explicit_captures (w_db w) !! cl_capture_id capture = Some c → is_waiting c = true →
  xc_attempts c = cl_attempts capture → 0 ≤ xc_attempts c → has_attempts_left policy capture = true →
  (∃ t, (since ≤ t < w_tick w)%nat ∧ resolve_answer (default "" (xc_provider_post_id c)) t = Err PostTransient) →
  yields env (defer capture) (λ _ w', ∃ row',
    explicit_captures (w_db w') = <[cl_capture_id capture := row']> (explicit_captures (w_db w)) ∧
    retried policy since (w_tick w') c row') w.
Proof using All.
  intros Hc Hw Ha H0 Hleft (t & Ht & Htr). unfold defer. yields_steps. rewrite Ho. cbn [w_db set_db tick].
  intros b d Hu. unfold update_waiting in Hu. rewrite Hc, Hw in Hu.
  destruct (int4 _) as [n|] eqn:En; [|done]. apply int4_Some in En as [-> Hn]. injection Hu as <- <-.
  yields_steps. destruct (waiting_status c Hw) as [Hs Hr].
  assert (Hsucc : i32_saturating_succ (cl_attempts capture) = xc_attempts c + 1)
    by (unfold i32_saturating_succ; lia).
  unfold has_attempts_left in Hleft. rewrite Hsucc in *. apply andb_true_iff in Hleft as [_ Hlt%Z.ltb_lt].
  eexists. split; [reflexivity|]. split; cbn; try done.
  - exists t. split; [lia|done].
  - exists (w_tick w). split; [lia|]. rewrite retry_delay_backoff; [done|lia].
Qed.

(** The summary with the outcome of one row counted. *)
Definition counted (row' : ExplicitCapture) (s : CaptureRunSummary) : CaptureRunSummary :=
  if String.eqb (xc_status row') "resolved" then count_preserved s
  else if String.eqb (xc_status row') "unavailable" then count_unavailable s
  else count_deferred s.

(** One capture was decided: its row was rewritten and its outcome counted. *)
Definition processed (policy : CapturePolicy) (id : Z) (c : ExplicitCapture) (s s' : CaptureRunSummary)
    (w w' : W) : Prop :=
  ∃ row', s' = counted row' s ∧ explicit_captures (w_db w') = <[id := row']> (explicit_captures (w_db w)) ∧
    decided policy (w_tick w) (w_tick w') c row'.

Lemma counted_claimed row' s : cs_claimed (counted row' s) = cs_claimed s.
Proof. unfold counted. by repeat case_match. Qed.

(** How many of these captures stand at a status, and the summary that says so. *)
Definition with_status (status : string) (d : Db) (ids : list Z) : Z :=
  Z.of_nat (length (filter (λ id, xc_status <$> explicit_captures d !! id = Some status) ids)).
Record tallied (s : CaptureRunSummary) (d : Db) (ids : list Z) : Prop := {
  ta_preserved : cs_preserved s = with_status "resolved" d ids;
  ta_unavailable : cs_unavailable s = with_status "unavailable" d ids;
  ta_deferred : cs_deferred s = with_status "accepted" d ids;
}.

Lemma with_status_snoc status d d' ids id row' :
  explicit_captures d' = <[id := row']> (explicit_captures d) → id ∉ ids →
  with_status status d' (ids ++ [id]) =
    with_status status d ids + (if String.eqb (xc_status row') status then 1 else 0).
Proof.
  intros E Hn. unfold with_status. rewrite filter_app, length_app, Nat2Z.inj_add. f_equal.
  - f_equal. induction ids as [|k ids IH]; [done|]. apply not_elem_of_cons in Hn as [Hk Hn].
    rewrite !filter_cons, E, lookup_insert_ne, <-E by done. destruct (decide _); cbn; by rewrite IH.
  - cbn. rewrite E, lookup_insert_eq. cbn.
    destruct (String.eqb_spec (xc_status row') status); [rewrite decide_True by congruence|rewrite decide_False by congruence]; done.
Qed.

Lemma counted_tallied policy since upto c row' s d d' ids id :
  explicit_captures d' = <[id := row']> (explicit_captures d) → id ∉ ids →
  decided policy since upto c row' → tallied s d ids → tallied (counted row' s) d' (ids ++ [id]).
Proof.
  intros E Hn Hd [Hp Hu Hdf].
  assert (Hs : (xc_status row' = "resolved" ∨ xc_status row' = "unavailable" ∨ xc_status row' = "accepted")%string).
  { destruct Hd as [(t & _ & Hf)|[? ? ? ? ? ?]]; [|auto].
    unfold ended in Hf. destruct (resolve_answer _ t) as [post|[]]; naive_solver. }
  unfold counted. split; rewrite (with_status_snoc _ d d' ids id row' E Hn); destruct Hs as [->|[->| ->]]; cbn; lia.
Qed.

Lemma end_unavailable_progress policy capture failure s c since (w : W) :
  explicit_captures (w_db w) !! cl_capture_id capture = Some c → is_waiting c = true →
  (∀ row' upto, ended "unavailable" c row' → (w_tick w ≤ upto)%nat → finished policy since upto c row') →
  yields env (end_unavailable capture failure s) (λ s' w',
    ∃ row', s' = counted row' s ∧ explicit_captures (w_db w') = <[cl_capture_id capture := row']> (explicit_captures (w_db w)) ∧
      decided policy since (w_tick w') c row') w.
Proof using All.
  intros Hc Hw Hend. unfold end_unavailable. apply yields_bind.
  assert (Hwait : waiting_in (cl_capture_id capture) (w_db w)) by (exists c; by split).
  pose proof (terminate_ends capture failure w Hwait) as Ht.
  pose proof (guar_elim (terminate_later capture failure) w) as Hlate. unfold later in Hlate.
  unfold yields, wp in *. destruct (terminate capture failure env w) as [[[]|e] w1]; cbn [fst snd ret] in *; [|done].
  destruct Ht as (row & row' & Hrow & E & He). assert (row = c) as -> by congruence.
  exists row'. split_and!; [|done|left; by apply Hend]. unfold counted. by rewrite (proj1 He).
Qed.

Lemma process_capture_progress policy capture s c (w : W) :
  explicit_captures (w_db w) !! cl_capture_id capture = Some c → is_waiting c = true →
  xc_attempts c = cl_attempts capture → 0 ≤ xc_attempts c →
  cl_provider_post_id capture = default ""%string (xc_provider_post_id c) → is_Some (xc_provider_post_id c) →
  yields env (process_capture policy s capture) (λ s' w', processed policy (cl_capture_id capture) c s s' w w') w.
Proof using All.
  intros Hc Hw Ha H0 Hpost Hsome. unfold process_capture. apply yields_bind.
  unfold yields at 1, wp, resolve, call. cbn [fst snd]. set (w0 := tick (emit _ w)).
  assert (Hw0 : (w_tick w < w_tick w0)%nat) by (simpl; lia). change (w_db w) with (w_db w0) in *.
  assert (Hend : ∀ failure s1 since (w1 : W), w_db w1 = w_db w0 → (w_tick w0 ≤ w_tick w1)%nat →
    (∀ row' upto, ended "unavailable" c row' → (w_tick w1 ≤ upto)%nat → finished policy since upto c row') →
    (w_tick w ≤ since)%nat → yields env (end_unavailable capture failure s1) (λ s' w',
      processed policy (cl_capture_id capture) c s1 s' w w') w1).
  { intros failure s1 since w1 Edb Hw1 Hf Hsince. eapply yields_mono.
    { apply (end_unavailable_progress policy capture failure s1 c since w1); [by rewrite Edb|done..]. }
    intros s' w2 (row' & Hs & E & Hd). exists row'.
    split_and!; [done|by rewrite E, Edb|by eapply decided_wider]. }
  destruct (resolve_answer (cl_provider_post_id capture) (w_tick w)) as [post|failure] eqn:Eans;
    rewrite Hpost in Eans.
  - assert (Hrefused : ∀ w1, w_db w1 = w_db w0 → (w_tick w0 ≤ w_tick w1)%nat →
      yields env (end_unavailable capture PostInaccessible s) (λ s' w',
        processed policy (cl_capture_id capture) c s s' w w') w1).
    { intros w1 Edb Hw1. apply (Hend _ _ (w_tick w)); try done.
      intros row' upto He Hu. exists (w_tick w). split; [lia|]. rewrite Eans. by right. }
    destruct (String.eqb_spec (pp_provider_id post) (cl_provider_post_id capture)) as [Eid|_]; [|by apply Hrefused].
    apply yields_bind, yields_attempt.
    assert (Hwait : waiting_in (cl_capture_id capture) (w_db w0)) by (exists c; by split).
    pose proof (preserve_ends capture post w0 Hwait) as Hp.
    pose proof (guar_elim (preserve_later capture post) w0) as Hlate. unfold later in Hlate.
    unfold wp in *. destruct (preserve capture post env w0) as [[[]|e] w1]; cbn [fst snd] in *.
    + destruct Hp as (row & row' & Hrow & E & He). assert (row = c) as -> by congruence. yields_steps.
      exists row'. split_and!; [unfold counted; by rewrite (proj1 He)|done|]. left.
      exists (w_tick w). split; [lia|]. rewrite Eans. left. split; [|done].
      destruct Hsome as [id Eid']. rewrite Eid' in *. by rewrite Eid, Hpost.
    + destruct e as [|[]| | |]; yields_steps. by apply Hrefused.
  - destruct (bool_decide _ && _) eqn:Eb.
    + apply andb_true_iff in Eb as [Etr%bool_decide_eq_true Hleft]. subst failure. apply yields_bind.
      eapply yields_mono; [eapply (defer_retries policy capture c (w_tick w)); try done|].
      { exists (w_tick w). split; [lia|done]. }
      intros [] w1 (row' & E & He). yields_steps.
      exists row'. split_and!; [|done|by right]. unfold counted. by rewrite (re_status _ _ _ _ _ He).
    + apply (Hend _ _ (w_tick w)); try done. intros row' upto He Hu. exists (w_tick w). split; [lia|].
      rewrite Eans. destruct failure; [done..|]. split; [done|]. rewrite bool_decide_true in Eb by done. cbn [andb] in Eb. unfold has_attempts_left in Eb.
      destruct He as (_ & _ & ->). rewrite Ha in *.
      assert (Hmade : i32_saturating_succ (cl_attempts capture) ≤ cl_attempts capture + 1)
        by (unfold i32_saturating_succ; lia).
      apply andb_false_iff in Eb as [Hneg%Z.leb_gt|Hlim%Z.ltb_ge]; [|lia].
      unfold i32_saturating_succ, i32_max in Hneg. lia.
Qed.

(** The rows of a claim, before they are leased. *)
Lemma due_captures_nodup now limit locked d : NoDup (due_captures now limit locked d).*1.
Proof.
  unfold due_captures. rewrite fmap_take.
  assert (Hs : (sort due_leb (List.filter (λ kv, is_due now kv.2 && negb (bool_decide (kv.1 ∈ locked)))
      (map_to_list (explicit_captures d)))).*1 ≡ₚ
    (List.filter (λ kv, is_due now kv.2 && negb (bool_decide (kv.1 ∈ locked)))
      (map_to_list (explicit_captures d))).*1) by (by rewrite sort_perm).
  eapply sublist_NoDup; [|apply sublist_take]. rewrite Hs. clear Hs.
  pose proof (NoDup_fst_map_to_list (explicit_captures d)) as Hn.
  induction (map_to_list (explicit_captures d)) as [|[k c] l IH]; [done|]. cbn in Hn.
  apply NoDup_cons in Hn as [Hk Hn]. cbn [List.filter]. destruct (_ && _); [|by apply IH].
  cbn. apply NoDup_cons. split; [|by apply IH]. intros Hin. apply Hk.
  apply list_elem_of_fmap in Hin as ([k' c'] & -> & Hin). apply list_elem_of_fmap. exists (k', c').
  split; [done|]. by apply list_elem_of_In, filter_In, proj1, list_elem_of_In in Hin.
Qed.

(** What makes a capture claimable by a pass at [now]: it waits, it is due, and no other transaction
    holds its row. *)
Record claimable (now : Z) (held : gset Z) (id : Z) (c : ExplicitCapture) : Prop := {
  cb_status : xc_status c = "accepted"%string;
  cb_post : is_Some (xc_provider_post_id c);
  cb_due : xc_next_attempt_at c ≤ now;
  cb_free : id ∉ held;
}.

Lemma claimable_iff now held id c :
  is_due now c && negb (bool_decide (id ∈ held)) = true ↔ claimable now held id c.
Proof.
  rewrite andb_true_iff, negb_true_iff, bool_decide_eq_false. split.
  - intros [(? & ? & ?)%is_due_spec ?]. by split.
  - intros [? ? ? ?]. split; [|done]. unfold is_due. by rewrite !andb_true_iff, String.eqb_eq, !bool_decide_eq_true.
Qed.

Lemma due_leb_total x y : due_leb x y = true ∨ due_leb y x = true.
Proof. unfold due_leb. rewrite !orb_true_iff, !andb_true_iff, !Z.ltb_lt, !Z.eqb_eq, !Z.leb_le. lia. Qed.
Lemma due_leb_trans x y z : due_leb x y = true → due_leb y z = true → due_leb x z = true.
Proof. unfold due_leb. rewrite !orb_true_iff, !andb_true_iff, !Z.ltb_lt, !Z.eqb_eq, !Z.leb_le. lia. Qed.

(** A claim takes claimable captures only, and leaves one out only when the batch is full of captures
    that were due no later. *)
Lemma due_captures_exact now limit held d :
  let due := due_captures now limit held d in
  (∀ id c, (id, c) ∈ due → explicit_captures d !! id = Some c ∧ claimable now held id c) ∧
  (∀ id c, explicit_captures d !! id = Some c → claimable now held id c → id ∈ due.*1 ∨
     Z.of_nat (length due) = Z.max 0 limit ∧
     ∀ k x, (k, x) ∈ due → xc_next_attempt_at x ≤ xc_next_attempt_at c).
Proof.
  cbv zeta. unfold due_captures. set (f := λ kv : Z * ExplicitCapture, is_due now kv.2 && negb (bool_decide (kv.1 ∈ held))).
  set (l := sort due_leb (List.filter f (map_to_list (explicit_captures d)))). set (n := Z.to_nat limit).
  assert (Hl : ∀ id c, (id, c) ∈ l ↔ explicit_captures d !! id = Some c ∧ claimable now held id c).
  { intros id c. unfold l. rewrite elem_of_sort, list_elem_of_In, filter_In, <-list_elem_of_In, elem_of_map_to_list.
    unfold f. cbn [fst snd]. by rewrite claimable_iff. }
  split; [intros id c Hin; apply Hl; rewrite <-(take_drop n l); apply elem_of_app; by left|].
  intros id c Hc Hcl. assert (Hin : (id, c) ∈ l) by by apply Hl.
  rewrite <-(take_drop n l) in Hin. apply elem_of_app in Hin as [Hin|Hin].
  - left. apply list_elem_of_fmap. by exists (id, c).
  - right. assert (Hlen : (n < length l)%nat).
    { destruct (decide (n < length l)%nat) as [|Hge]; [done|]. rewrite drop_ge in Hin by lia.
      by apply not_elem_of_nil in Hin. }
    split; [rewrite length_take_le by lia; lia|]. intros k x Hx.
    pose proof (sort_sorted due_leb due_leb_total due_leb_trans
      (List.filter f (map_to_list (explicit_captures d)))) as Hs. fold l in Hs.
    rewrite <-(take_drop n l) in Hs. eapply sorted_app_le in Hs; [|exact Hx|exact Hin].
    unfold due_leb in Hs. cbn [fst snd] in Hs.
    rewrite orb_true_iff, andb_true_iff, Z.ltb_lt, Z.eqb_eq, Z.leb_le in Hs. lia.
Qed.

(** What a pass has done once the captures [visited] are through. *)
Definition pass_state (policy : CapturePolicy) (n : Z) (start : W) (d1 : Db) (visited : list ClaimedCapture)
    (s : CaptureRunSummary) (w : W) : Prop :=
  (w_tick start ≤ w_tick w)%nat ∧ cs_claimed s = n ∧ tallied s (w_db w) (cl_capture_id <$> visited) ∧
  (∀ id, id ∉ cl_capture_id <$> visited → explicit_captures (w_db w) !! id = explicit_captures d1 !! id) ∧
  (∀ id, id ∈ cl_capture_id <$> visited → ∃ c row', explicit_captures (w_db start) !! id = Some c ∧
     explicit_captures (w_db w) !! id = Some row' ∧
     decided policy (w_tick start) (w_tick w) c row').

Lemma pass_step policy n start d1 visited capture c until s (w : W) :
  cl_capture_id capture ∉ cl_capture_id <$> visited →
  explicit_captures (w_db start) !! cl_capture_id capture = Some c →
  explicit_captures d1 !! cl_capture_id capture = Some (leased until c) →
  is_waiting c = true → xc_attempts c = cl_attempts capture → 0 ≤ xc_attempts c →
  cl_provider_post_id capture = default ""%string (xc_provider_post_id c) → is_Some (xc_provider_post_id c) →
  pass_state policy n start d1 visited s w →
  yields env (process_capture policy s capture)
    (λ s' w', pass_state policy n start d1 (visited ++ [capture]) s' w') w.
Proof using All.
  intros Hnew H0 H1 Hw Ha Hn Hpost Hsome (Htick & Hclaimed & Hout & Hrest & Hvis).
  assert (Hlater : yields env (process_capture policy s capture) (λ _ w', later w w') w).
  { unfold yields, wp. pose proof (guar_elim (process_capture_later policy s capture) w) as H.
    by destruct (process_capture policy s capture env w) as [[?|?] ?]. }
  pose proof (process_capture_progress policy capture s (leased until c) w) as Hprog.
  unfold yields, wp in *. destruct (process_capture policy s capture env w) as [[s'|e] w']; [|done].
  cbn [fst snd] in *. unfold later in Hlater.
  destruct Hprog as (row' & -> & E & He); [by rewrite Hrest|done..|].
  assert (Hd : decided policy (w_tick start) (w_tick w') c row').
  { eapply (decided_wider policy (w_tick w) (w_tick w')); [done..|].
    destruct He as [?|[? ? ? ? ? ?]]; [by left|right; by split]. }
  unfold pass_state. rewrite fmap_app. split_and!; [lia|by rewrite counted_claimed| | |].
  - by eapply counted_tallied.
  - intros id [Hv Hx]%not_elem_of_app. apply not_elem_of_cons in Hx as [Hx _].
    rewrite E, lookup_insert_ne by congruence. by apply Hrest.
  - intros id [Hv|Hx%list_elem_of_singleton]%elem_of_app.
    + destruct (Hvis id Hv) as (c' & r & Hc' & Hr & Hor). exists c', r.
      rewrite E, lookup_insert_ne by (intros <-; done). split_and!; [done..|]. by eapply decided_wider; [| |exact Hor].
    + subst id. exists c, row'. by rewrite E, lookup_insert_eq.
Qed.

(** C34. A pass that returns, with nobody interfering. It claims captures that wait, whose next attempt was
    due at the clock the pass started with and whose rows no other transaction held, at most a batch of
    them, and leaves such a capture out only when the batch is full of captures due no later. Each
    claimed capture is decided exactly once, by an answer the resolver gave during the pass: a post makes
    it resolved, when it is the post that was asked for, or unavailable; a post that is gone or out of
    reach makes it unavailable; a post out of reach for now makes it unavailable when the attempts are
    used up, and otherwise leaves it waiting, with exactly one failed attempt more, until the backoff of
    that many attempts (30 s, four times as long after each, at most 30 min), counted from the clock at a
    step of the pass, is over. What ends has its report time. No other capture changed, and the summary
    counts the claimed captures and, apart, those that were resolved, became unavailable and wait on. So
    no capture is retried forever: a waiting one always has fewer attempts than the limit, and every
    pass that takes it adds one or ends it. *)
Theorem pass_settles_or_defers locked policy (w : W) :
  CapturesReported (w_db w) → (∀ id c, explicit_captures (w_db w) !! id = Some c → 0 ≤ xc_attempts c) →
  cp_batch_size policy ≤ u32_max →
  let now := e_clock env (w_tick w) in
  let held := locked (S (S (w_tick w))) in
  yields env (run_due_once locked policy) (λ s w', ∃ due : list Z,
    NoDup due ∧ Z.of_nat (length due) ≤ Z.max 0 (cp_batch_size policy) ∧
    cs_claimed s = Z.of_nat (length due) ∧ tallied s (w_db w') due ∧
    (∀ id c, explicit_captures (w_db w) !! id = Some c → claimable now held id c → id ∈ due ∨
       Z.of_nat (length due) = Z.max 0 (cp_batch_size policy) ∧
       ∀ other o, other ∈ due → explicit_captures (w_db w) !! other = Some o →
         xc_next_attempt_at o ≤ xc_next_attempt_at c) ∧
    (∀ id, id ∉ due → explicit_captures (w_db w') !! id = explicit_captures (w_db w) !! id) ∧
    (∀ id, id ∈ due → ∃ c row', explicit_captures (w_db w) !! id = Some c ∧ claimable now held id c ∧
       explicit_captures (w_db w') !! id = Some row' ∧
       decided policy (w_tick w) (w_tick w') c row')) w.
Proof using All.
  intros HI Hatt Hbatch. cbv zeta. unfold run_due_once, claim_due. yields_steps. rewrite Ho. cbn [w_db set_db tick w_tick].
  unfold yields at 1, wp. cbn [locked_rows fst snd]. yields_steps. cbn [w_db set_db tick w_tick].
  set (now := e_clock env (w_tick w)). set (held := locked _). intros claimed d1 [= <- <-].
  pose proof (due_captures_nodup now (cp_batch_size policy) held (w_db w)) as Hnd.
  destruct (due_captures_exact now (cp_batch_size policy) held (w_db w)) as [Hdue Hfull].
  assert (Hlen : Z.of_nat (length (due_captures now (cp_batch_size policy) held (w_db w)))
            ≤ Z.max 0 (cp_batch_size policy)).
  { unfold due_captures. rewrite length_take. lia. }
  set (due := due_captures now (cp_batch_size policy) held (w_db w)) in *.
  set (d1 := on_explicit_captures _ (w_db w)).
  assert (Hids : cl_capture_id <$> (claimed_row <$> due) = due.*1) by (rewrite <-list_fmap_compose; done).
  assert (Hlookup : ∀ id, explicit_captures d1 !! id =
    (if decide (id ∈ due.*1) then leased (now + LEASE) <$> explicit_captures (w_db w) !! id
     else explicit_captures (w_db w) !! id)).
  { intros id. unfold d1. cbn [explicit_captures on_explicit_captures].
    fold (lease_all (now + LEASE) due (explicit_captures (w_db w))). by rewrite lookup_leased. }
  eapply yields_mono.
  - apply (yields_fold_m env (process_capture policy)
      (λ visited s w', pass_state policy (Z.of_nat (length due)) w d1 visited s w')).
    + unfold pass_state. cbn. rewrite length_fmap. split_and!; [lia|unfold u32_max in *; lia|by split|done|].
      intros id Hin. by apply elem_of_nil in Hin.
    + intros visited x more s w1 Hx HS. rewrite Hx, fmap_app, fmap_cons in Hids.
      assert (Hin : x ∈ claimed_row <$> due) by (rewrite Hx; set_solver).
      apply list_elem_of_fmap in Hin as ([id c] & -> & Hin). pose proof (Hdue id c Hin) as [Hc Hd].
      rewrite <-Hids, NoDup_app, NoDup_cons in Hnd. destruct Hnd as (_ & Hnew & _).
      apply (pass_step _ _ _ _ _ _ c (now + LEASE)); try done.
      * intros Hv. apply (Hnew _ Hv). by left.
      * cbn [cl_capture_id claimed_row fst]. rewrite Hlookup, decide_True, Hc; [done|].
        apply list_elem_of_fmap. by exists (id, c).
      * pose proof (cp_reported _ HI id c Hc) as Hrep. unfold is_waiting. rewrite (cb_status _ _ _ _ Hd). cbn.
        pose proof (cb_status _ _ _ _ Hd). destruct Hrep as [? ? ? Hr| | |]; [by rewrite Hr|congruence..].
      * by eapply Hatt.
      * by apply (cb_post _ _ _ _ Hd).
  - intros s w2 (_ & Hc & Hout & Hrest & Hvis). rewrite Hids in *.
    exists due.*1. rewrite length_fmap. split_and!; try done.
    + intros id c Hcap Hcl. destruct (Hfull id c Hcap Hcl) as [?|[Hmax Hearlier]]; [by left|right].
      split; [done|]. intros other o Hin Ho'. apply list_elem_of_fmap in Hin as ([k x] & -> & Hin).
      destruct (Hdue k x Hin) as [Hx _]. cbn [fst] in Ho'. rewrite Hx in Ho'. injection Ho' as <-. by eapply Hearlier.
    + intros id Hn. by rewrite (Hrest id Hn), Hlookup, decide_False.
    + intros id Hin. destruct (Hvis id Hin) as (c & row' & Hc0 & Hr & Hor). exists c, row'. split_and!; try done.
      apply list_elem_of_fmap in Hin as ([k x] & -> & Hin). destruct (Hdue k x Hin) as [Hx Hd].
      cbn [fst] in Hc0. by assert (x = c) as -> by congruence.
Qed.
End Progress.

(** The backoff starts at 30 s, quadruples, and stays at 30 min from the fourth failure on. *)
Lemma retry_delay_schedule failures :
  1 ≤ failures ≤ i32_max →
  30 * usec ≤ retry_delay failures ≤ 1800 * usec ∧ (4 ≤ failures → retry_delay failures = 1800 * usec).
Proof.
  intros Hf. rewrite retry_delay_backoff by done. unfold backoff.
  assert (H1 : 1 ≤ 4 ^ Z.min (failures - 1) 8) by (pose proof (Z.pow_pos_nonneg 4 (Z.min (failures - 1) 8)); lia).
  unfold usec. split; [lia|]. intros H4.
  pose proof (Z.pow_le_mono_r 4 3 (Z.min (failures - 1) 8)). change (4 ^ 3) with 64 in *. lia.
Qed.

(** ** A concrete pass *)
Module PublicCaptureSamples.
Import SampleContracts ArticleSamples SocialSamples BrowserSamples.

#[export] Instance sample_removal_contracts : RemovalContracts := {| removal_payload_ok _ := true |}.

Definition sample_public_post (id : string) : PublicPost :=
  mkPublicPost id (mkPublicAuthor "800" (Some "handle"%string) None) "text" None (Some 4) [].

#[export] Instance sample_resolver : PublicPostResolver := {|
  resolve_answer id _ :=
    if String.eqb id "20" then Ok (sample_public_post "20")
    else if String.eqb id "21" then Err PostTransient
    else if String.eqb id "22" then Err PostDeleted
    else Ok (sample_public_post "somebody else's");
|}.

Definition sample_accepted (id : string) (attempts : Z) : ExplicitCapture :=
  mkExplicitCapture ("c" +:+ id) 70 5 (Some id) ("https://x.com/u/status/" +:+ id) 11 "accepted" attempts 0
    None None.
Definition sample_queued_report (id capture : Z) : OutboxRow :=
  fresh_row (mkEnvelope id OPERATION_REPORTED 0 "ratatoskr-x" (capture_aggregate capture)
    (capture_aggregate capture) None (Some "user:5"%string) (Str "queued")) 0.

(** One capture of each kind, with its queued report; the owner already had a source for the post the
    provider deleted. *)
Definition sample_waiting : Db :=
  on_explicit_sources (insert (5, "22"%string)
      (mkExplicitSource 90 "800" None None "old" None None [] ("sha256", "x")%string 0))
    (on_outbox_events (λ _, {[201 := sample_queued_report 201 1; 202 := sample_queued_report 202 2;
                              203 := sample_queued_report 203 3; 204 := sample_queued_report 204 4]})
      (on_explicit_captures (λ _, {[1 := sample_accepted "20" 0; 2 := sample_accepted "21" 0;
                                    3 := sample_accepted "22" 0; 4 := sample_accepted "23" 0]}) empty_db)).
Definition sample_policy : CapturePolicy := mkCapturePolicy 5 16.
Definition sample_pass : result CaptureRunSummary PublicCaptureError * W :=
  run_due_once (λ _, ∅) sample_policy (calm 1000) (mkWorld sample_waiting 0 []).

Example sample_pass_outcome :
  sample_pass.1 = Ok (mkCaptureRunSummary 4 1 2 1) ∧
  (λ id, xc_status <$> explicit_captures (w_db sample_pass.2) !! id) <$> [1; 2; 3; 4] =
    [Some "resolved"; Some "accepted"; Some "unavailable"; Some "unavailable"]%string ∧
  (λ key, xs_text <$> explicit_sources (w_db sample_pass.2) !! key) <$> [(5, "20"); (5, "22")]%string =
    [Some "text"; None]%string ∧
  (λ id, report_documents id (w_db sample_pass.2)) <$> [2; 3] =
    [[Str "queued"]; [Str "queued"; Str "deleted"]].
Proof. vm_compute. done. Qed.

Lemma sample_waiting_reported : CapturesReported sample_waiting.
Proof.
  assert (Hids : ∀ id c, explicit_captures sample_waiting !! id = Some c →
    (id = 1 ∧ c = sample_accepted "20" 0) ∨ (id = 2 ∧ c = sample_accepted "21" 0) ∨
    (id = 3 ∧ c = sample_accepted "22" 0) ∨ (id = 4 ∧ c = sample_accepted "23" 0)).
  { intros id c Hc. change (explicit_captures sample_waiting) with
      ({[1 := sample_accepted "20" 0; 2 := sample_accepted "21" 0;
         3 := sample_accepted "22" 0; 4 := sample_accepted "23" 0]} : gmap Z ExplicitCapture) in Hc.
    repeat apply lookup_insert_Some in Hc as [[<- <-]|[_ Hc]]; auto 6.
    apply lookup_singleton_Some in Hc as [<- <-]. auto 6. }
  split.
  - intros id c Hc. destruct (Hids id c Hc) as [[-> ->]|[[-> ->]|[[-> ->]|[-> ->]]]];
      eapply report_waiting; try reflexivity; try (by eexists); vm_compute; reflexivity.
  - intros id Hn. unfold report_documents.
    rewrite map_empty_filter_2; [done|]. intros oid row Hr [_ Hagg].
    change (outbox_events sample_waiting) with
      ({[201 := sample_queued_report 201 1; 202 := sample_queued_report 202 2;
         203 := sample_queued_report 203 3; 204 := sample_queued_report 204 4]} : gmap Z OutboxRow) in Hr.
    assert (Hcap : ∃ capture, (capture = 1 ∨ capture = 2 ∨ capture = 3 ∨ capture = 4) ∧
              row = sample_queued_report oid capture).
    { repeat apply lookup_insert_Some in Hr as [[<- <-]|[_ Hr]]; eauto 7.
      apply lookup_singleton_Some in Hr as [<- <-]. eauto 7. }
    destruct Hcap as (capture & Hcap & ->). unfold capture_aggregate in Hagg. cbn in Hagg.
    assert (E : uuid_text capture = uuid_text id) by (by repeat injection Hagg as Hagg).
    apply sample_uuid_inj in E as ->. by destruct Hcap as [->|[->|[->| ->]]].
  - intros i j c c' Hi Hj E. destruct (Hids i c Hi) as [[-> ->]|[[-> ->]|[[-> ->]|[-> ->]]]],
      (Hids j c' Hj) as [[-> ->]|[[-> ->]|[[-> ->]|[-> ->]]]]; done.
Qed.

Lemma captures_are_reported_once_witness :
  guar (calm 1000) (on_db captures_follow)
    (consume_browser_commands "d" sample_browser_durable sample_commands) ∧
  guar (calm 1000) (on_db captures_follow) (run_due_once (λ _, ∅) sample_policy).
Proof.
  pose proof sample_uuid_inj. apply (captures_are_reported_once (calm 1000)).
  apply calm_rely. typeclasses eauto.
Defined.

Lemma worker_stays_with_the_owner_witness :
  guar (calm 1000) (on_db worker_writes) (run_due_once (λ _, ∅) sample_policy).
Proof.
  apply (worker_stays_with_the_owner (calm 1000) (λ _, ∅) sample_policy).
  apply calm_rely. typeclasses eauto.
Defined.

Lemma sample_waiting_attempts id c : explicit_captures sample_waiting !! id = Some c → 0 ≤ xc_attempts c.
Proof.
  intros Hc. change (explicit_captures sample_waiting) with
    ({[1 := sample_accepted "20" 0; 2 := sample_accepted "21" 0;
       3 := sample_accepted "22" 0; 4 := sample_accepted "23" 0]} : gmap Z ExplicitCapture) in Hc.
  repeat apply lookup_insert_Some in Hc as [[<- <-]|[_ Hc]]; try done.
  by apply lookup_singleton_Some in Hc as [<- <-].
Qed.

(** The pass over the four captures returns, and each ends the way its answer says: the one that is out
    of reach for now waits, with one attempt, half a minute more. *)
Lemma pass_settles_or_defers_witness :
  sample_pass.1 = Ok (mkCaptureRunSummary 4 1 2 1) ∧
  (∃ due : list Z, length due = 4%nat ∧
    tallied (mkCaptureRunSummary 4 1 2 1) (w_db sample_pass.2) due ∧
    (∀ id, id ∈ due → ∃ c row', explicit_captures sample_waiting !! id = Some c ∧ claimable 1000 ∅ id c ∧
       explicit_captures (w_db sample_pass.2) !! id = Some row' ∧
       decided (calm 1000) sample_policy 0 (w_tick sample_pass.2) c row')) ∧
  (λ c, (xc_attempts c, xc_next_attempt_at c)) <$> explicit_captures (w_db sample_pass.2) !! 2 =
    Some (1, 1000 + 30 * usec).
Proof.
  assert (Hok : sample_pass.1 = Ok (mkCaptureRunSummary 4 1 2 1)) by (vm_compute; reflexivity).
  split; [exact Hok|]. split; [|vm_compute; reflexivity].
  pose proof (pass_settles_or_defers (calm 1000) (λ _ _, eq_refl) (λ _, ∅) sample_policy
    (mkWorld sample_waiting 0 []) sample_waiting_reported sample_waiting_attempts ltac:(unfold u32_max; cbn; lia)) as H.
  unfold yields, wp in H. fold sample_pass in H. rewrite Hok in H.
  destruct H as (due & _ & _ & Hc & Ht & _ & _ & Hd). exists due.
  split; [cbn in Hc; lia|]. split; [exact Ht|exact Hd].
Defined.
End PublicCaptureSamples.
