(* ===== verification/Snapshot.v ===== *)
(** * Complete bookmark snapshots ([crates/x-sync/src/lib.rs])

    A run stages the provider's pages as a candidate snapshot, each page in one transaction with its
    checkpoint, and one final transaction reconciles the account's bookmarks against the candidate
    and makes it the account's authority. The provider is an answer per step. *)
From S2P Require Export Social.

(** ** Pages and results *)

Record BookmarkPage := mkBookmarkPage {
  page_envelope : Normalize.Dto.Envelope;
  page_next_token : option string;
}.

(** [fetch_page]'s result: a page, or the provider did not return one. *)
Definition BookmarkPageSource : Type := nat → result BookmarkPage unit.

Inductive SnapshotOutcome :=
  | Incomplete (run_id : Z)
  | Completed (run_id snapshot_id : Z).

Record Run := mkRun {
  rn_id : Z;
  rn_account_id : Z;
  rn_snapshot_id : Z;
  rn_checkpoint : option string;
}.

Record ReconciliationStatistics := mkStatistics { st_added : Z; st_retained : Z; st_removed : Z }.

(** The iteration order of a [HashMap]: arbitrary, and fixed by the map's own random seed. *)
Class HashOrder := { hash_values : Z → gmap string Z → list Z }.
Class HashOrderLaws `{HashOrder} : Prop := {
  hash_values_perm seed m : hash_values seed m ≡ₚ (map_to_list m).*2;
}.

Definition availability_name (availability : Availability) : string :=
  match availability with
  | Active => "active"
  | Deleted => "deleted"
  | Protected => "protected"
  | AuthorSuspended => "author_suspended"
  | Unavailable => "unavailable"
  | Unknown => "unknown"
  end.

Definition relation_name (relation : Relation) : string :=
  match relation with Reply => "reply" | Quote => "quote" | Repost => "repost" end.

Definition media_kind_name (kind : MediaKind) : string :=
  match kind with Photo => "photo" | Video => "video" | AnimatedGif => "animated_gif" end.

(** ** Persisting normalized records *)

Definition upsert_user (fresh : Z) (user : NormalizedUser) (d : Db) : option (Z * Db) :=
  match users d !! nu_provider_id user with
  | Some row =>
      Some (usr_id row, on_users (insert (nu_provider_id user)
        (mkUserRow (usr_id row) (nu_username user) (nu_display_name user) (nu_parser_version user))) d)
  | None =>
      match user_by_id fresh d with
      | Some _ => None
      | None => Some (fresh, on_users (insert (nu_provider_id user)
          (mkUserRow fresh (nu_username user) (nu_display_name user) (nu_parser_version user))) d)
      end
  end.

Definition persist_user (ids : gmap string Z) (user : NormalizedUser) :
    Prog SnapshotError (gmap string Z) :=
  let! fresh := new_uuid in
  let! id := stmt SnapshotQuery (upsert_user fresh user) in
  ret (<[nu_provider_id user := id]> ids).

Definition persist_users (users : list NormalizedUser) : Prog SnapshotError (gmap string Z) :=
  fold_m persist_user ∅ users.

(** The row a page writes; the statement leaves [normalization_provenance] to the default of the
    column for a new row and to its present value for a known one. *)
Definition post_row (id author_id : Z) (provenance : string) (post : NormalizedPost) : PostRow :=
  mkPostRow id (Some author_id) (np_text post) (np_long_text post) (np_expanded_urls post)
    (np_language post) (np_published_at post) (np_edited_at post) (np_conversation_provider_id post)
    [np_like_count post; np_retweet_count post; np_reply_count post; np_quote_count post;
     np_bookmark_count post; np_impression_count post]
    (np_parser_version post) provenance (availability_name (np_availability post)).

(** The default of [posts.normalization_provenance]. *)
Definition OFFICIAL_API : string := "official-api".

Definition upsert_post (fresh author_id : Z) (post : NormalizedPost) (d : Db) : option (Z * Db) :=
  match posts d !! np_provider_id post with
  | Some row =>
      Some (pst_id row, on_posts (insert (np_provider_id post) (post_row (pst_id row) author_id
        (pst_normalization_provenance row) post)) d)
  | None =>
      match post_by_id fresh d with
      | Some _ => None
      | None => Some (fresh, on_posts (insert (np_provider_id post) (post_row fresh author_id
          OFFICIAL_API post)) d)
      end
  end.

Definition persist_post (users ids : gmap string Z) (post : NormalizedPost) :
    Prog SnapshotError (gmap string Z) :=
  let! author_id := of_result (ok_or (users !! np_author_provider_id post) PersistedAuthorMissing) in
  let! fresh := new_uuid in
  let! id := stmt SnapshotQuery (upsert_post fresh author_id post) in
  ret (<[np_provider_id post := id]> ids).

Definition persist_posts (posts : list NormalizedPost) (users : gmap string Z) :
    Prog SnapshotError (gmap string Z) :=
  fold_m (persist_post users) ∅ posts.

Definition persist_relation (posts : gmap string Z) (relation : NormalizedRelation) :
    Prog SnapshotError unit :=
  let! post_id := of_result (ok_or (posts !! nr_post_provider_id relation) PersistedAuthorMissing) in
  execute SnapshotQuery (on_post_relations
    (insert (post_id, nr_related_post_provider_id relation, relation_name (nr_relation relation))
       (nr_parser_version relation))).

Definition persist_relations (relations : list NormalizedRelation) (posts : gmap string Z) :
    Prog SnapshotError unit :=
  for_each relations (persist_relation posts).

Definition persist_media_item (posts : gmap string Z) (item : NormalizedMedia) :
    Prog SnapshotError unit :=
  let! post_id := of_result (ok_or (posts !! nm_post_provider_id item) PersistedAuthorMissing) in
  execute SnapshotQuery (on_media
    (insert (post_id, nm_provider_id item)
       (mkMediaRow (media_kind_name <$> nm_kind item) (nm_metadata item) (nm_blob_ref item)
          (nm_parser_version item)))).

Definition persist_media (media : list NormalizedMedia) (posts : gmap string Z) :
    Prog SnapshotError unit :=
  for_each media (persist_media_item posts).

(** ** Staging *)

Section Sync.
Context {ch : Chrono} {ct : Contracts} {ec : EnvelopeCodec} {cr : Crypto} {ac : ArticleContracts}
  {sc : SocialContracts} {ho : HashOrder}.

Definition stage_item (snapshot_id observed_at post_id : Z) (d : Db) : Db :=
  on_snapshot_bookmark_items (set_rows snapshot_id (insert post_id observed_at)) d.

Definition staged_run (next_token : option string) (pages items : Z) (run : SyncRun) : SyncRun :=
  mkSyncRun (run_account_id run) (run_run_type run) (run_state run) next_token pages items
    (run_added_count run) (run_retained_count run) (run_removed_count run) (run_finished_at run).

(** The checkpoint statement: the counters must fit their columns; a run that is no longer running
    is left alone. *)
Definition checkpoint_run (run_id : Z) (next_token : option string) (item_count : Z) (d : Db) :
    option (unit * Db) :=
  match sync_runs d !! run_id with
  | Some run =>
      if String.eqb (run_state run) "running" then
        pages ← int4 (run_pages_fetched run + 1);
        items ← int4 (run_items_observed run + item_count);
        Some (tt, on_sync_runs (insert run_id (staged_run next_token pages items run)) d)
      else Some (tt, d)
  | None => Some (tt, d)
  end.

(** The records of one normalized page, up to the ids of its posts. *)
Definition persist_page (normalized : NormalizedBatch) : Prog SnapshotError (gmap string Z) :=
  let! users := persist_users (nb_users normalized) in
  let! posts := persist_posts (nb_posts normalized) users in
  do! persist_relations (nb_relations normalized) posts in
  do! persist_media (nb_media normalized) posts in
  ret posts.

Definition stage_page (run : Run) (page : BookmarkPage) (observed_at : Z) : Prog SnapshotError unit :=
  let! normalized := of_result (result_map_err SnapshotNormalize (normalize (page_envelope page))) in
  let! item_count := of_result (ok_or (i32_try_from (Z.of_nat (length (nb_posts normalized))))
                                  StatisticsOverflow) in
  transaction SnapshotQuery (
    let! seed := new_uuid in
    let! posts := persist_page normalized in
    do! publish_bookmark_sources (rn_account_id run) (hash_values seed posts) observed_at in
    do! for_each (hash_values seed posts) (λ post_id,
          execute SnapshotQuery (stage_item (rn_snapshot_id run) observed_at post_id)) in
    do! stmt SnapshotQuery (checkpoint_run (rn_id run) (page_next_token page) item_count) in
    ret (Commit tt)).

(** ** Runs *)

Definition insert_run (id account : Z) (run_type : string) (d : Db) : option (unit * Db) :=
  if bool_decide (is_Some (accounts d !! account)) then
    table ← insert_new id (mkSyncRun account run_type "running" None 0 0 0 0 0 None) (sync_runs d);
    Some (tt, on_sync_runs (λ _, table) d)
  else None.

Definition insert_snapshot (id run_id : Z) (folder : option Z) (d : Db) : option (unit * Db) :=
  table ← insert_new id (mkSnapshot run_id folder false None 0) (snapshots d);
  Some (tt, on_snapshots (λ _, table) d).

Definition create_run (account : Z) : Prog SnapshotError Run :=
  transaction SnapshotQuery (
    let! run_id := new_uuid in
    do! stmt SnapshotQuery (insert_run run_id account "full") in
    let! snapshot_id := new_uuid in
    do! stmt SnapshotQuery (insert_snapshot snapshot_id run_id None) in
    ret (Commit (mkRun run_id account snapshot_id None))).

Definition resumable (account run_id : Z) (d : Db) : option (Z * option string) :=
  run ← sync_runs d !! run_id;
  '(snapshot_id, _) ← find_row (λ _ s, bool_decide (snap_sync_run_id s = run_id)) (snapshots d);
  if bool_decide (run_account_id run = account) && String.eqb (run_run_type run) "full" &&
     (String.eqb (run_state run) "running" || String.eqb (run_state run) "failed")
  then Some (snapshot_id, run_checkpoint run) else None.

Definition with_run_state (state : string) (finished_at : option Z) (run : SyncRun) : SyncRun :=
  mkSyncRun (run_account_id run) (run_run_type run) state (run_checkpoint run)
    (run_pages_fetched run) (run_items_observed run) (run_added_count run) (run_retained_count run)
    (run_removed_count run) finished_at.

Definition resume_run (account run_id : Z) : Prog SnapshotError Run :=
  let! row := on_pool (select SnapshotQuery (resumable account run_id)) in
  match row with
  | None => throw RunUnavailable
  | Some (snapshot_id, checkpoint) =>
      do! on_pool (execute SnapshotQuery
            (on_sync_runs (alter (with_run_state "running" None) run_id))) in
      ret (mkRun run_id account snapshot_id checkpoint)
  end.

Definition load_or_create_run (account : Z) (resume_run_id : option Z) : Prog SnapshotError Run :=
  match resume_run_id with
  | Some run_id => resume_run account run_id
  | None => create_run account
  end.

Definition mark_failed (run_id : Z) : Prog SnapshotError unit :=
  let! now := clock_now in
  on_pool (execute SnapshotQuery (on_sync_runs (alter (with_run_state "failed" (Some now)) run_id))).

(** ** Completion *)

Definition finalizable (account : Z) (run : Run) (d : Db) : bool :=
  match snapshots d !! rn_snapshot_id run, sync_runs d !! rn_id run with
  | Some snapshot, Some row =>
      bool_decide (snap_sync_run_id snapshot = rn_id run) &&
      bool_decide (run_account_id row = account) && negb (snap_complete snapshot) &&
      String.eqb (run_state row) "running"
  | _, _ => false
  end.

Definition lock_finalization (account : Z) (run : Run) : Prog SnapshotError unit :=
  do! execute SnapshotQuery (λ d, d) in
  do! execute SnapshotQuery (λ d, d) in
  let! current := select SnapshotQuery (finalizable account run) in
  if (current : bool) then ret tt else throw RunUnavailable.

Definition is_active (bookmark : Bookmark) : bool :=
  bool_decide (bm_observed_removed_at bookmark = None).

Definition staged (snapshot_id : Z) (d : Db) : gmap Z Z := rows (snapshot_bookmark_items d) snapshot_id.
Definition bookmarks_of (account : Z) (d : Db) : gmap Z Bookmark := rows (bookmarks d) account.
Definition active_bookmarks (account : Z) (d : Db) : gmap Z Bookmark :=
  filter (λ kv, is_active kv.2 = true) (bookmarks_of account d).

(** The two counting joins. *)
Definition retained_items (account snapshot_id : Z) (d : Db) : gmap Z Z :=
  filter (λ kv, is_Some (active_bookmarks account d !! kv.1)) (staged snapshot_id d).
Definition added_items (account snapshot_id : Z) (d : Db) : gmap Z Z :=
  filter (λ kv, active_bookmarks account d !! kv.1 = None) (staged snapshot_id d).

Definition first_observed (observed_at : Z) : Bookmark :=
  mkBookmark observed_at observed_at None None None None None None.
Definition reobserved (observed_at : Z) (b : Bookmark) : Bookmark :=
  mkBookmark (bm_first_observed_saved_at b) observed_at None None (bm_last_write_operation_id b)
    (bm_last_write_observed_at b) (bm_observed_removed_write_operation_id b) None.

Definition activate_item (item : option Z) (bookmark : option Bookmark) : option Bookmark :=
  match item, bookmark with
  | Some observed_at, Some b => Some (reobserved observed_at b)
  | Some observed_at, None => Some (first_observed observed_at)
  | None, b => b
  end.
Definition upsert_active_bookmarks (account snapshot_id : Z) (d : Db) : Db :=
  on_bookmarks (set_rows account (λ bs, merge activate_item (staged snapshot_id d) bs)) d.

Definition removed_bookmark (snapshot_id completed_at : Z) (b : Bookmark) : Bookmark :=
  mkBookmark (bm_first_observed_saved_at b) (bm_last_observed_saved_at b) (Some completed_at)
    (Some snapshot_id) (bm_last_write_operation_id b) (bm_last_write_observed_at b)
    (bm_observed_removed_write_operation_id b) (bm_last_incremental_run_id b).

Definition absent_bookmarks (account snapshot_id : Z) (d : Db) : gmap Z Bookmark :=
  filter (λ kv, staged snapshot_id d !! kv.1 = None) (active_bookmarks account d).
Definition remove_absent (account snapshot_id completed_at : Z) (d : Db) :
    option (list (Z * option Z) * Db) :=
  let absent := absent_bookmarks account snapshot_id d in
  Some ((λ kv, (kv.1, bm_last_incremental_run_id kv.2)) <$> map_to_list absent,
        on_bookmarks (set_rows account (λ bs,
          union (removed_bookmark snapshot_id completed_at <$> absent) bs)) d).

Definition record_repair (snapshot_id account post_id : Z) (d : Db) : Db :=
  on_bookmark_reconciliation_repairs
    (upsert (snapshot_id, (account, post_id)) "incremental_drift"%string id) d.

(** A removal that corrects a head scan's observation is recorded as a repair. *)
Definition repair_removed (snapshot_id account : Z) (row : Z * option Z) : Prog SnapshotError unit :=
  match snd row with
  | None => ret tt
  | Some _ => execute SnapshotQuery (record_repair snapshot_id account row.1)
  end.

Definition record_absent_bookmarks (account snapshot_id completed_at : Z) : Prog SnapshotError Z :=
  let! removed := stmt SnapshotQuery (remove_absent account snapshot_id completed_at) in
  do! for_each removed (repair_removed snapshot_id account) in
  ret (Z.of_nat (length removed)).

Definition reconcile_bookmarks (account : Z) (run : Run) (completed_at : Z) :
    Prog SnapshotError ReconciliationStatistics :=
  let snapshot_id := rn_snapshot_id run in
  let! added := select SnapshotQuery (λ d, Z.of_nat (size (added_items account snapshot_id d))) in
  let! retained := select SnapshotQuery (λ d, Z.of_nat (size (retained_items account snapshot_id d))) in
  do! execute SnapshotQuery (upsert_active_bookmarks account snapshot_id) in
  let! removed := record_absent_bookmarks account snapshot_id completed_at in
  let! added := of_result (ok_or (i32_try_from added) StatisticsOverflow) in
  let! retained := of_result (ok_or (i32_try_from retained) StatisticsOverflow) in
  let! removed := of_result (ok_or (i32_try_from removed) StatisticsOverflow) in
  ret (mkStatistics added retained removed).

(** *** Uncertain writes *)

Definition item_present (snapshot_id : Z) (provider_post_id : string) (d : Db) : bool :=
  match posts d !! provider_post_id with
  | Some post => bool_decide (is_Some (staged snapshot_id d !! pst_id post))
  | None => false
  end.

Definition is_uncertain (account : Z) (operation : WriteOperation) : bool :=
  bool_decide (wo_account_id operation = account) && String.eqb (wo_status operation) "uncertain".

Definition uncertain_operations (account snapshot_id : Z) (d : Db) : list (Z * (string * bool)) :=
  (λ kv, (kv.1, (wo_action kv.2, item_present snapshot_id (wo_provider_post_id kv.2) d)))
    <$> List.filter (λ kv, is_uncertain account kv.2) (map_to_list (bookmark_write_operations d)).

Definition reconciled_status (action : string) (present : bool) : string :=
  if (String.eqb action "add" && present) || (String.eqb action "remove" && negb present)
  then "reconciled_succeeded" else "reconciled_not_current".
Definition reconciled_outcome (present : bool) : string :=
  if present then "complete_snapshot_present" else "complete_snapshot_absent".

Definition reconciled_operation (status outcome : string) (completed_at : Z) (o : WriteOperation) :
    WriteOperation :=
  if String.eqb (wo_status o) "uncertain" then
    mkWriteOperation (wo_account_id o) (wo_internal_user_id o) (wo_consent_id o) (wo_action o)
      (wo_provider_post_id o) (wo_execution_mode o) (wo_idempotency_digest o)
      (wo_request_fingerprint o) status (Some outcome) (wo_provider_request_id o)
      (wo_rate_limit_reset_at o) (Some completed_at) completed_at
  else o.

(** The audit statement inserts one row per operation whose consent exists. *)
Definition audit_reconciliation (operation_id completed_at snapshot_id : Z) (status : string) (d : Db) :
    Db :=
  match bookmark_write_operations d !! operation_id with
  | None => d
  | Some o =>
      match wo_consent_id o ≫= λ consent, bookmark_write_consents d !! consent with
      | None => d
      | Some consent =>
          on_bookmark_write_audit_events (λ events, events ++
            [mkAuditEvent (Some operation_id) (wo_consent_id o) (wo_account_id o)
               (wo_internal_user_id o) (wo_action o) (wo_provider_post_id o) (wc_surface consent)
               "snapshot_reconciled" 8 completed_at (Some (uuid_text operation_id))
               (Some (wo_idempotency_digest o)) (wo_provider_request_id o)
               (obj [("snapshot_id", Str (uuid_text snapshot_id)); ("result", Str status)])]) d
      end
  end.

Definition reconcile_operation (run : Run) (completed_at : Z) (row : Z * (string * bool)) :
    Prog SnapshotError unit :=
  let '(operation_id, (action, present)) := row in
  let status := reconciled_status action present in
  do! execute SnapshotQuery (on_bookmark_write_operations
        (alter (reconciled_operation status (reconciled_outcome present) completed_at) operation_id)) in
  execute SnapshotQuery
    (audit_reconciliation operation_id completed_at (rn_snapshot_id run) status).

Definition reconcile_uncertain_bookmark_writes (account : Z) (run : Run) (completed_at : Z) :
    Prog SnapshotError unit :=
  let! operations := select SnapshotQuery (uncertain_operations account (rn_snapshot_id run)) in
  for_each operations (reconcile_operation run completed_at).

(** *** The completion record *)

Definition completed_run (completed_at : Z) (statistics : ReconciliationStatistics) (run : SyncRun) :
    SyncRun :=
  mkSyncRun (run_account_id run) (run_run_type run) "completed" None (run_pages_fetched run)
    (run_items_observed run) (st_added statistics) (st_retained statistics) (st_removed statistics)
    (Some completed_at).
Definition completed_snapshot (completed_at pages : Z) (snapshot : Snapshot) : Snapshot :=
  mkSnapshot (snap_sync_run_id snapshot) (snap_folder_id snapshot) true (Some completed_at) pages.

(** The page count is read from the run in the same statement. *)
Definition complete_snapshot_row (run : Run) (completed_at : Z) (d : Db) : option (unit * Db) :=
  match snapshots d !! rn_snapshot_id run with
  | None => Some (tt, d)
  | Some snapshot =>
      row ← sync_runs d !! rn_id run;
      Some (tt, on_snapshots (insert (rn_snapshot_id run)
                  (completed_snapshot completed_at (run_pages_fetched row) snapshot)) d)
  end.

Definition record_completion (run : Run) (completed_at : Z) (statistics : ReconciliationStatistics) :
    Prog SnapshotError unit :=
  do! execute SnapshotQuery (on_sync_runs (alter (completed_run completed_at statistics) (rn_id run))) in
  stmt SnapshotQuery (complete_snapshot_row run completed_at).

Definition settled_state (completed_at : Z) (s : IncrementalState) : IncrementalState :=
  mkIncrementalState (inc_watermark_provider_post_id s) false "idle" (inc_last_incremental_run_id s)
    completed_at.

Definition replace_authority (account snapshot_id completed_at : Z) : Prog SnapshotError unit :=
  execute SnapshotQuery (on_bookmark_snapshot_authority
    (insert account (mkAuthority snapshot_id completed_at))).

(** The body of [complete_run]'s transaction. *)
Definition completion (account : Z) (run : Run) (completed_at : Z) : Prog SnapshotError unit :=
  do! lock_finalization account run in
  let! statistics := reconcile_bookmarks account run completed_at in
  do! reconcile_uncertain_bookmark_writes account run completed_at in
  do! record_completion run completed_at statistics in
  do! execute SnapshotQuery
        (on_bookmark_incremental_state (alter (settled_state completed_at) account)) in
  replace_authority account (rn_snapshot_id run) completed_at.

Definition complete_run (account : Z) (run : Run) : Prog SnapshotError unit :=
  let! completed_at := clock_now in
  transaction SnapshotQuery (
    do! completion account run completed_at in
    ret (Commit tt)).

(** ** The service *)

Definition with_checkpoint (run : Run) (checkpoint : option string) : Run :=
  mkRun (rn_id run) (rn_account_id run) (rn_snapshot_id run) checkpoint.

(** [loop { ... }]: [None] is a loop that is still going after [fuel] rounds. *)
Fixpoint run_pages (fuel : nat) (gate : BudgetGate) (source : BookmarkPageSource) (account : Z)
    (run : Run) : Prog SnapshotError (option SnapshotOutcome) :=
  match fuel with
  | O => ret None
  | S fuel =>
      let! reserved := attempt (reserve gate account 1) in
      match reserved with
      | Err (Exhausted _) =>
          do! mark_failed (rn_id run) in
          ret (Some (Incomplete (rn_id run)))
      | Err error =>
          do! mark_failed (rn_id run) in
          throw (SnapshotBudget error)
      | Ok _ =>
          let! answer := call (FetchBookmarks (rn_checkpoint run)) source in
          match answer with
          | Err _ =>
              do! mark_failed (rn_id run) in
              ret (Some (Incomplete (rn_id run)))
          | Ok page =>
              let! observation_time := clock_now in
              let! staged := attempt (stage_page run page observation_time) in
              match staged with
              | Err error =>
                  do! mark_failed (rn_id run) in
                  throw error
              | Ok _ =>
                  match page_next_token page with
                  | Some token => run_pages fuel gate source account (with_checkpoint run (Some token))
                  | None =>
                      do! complete_run account run in
                      ret (Some (Completed (rn_id run) (rn_snapshot_id run)))
                  end
              end
          end
      end
  end.

Definition run_snapshot (fuel : nat) (gate : BudgetGate) (source : BookmarkPageSource) (account : Z)
    (resume_run_id : option Z) : Prog SnapshotError (option SnapshotOutcome) :=
  let! run := load_or_create_run account resume_run_id in
  run_pages fuel gate source account run.
End Sync.

(** ** What a completion does *)

Section Completion.
Context {ch : Chrono} {ct : Contracts} {ec : EnvelopeCodec} {cr : Crypto} {ac : ArticleContracts}
  {sc : SocialContracts} {ho : HashOrder}.

(** The bookmark a completed snapshot leaves for one post: staged posts are active, active bookmarks
    the snapshot does not hold are removed by it, the rest is untouched. *)
Definition reconciled_bookmark (snapshot_id completed_at : Z) (item : option Z) (b : option Bookmark) :
    option Bookmark :=
  match item, b with
  | None, Some b =>
      Some (if is_active b then removed_bookmark snapshot_id completed_at b else b)
  | _, _ => activate_item item b
  end.

Definition settled_operation (account snapshot_id completed_at : Z) (d : Db) (o : WriteOperation) :
    WriteOperation :=
  if is_uncertain account o then
    let present := item_present snapshot_id (wo_provider_post_id o) d in
    reconciled_operation (reconciled_status (wo_action o) present) (reconciled_outcome present)
      completed_at o
  else o.

Definition completion_statistics (account snapshot_id : Z) (d : Db) : ReconciliationStatistics :=
  mkStatistics (Z.of_nat (size (added_items account snapshot_id d)))
    (Z.of_nat (size (retained_items account snapshot_id d)))
    (Z.of_nat (size (absent_bookmarks account snapshot_id d))).

(** What native folders rest on; bookmark snapshots leave it alone. *)
Definition folder_evidence (d : Db) :=
  (bookmark_folder_items d, folder_membership_snapshot_authority d, folder_membership_observations d,
   snapshot_folder_membership_items d, folder_capability_limits d).

(** The effect of one completion. *)
Record CompletionEffect (account : Z) (run : Run) (now : Z) (d d' : Db) : Prop := {
  ce_final : finalizable account run d = true;
  ce_bookmarks post : bookmarks_of account d' !! post =
    reconciled_bookmark (rn_snapshot_id run) now (staged (rn_snapshot_id run) d !! post)
      (bookmarks_of account d !! post);
  ce_others other : other ≠ account → bookmarks_of other d' = bookmarks_of other d;
  ce_runs : sync_runs d' =
    alter (completed_run now (completion_statistics account (rn_snapshot_id run) d)) (rn_id run)
      (sync_runs d);
  ce_snapshot : ∃ snapshot row, snapshots d !! rn_snapshot_id run = Some snapshot ∧
    sync_runs d !! rn_id run = Some row ∧
    snapshots d' = <[rn_snapshot_id run := completed_snapshot now (run_pages_fetched row) snapshot]>
                     (snapshots d);
  ce_authority : bookmark_snapshot_authority d' =
    <[account := mkAuthority (rn_snapshot_id run) now]> (bookmark_snapshot_authority d);
  ce_operations id : bookmark_write_operations d' !! id =
    settled_operation account (rn_snapshot_id run) now d <$> bookmark_write_operations d !! id;
  ce_incremental : bookmark_incremental_state d' =
    alter (settled_state now) account (bookmark_incremental_state d);
  ce_staged : snapshot_bookmark_items d' = snapshot_bookmark_items d;
  ce_posts : posts d' = posts d;
  ce_folders : folder_evidence d' = folder_evidence d;
}.

(** *** Reconciled rows *)

Lemma staged_upsert account snapshot_id other d :
  staged other (upsert_active_bookmarks account snapshot_id d) = staged other d.
Proof. done. Qed.

Lemma bookmarks_of_set account other f d :
  bookmarks_of other (on_bookmarks (set_rows account f) d) =
    if decide (account = other) then f (bookmarks_of other d) else bookmarks_of other d.
Proof. unfold bookmarks_of. simpl. apply rows_set. Qed.

Lemma lookup_upserted account snapshot_id d post :
  bookmarks_of account (upsert_active_bookmarks account snapshot_id d) !! post =
    activate_item (staged snapshot_id d !! post) (bookmarks_of account d !! post).
Proof.
  unfold upsert_active_bookmarks. rewrite bookmarks_of_set, decide_True by done.
  rewrite lookup_merge. by destruct (staged snapshot_id d !! post), (bookmarks_of account d !! post).
Qed.

Lemma lookup_absent account snapshot_id d post :
  absent_bookmarks account snapshot_id d !! post =
    match staged snapshot_id d !! post, bookmarks_of account d !! post with
    | None, Some b => if is_active b then Some b else None
    | _, _ => None
    end.
Proof. apply lookup_unstaged. Qed.

Lemma absent_upserted account snapshot_id d :
  absent_bookmarks account snapshot_id (upsert_active_bookmarks account snapshot_id d) =
  absent_bookmarks account snapshot_id d.
Proof.
  apply map_eq. intros post. rewrite !lookup_absent, lookup_upserted, staged_upsert.
  by destruct (staged snapshot_id d !! post), (bookmarks_of account d !! post).
Qed.

Lemma lookup_removed account snapshot_id now d post :
  ((removed_bookmark snapshot_id now <$> absent_bookmarks account snapshot_id d)
     ∪ bookmarks_of account (upsert_active_bookmarks account snapshot_id d)) !! post =
  reconciled_bookmark snapshot_id now (staged snapshot_id d !! post) (bookmarks_of account d !! post).
Proof.
  rewrite lookup_union, lookup_fmap, lookup_absent, lookup_upserted.
  destruct (staged snapshot_id d !! post), (bookmarks_of account d !! post) as [b|]; try done.
  simpl. by destruct (is_active b).
Qed.

(** *** The statements *)

Definition repairs_only (d d' : Db) : Prop :=
  ∃ m, d' = on_bookmark_reconciliation_repairs (λ _, m) d.

#[export] Instance repairs_only_preorder : PreOrder repairs_only.
Proof.
  split; [intros d; exists (bookmark_reconciliation_repairs d); by destruct d|].
  intros d1 d2 d3 [m1 ->] [m2 ->]. by exists m2.
Qed.

Lemma record_absent_spec env account snapshot_id now (w : W) :
  wp env (record_absent_bookmarks account snapshot_id now) (λ r w', match r with
    | Err _ => True
    | Ok removed => removed = Z.of_nat (size (absent_bookmarks account snapshot_id (w_db w))) ∧
        repairs_only (on_bookmarks (set_rows account (λ bs,
          union (removed_bookmark snapshot_id now <$> absent_bookmarks account snapshot_id (w_db w)) bs))
          (w_db w)) (w_db w')
    end) w.
Proof.
  unfold record_absent_bookmarks. wp_steps; [|done]. intros removed d [= <- <-]. split; [|done].
  set (rows := fmap _ (map_to_list _)). set (w1 := set_db _ _).
  assert (Hg : guar env (on_db repairs_only) (for_each rows (repair_removed snapshot_id account))).
  { unfold repair_removed. guar_steps. unfold on_db, record_repair. simpl. by eexists. }
  apply wp_bind. eapply (wp_mono _ _ (λ _ w', repairs_only (w_db w1) (w_db w')));
    [exact (guar_elim Hg w1)|].
  intros [u|e] w' Hr; [|done]. wp_steps. split; [|exact Hr].
  unfold rows. by rewrite length_fmap, length_map_to_list.
Qed.

Lemma lock_spec env account run (w : W) :
  wp env (lock_finalization account run) (λ r w', match r with
    | Err _ => True
    | Ok _ => w_db w' = w_db w ∧ finalizable account run (w_db w) = true
    end) w.
Proof.
  unfold lock_finalization. wp_steps; try done. cbn [w_db set_db tick].
  destruct (finalizable account run (w_db w)) eqn:E; by wp_steps.
Qed.

Lemma reconcile_bookmarks_spec env account run now (w : W) :
  wp env (reconcile_bookmarks account run now) (λ r w', match r with
    | Err _ => True
    | Ok statistics =>
        statistics = completion_statistics account (rn_snapshot_id run) (w_db w) ∧
        ∃ bs, (∀ post, bs !! post = reconciled_bookmark (rn_snapshot_id run) now
                 (staged (rn_snapshot_id run) (w_db w) !! post) (bookmarks_of account (w_db w) !! post)) ∧
          repairs_only (on_bookmarks (set_rows account (λ _, bs)) (w_db w)) (w_db w')
    end) w.
Proof.
  set (snap := rn_snapshot_id run). set (d := w_db w). unfold reconcile_bookmarks.
  wp_steps; try done. cbn [w_db set_db tick]. fold snap d.
  eapply wp_mono; [apply record_absent_spec|]. intros [removed|e] w1; [|done].
  cbn [w_db set_db tick]. rewrite absent_upserted. intros [-> Hrep].
  unfold i32_try_from. wp_steps.
  assert (Hok : ∀ z (Q : result Z SnapshotError → Prop), (∀ y, int4 z = Some y → y = z → Q (Ok z)) →
            Q (Err StatisticsOverflow) → Q (ok_or (int4 z) StatisticsOverflow)).
  { intros z Q H1 H2. destruct (int4 z) as [y|] eqn:E; [|done].
    pose proof E as [-> _]%int4_Some. by apply (H1 z). }
  apply Hok; [intros ? _ _|done]. wp_steps. apply Hok; [intros ? _ _|done]. wp_steps.
  apply Hok; [intros ? _ _|done]. wp_steps. split; [done|].
  exists ((removed_bookmark snap now <$> absent_bookmarks account snap d)
            ∪ bookmarks_of account (upsert_active_bookmarks account snap d)).
  split; [intros post; apply lookup_removed|].
  destruct Hrep as [m ->]. exists m. f_equal. unfold upsert_active_bookmarks.
  assert (Hb : ∀ f g, on_bookmarks (set_rows account f) (on_bookmarks (set_rows account g) d) =
            on_bookmarks (set_rows account (λ _, f (g (bookmarks_of account d)))) d).
  { intros f g. unfold on_bookmarks, bookmarks_of. simpl. f_equal. unfold set_rows.
    rewrite insert_insert_eq. f_equal. unfold rows at 1. by rewrite lookup_insert_eq. }
  rewrite Hb. unfold on_bookmarks. f_equal. unfold set_rows. f_equal. f_equal.
  unfold bookmarks_of at 2. simpl. unfold set_rows, rows at 1. by rewrite lookup_insert_eq.
Qed.

(** *** Uncertain operations *)

Definition reconcile_row (now : Z) (m : gmap Z WriteOperation) (row : Z * (string * bool)) :
    gmap Z WriteOperation :=
  alter (reconciled_operation (reconciled_status row.2.1 row.2.2) (reconciled_outcome row.2.2) now)
    row.1 m.

(** Only the operations and their audit trail change. *)
Definition with_operations (m : gmap Z WriteOperation) (audit : list AuditEvent) (d : Db) : Db :=
  on_bookmark_write_audit_events (λ _, audit) (on_bookmark_write_operations (λ _, m) d).

Lemma reconcile_rows_spec env run now rows (w : W) :
  wp env (for_each rows (reconcile_operation run now)) (λ r w', match r with
    | Err _ => True
    | Ok _ => ∃ audit, w_db w' =
        with_operations (fold_left (reconcile_row now) rows (bookmark_write_operations (w_db w)))
          audit (w_db w)
    end) w.
Proof.
  revert w. induction rows as [|[id [action present]] rows IH]; intros w; cbn [for_each].
  - wp_steps. exists (bookmark_write_audit_events (w_db w)). simpl. by destruct (w_db w).
  - apply wp_bind. unfold reconcile_operation at 1. wp_steps; try done.
    eapply wp_mono; [apply IH|]. intros [u|e] w'; [|done]. intros [audit E]. exists audit.
    rewrite E. cbn [w_db set_db tick]. unfold audit_reconciliation. simpl.
    destruct (alter _ id (bookmark_write_operations (w_db w)) !! id) as [o|]; [|done].
    by destruct (wo_consent_id o ≫= _).
Qed.

Lemma reconcile_row_ne now m row id : row.1 ≠ id → reconcile_row now m row !! id = m !! id.
Proof. intros. unfold reconcile_row. by rewrite lookup_alter_ne. Qed.

Lemma fold_reconcile_other now rows m id :
  id ∉ rows.*1 → fold_left (reconcile_row now) rows m !! id = m !! id.
Proof.
  revert m. induction rows as [|row rows IH]; intros m Hid; [done|]. simpl in *.
  apply not_elem_of_cons in Hid as [Hne Hid]. rewrite IH by done. by apply reconcile_row_ne.
Qed.

Lemma fold_reconcile_in now rows m id ap :
  NoDup rows.*1 → (id, ap) ∈ rows →
  fold_left (reconcile_row now) rows m !! id =
    reconciled_operation (reconciled_status ap.1 ap.2) (reconciled_outcome ap.2) now <$> m !! id.
Proof.
  revert m. induction rows as [|row rows IH]; intros m Hnd Hin; [by apply elem_of_nil in Hin|].
  simpl in *. apply NoDup_cons in Hnd as [Hn Hnd]. apply elem_of_cons in Hin as [<-|Hin].
  - rewrite fold_reconcile_other by done. unfold reconcile_row. simpl. by rewrite lookup_alter_eq.
  - rewrite IH by done. rewrite reconcile_row_ne; [done|]. intros E. apply Hn.
    apply list_elem_of_fmap. by exists (id, ap).
Qed.

Lemma reconciled_lookup account snapshot_id now d id :
  fold_left (reconcile_row now) (uncertain_operations account snapshot_id d)
    (bookmark_write_operations d) !! id =
  settled_operation account snapshot_id now d <$> bookmark_write_operations d !! id.
Proof.
  set (f := λ kv : Z * WriteOperation,
    (kv.1, (wo_action kv.2, item_present snapshot_id (wo_provider_post_id kv.2) d))).
  set (ops := List.filter (λ kv, is_uncertain account kv.2) (map_to_list (bookmark_write_operations d))).
  assert (Hin : ∀ k o, (k, o) ∈ ops ↔
            bookmark_write_operations d !! k = Some o ∧ is_uncertain account o = true).
  { intros k o. unfold ops. rewrite list_elem_of_In, filter_In, <-list_elem_of_In, elem_of_map_to_list.
    done. }
  assert (Hkeys : (uncertain_operations account snapshot_id d).*1 = ops.*1).
  { unfold uncertain_operations. fold ops. rewrite <-list_fmap_compose. by apply list_fmap_ext. }
  assert (Hnd : NoDup (uncertain_operations account snapshot_id d).*1).
  { rewrite Hkeys. unfold ops. pose proof (NoDup_fst_map_to_list (bookmark_write_operations d)) as H.
    revert H. generalize (map_to_list (bookmark_write_operations d)). clear.
    induction l as [|[k o] l IH]; simpl; [done|]. intros [Hk Hl]%NoDup_cons.
    destruct (is_uncertain account o); simpl; [|by apply IH]. apply NoDup_cons. split; [|by apply IH].
    intros Hin. apply Hk. apply list_elem_of_fmap in Hin as ([k' o'] & -> & Hin).
    rewrite list_elem_of_In, filter_In, <-list_elem_of_In in Hin. apply list_elem_of_fmap.
    exists (k', o'). by destruct Hin. }
  destruct (bookmark_write_operations d !! id) as [o|] eqn:E.
  - unfold settled_operation. simpl. destruct (is_uncertain account o) eqn:Eu.
    + rewrite (fold_reconcile_in now _ _ id
        (wo_action o, item_present snapshot_id (wo_provider_post_id o) d)); [|done|].
      * by rewrite E.
      * unfold uncertain_operations. fold ops. apply list_elem_of_fmap. exists (id, o).
        split; [done|]. by apply Hin.
    + rewrite fold_reconcile_other; [done|]. rewrite Hkeys. intros Hk.
      apply list_elem_of_fmap in Hk as ([k o'] & -> & Hk). apply Hin in Hk as [Hk Hu].
      simpl in E. congruence.
  - rewrite fold_reconcile_other; [done|]. rewrite Hkeys. intros Hk.
    apply list_elem_of_fmap in Hk as ([k o'] & -> & Hk). apply Hin in Hk as [Hk Hu].
    simpl in E. congruence.
Qed.

Lemma uncertain_operations_frame account snapshot_id bs d d' :
  repairs_only (on_bookmarks (set_rows account (λ _, bs)) d) d' →
  uncertain_operations account snapshot_id d' = uncertain_operations account snapshot_id d.
Proof. by intros [m ->]. Qed.

(** The whole body. *)
Lemma completion_spec env account run now (w : W) :
  wp env (completion account run now) (λ r w', match r with
    | Err _ => True
    | Ok _ => CompletionEffect account run now (w_db w) (w_db w')
    end) w.
Proof.
  unfold completion. apply wp_bind. eapply wp_mono; [apply lock_spec|].
  intros [u|e] w1; [|done]. intros [E1 Hfin].
  apply wp_bind. eapply wp_mono; [apply reconcile_bookmarks_spec|].
  intros [statistics|e] w2; [|done]. rewrite E1. intros (-> & bs & Hbs & Hrep).
  apply wp_bind. unfold reconcile_uncertain_bookmark_writes. wp_steps; [|done].
  rewrite (uncertain_operations_frame _ _ _ _ _ Hrep).
  eapply wp_mono; [apply reconcile_rows_spec|]. intros [u2|e] w3; [|done]. intros [audit E3].
  cbn [w_db tick] in E3. destruct Hrep as [m Hrep]. rewrite Hrep in E3.
  unfold record_completion. wp_steps; try done. intros u3 d4. unfold complete_snapshot_row.
  rewrite E3. cbn [w_db set_db tick]. simpl.
  pose proof Hfin as Hf. unfold finalizable in Hf.
  destruct (snapshots (w_db w) !! rn_snapshot_id run) as [snapshot|] eqn:Es; [|done].
  destruct (sync_runs (w_db w) !! rn_id run) as [row|] eqn:Er; [|done].
  rewrite lookup_alter_eq, Er. simpl. intros [= <- <-]. split; [|done].
  unfold replace_authority. wp_steps; try done. cbn [w_db set_db tick].
  split; simpl; try done.
  - intros post. rewrite <-Hbs. unfold bookmarks_of at 1. simpl. by rewrite rows_set_eq.
  - intros other Hne. unfold bookmarks_of. simpl. by rewrite rows_set_ne by done.
  - by exists snapshot, row.
  - intros id. apply reconciled_lookup.
Qed.

(** *** What the effect means *)

Lemma lookup_active account d post :
  active_bookmarks account d !! post =
    match bookmarks_of account d !! post with
    | Some b => if is_active b then Some b else None
    | None => None
    end.
Proof. apply lookup_present. Qed.

Lemma effect_active account run now d d' post :
  CompletionEffect account run now d d' →
  is_Some (active_bookmarks account d' !! post) ↔ is_Some (staged (rn_snapshot_id run) d !! post).
Proof.
  intros H. rewrite lookup_active, (ce_bookmarks _ _ _ _ _ H).
  destruct (staged (rn_snapshot_id run) d !! post) as [item|], (bookmarks_of account d !! post) as [b|];
    simpl; try done.
  destruct (is_active b) eqn:E; simpl; [done|]. by rewrite E.
Qed.

Lemma statistics_partition account snapshot_id d :
  (size (added_items account snapshot_id d) + size (retained_items account snapshot_id d))%nat =
  size (staged snapshot_id d).
Proof. apply (staged_partition is_active). Qed.

Lemma complete_run_spec env account run (w : W) :
  (∀ n d, e_other env n d = d) →
  wp env (complete_run account run) (λ r w',
    match r with
    | Ok _ => CompletionEffect account run (e_clock env (w_tick w)) (w_db w) (w_db w')
    | Err _ => w_db w' = w_db w ∨
        CompletionEffect account run (e_clock env (w_tick w)) (w_db w) (w_db w')
    end) w.
Proof.
  intros Ho. unfold complete_run. apply wp_bind, wp_clock_now. wp_step; rewrite Ho; [by left|].
  apply wp_bind. eapply wp_mono; [apply completion_spec|]. intros [u|e] w1; [|by left].
  cbn [w_db set_db tick]. intros H. wp_steps. split_and!; auto.
Qed.

Lemma reconcile_bookmarks_ok env account run now (w : W) :
  quiet env →
  Z.of_nat (size (staged (rn_snapshot_id run) (w_db w))) ≤ i32_max →
  Z.of_nat (size (bookmarks_of account (w_db w))) ≤ i32_max →
  ok_at env (reconcile_bookmarks account run now) w.
Proof.
  intros Hq Hs Hb. unfold reconcile_bookmarks. set (snap := rn_snapshot_id run) in *.
  assert (Hfit : ∀ n : nat, Z.of_nat n ≤ i32_max → i32_try_from (Z.of_nat n) = Some (Z.of_nat n)).
  { intros n Hn. apply int4_Some. split; [done|]. unfold i32_min. lia. }
  apply ok_at_bind; [apply (succeeds_select _ Hq)|]. intros added w1. rewrite select_quiet by done.
  intros [= <- <-]. apply ok_at_bind; [apply (succeeds_select _ Hq)|]. intros retained w2.
  rewrite select_quiet by done. intros [= <- <-].
  apply ok_at_bind; [apply (succeeds_execute _ Hq)|]. intros [] w3. rewrite execute_quiet by done.
  intros [= <-]. cbn [w_db set_db tick]. apply ok_at_bind.
  { unfold record_absent_bookmarks. apply ok_at_bind; [unfold ok_at; rewrite stmt_quiet by done;
      by eexists _, _|]. intros removed w4 _. apply ok_at_bind; [|by eexists _, _].
    apply succeeds_for_each. unfold repair_removed. succeeds_steps Hq. }
  intros removed w4 E4. apply (ok_at_result _ _ _ _ (record_absent_spec _ _ _ _ _)) in E4 as [-> _].
  cbn [w_db set_db tick]. rewrite absent_upserted.
  assert (Ha : Z.of_nat (size (added_items account snap (w_db w))) ≤ i32_max).
  { unfold added_items. etrans; [apply inj_le, map_size_filter | exact Hs]. }
  assert (Hr : Z.of_nat (size (retained_items account snap (w_db w))) ≤ i32_max).
  { unfold retained_items. etrans; [apply inj_le, map_size_filter | exact Hs]. }
  assert (Hm : Z.of_nat (size (absent_bookmarks account snap (w_db w))) ≤ i32_max).
  { unfold absent_bookmarks, active_bookmarks. etrans; [apply inj_le, map_size_filter|].
    etrans; [apply inj_le, map_size_filter | exact Hb]. }
  rewrite !Hfit by done. unfold ok_at. run_quiet Hq. by eexists _, _.
Qed.

Lemma complete_run_succeeds env account run (w : W) :
  quiet env → finalizable account run (w_db w) = true →
  Z.of_nat (size (staged (rn_snapshot_id run) (w_db w))) ≤ i32_max →
  Z.of_nat (size (bookmarks_of account (w_db w))) ≤ i32_max →
  (complete_run account run env w).1 = Ok tt.
Proof.
  intros Hq Hfin Hs Hb. unfold complete_run. run_quiet Hq.
  set (now := e_clock env (w_tick w)). set (w0 := tick (tick (tick w))).
  enough (Hok : ok_at env (completion account run now) w0).
  { destruct Hok as (u & w' & E). rewrite E. run_quiet Hq. by destruct u. }
  unfold completion. apply ok_at_bind.
  { unfold lock_finalization, ok_at. run_quiet Hq. unfold w0. cbn [w_db set_db tick].
    rewrite Hfin. by eexists _, _. }
  intros u1 w1 E1. apply (ok_at_result _ _ _ _ (lock_spec _ _ _ _)) in E1 as [E1 _].
  apply ok_at_bind; [apply reconcile_bookmarks_ok; by rewrite ?E1|].
  intros stats w2 E2. apply (ok_at_result _ _ _ _ (reconcile_bookmarks_spec _ _ _ _ _)) in E2
    as (_ & bs & _ & m & E2). rewrite E1 in E2.
  apply ok_at_bind.
  { unfold reconcile_uncertain_bookmark_writes, reconcile_operation. apply ok_at_bind;
      [apply (succeeds_select _ Hq)|]. intros ops w3 _. apply succeeds_for_each.
    intros [id [action present]]. succeeds_steps Hq. }
  intros u3 w3 E3. unfold reconcile_uncertain_bookmark_writes, bind in E3.
  rewrite select_quiet in E3 by done.
  apply (ok_at_result _ _ _ _ (reconcile_rows_spec _ _ _ _ _)) in E3 as [audit E3].
  apply ok_at_bind; [|intros; unfold replace_authority; succeeds_steps Hq].
  - unfold record_completion. apply ok_at_bind; [apply (succeeds_execute _ Hq)|].
    intros u4 w4. rewrite execute_quiet by done. intros [= _ <-]. unfold ok_at.
    rewrite stmt_quiet by done. unfold complete_snapshot_row. cbn [w_db set_db tick].
    rewrite E3. cbn [w_db tick]. rewrite E2. simpl. unfold w0. cbn [w_db tick].
    unfold finalizable in Hfin.
    destruct (snapshots (w_db w) !! rn_snapshot_id run) as [snapshot|]; [|done].
    destruct (sync_runs (w_db w) !! rn_id run) as [row|] eqn:Er; [|done].
    rewrite lookup_alter_eq, Er. simpl. by eexists _, _.
  - apply ok_at_bind; [apply (succeeds_execute _ Hq)|]. intros _ w5 _.
    apply (succeeds_execute _ Hq).
Qed.
End Completion.

(** ** What staging leaves alone *)

(** Relations on databases that do not look at the tables of published sources, or at the tables of
    normalized records. *)
Record IgnoresSources (R : relation Db) : Prop := {
  ig_sources f d : R d (on_social_sources f d);
  ig_revisions f d : R d (on_social_source_revisions f d);
  ig_captures f d : R d (on_article_captures f d);
  ig_links f d : R d (on_post_article_links f d);
  ig_outbox f d : R d (on_outbox_events f d);
}.
Record IgnoresRecords (R : relation Db) : Prop := {
  ig_users f d : R d (on_users f d);
  ig_posts f d : R d (on_posts f d);
  ig_relations f d : R d (on_post_relations f d);
  ig_media f d : R d (on_media f d);
}.

Section Content.
Context {ch : Chrono} {ct : Contracts} {ec : EnvelopeCodec} {cr : Crypto} {ac : ArticleContracts}
  {sc : SocialContracts} {ho : HashOrder}.
Context (env : Env Db) (R : relation Db) `{!PreOrder R} (HR : IgnoresSources R).

Lemma enqueue_ignored envelope : guar env (on_db R) (enqueue envelope).
Proof.
  unfold enqueue. guar_steps. apply insert_outbox_Some in H as (_ & _ & ->). apply (ig_outbox _ HR).
Qed.

Lemma queue_envelope_ignored event_type facts payload :
  guar env (on_db R) (queue_envelope event_type facts payload).
Proof. unfold queue_envelope. guar_steps. apply enqueue_ignored. Qed.

Lemma capture_in_transaction_ignored account source urls :
  guar env (on_db R) (capture_expanded_links_in_transaction account source urls).
Proof.
  unfold capture_expanded_links_in_transaction, capture_link, queue_article_command.
  guar_steps; try apply queue_envelope_ignored; unfold on_db in *; simpl in *.
  - unfold source_owner in *. destruct (social_sources _ !! _); simpl in *; [|done].
    case_bool_decide; [|done]. destruct (accounts _ !! _); simpl in *; [|done]. by simplify_eq.
  - unfold find_or_insert_capture in *.
    destruct (find_row _ _) as [[existing row]|]; [by simplify_eq|].
    destruct (insert_new _ _ _); simpl in *; [|done]. simplify_eq. apply (ig_captures _ HR).
  - apply (ig_links _ HR).
Qed.

Lemma record_revision_ignored account captured_at provenance loaded digest source_id snapshot fact :
  guar env (on_db R)
    (record_revision account captured_at provenance loaded digest source_id snapshot fact).
Proof.
  unfold record_revision, queue_source_event. guar_steps;
    try apply queue_envelope_ignored; try apply capture_in_transaction_ignored.
  unfold on_db. simpl. apply insert_revision_Some in H as [_ ->]. apply (ig_revisions _ HR).
Qed.

Lemma publish_sources_ignored account post_ids captured_at :
  guar env (on_db R) (publish_bookmark_sources account post_ids captured_at).
Proof.
  unfold publish_bookmark_sources, publish_source, publish_revision.
  guar_steps; try apply record_revision_ignored; unfold on_db in *; simpl in *; try done.
  all: try apply (ig_sources _ HR).
  - destruct (load_source _ _ _); simpl in *; [|done]. by simplify_eq.
  - unfold insert_source in *. destruct (source_of _ _ _); [done|].
    destruct (insert_new _ _ _); simpl in *; [|done]. simplify_eq. apply (ig_sources _ HR).
Qed.

Lemma persist_users_ignored users :
  (∀ f d, R d (on_users f d)) → guar env (on_db R) (persist_users users).
Proof.
  intros Hu. unfold persist_users, persist_user. guar_steps; unfold on_db in *; simpl in *.
  unfold upsert_user in *. destruct (Store.users _ !! _); [simplify_eq; apply Hu|].
  destruct (user_by_id _ _); [done|]. simplify_eq. apply Hu.
Qed.

Lemma persist_relations_ignored relations posts :
  (∀ f d, R d (on_post_relations f d)) → guar env (on_db R) (persist_relations relations posts).
Proof.
  intros H. unfold persist_relations, persist_relation. guar_steps; unfold on_db; simpl. apply H.
Qed.

Lemma persist_media_ignored media posts :
  (∀ f d, R d (on_media f d)) → guar env (on_db R) (persist_media media posts).
Proof.
  intros H. unfold persist_media, persist_media_item. guar_steps; unfold on_db; simpl. apply H.
Qed.

Lemma persist_page_ignored normalized :
  IgnoresRecords R → guar env (on_db R) (persist_page normalized).
Proof.
  intros HI. unfold persist_page, persist_posts, persist_post.
  guar_steps; try (apply persist_users_ignored, HI); try (apply persist_relations_ignored, HI);
    try (apply persist_media_ignored, HI).
  unfold on_db in *. simpl in *. unfold upsert_post in *.
  destruct (Store.posts _ !! _); [simplify_eq; apply (ig_posts _ HI)|].
  destruct (post_by_id _ _); [done|]. simplify_eq. apply (ig_posts _ HI).
Qed.
End Content.

(** ** Runs *)

Section Runs.
Context {ch : Chrono} {ct : Contracts} {ec : EnvelopeCodec} {cr : Crypto} {ac : ArticleContracts}
  {sc : SocialContracts} {ho : HashOrder}.

(** Everything a run does before its completion: no bookmark, no authority and no write operation
    changes, snapshots stay what they are and runs stay with their account. *)
Record SyncFrame (d d' : Db) : Prop := {
  sf_bookmarks : bookmarks d' = bookmarks d;
  sf_authority : bookmark_snapshot_authority d' = bookmark_snapshot_authority d;
  sf_operations : bookmark_write_operations d' = bookmark_write_operations d;
  sf_consents : bookmark_write_consents d' = bookmark_write_consents d;
  sf_audit : bookmark_write_audit_events d' = bookmark_write_audit_events d;
  sf_incremental : bookmark_incremental_state d' = bookmark_incremental_state d;
  sf_folders : folder_evidence d' = folder_evidence d;
  sf_snapshots id s : snapshots d !! id = Some s → snapshots d' !! id = Some s;
  sf_runs id r : sync_runs d !! id = Some r →
    ∃ r', sync_runs d' !! id = Some r' ∧ run_account_id r' = run_account_id r ∧
          run_run_type r' = run_run_type r;
}.

#[export] Instance sync_frame_preorder : PreOrder SyncFrame.
Proof.
  split; [intros d; split; eauto|]. intros d1 d2 d3 [A1 B1 C1 X1 Y1 D1 G1 E1 F1] [A2 B2 C2 X2 Y2 D2 G2 E2 F2].
  split; try (by etrans); [auto|]. intros id r Hr. destruct (F1 id r Hr) as (r2 & Hr2 & ? & ?).
  destruct (F2 id r2 Hr2) as (r3 & Hr3 & ? & ?). exists r3. split; [done|]. split; congruence.
Qed.

(** The same, and the budget windows as well: everything but the reservations. *)
Definition StageFrame (d d' : Db) : Prop :=
  SyncFrame d d' ∧ api_budget_windows d' = api_budget_windows d.

#[export] Instance stage_frame_preorder : PreOrder StageFrame.
Proof.
  split; [intros d; split; reflexivity|]. intros d1 d2 d3 [? ?] [? ?]. split; by etrans.
Qed.

Lemma stage_frame_sync d d' : StageFrame d d' → SyncFrame d d'.
Proof. by intros [? _]. Qed.

Ltac stage_frame := split; [split; simpl; eauto | done].

Lemma stage_frame_ignores_sources : IgnoresSources StageFrame.
Proof. split; intros f d; stage_frame. Qed.

Lemma stage_frame_ignores_records : IgnoresRecords StageFrame.
Proof. split; intros f d; stage_frame. Qed.

Lemma sync_frame_runs f id d :
  (∀ r, run_account_id (f r) = run_account_id r ∧ run_run_type (f r) = run_run_type r) →
  StageFrame d (on_sync_runs (alter f id) d).
Proof.
  intros Hf. stage_frame. intros i r Hr. rewrite lookup_alter. case_decide; [subst|by exists r].
  rewrite Hr. simpl. exists (f r). split; [done|]. apply Hf.
Qed.

Lemma checkpoint_run_frame run_id next_token count d u d' :
  checkpoint_run run_id next_token count d = Some (u, d') → StageFrame d d'.
Proof.
  unfold checkpoint_run. destruct (sync_runs d !! run_id) as [run|] eqn:E; [|by intros [= _ <-]].
  destruct (String.eqb _ _); [|by intros [= _ <-]].
  destruct (int4 (run_pages_fetched run + 1)) as [pages|]; simpl; [|done].
  destruct (int4 (run_items_observed run + count)) as [items|]; simpl; [|done].
  intros [= _ <-]. stage_frame. intros i r Hr. rewrite lookup_insert.
  case_decide; [subst|by exists r]. assert (r = run) as -> by congruence. by eexists.
Qed.

Lemma insert_run_frame id account run_type d u d' :
  insert_run id account run_type d = Some (u, d') → StageFrame d d'.
Proof.
  unfold insert_run, insert_new. case_bool_decide; [|done].
  destruct (sync_runs d !! id) eqn:E; simpl; [done|]. intros [= _ <-]. stage_frame.
  intros i r Hr. exists r. rewrite lookup_insert_ne by congruence. done.
Qed.

Lemma insert_snapshot_frame id run_id folder d u d' :
  insert_snapshot id run_id folder d = Some (u, d') → StageFrame d d'.
Proof.
  unfold insert_snapshot, insert_new. destruct (snapshots d !! id) eqn:E; simpl; [done|].
  intros [= _ <-]. stage_frame. intros i s Hs. by rewrite lookup_insert_ne by congruence.
Qed.

Lemma stage_body_frame env run page normalized observed_at count :
  guar (Ev:=Event) env (on_db StageFrame) (
    let! seed := new_uuid in
    let! posts := persist_page normalized in
    do! publish_bookmark_sources (rn_account_id run) (hash_values seed posts) observed_at in
    do! for_each (hash_values seed posts) (λ post_id,
          execute SnapshotQuery (stage_item (rn_snapshot_id run) observed_at post_id)) in
    do! stmt SnapshotQuery (checkpoint_run (rn_id run) (page_next_token page) count) in
    ret (Commit tt)).
Proof.
  guar_steps; try (apply (persist_page_ignored _ _), stage_frame_ignores_records);
    try (apply (publish_sources_ignored _ _), stage_frame_ignores_sources).
  - unfold on_db. stage_frame.
  - by eapply checkpoint_run_frame.
Qed.

(** The statements of the budget gate. *)
Lemma reserve_frame env gate account request (S : relation Db) `{!PreOrder S} :
  (∀ f d, S d (on_api_budget_windows f d)) → rely (Ev:=Event) env (on_db S) →
  guar env (on_db S) (reserve gate account request).
Proof.
  intros HS Hr. unfold reserve, charge. guar_steps; unfold on_db in *; simpl in *.
  - unfold ensure_window in *. destruct (int4 _); [|done]. destruct (int4 _); [|done].
    destruct (_ && _); [|done]. simplify_eq. apply HS.
  - destruct (usage _ _ _ _); simpl in *; [|done]. by simplify_eq.
  - unfold bump_usage in *. destruct (api_budget_windows _ !! _); [|by simplify_eq].
    destruct (int4 _); simpl in *; [|done]. simplify_eq. apply HS.
Qed.

Lemma refund_frame env gate account start request (S : relation Db) `{!PreOrder S} :
  (∀ f d, S d (on_api_budget_windows f d)) → rely (Ev:=Event) env (on_db S) →
  guar env (on_db S) (refund gate account start request).
Proof. intros HS Hr. unfold refund, window_refund. guar_steps. apply HS. Qed.

(** A reservation is of what was requested. *)
Lemma reserve_cost {F} env gate account request (w : W) :
  yields env (attempt (F:=F) (reserve gate account request))
    (λ r _, match r with Ok reservation => cost reservation = request | Err _ => True end) w.
Proof.
  apply yields_attempt. unfold reserve. case_bool_decide; [done|]. apply wp_bind, wp_clock_now, wp_bind.
  unfold wp at 1. destruct (map_err _ _ env _) as [[[used|]|e] w']; [done| |done].
  apply wp_bind. by destruct (reset_instant _ _).
Qed.

Lemma reserve_silent env gate account request : guar (Ev:=Event) env silent (reserve gate account request).
Proof.
  pose proof (silent_rely (Ev:=Event) env) as Hs. unfold reserve, charge. guar_steps; done.
Qed.

(** A whole run, under any relation that each of its parts respects. *)
Lemma run_snapshot_parts env (S : relation Db) `{!PreOrder S} fuel gate source account resume :
  guar env (on_db S) (load_or_create_run account resume) →
  guar env (on_db S) (reserve gate account 1) →
  (∀ run_id, guar env (on_db S) (mark_failed run_id)) →
  (∀ run page observed_at, guar env (on_db S) (stage_page run page observed_at)) →
  (∀ run, guar env (on_db S) (complete_run account run)) →
  guar env (on_db S) (run_snapshot fuel gate source account resume).
Proof.
  intros Hload Hreserve Hfailed Hstage Hcomplete. unfold run_snapshot.
  apply guar_bind; [typeclasses eauto|done|]. intros run. revert run.
  induction fuel as [|fuel IH]; intros run; cbn [run_pages]; guar_steps;
    first [done | apply Hfailed | apply Hstage | apply Hcomplete | apply IH
          | apply guar_call; [typeclasses eauto|]; intros w0; unfold on_db; simpl; reflexivity].
Qed.

(** A run outside its completion, under any relation that tolerates the frame. *)
Section Outside.
Context (env : Env Db) (S : relation Db) `{!PreOrder S} (Hsub : ∀ d d', StageFrame d d' → S d d')
  (Hr : rely (Ev:=Event) env (on_db S)).

Lemma mark_failed_guar run_id : guar env (on_db S) (mark_failed run_id).
Proof. unfold mark_failed. guar_steps. apply Hsub, sync_frame_runs. done. Qed.

Lemma load_or_create_guar account resume : guar env (on_db S) (load_or_create_run account resume).
Proof.
  unfold load_or_create_run, resume_run, create_run. guar_steps; unfold on_db; simpl; apply Hsub.
  - apply sync_frame_runs. done.
  - by eapply insert_run_frame.
  - by eapply insert_snapshot_frame.
Qed.

Lemma stage_page_guar run page observed_at : guar env (on_db S) (stage_page run page observed_at).
Proof.
  unfold stage_page. apply guar_bind; [typeclasses eauto|guar_steps|]. intros normalized.
  apply guar_bind; [typeclasses eauto|guar_steps|]. intros count.
  apply guar_transaction; [typeclasses eauto|done|].
  eapply guar_weaken; [|apply stage_body_frame]. intros w w'. apply Hsub.
Qed.

(** A whole run, given what its completion does. *)
Lemma run_snapshot_guar fuel gate source account resume :
  (∀ f d, S d (on_api_budget_windows f d)) →
  (∀ run, guar env (on_db S) (complete_run account run)) →
  guar env (on_db S) (run_snapshot fuel gate source account resume).
Proof.
  intros Hbud Hcomplete. apply run_snapshot_parts; try done;
    [apply load_or_create_guar|exact (reserve_frame _ _ _ _ _ Hbud Hr)|apply mark_failed_guar|apply stage_page_guar].
Qed.
End Outside.

(** *** Refinement: stages, then at most one completion *)

Definition ran (account : Z) (d d' : Db) (r : result (option SnapshotOutcome) SnapshotError) : Prop :=
  match r with
  | Ok None | Ok (Some (Incomplete _)) => SyncFrame d d'
  | Ok (Some (Completed run_id snapshot_id)) => ∃ run now d1,
      rn_id run = run_id ∧ rn_snapshot_id run = snapshot_id ∧ SyncFrame d d1 ∧
      CompletionEffect account run now d1 d'
  | Err _ => SyncFrame d d' ∨
      ∃ run now d1, SyncFrame d d1 ∧ CompletionEffect account run now d1 d'
  end.

Lemma ran_after account d d1 d' r : SyncFrame d d1 → ran account d1 d' r → ran account d d' r.
Proof.
  intros H. destruct r as [[[id|id snap]|]|e]; simpl.
  - intros. by etrans.
  - intros (run & now & d2 & ? & ? & ? & ?). exists run, now, d2. split_and!; try done. by etrans.
  - intros. by etrans.
  - intros [?|(run & now & d2 & ? & ?)]; [left; by etrans|right].
    exists run, now, d2. split; [by etrans|done].
Qed.

Lemma run_pages_ran env fuel gate source account run (w : W) :
  (∀ n d, e_other env n d = d) →
  wp env (run_pages fuel gate source account run) (λ r w', ran account (w_db w) (w_db w') r) w.
Proof.
  intros Ho.
  assert (Hr : ∀ R : relation Db, PreOrder R → rely (Ev:=Event) env (on_db R)).
  { intros R HR n w0. unfold on_db. simpl. rewrite Ho. reflexivity. }
  assert (Hfail : ∀ id (w0 : W), SyncFrame (w_db w0) (w_db (mark_failed id env w0).2)).
  { intros id w0. apply (guar_elim (mark_failed_guar env SyncFrame stage_frame_sync (Hr _ _) id)). }
  revert run w. induction fuel as [|fuel IH]; intros run w; cbn [run_pages]; [apply wp_ret; simpl; reflexivity|].
  assert (Hmark : ∀ id k (w0 : W), SyncFrame (w_db w) (w_db w0) →
    (∀ w1, SyncFrame (w_db w) (w_db w1) →
       wp env k (λ r w', ran account (w_db w) (w_db w') r) w1) →
    wp env (bind (mark_failed id) (λ _, k)) (λ r w', ran account (w_db w) (w_db w') r) w0).
  { intros id k w0 H0 Hk. apply wp_bind. unfold wp at 1. specialize (Hfail id w0).
    destruct (mark_failed id env w0) as [[u|e] w1]; simpl in Hfail;
      [apply Hk; by etrans | left; by etrans]. }
  apply wp_bind, wp_attempt.
  assert (Hres : SyncFrame (w_db w) (w_db (reserve gate account 1 env w).2)).
  { refine (guar_elim (reserve_frame env gate account 1 SyncFrame _ (Hr _ _)) w).
    intros f d. by split; simpl; eauto. }
  unfold wp at 1. destruct (reserve gate account 1 env w) as [[reservation|error] w1]; simpl in Hres;
    cbn [fst snd].
  2:{ destruct error; (apply Hmark; [done|]); intros w2 H2;
        first [by apply wp_ret | apply wp_throw; by left]. }
  apply wp_bind, wp_call. set (w2 := tick (emit (FetchBookmarks (rn_checkpoint run)) w1)).
  assert (H2 : SyncFrame (w_db w) (w_db w2)) by done. clearbody w2.
  destruct (source _) as [page|?].
  2:{ apply Hmark; [done|]. intros w3 H3. by apply wp_ret. }
  apply wp_bind, wp_clock_now. apply wp_bind, wp_attempt. set (w3 := tick w2).
  assert (H3 : SyncFrame (w_db w) (w_db w3)) by done. clearbody w3. clear H2.
  pose proof (guar_elim (stage_page_guar env SyncFrame stage_frame_sync (Hr _ _) run page
    (e_clock env (w_tick w2))) w3) as Hst. unfold on_db in Hst.
  unfold wp at 1. destruct (stage_page _ _ _ env w3) as [[u|error] w4]; simpl in Hst;
    cbn [fst snd].
  2:{ apply Hmark; [by etrans|]. intros w5 H5. apply wp_throw. by left. }
  assert (H4 : SyncFrame (w_db w) (w_db w4)) by by etrans.
  destruct (page_next_token page) as [token|].
  - eapply wp_mono; [apply IH|]. intros r w'. by apply ran_after.
  - apply wp_bind. eapply wp_mono; [by apply complete_run_spec|]. intros [u5|e] w5; simpl.
    + intros He. exists run, (e_clock env (w_tick w4)), (w_db w4). by split_and!.
    + intros [E|He]; [left; by rewrite E|right].
      by exists run, (e_clock env (w_tick w4)), (w_db w4).
Qed.

(** C17. A snapshot run is a sequence of stages that leave every bookmark, authority and write
    operation untouched, followed by at most one completion, whatever fails: an incomplete run or one
    that is still going changed none of them, a completed run applied exactly one completion of its
    own snapshot, and a failed one at most that. *)
Theorem snapshot_run_refines env fuel gate source account resume (w : W) :
  (∀ n d, e_other env n d = d) →
  wp env (run_snapshot fuel gate source account resume) (λ r w', ran account (w_db w) (w_db w') r) w.
Proof.
  intros Ho. unfold run_snapshot. apply wp_bind.
  assert (Hr : rely (Ev:=Event) env (on_db SyncFrame)).
  { intros n w0. unfold on_db. simpl. rewrite Ho. reflexivity. }
  pose proof (guar_elim (load_or_create_guar env SyncFrame stage_frame_sync Hr account resume) w) as Hl.
  unfold on_db in Hl. unfold wp at 1.
  destruct (load_or_create_run account resume env w) as [[run|e] w1]; simpl in Hl; [|by left].
  eapply wp_mono; [by apply run_pages_ran|]. intros r w'. by apply ran_after.
Qed.

(** What a staged snapshot says about a post, and about a write whose outcome was not known. *)
Definition post_staged (snapshot_id : Z) (provider_post_id : string) (d : Db) : Prop :=
  ∃ post, posts d !! provider_post_id = Some post ∧ is_Some (staged snapshot_id d !! pst_id post).
Definition took_effect (snapshot_id : Z) (d : Db) (o : WriteOperation) : Prop :=
  wo_action o = "add"%string ∧ post_staged snapshot_id (wo_provider_post_id o) d ∨
  wo_action o = "remove"%string ∧ ¬ post_staged snapshot_id (wo_provider_post_id o) d.
Definition is_unsettled (account : Z) (o : WriteOperation) : Prop :=
  wo_account_id o = account ∧ wo_status o = "uncertain"%string.

(** An uncertain write of the account succeeded exactly when the staged snapshot shows its effect, and
    is recorded as not current otherwise; any other write stays as it was. *)
Record settled_by_evidence (account snapshot_id now : Z) (d : Db) (o o' : WriteOperation) : Prop := {
  sv_succeeded : is_unsettled account o → took_effect snapshot_id d o →
    wo_status o' = "reconciled_succeeded"%string;
  sv_not_current : is_unsettled account o → ¬ took_effect snapshot_id d o →
    wo_status o' = "reconciled_not_current"%string;
  sv_present : is_unsettled account o → post_staged snapshot_id (wo_provider_post_id o) d →
    wo_outcome o' = Some "complete_snapshot_present"%string;
  sv_absent : is_unsettled account o → ¬ post_staged snapshot_id (wo_provider_post_id o) d →
    wo_outcome o' = Some "complete_snapshot_absent"%string;
  sv_when : is_unsettled account o → wo_projection_observed_at o' = Some now;
  sv_same : ¬ is_unsettled account o → o' = o;
}.

Lemma item_present_iff snapshot_id provider_post_id d :
  item_present snapshot_id provider_post_id d = true ↔ post_staged snapshot_id provider_post_id d.
Proof.
  unfold item_present, post_staged. destruct (posts d !! _) as [post|]; [|naive_solver].
  rewrite bool_decide_eq_true. naive_solver.
Qed.

Lemma is_uncertain_iff account o : is_uncertain account o = true ↔ is_unsettled account o.
Proof. unfold is_uncertain, is_unsettled. by rewrite andb_true_iff, bool_decide_eq_true, String.eqb_eq. Qed.

Lemma settled_operation_evidence account snapshot_id now d o :
  settled_by_evidence account snapshot_id now d o (settled_operation account snapshot_id now d o).
Proof.
  unfold settled_operation. pose proof (is_uncertain_iff account o) as Hu.
  pose proof (item_present_iff snapshot_id (wo_provider_post_id o) d) as Hp.
  destruct (is_uncertain account o); [|split; naive_solver]. assert (Hun : is_unsettled account o) by by apply Hu.
  unfold reconciled_operation. destruct Hun as [Ha Hs]. rewrite Hs. simpl.
  unfold reconciled_status, reconciled_outcome.
  assert (Hpresent : if item_present snapshot_id (wo_provider_post_id o) d
    then post_staged snapshot_id (wo_provider_post_id o) d
    else ¬ post_staged snapshot_id (wo_provider_post_id o) d)
    by (destruct (item_present _ _ d); [by apply Hp|by intros ?%Hp]).
  destruct (item_present _ _ d), (String.eqb_spec (wo_action o) "add"), (String.eqb_spec (wo_action o) "remove");
    split; simpl; unfold took_effect; try congruence; naive_solver.
Qed.

(** C10. Completing a run is all or nothing, under any fault: an error leaves the database as it was or
    as a full completion left it. A completion makes the account's active bookmarks exactly the
    staged posts, counts every staged post as either added or retained, leaves other accounts'
    bookmarks alone, completes the run and its snapshot and makes that snapshot the account's
    authority. Every uncertain write of the account is settled by what the staged snapshot shows: an
    addition whose post is there and a removal whose post is not are recorded as succeeded, every other
    one as not current, with the presence of the post as the outcome; no other write changes. Nothing
    but its preconditions can prevent it: when nothing fails it happens. *)
Theorem completion_reconciles_exactly env account run (w : W) :
  (∀ n d, e_other env n d = d) →
  let d := w_db w in
  let now := e_clock env (w_tick w) in
  let snap := rn_snapshot_id run in
  wp env (complete_run account run) (λ r w',
    let d' := w_db w' in
    (r ≠ Ok tt ∧ d' = d) ∨
    (finalizable account run d = true ∧
     (∀ post, is_Some (active_bookmarks account d' !! post) ↔ is_Some (staged snap d !! post)) ∧
     (∀ other, other ≠ account → bookmarks_of other d' = bookmarks_of other d) ∧
     (size (added_items account snap d) + size (retained_items account snap d))%nat = size (staged snap d) ∧
     (∃ row, sync_runs d' !! rn_id run = Some row ∧ run_state row = "completed"%string ∧
        run_added_count row = Z.of_nat (size (added_items account snap d)) ∧
        run_retained_count row = Z.of_nat (size (retained_items account snap d)) ∧
        run_removed_count row = Z.of_nat (size (absent_bookmarks account snap d))) ∧
     (∀ id, option_Forall2 (settled_by_evidence account snap now d)
        (bookmark_write_operations d !! id) (bookmark_write_operations d' !! id)) ∧
     bookmark_snapshot_authority d' = <[account := mkAuthority snap now]> (bookmark_snapshot_authority d) ∧
     (∃ s, snapshots d' !! snap = Some s ∧ snap_complete s = true))) w ∧
  (quiet env → finalizable account run d = true →
   Z.of_nat (size (staged snap d)) ≤ i32_max → Z.of_nat (size (bookmarks_of account d)) ≤ i32_max →
   (complete_run account run env w).1 = Ok tt).
Proof.
  intros Ho. cbv zeta. split; [|by apply complete_run_succeeds].
  eapply wp_mono; [by apply complete_run_spec|].
  assert (Heffect : ∀ now d d', CompletionEffect account run now d d' →
    ∃ row, sync_runs d' !! rn_id run = Some row ∧ run_state row = "completed"%string ∧
        run_added_count row = Z.of_nat (size (added_items account (rn_snapshot_id run) d)) ∧
        run_retained_count row = Z.of_nat (size (retained_items account (rn_snapshot_id run) d)) ∧
        run_removed_count row = Z.of_nat (size (absent_bookmarks account (rn_snapshot_id run) d))).
  { intros now d d' He. destruct (ce_snapshot _ _ _ _ _ He) as (s & row & _ & Hrow & _).
    rewrite (ce_runs _ _ _ _ _ He), lookup_alter_eq, Hrow. by eexists. }
  intros r w' Hcase.
  assert (Hor : (r ≠ Ok tt ∧ w_db w' = w_db w) ∨
            CompletionEffect account run (e_clock env (w_tick w)) (w_db w) (w_db w')).
  { destruct r as [u|e]; [by right|]. by destruct Hcase; [left|right]. }
  destruct Hor as [?|He]; [by left|right]. split_and!.
  - apply (ce_final _ _ _ _ _ He).
  - intros post. by eapply effect_active.
  - apply (ce_others _ _ _ _ _ He).
  - apply statistics_partition.
  - by eapply Heffect.
  - intros id. rewrite (ce_operations _ _ _ _ _ He).
    destruct (bookmark_write_operations (w_db w) !! id) as [o|]; constructor.
    apply settled_operation_evidence.
  - apply (ce_authority _ _ _ _ _ He).
  - destruct (ce_snapshot _ _ _ _ _ He) as (s & row & _ & _ & ->). rewrite lookup_insert_eq. by eexists.
Qed.

(** *** Authority *)

(** A complete snapshot of one of the account's own runs. *)
Definition complete_for (account snapshot_id : Z) (d : Db) : Prop :=
  ∃ s run, snapshots d !! snapshot_id = Some s ∧ snap_complete s = true ∧
    sync_runs d !! snap_sync_run_id s = Some run ∧ run_account_id run = account.

(** Authority and observed absence always rest on a complete snapshot. *)
Record AuthorityJustified (d : Db) : Prop := {
  aj_authority account a : bookmark_snapshot_authority d !! account = Some a →
    complete_for account (auth_snapshot_id a) d;
  aj_removed account post b snapshot_id : bookmarks_of account d !! post = Some b →
    bm_observed_removed_snapshot_id b = Some snapshot_id → complete_for account snapshot_id d;
}.

Lemma frame_justified d d' : SyncFrame d d' → AuthorityJustified d → AuthorityJustified d'.
Proof.
  intros [Hb Ha _ _ _ _ _ Hs Hr] [H1 H2].
  assert (Hc : ∀ account snap, complete_for account snap d → complete_for account snap d').
  { intros account snap (s & run & Hsnap & Hcomp & Hrun & Hacc).
    destruct (Hr _ _ Hrun) as (run' & Hrun' & ? & _). exists s, run'. split_and!; auto. congruence. }
  split.
  - intros account a. rewrite Ha. intros Hl. by apply Hc, H1.
  - intros account post b snap. unfold bookmarks_of. rewrite Hb. intros Hl Hrm. by apply Hc, (H2 _ post b).
Qed.

Lemma effect_justified account run now d d' :
  CompletionEffect account run now d d' → AuthorityJustified d → AuthorityJustified d'.
Proof.
  intros He [H1 H2]. pose proof (ce_final _ _ _ _ _ He) as Hfin. unfold finalizable in Hfin.
  destruct (ce_snapshot _ _ _ _ _ He) as (s & row & Hs & Hrow & Hs').
  rewrite Hs, Hrow in Hfin. rewrite !andb_true_iff, !bool_decide_eq_true in Hfin.
  destruct Hfin as [[[Hrun Hacc] Hinc] _]. pose proof (ce_runs _ _ _ _ _ He) as Hr'.
  assert (Hown : complete_for account (rn_snapshot_id run) d').
  { exists (completed_snapshot now (run_pages_fetched row) s). eexists.
    rewrite Hs', lookup_insert_eq, Hr'. simpl. rewrite Hrun, lookup_alter_eq, Hrow. done. }
  assert (Hc : ∀ a snap, complete_for a snap d → complete_for a snap d').
  { intros a snap (s0 & r0 & Hs0 & Hcomp & Hr0 & Ha0).
    assert (snap ≠ rn_snapshot_id run) by (intros ->; rewrite Hs in Hs0; simplify_eq; by rewrite Hcomp in Hinc).
    exists s0. rewrite Hs', Hr', lookup_insert_ne, lookup_alter by done.
    case_decide as Hid; [rewrite Hid|]; rewrite Hr0; simpl; eexists; by split_and!. }
  split.
  - intros a au. rewrite (ce_authority _ _ _ _ _ He), lookup_insert. case_decide; [|by intros ?%H1%Hc].
    intros [= <-]. by subst.
  - intros a post b snap. destruct (decide (a = account)) as [->|Hne].
    + rewrite (ce_bookmarks _ _ _ _ _ He).
      destruct (staged (rn_snapshot_id run) d !! post), (bookmarks_of account d !! post) as [b0|] eqn:Eb;
        simpl; intros [= <-]; simpl; try done.
      destruct (is_active b0); simpl; [by intros [= <-]|]. intros Hrm. by apply Hc, (H2 _ post b0).
    + rewrite (ce_others _ _ _ _ _ He) by done. intros Hb Hrm. by apply Hc, (H2 _ post b).
Qed.

(** No run, resumed or fresh, ever gives authority to, or records an absence on the word of, a
    snapshot that is not complete and of the same account, whatever fails and however it interleaves
    with other connections that respect this. *)
Theorem authority_stays_justified env fuel gate source account resume :
  rely (Ev:=Event) env (on_db (keeps AuthorityJustified)) →
  guar env (on_db (keeps AuthorityJustified)) (run_snapshot fuel gate source account resume).
Proof.
  intros Hr.
  assert (Hsub : ∀ d d', SyncFrame d d' → keeps AuthorityJustified d d')
    by exact frame_justified.
  assert (Hsub' : ∀ d d', StageFrame d d' → keeps AuthorityJustified d d')
    by (intros d d' Hf; by apply Hsub, stage_frame_sync).
  assert (Hbud : ∀ f d, keeps AuthorityJustified d (on_api_budget_windows f d)).
  { intros f d. apply Hsub. split; simpl; eauto. }
  assert (Hcomplete : ∀ run, guar env (on_db (keeps AuthorityJustified)) (complete_run account run)).
  { intros run. unfold complete_run. apply guar_bind; [typeclasses eauto|guar_steps|]. intros now.
    apply guar_transaction_keeps; [done|]. apply keeps_ok_bind; [|intros; apply keeps_ok_ret].
    intros w HI. eapply wp_mono; [apply completion_spec|]. intros [u|e] w'; [|done].
    intros He. by eapply effect_justified. }
  by apply (run_snapshot_guar env _ Hsub' Hr).
Qed.

(** *** Termination *)

Lemma charge_spends env account class start seconds cap cost (w : W) :
  (∀ n d, e_other env n d = d) →
  wp env (charge account class start seconds cap cost) (λ r w', match r with
    | Ok (Accepted _) =>
        default 0 (usage account class start (w_db w)) + cost ≤ cap ∧
        usage account class start (w_db w') = Some (default 0 (usage account class start (w_db w)) + cost)
    | _ => True
    end) w.
Proof.
  intros Ho. unfold charge. wp_step; [done|]. rewrite Ho. wp_step. wp_step; [|done].
  intros u d1 E1. split; [|done]. apply usage_ensure in E1. wp_step. wp_step; [|done].
  intros used d2 E2. split; [|done]. cbn [w_db set_db tick] in *. rewrite E1 in E2. simpl in E2.
  injection E2 as <- <-. case_bool_decide; [by wp_steps|]. wp_steps; [|done].
  intros u3 d3 E3. destruct (bump_usage_Some _ _ _ _ _ _ _ _ E1 E3) as [Hu3 _]. split; [|done].
  wp_steps. split_and!; try done; lia.
Qed.

Lemma reserve_spends env gate account start (w : W) :
  (∀ n d, e_other env n d = d) →
  (∀ n, window_start_for (e_clock env n) (window_seconds gate) = start) →
  let class := as_str (budget_class gate) in
  wp env (reserve gate account 1) (λ r w', match r with
    | Ok _ =>
        default 0 (usage account class start (w_db w)) < request_cap_per_window gate ∧
        default 0 (usage account class start (w_db w')) = default 0 (usage account class start (w_db w)) + 1
    | Err _ => True
    end) w.
Proof.
  intros Ho Hstart. cbv zeta. unfold reserve. case_bool_decide; wp_steps; [done|].
  rewrite Hstart. eapply wp_mono; [by apply charge_spends|]. intros [[used|]|e] w'; simpl; [|..].
  - intros [Hcap Hu]. apply wp_ret. rewrite Hu. cbn [w_db tick] in *. simpl. split; [lia|done].
  - intros _. unfold wp. simpl. destruct (reset_instant gate start); done.
  - done.
Qed.

(** C29. The page loop ends: inside one budget window, where no other connection runs, a snapshot run
    stops after at most as many pages as the window's cap allows, however many pages the provider
    keeps offering and whatever fails. *)
Theorem snapshot_run_terminates env fuel gate source account resume start (w : W) :
  (∀ n d, e_other env n d = d) →
  (∀ n, window_start_for (e_clock env n) (window_seconds gate) = start) →
  0 ≤ default 0 (usage account (as_str (budget_class gate)) start (w_db w)) →
  Z.max 0 (request_cap_per_window gate) < Z.of_nat fuel →
  (run_snapshot fuel gate source account resume env w).1 ≠ Ok None.
Proof.
  intros Ho Hstart Hpos Hfuel. set (class := as_str (budget_class gate)) in *.
  set (spent := λ d : Db, default 0 (usage account class start d)) in *.
  assert (Hr : rely (Ev:=Event) env (on_db (λ d d', spent d' = spent d))).
  { intros n w0. unfold on_db. simpl. by rewrite Ho. }
  assert (Hpre : PreOrder (λ d d', spent d' = spent d)) by (split; [done | intros ???; congruence]).
  assert (Hsub : ∀ d d', StageFrame d d' → spent d' = spent d).
  { intros d d' [_ E]. unfold spent, usage. by rewrite E. }
  assert (Hloop : ∀ fuel run (w0 : W), 0 < Z.of_nat fuel →
    request_cap_per_window gate - spent (w_db w0) < Z.of_nat fuel →
    wp env (run_pages fuel gate source account run) (λ r _, r ≠ Ok None) w0).
  { clear fuel Hfuel. induction fuel as [|fuel IH]; intros run w0 Hf Hlt; [lia|]. cbn [run_pages].
    assert (Hmark : ∀ id (k : Prog SnapshotError (option SnapshotOutcome)) (w1 : W),
      (∀ w2, wp env k (λ r _, r ≠ Ok None) w2) →
      wp env (bind (mark_failed id) (λ _, k)) (λ r _, r ≠ Ok None) w1).
    { intros id k w1 Hk. apply wp_bind. unfold wp at 1.
      destruct (mark_failed id env w1) as [[u|e] w2]; cbn [fst snd]; [apply Hk | done]. }
    apply wp_bind, wp_attempt. eapply wp_mono; [by apply (reserve_spends _ _ _ start)|].
    intros [reservation|error] w1.
    2:{ intros _. destruct error; (apply Hmark; intros w2); first [by apply wp_ret | by apply wp_throw]. }
    fold class. change (default 0 (usage account class start (w_db w0))) with (spent (w_db w0)).
    change (default 0 (usage account class start (w_db w1))) with (spent (w_db w1)).
    intros [Hcap Hspent]. apply wp_bind, wp_call.
    destruct (source _) as [page|?]; [|apply Hmark; intros w2; by apply wp_ret].
    apply wp_bind, wp_clock_now, wp_bind, wp_attempt. set (w2 := tick (tick _)).
    assert (H2 : spent (w_db w2) = spent (w_db w1)) by done.
    set (now := e_clock env _). clearbody w2 now.
    pose proof (guar_elim (stage_page_guar env _ Hsub Hr run page now) w2) as Hst.
    unfold on_db in Hst. cbv beta in Hst.
    unfold wp at 1. destruct (stage_page run page now env w2) as [[u|error] w3]; cbn [fst snd] in *;
      [|apply Hmark; intros w4; by apply wp_throw].
    destruct (page_next_token page) as [token|].
    - destruct fuel as [|fuel]; [lia|]. apply IH; lia.
    - apply wp_bind. unfold wp at 1. by destruct (complete_run account run env w3) as [[v|e] w4]. }
  pose proof (guar_elim (load_or_create_guar env _ Hsub Hr account resume) w) as Hl.
  unfold on_db in Hl. cbv beta in Hl.
  unfold run_snapshot, bind. destruct (load_or_create_run account resume env w) as [[run|e] w1]; [|done].
  cbn [fst snd] in Hl. assert (Hs : 0 ≤ spent (w_db w)) by exact Hpos.
  apply (Hloop fuel run w1); [clear -Hfuel; lia|rewrite Hl; clear -Hs Hfuel; lia].
Qed.
End Runs.
