(* ===== verification/SnapshotStaging.v ===== *)
(** * What one staged page holds ([crates/x-sync/src/lib.rs], [stage_page])

    The functional side of staging: the rows one page's transaction leaves, and concrete runs of a
    whole snapshot. *)
From S2P Require Export Snapshot.

(** ** Persisted records *)

(** The rows of the users of a page, as a map from provider ids to surrogate ids records them. *)
Definition users_persisted (us : list NormalizedUser) (ids : gmap string Z) (d : Db) : Prop :=
  ∀ name id, ids !! name = Some id → ∃ u row, u ∈ us ∧ nu_provider_id u = name ∧
    users d !! name = Some row ∧ usr_id row = id ∧ usr_username row = nu_username u ∧
    usr_display_name row = nu_display_name u.

(** The rows of the posts of a page: each visited provider id has the row of one of the page's
    objects, under the surrogate id the map records; every other row is untouched and no row changes
    its surrogate id. *)
Record posts_persisted (authors : gmap string Z) (ps : list NormalizedPost) (ids : gmap string Z)
    (d d' : Db) : Prop := {
  pp_visited pid : pid ∈ np_provider_id <$> ps ↔ is_Some (ids !! pid);
  pp_rows pid id : ids !! pid = Some id → ∃ p author provenance, p ∈ ps ∧ np_provider_id p = pid ∧
    authors !! np_author_provider_id p = Some author ∧
    posts d' !! pid = Some (post_row id author provenance p);
  pp_identity pid row : posts d !! pid = Some row →
    ∃ row', posts d' !! pid = Some row' ∧ pst_id row' = pst_id row;
  pp_untouched pid : pid ∉ np_provider_id <$> ps → posts d' !! pid = posts d !! pid;
  pp_users : users d' = users d;
}.

Lemma persist_users_spec env us (w : W) :
  yields env (persist_users us) (λ ids w', users_persisted us ids (w_db w')) w.
Proof.
  apply (yields_fold_m env persist_user (λ visited ids w', users_persisted visited ids (w_db w')));
    [by intros ??|]. intros visited u rest ids w1 _ HI.
  unfold persist_user. yields_steps. intros id d' Hup. yields_steps.
  assert (Hrow : ∃ row, users d' = <[nu_provider_id u := row]> (users (w_db w1)) ∧ usr_id row = id ∧
            usr_username row = nu_username u ∧ usr_display_name row = nu_display_name u).
  { unfold upsert_user in Hup. destruct (users (w_db w1) !! _) as [row|];
      [|destruct (user_by_id _ _); [done|]]; simplify_eq; by eexists. }
  destruct Hrow as (row & Hu & <- & Hn & Hd). intros name i. rewrite Hu, lookup_insert. case_decide as E.
  - intros [= <-]. exists u, row. split_and!; try done; [set_solver|].
    subst. by rewrite lookup_insert_eq.
  - intros (u' & row' & Hin & ? & ? & ?)%HI. exists u', row'. rewrite lookup_insert_ne by done.
    split_and!; try tauto. apply elem_of_app. by left.
Qed.

Lemma persist_posts_spec env authors ps (w : W) :
  yields env (persist_posts ps authors)
    (λ ids w', posts_persisted authors ps ids (w_db w) (w_db w')) w.
Proof.
  apply (yields_fold_m env (persist_post authors)
    (λ visited ids w', posts_persisted authors visited ids (w_db w) (w_db w'))).
  { split; try done; [intros pid|]; [split; [by intros ?%elem_of_nil|by intros [??]]|eauto]. }
  intros visited p rest ids w1 _ [Hv Hr Hi Hu Hus]. unfold persist_post. yields_steps.
  intros author Ha. yields_steps. intros id d' Hup. yields_steps.
  destruct (authors !! np_author_provider_id p) as [a|] eqn:Eauthor; [|done]. injection Ha as ->.
  assert (Hpid : np_provider_id <$> visited ++ [p] = (np_provider_id <$> visited) ++ [np_provider_id p])
    by by rewrite fmap_app.
  assert (Hrow : ∃ provenance,
            posts d' = <[np_provider_id p := post_row id author provenance p]> (posts (w_db w1)) ∧
            users d' = users (w_db w1) ∧
            ∀ row, posts (w_db w1) !! np_provider_id p = Some row → pst_id row = id).
  { unfold upsert_post in Hup. destruct (posts (w_db w1) !! _) as [row|] eqn:E;
      [|destruct (post_by_id _ _); [done|]]; simplify_eq; eexists; split_and!; try done. by intros ? [= ->]. }
  destruct Hrow as (provenance & Hposts & Husers & Hid). split.
  - intros pid. rewrite Hpid, elem_of_app, list_elem_of_singleton, lookup_insert, Hv.
    case_decide; naive_solver.
  - intros pid i. rewrite Hposts, !lookup_insert. case_decide as E.
    + intros [= <-]. exists p, author, provenance. split_and!; try done. apply elem_of_app. right. by left.
    + intros (q & b & v & Hin & ?)%Hr. exists q, b, v. split; [|tauto]. apply elem_of_app. by left.
  - intros pid row Hpr. destruct (Hi pid row Hpr) as (row1 & Hr1 & Hid1). rewrite Hposts, lookup_insert.
    case_decide as E; [|by exists row1]. subst pid. eexists. split; [done|]. simpl.
    rewrite <-(Hid _ Hr1). done.
  - intros pid. rewrite Hpid, elem_of_app, list_elem_of_singleton. intros Hn.
    rewrite Hposts, lookup_insert. case_decide as E; [destruct Hn; by right|]. apply Hu. tauto.
  - by rewrite Husers.
Qed.

(** Everything after the posts leaves users, posts, staged items and runs alone. *)
Definition SamePage : relation Db :=
  same (λ d, (posts d, users d, snapshot_bookmark_items d, sync_runs d)).

Lemma same_page_ignores_sources : IgnoresSources SamePage.
Proof. by split. Qed.

(** The tables a page's records do not touch. *)
Definition SameStaging : relation Db := same (λ d, (snapshot_bookmark_items d, sync_runs d)).

Lemma same_staging_ignores_records : IgnoresRecords SameStaging.
Proof. by split. Qed.

Section Staging.
Context {ch : Chrono} {ct : Contracts} {ec : EnvelopeCodec} {cr : Crypto} {ac : ArticleContracts}
  {sc : SocialContracts} {ho : HashOrder} {hol : HashOrderLaws}.

(** The records of a page, once persisted. *)
Record page_records (normalized : NormalizedBatch) (ids : gmap string Z) (d d' : Db) : Prop := {
  pr_visited pid : pid ∈ np_provider_id <$> nb_posts normalized ↔ is_Some (ids !! pid);
  pr_rows pid id : ids !! pid = Some id → ∃ p author u provenance, p ∈ nb_posts normalized ∧
    np_provider_id p = pid ∧ u ∈ nb_users normalized ∧
    nu_provider_id u = np_author_provider_id p ∧ posts d' !! pid = Some (post_row id (usr_id author) provenance p) ∧
    users d' !! np_author_provider_id p = Some author ∧ usr_username author = nu_username u ∧
    usr_display_name author = nu_display_name u;
  pr_identity pid row : posts d !! pid = Some row →
    ∃ row', posts d' !! pid = Some row' ∧ pst_id row' = pst_id row;
  pr_untouched pid : pid ∉ np_provider_id <$> nb_posts normalized → posts d' !! pid = posts d !! pid;
}.

Lemma persist_page_spec env normalized (w : W) :
  yields env (persist_page normalized) (λ ids w',
    page_records normalized ids (w_db w) (w_db w') ∧ SameStaging (w_db w) (w_db w')) w.
Proof.
  pose proof (guar_elim (persist_page_ignored env SameStaging normalized
    same_staging_ignores_records) w) as Hst.
  enough (H : yields env (persist_page normalized) (λ ids w',
    page_records normalized ids (w_db w) (w_db w')) w).
  { unfold yields, wp, on_db in *. by destruct (persist_page normalized env w) as [[ids|e] w']. }
  clear Hst. unfold persist_page. yields_steps.
  eapply yields_mono.
  { eapply (yields_frame env (same posts)); [|apply persist_users_spec].
    by apply (persist_users_ignored env (same posts)). }
  intros authors w1 [Hu Hp]. unfold same in Hp. yields_steps.
  eapply yields_mono; [apply persist_posts_spec|]. intros ids w2 [Hv Hr Hi Hn Hus]. yields_steps.
  set (R := same (λ d : Db, (posts d, users d))).
  apply (yields_guar env R); [by apply (persist_relations_ignored env R)|]. intros _ w3 [= Hp3 Hu3].
  yields_steps.
  apply (yields_guar env R); [by apply (persist_media_ignored env R)|]. intros _ w4 [= Hp4 Hu4].
  yields_steps. split; rewrite ?Hp4, ?Hp3, ?Hu4, ?Hu3; rewrite ?Hp in *; try done.
  intros pid id Hid. destruct (Hr pid id Hid) as (p & author & provenance & Hin & Hpid & Ha & Hrow).
  destruct (Hu _ _ Ha) as (u & row & Huin & Hname & Hurow & <- & ? & ?).
  exists p, row, u, provenance. rewrite Hus. split_and!; done.
Qed.

(** A surrogate id of one of the page's posts. *)
Definition page_post (normalized : NormalizedBatch) (d : Db) (post_id : Z) : Prop :=
  ∃ pid row, pid ∈ np_provider_id <$> nb_posts normalized ∧ posts d !! pid = Some row ∧
    pst_id row = post_id.

(** The effect of one staged page. *)
Record PageStaged (run : Run) (page : BookmarkPage) (observed_at : Z) (normalized : NormalizedBatch)
    (d d' : Db) : Prop := {
  ps_normalized : normalize (page_envelope page) = Ok normalized;
  ps_rows pid : pid ∈ np_provider_id <$> nb_posts normalized →
    ∃ p u author post_id provenance, p ∈ nb_posts normalized ∧ np_provider_id p = pid ∧
      u ∈ nb_users normalized ∧ nu_provider_id u = np_author_provider_id p ∧
      posts d' !! pid = Some (post_row post_id (usr_id author) provenance p) ∧
      users d' !! np_author_provider_id p = Some author ∧ usr_username author = nu_username u ∧
      usr_display_name author = nu_display_name u;
  ps_identity pid row : posts d !! pid = Some row →
    ∃ row', posts d' !! pid = Some row' ∧ pst_id row' = pst_id row;
  ps_untouched pid : pid ∉ np_provider_id <$> nb_posts normalized → posts d' !! pid = posts d !! pid;
  ps_staged post_id : page_post normalized d' post_id →
    staged (rn_snapshot_id run) d' !! post_id = Some observed_at;
  ps_kept post_id : ¬ page_post normalized d' post_id →
    staged (rn_snapshot_id run) d' !! post_id = staged (rn_snapshot_id run) d !! post_id;
  ps_others snapshot_id : snapshot_id ≠ rn_snapshot_id run → staged snapshot_id d' = staged snapshot_id d;
  ps_checkpoint : ∃ d1, sync_runs d1 = sync_runs d ∧
    checkpoint_run (rn_id run) (page_next_token page) (Z.of_nat (length (nb_posts normalized))) d1
      = Some (tt, on_sync_runs (λ _, sync_runs d') d1);
}.

Lemma hash_values_spec seed (m : gmap string Z) id :
  id ∈ hash_values seed m ↔ ∃ pid, m !! pid = Some id.
Proof.
  rewrite (hash_values_perm seed m), list_elem_of_fmap. split.
  - intros ([pid i] & -> & Hin). exists pid. by apply elem_of_map_to_list.
  - intros (pid & H). exists (pid, id). split; [done|]. by apply elem_of_map_to_list.
Qed.

Lemma stage_items_spec env snapshot_id observed_at ids (w : W) :
  yields env (for_each ids (λ post_id, execute SnapshotQuery (stage_item snapshot_id observed_at post_id)))
    (λ _ w',
      (∀ id, (id ∈ ids → staged snapshot_id (w_db w') !! id = Some observed_at) ∧
         (id ∉ ids → staged snapshot_id (w_db w') !! id = staged snapshot_id (w_db w) !! id)) ∧
      (∀ other, other ≠ snapshot_id → staged other (w_db w') = staged other (w_db w)) ∧
      same (λ d, (posts d, users d, sync_runs d)) (w_db w) (w_db w')) w.
Proof.
  apply (yields_for_each env _ (λ visited w',
      (∀ id, (id ∈ visited → staged snapshot_id (w_db w') !! id = Some observed_at) ∧
         (id ∉ visited → staged snapshot_id (w_db w') !! id = staged snapshot_id (w_db w) !! id)) ∧
      (∀ other, other ≠ snapshot_id → staged other (w_db w') = staged other (w_db w)) ∧
      same (λ d, (posts d, users d, sync_runs d)) (w_db w) (w_db w'))).
  { split; [|done]. intros id. split; [by intros ?%elem_of_nil|done]. }
  intros visited x rest w1 _ (Hs & Ho & Hsame). apply yields_execute. cbn [w_db set_db tick].
  unfold staged, stage_item in *. simpl. split_and!; [|intros other Hne|exact Hsame].
  - intros id. rewrite rows_set_eq, lookup_insert, elem_of_app, list_elem_of_singleton.
    destruct (Hs id). case_decide; naive_solver.
  - rewrite rows_set_ne by done. by apply Ho.
Qed.

Lemma checkpoint_run_effect run_id token count d u d' :
  checkpoint_run run_id token count d = Some (u, d') →
  d' = on_sync_runs (λ _, sync_runs d') d.
Proof.
  unfold checkpoint_run. destruct (sync_runs d !! run_id) as [run|] eqn:E; [|by intros [= <- <-]; destruct d].
  destruct (String.eqb _ _); [|by intros [= <- <-]; destruct d].
  destruct (int4 _), (int4 _); simpl; intros; simplify_eq. by destruct d.
Qed.

Lemma page_staged_intro run page observed_at normalized ids seed d d1 d2 d3 u d4 :
  normalize (page_envelope page) = Ok normalized →
  page_records normalized ids d d1 → SameStaging d d1 → SamePage d1 d2 →
  (∀ id, (id ∈ hash_values seed ids → staged (rn_snapshot_id run) d3 !! id = Some observed_at) ∧
     (id ∉ hash_values seed ids →
        staged (rn_snapshot_id run) d3 !! id = staged (rn_snapshot_id run) d2 !! id)) →
  (∀ other, other ≠ rn_snapshot_id run → staged other d3 = staged other d2) →
  same (λ d, (posts d, users d, sync_runs d)) d2 d3 →
  checkpoint_run (rn_id run) (page_next_token page) (Z.of_nat (length (nb_posts normalized))) d3
    = Some (u, d4) →
  PageStaged run page observed_at normalized d d4.
Proof.
  intros Hn [Hv Hr Hi Hu] [= Hst1 Hrun1] [= Hp2 Hu2 Hst2 Hrun2] Hs Ho [= Hp3 Hu3 Hrun3] Hc.
  pose proof (checkpoint_run_effect _ _ _ _ _ _ Hc) as Ed4.
  assert (Hp4 : posts d4 = posts d1) by (rewrite Ed4; simpl; congruence).
  assert (Hu4 : users d4 = users d1) by (rewrite Ed4; simpl; congruence).
  assert (Hst4 : ∀ snap, staged snap d4 = staged snap d3) by (intros; by rewrite Ed4).
  assert (Hst : ∀ snap, staged snap d2 = staged snap d) by (intros; unfold staged; congruence).
  assert (Hpage : ∀ id, page_post normalized d4 id ↔ id ∈ hash_values seed ids).
  { intros id. rewrite hash_values_spec. split.
    - intros (pid & row & [i Hid]%Hv & Hrow & <-). exists pid.
      destruct (Hr _ _ Hid) as (p & a & us & v & _ & _ & _ & _ & Hrow' & _). rewrite Hid.
      rewrite Hp4, Hrow' in Hrow. by injection Hrow as <-.
    - intros [pid Hid]. destruct (Hr _ _ Hid) as (p & a & us & v & _ & _ & _ & _ & Hrow' & _).
      exists pid, (post_row id (usr_id a) v p). rewrite Hp4. split_and!; try done. apply Hv. by eexists. }
  split; try done.
  - intros pid [id Hid]%Hv. destruct (Hr _ _ Hid) as (p & a & us & v & H). exists p, us, a, id, v.
    rewrite Hp4, Hu4. tauto.
  - rewrite Hp4. exact Hi.
  - rewrite Hp4. exact Hu.
  - intros id Hid%Hpage. rewrite Hst4. by apply Hs.
  - intros id Hid. rewrite Hst4, <-Hst. apply Hs. by rewrite <-Hpage.
  - intros snap Hne. rewrite Hst4, <-Hst. by apply Ho.
  - exists d3. split; [congruence|]. destruct u. by rewrite <-Ed4.
Qed.

(** Staging one page is all or nothing. A page that cannot be normalized is refused without a
    trace. A staged page has the row of each of its posts, with the content of one of the page's
    objects and the id and names of its author, keeps the surrogate id of every post already known
    and leaves every other post alone, marks exactly the page's posts as staged in the run's own
    snapshot, and moves the run's checkpoint and counters if and only if the run is still running. *)
Theorem page_is_staged_atomically env run page observed_at (w : W) :
  (∀ n d, e_other env n d = d) →
  wp env (stage_page run page observed_at) (λ r w',
    match r with
    | Ok _ => ∃ normalized, PageStaged run page observed_at normalized (w_db w) (w_db w')
    | Err _ => w_db w' = w_db w ∨
        ∃ normalized, PageStaged run page observed_at normalized (w_db w) (w_db w')
    end ∧
    ∀ e, normalize (page_envelope page) = Err e → r = Err (SnapshotNormalize e) ∧ w' = w) w.
Proof.
  intros Ho. unfold stage_page. wp_steps.
  destruct (normalize (page_envelope page)) as [normalized|e] eqn:En; cbn [result_map_err];
    [|by split; [left|intros ? [= ->]]].
  wp_steps. destruct (i32_try_from _) as [count|] eqn:Ec; cbn [ok_or]; [|by split; [left|]].
  assert (count = Z.of_nat (length (nb_posts normalized))) as -> by by apply int4_Some in Ec as [-> _].
  eapply wp_mono; [apply (wp_atomic env _ _ (λ _ d, ∃ nb, PageStaged run page observed_at nb (w_db w) d));
    [done|]|].
  2:{ intros [u|e] w' Hw'; (split; [|done]); [done|]. destruct Hw' as [?|[[] ?]]; [by left|by right]. }
  yields_steps. eapply yields_mono; [apply persist_page_spec|]. intros ids w1 [Hrec Hstag]. yields_steps.
  apply (yields_guar env SamePage); [apply publish_sources_ignored, same_page_ignores_sources; typeclasses eauto|].
  intros _ w2 Hpage. yields_steps.
  eapply yields_mono; [apply stage_items_spec|]. intros _ w3 (Hs & Hoth & Hsame). yields_steps.
  intros u d4 Hck. yields_steps. exists normalized. by eapply page_staged_intro.
Qed.
End Staging.

(** ** Concrete runs *)
Module SnapshotSamples.
Import SampleChrono SampleContracts ArticleSamples SocialSamples.

#[export] Instance sample_hash_order : HashOrder := {| hash_values _ m := (map_to_list m).*2 |}.
#[export] Instance sample_hash_order_laws : HashOrderLaws.
Proof. split. done. Qed.

Definition sample_gate : BudgetGate := mkBudgetGate Read 10 900 (900 * usec).
Definition sample_page (next : option string) : BookmarkPage :=
  mkBookmarkPage NormalizeSamples.sample_envelope next.

(** Two pages: the second, fetched at step 40, is the last. *)
Definition sample_source : BookmarkPageSource := λ n,
  if (n <? 40)%nat then Ok (sample_page (Some "next")) else Ok (sample_page None).

Definition sample_db : Db :=
  on_bookmarks (insert 1 {[ 99 := first_observed 1 ]})
    (on_accounts (insert 1 (mkAccount 7 "u1" "connected" 0)) empty_db).
Definition sample_world : W := mkWorld sample_db 0 [].

Definition sample_run : result (option SnapshotOutcome) SnapshotError * W :=
  run_snapshot 12 sample_gate sample_source 1 None (calm 5) sample_world.

Example sample_run_completes : is_ok sample_run.1 = true ∧
  (λ row, (run_state row, run_pages_fetched row, run_added_count row, run_removed_count row)) <$>
    (map_to_list (sync_runs (w_db sample_run.2))).*2 = [("completed"%string, 2, 2, 1)].
Proof. vm_compute. done. Qed.

(** A run whose page is staged and that can be completed. *)
Definition sample_handle : Run := mkRun 50 1 51 None.
Definition staged_db : Db :=
  on_snapshot_bookmark_items (insert 51 {[ 10 := 3; 11 := 3 ]})
    (on_snapshots (insert 51 (mkSnapshot 50 None false None 0))
       (on_sync_runs (insert 50 (mkSyncRun 1 "full" "running" None 2 2 0 0 0 None)) sample_db)).
Definition staged_world : W := mkWorld staged_db 0 [].

Lemma snapshot_run_refines_witness :
  ran 1 sample_db (w_db sample_run.2) sample_run.1.
Proof. apply (snapshot_run_refines (calm 5) 12 sample_gate sample_source 1 None sample_world). done. Defined.

(** The same with three writes of unknown outcome: the snapshot shows the post of the first two, an
    addition and a removal, and not that of the third, a removal. *)
Definition sample_row (id : Z) : PostRow :=
  mkPostRow id None "" None [] None None None None [] 0 "" "available".
Definition unsure (action provider_post_id : string) : WriteOperation :=
  mkWriteOperation 1 7 None action provider_post_id "execute" "d" "f" "uncertain" None None None None 3.
Definition unsettled_world : W := mkWorld
  (on_posts (λ _, {[ "p10"%string := sample_row 10; "p99"%string := sample_row 99 ]})
    (on_bookmark_write_operations
      (λ _, {[ 1 := unsure "add" "p10"; 2 := unsure "remove" "p10"; 3 := unsure "remove" "p99" ]}) staged_db)) 0 [].

Lemma completion_reconciles_exactly_witness :
  let '(r, w') := complete_run 1 sample_handle (calm 5) unsettled_world in
  r = Ok tt ∧
  ∃ o1 o2 o3, bookmark_write_operations (w_db w') !! 1 = Some o1 ∧
    bookmark_write_operations (w_db w') !! 2 = Some o2 ∧ bookmark_write_operations (w_db w') !! 3 = Some o3 ∧
    wo_status o1 = "reconciled_succeeded"%string ∧ wo_status o2 = "reconciled_not_current"%string ∧
    wo_status o3 = "reconciled_succeeded"%string.
Proof.
  destruct (completion_reconciles_exactly (calm 5) 1 sample_handle unsettled_world) as [Hw Hok]; [done|].
  specialize (Hok (calm_quiet 5)). unfold wp in Hw. cbv zeta in Hw.
  assert (Hr : (complete_run 1 sample_handle (calm 5) unsettled_world).1 = Ok tt)
    by (apply Hok; [vm_compute; reflexivity|vm_compute; discriminate..]).
  destruct (complete_run 1 sample_handle (calm 5) unsettled_world) as [r w']. cbn [fst snd] in *. clear Hok.
  split; [done|]. destruct Hw as [[[] _]|(_ & _ & _ & _ & _ & Hops & _)]; [done|].
  pose proof (Hops 1) as H1. pose proof (Hops 2) as H2. pose proof (Hops 3) as H3. clear Hops.
  assert (Hp : post_staged 51 "p10" (w_db unsettled_world)) by (eexists; split; [reflexivity|by eexists]).
  assert (Hn : ¬ post_staged 51 "p99" (w_db unsettled_world)).
  { intros (post & E & [x Hx]). vm_compute in E. injection E as <-. vm_compute in Hx. done. }
  inversion H1 as [u1 o1 S1 E1 F1|E1 F1]. inversion H2 as [u2 o2 S2 E2 F2|E2 F2].
  inversion H3 as [u3 o3 S3 E3 F3|E3 F3].
  exists o1, o2, o3. split_and!; try done.
  - apply (sv_succeeded _ _ _ _ _ _ S1); [done|by left].
  - apply (sv_not_current _ _ _ _ _ _ S2); [done|]. intros [[[=] _]|[_ []]]. exact Hp.
  - apply (sv_succeeded _ _ _ _ _ _ S3); [done|by right].
Defined.

Lemma authority_stays_justified_witness :
  guar (Ev:=Event) (calm 5) (on_db (keeps AuthorityJustified))
    (run_snapshot 12 sample_gate sample_source 1 None).
Proof.
  apply (authority_stays_justified (calm 5)). apply calm_rely. typeclasses eauto.
Defined.

Lemma snapshot_run_terminates_witness : sample_run.1 ≠ Ok None.
Proof.
  apply (snapshot_run_terminates (calm 5) 12 sample_gate sample_source 1 None
    (window_start_for 5 900) sample_world); [done | done | vm_compute; discriminate | vm_compute; reflexivity].
Defined.

Lemma page_is_staged_atomically_witness :
  let '(r, w') := stage_page sample_handle (sample_page None) 3 (calm 5) staged_world in
  match r with
  | Ok _ => ∃ normalized,
      PageStaged sample_handle (sample_page None) 3 normalized staged_db (w_db w')
  | Err _ => True
  end.
Proof.
  generalize (page_is_staged_atomically (calm 5) sample_handle (sample_page None) 3 staged_world
    ltac:(done)).
  unfold wp. destruct (stage_page _ _ _ _ _) as [[u|e] w']; [|done]. intros [H _]. exact H.
Defined.
End SnapshotSamples.
