(* ===== verification/Compliance.v ===== *)
(** * Compliance revalidation ([crates/x-sync/src/compliance.rs])

    A bounded pass over the sources whose last check is old: one budgeted provider call each, one
    ledger entry each, and a takedown only on authoritative evidence. The provider is an answer per
    step; the shared removal payload is a parameter. *)
From S2P Require Export PublicCapture Snapshot.

Inductive ComplianceAvailability :=
  | ComplianceAvailable | ComplianceDeleted | ComplianceProtected | ComplianceAuthorSuspended
  | ComplianceUnavailable.

#[export] Instance compliance_availability_eq_dec : EqDecision ComplianceAvailability.
Proof. solve_decision. Defined.

Record ComplianceObservation := mkComplianceObservation {
  co_availability : ComplianceAvailability;
  co_provider_request_id : option string;
}.

Inductive ComplianceSourceError := RateLimited | AuthorizationLost | ProviderFailure | InvalidEvidence.

Record ComplianceRunSummary := mkComplianceRunSummary {
  cm_checked : Z;
  cm_takedowns : Z;
  cm_budget_exhausted : bool;
}.

Inductive ComplianceRevalidationError :=
  | ComplianceBudget (e : BudgetError)
  | ComplianceQuery
  | ComplianceContract
  | ComplianceQueue (e : QueueError).

Record RevalidationCandidate := mkRevalidationCandidate {
  rv_source : Z;
  rv_post : Z;
  rv_provider_post : string;
  rv_owner : Z;
}.

Record RevalidationEvidence := mkRevalidationEvidence {
  re_availability : option ComplianceAvailability;
  re_provider_request_id : option string;
  re_outcome : string;
  re_failure_class : option string;
}.

Definition post_availability (availability : ComplianceAvailability) : string :=
  match availability with
  | ComplianceAvailable => "active"
  | ComplianceDeleted => "deleted"
  | ComplianceProtected => "protected"
  | ComplianceAuthorSuspended => "author_suspended"
  | ComplianceUnavailable => "unavailable"
  end.
Definition availability_outcome (availability : ComplianceAvailability) : string :=
  match availability with
  | ComplianceAvailable => "available"
  | ComplianceDeleted => "deleted"
  | ComplianceProtected => "protected"
  | ComplianceAuthorSuspended => "author_suspended"
  | ComplianceUnavailable => "unavailable"
  end.
Definition failure_token (error : ComplianceSourceError) : string :=
  match error with
  | RateLimited => "rate_limited"
  | AuthorizationLost => "authorization_lost"
  | ProviderFailure => "provider_failure"
  | InvalidEvidence => "invalid_evidence"
  end.

(** [RevalidationEvidence::from]. *)
Definition evidence_of (answer : result ComplianceObservation ComplianceSourceError) : RevalidationEvidence :=
  match answer with
  | Ok observation =>
      mkRevalidationEvidence (Some (co_availability observation)) (co_provider_request_id observation)
        (availability_outcome (co_availability observation)) None
  | Err error => mkRevalidationEvidence None None "indeterminate" (Some (failure_token error))
  end.

(** ** Due sources *)

(** [max(checked_at)] of a source's ledger entries. *)
Definition last_checked (account source : Z) (d : Db) : option Z :=
  fold_left (λ latest entry,
      Some (match latest with Some at_ => Z.max at_ (cl_checked_at entry) | None => cl_checked_at entry end))
    (List.filter (λ entry, (cl_account_id entry =? account) && (cl_social_source_id entry =? source))
       (map_to_list (compliance_revalidation_ledger d)).*2) None.

(** The live sources of the account with their post, as the join pairs them. *)
Definition candidate_of (account : Z) (d : Db) (kv : Z * SocialSource) : option (option Z * RevalidationCandidate) :=
  let '(source, row) := kv in
  if (ss_account_id row =? account) && negb (bool_decide (is_Some (ss_removed_at row))) then
    '(provider_post, _) ← post_by_id (ss_post_id row) d;
    acc ← accounts d !! account;
    Some (last_checked account source d,
          mkRevalidationCandidate source (ss_post_id row) provider_post (acc_internal_user_id acc))
  else None.

Definition due_before (limit : Z) (c : option Z * RevalidationCandidate) : bool :=
  match c.1 with None => true | Some at_ => at_ <? limit end.

(** [order by last_checked_at asc nulls first, social_source_id]. *)
Definition due_source_leb (a b : option Z * RevalidationCandidate) : bool :=
  match a.1, b.1 with
  | None, None => rv_source a.2 <=? rv_source b.2
  | None, Some _ => true
  | Some _, None => false
  | Some x, Some y => (x <? y) || ((x =? y) && (rv_source a.2 <=? rv_source b.2))
  end.

Definition due_sources (account due max_items : Z) (d : Db) : list RevalidationCandidate :=
  (take (Z.to_nat max_items) (sort due_source_leb
    (List.filter (due_before due) (omap (candidate_of account d) (map_to_list (social_sources d)))))).*2.

(** ** One result *)

(** The ledger refers to a source of the account. *)
Definition insert_ledger (id : Z) (entry : LedgerEntry) (d : Db) : option (unit * Db) :=
  source ← social_sources d !! cl_social_source_id entry;
  if negb (ss_account_id source =? cl_account_id entry) then None
  else
    table ← insert_new id entry (compliance_revalidation_ledger d);
    Some (tt, on_compliance_revalidation_ledger (λ _, table) d).

Definition with_availability (availability : string) (row : PostRow) : PostRow :=
  mkPostRow (pst_id row) (pst_author_user_id row) (pst_text row) (pst_long_text row) (pst_expanded_urls row)
    (pst_language row) (pst_published_at row) (pst_edited_at row) (pst_conversation_provider_id row)
    (pst_metrics row) (pst_parser_version row) (pst_normalization_provenance row) availability.
Definition set_post_availability (post_id : Z) (availability : string) (d : Db) : Db :=
  on_posts (fmap (λ row, if pst_id row =? post_id then with_availability availability row else row)) d.

Definition removed_source (at_ : Z) (row : SocialSource) : SocialSource :=
  mkSocialSource (ss_account_id row) (ss_post_id row) (ss_current_content_digest row) (ss_acquisition row)
    (ss_saved_authority row) (ss_captured_at row) (Some at_) (Some "retention_policy"%string).

(** The guarded removal, and whether it removed. *)
Definition mark_removed (account source at_ : Z) (d : Db) : option (bool * Db) :=
  match social_sources d !! source with
  | Some row =>
      if (ss_account_id row =? account) && negb (bool_decide (is_Some (ss_removed_at row)))
      then Some (true, on_social_sources (insert source (removed_source at_ row)) d)
      else Some (false, d)
  | None => Some (false, d)
  end.

(** A source has one tombstone, a check at most one. *)
Definition insert_tombstone (source : Z) (row : Tombstone) (d : Db) : option (unit * Db) :=
  if bool_decide (is_Some (find_row (λ _ t, tb_revalidation_id t =? tb_revalidation_id row) (tombstones d)))
  then None
  else
    table ← insert_new source row (tombstones d);
    Some (tt, on_tombstones (λ _, table) d).

Section Compliance.
Context {ch : Chrono} {ct : Contracts} {ec : EnvelopeCodec} {rc : RemovalContracts}.
(** What the provider answers at each step. *)
Context (revalidation : string → nat → result ComplianceObservation ComplianceSourceError).

Definition remove_source (account : Z) (candidate : RevalidationCandidate)
    (availability : ComplianceAvailability) (revalidation_id checked_at : Z) :
    Prog ComplianceRevalidationError bool :=
  let! removed := stmt ComplianceQuery (mark_removed account (rv_source candidate) checked_at) in
  if negb removed then ret false
  else
    do! stmt ComplianceQuery (insert_tombstone (rv_source candidate)
      (mkTombstone account (rv_provider_post candidate) (availability_outcome availability) revalidation_id
         checked_at)) in
    let payload := removal_document (rv_source candidate) (rv_owner candidate) checked_at in
    if negb (removal_payload_ok payload) then throw ComplianceContract
    else
      let! aggregate := of_result (result_map_err ComplianceQueue
                                     (entity "social_source" (uuid_text (rv_source candidate)))) in
      let! causation := of_result (result_map_err ComplianceQueue
                                     (entity "compliance_revalidation" (uuid_text revalidation_id))) in
      do! map_err ComplianceQueue (queue_envelope REMOVAL_EVENT_TYPE
            (mkEnvelopeFacts aggregate aggregate (Some causation) (rv_owner candidate) checked_at) payload) in
      ret true.

Definition ledger_entry (account : Z) (candidate : RevalidationCandidate) (evidence : RevalidationEvidence)
    (checked_at : Z) : LedgerEntry :=
  mkLedgerEntry account (rv_post candidate) (rv_source candidate) (re_provider_request_id evidence)
    (re_outcome evidence) (re_failure_class evidence) checked_at.

(** The transaction body of [record_result]; the ledger's id is generated by the server. *)
Definition record_body (account : Z) (candidate : RevalidationCandidate) (evidence : RevalidationEvidence)
    (checked_at : Z) : Prog ComplianceRevalidationError (ending bool) :=
  let! revalidation_id := new_uuid in
  do! stmt ComplianceQuery (insert_ledger revalidation_id (ledger_entry account candidate evidence checked_at)) in
  let! takedown :=
    match re_availability evidence with
    | None => ret false
    | Some availability =>
        do! execute ComplianceQuery
              (set_post_availability (rv_post candidate) (post_availability availability)) in
        if bool_decide (availability = ComplianceAvailable) then ret false
        else remove_source account candidate availability revalidation_id checked_at
    end in
  ret (Commit takedown).

Definition record_result (account : Z) (candidate : RevalidationCandidate) (evidence : RevalidationEvidence)
    (checked_at : Z) : Prog ComplianceRevalidationError bool :=
  transaction ComplianceQuery (record_body account candidate evidence checked_at).

Definition count_check (takedown : bool) (s : ComplianceRunSummary) : ComplianceRunSummary :=
  mkComplianceRunSummary (cm_checked s + 1) (cm_takedowns s + if takedown then 1 else 0)
    (cm_budget_exhausted s).

Fixpoint revalidate_all (gate : BudgetGate) (account : Z) (candidates : list RevalidationCandidate)
    (summary : ComplianceRunSummary) : Prog ComplianceRevalidationError ComplianceRunSummary :=
  match candidates with
  | [] => ret summary
  | candidate :: candidates =>
      let! reserved := attempt (reserve gate account 1) in
      match reserved with
      | Err (Exhausted _) =>
          ret (mkComplianceRunSummary (cm_checked summary) (cm_takedowns summary) true)
      | Err error => throw (ComplianceBudget error)
      | Ok _ =>
          let! answer := call (RevalidatePost (rv_provider_post candidate))
                           (revalidation (rv_provider_post candidate)) in
          let! now := clock_now in
          let! takedown := record_result account candidate (evidence_of answer) now in
          revalidate_all gate account candidates (count_check takedown summary)
      end
  end.

(** [ComplianceRevalidationService::run_due]. *)
Definition run_due (gate : BudgetGate) (account due max_items : Z) :
    Prog ComplianceRevalidationError ComplianceRunSummary :=
  let! candidates := on_pool (select ComplianceQuery (due_sources account due max_items)) in
  revalidate_all gate account candidates (mkComplianceRunSummary 0 0 false).
End Compliance.

(** ** Takedowns rest on evidence *)

Section Takedowns.
Context {ch : Chrono} {ct : Contracts} {ec : EnvelopeCodec} {rc : RemovalContracts}.

(** The outcomes that authorise a takedown. *)
Definition takes_down (outcome : string) : Prop :=
  outcome ∈ ["deleted"; "protected"; "author_suspended"; "unavailable"]%string.

Definition announced (source : Z) (d : Db) : Prop :=
  ∃ id row, outbox_events d !! id = Some row ∧ is_removal row = true ∧
    ob_aggregate row = "social_source:" +:+ uuid_text source.

(** The evidence behind one removed source. *)
Definition justified_by (source : Z) (row : SocialSource) (t : Tombstone) (e : LedgerEntry) : Prop :=
  cl_social_source_id e = source ∧ cl_account_id e = ss_account_id row ∧
  tb_account_id t = ss_account_id row ∧ cl_outcome e = tb_reason t ∧ takes_down (tb_reason t) ∧
  cl_failure_class e = None ∧ ss_removed_at row = Some (cl_checked_at e) ∧
  tb_recorded_at t = cl_checked_at e.

(** Every removed source has its tombstone, the one authoritative check that took it down, and its
    announcement; and every tombstone has a removed source. *)
Record TakedownsJustified (d : Db) : Prop := {
  tj_removed source row : social_sources d !! source = Some row → is_Some (ss_removed_at row) →
    announced source d ∧ ∃ t e, tombstones d !! source = Some t ∧
      compliance_revalidation_ledger d !! tb_revalidation_id t = Some e ∧ justified_by source row t e;
  tj_tombstone source t : tombstones d !! source = Some t →
    ∃ row, social_sources d !! source = Some row ∧ is_Some (ss_removed_at row);
}.

Lemma outcome_takes_down availability :
  availability ≠ ComplianceAvailable → takes_down (availability_outcome availability).
Proof. unfold takes_down. destruct availability; set_solver. Qed.

Lemma insert_ledger_Some id entry d u d' :
  insert_ledger id entry d = Some (u, d') →
  compliance_revalidation_ledger d !! id = None ∧
  d' = on_compliance_revalidation_ledger (λ _, <[id := entry]> (compliance_revalidation_ledger d)) d.
Proof.
  unfold insert_ledger, insert_new. destruct (social_sources d !! _); [|done]. cbn.
  destruct (negb _); [done|]. destruct (compliance_revalidation_ledger d !! id); [done|].
  by intros [= _ <-].
Qed.

Lemma insert_tombstone_Some source row d u d' :
  insert_tombstone source row d = Some (u, d') →
  tombstones d !! source = None ∧ d' = on_tombstones (λ _, <[source := row]> (tombstones d)) d.
Proof.
  unfold insert_tombstone, insert_new. case_bool_decide; [done|].
  destruct (tombstones d !! source); [done|]. by intros [= _ <-].
Qed.

Lemma mark_removed_Some account source at_ d b d' :
  mark_removed account source at_ d = Some (b, d') →
  (b = false ∧ d' = d) ∨
  (b = true ∧ ∃ row, social_sources d !! source = Some row ∧ ss_account_id row = account ∧
     ss_removed_at row = None ∧ d' = on_social_sources (insert source (removed_source at_ row)) d).
Proof.
  unfold mark_removed. destruct (social_sources d !! source) as [row|]; [|intros [= <- <-]; auto].
  destruct (_ && _) eqn:E; [|intros [= <- <-]; auto]. intros [= <- <-].
  apply andb_true_iff in E as [Ea Er]. apply Z.eqb_eq in Ea.
  apply negb_true_iff, bool_decide_eq_false in Er. right. split; [done|]. exists row. split_and!; try done.
  destruct (ss_removed_at row); [exfalso; eauto|done].
Qed.

(** What neither removes nor forgets evidence. *)
Lemma takedowns_grow d d' :
  social_sources d' = social_sources d → tombstones d' = tombstones d →
  (∀ id e, compliance_revalidation_ledger d !! id = Some e →
     compliance_revalidation_ledger d' !! id = Some e) →
  (∀ id row, outbox_events d !! id = Some row → outbox_events d' !! id = Some row) →
  TakedownsJustified d → TakedownsJustified d'.
Proof.
  intros Es Et Hl Ho [H1 H2]. split; rewrite ?Es, ?Et; [|exact H2].
  intros source row Hr Hrem. destruct (H1 source row Hr Hrem) as ((id & o & Hid & ?) & t & e & Ht & He & Hj).
  split; [exists id, o; auto|]. exists t, e. auto.
Qed.

(** One source taken down on the check just recorded. *)
Lemma takedowns_remove d d' source row account at_ reason rid entry post event now :
  TakedownsJustified d →
  social_sources d !! source = Some row → ss_account_id row = account → tombstones d !! source = None →
  compliance_revalidation_ledger d !! rid = Some entry →
  cl_social_source_id entry = source → cl_account_id entry = account → cl_outcome entry = reason →
  cl_failure_class entry = None → cl_checked_at entry = at_ → takes_down reason →
  outbox_events d !! env_id event = None → env_type event = REMOVAL_EVENT_TYPE →
  env_aggregate event = "social_source:" +:+ uuid_text source →
  d' = on_outbox_events (λ _, <[env_id event := fresh_row event now]> (outbox_events d))
         (on_tombstones (λ _, <[source := mkTombstone account post reason rid at_]> (tombstones d))
            (on_social_sources (insert source (removed_source at_ row)) d)) →
  TakedownsJustified d'.
Proof.
  intros [H1 H2] Hs Ha Ht He E1 E2 E3 E4 E5 Htd Ho Hty Hagg ->.
  assert (Hann : ∀ s, announced s d → announced s (on_outbox_events (λ _, <[env_id event := fresh_row event now]> (outbox_events d))
     (on_tombstones (λ _, <[source := mkTombstone account post reason rid at_]> (tombstones d))
            (on_social_sources (insert source (removed_source at_ row)) d)))).
  { intros s (id & r & Hr & ? & ?). exists id, r. cbn. rewrite lookup_insert_ne by congruence. done. }
  split; cbn.
  - intros s r [[<- <-]|[Hne Hr]]%lookup_insert_Some Hrem.
    + split.
      * exists (env_id event), (fresh_row event now). cbn. rewrite lookup_insert_eq.
        unfold is_removal, fresh_row. cbn. by rewrite Hty.
      * eexists _, entry. rewrite lookup_insert_eq. cbn. split_and!; [done|done|].
        unfold justified_by. cbn. subst. split_and!; done.
    + destruct (H1 s r Hr Hrem) as (Hn & t & e & Ht' & He' & Hj). split; [by apply Hann|].
      exists t, e. rewrite lookup_insert_ne by congruence. done.
  - intros s t [[<- <-]|[Hne Ht']]%lookup_insert_Some.
    + eexists. rewrite lookup_insert_eq. split; [done|]. by eexists.
    + destruct (H2 s t Ht') as (r & Hr & ?). exists r. rewrite lookup_insert_ne by congruence. done.
Qed.

Lemma record_body_justified env account candidate evidence checked_at :
  (∀ availability, re_availability evidence = Some availability →
     re_outcome evidence = availability_outcome availability ∧ re_failure_class evidence = None) →
  keeps_ok (Ev:=Event) env TakedownsJustified (record_body account candidate evidence checked_at).
Proof.
  intros Hev w HI. change (yields env (record_body account candidate evidence checked_at)
    (λ _ w', TakedownsJustified (w_db w')) w). unfold record_body, remove_source, entity. yields_steps.
  intros u d1 (Hnone & ->)%insert_ledger_Some. cbn [w_db set_db tick] in *.
  set (rid := e_uuid env _) in *. set (entry := ledger_entry _ _ _ _) in *.
  set (d1 := on_compliance_revalidation_ledger _ _).
  assert (H1 : TakedownsJustified d1).
  { eapply takedowns_grow; [| | | |exact HI]; try done. intros id e He. unfold d1. cbn.
    rewrite lookup_insert_ne by congruence. done. }
  destruct (re_availability evidence) as [availability|] eqn:Eav; yields_steps; [|done].
  destruct (Hev availability eq_refl) as [Eout Efail]. set (d2 := set_post_availability _ _ d1).
  assert (H2 : TakedownsJustified d2) by (by eapply takedowns_grow; [| | | |exact H1]).
  case_bool_decide as Hav; yields_steps; [done|]. intros removed d3 Hm. cbn [w_db set_db tick] in Hm.
  destruct (mark_removed_Some _ _ _ _ _ _ Hm) as [(-> & ->)|(-> & row & Hrow & Hacc & _ & ->)];
    cbn [negb]; yields_steps; [done|].
  intros u2 d4 (Ht & ->)%insert_tombstone_Some. cbn [w_db set_db tick] in *.
  destruct (negb _); yields_steps. intros aggregate Hagg. destruct (entity_ref_ok _); [|done].
  injection Hagg as <-. yields_steps. intros causation _. yields_steps.
  eapply yields_mono; [exact (queue_envelope_ok env _ _ _ _)|]. intros event w5 (now & Hb & _ & Hfresh & E5).
  apply build_envelope_fields in Hb as (_ & Hty & _ & Hag & _). yields_steps.
  cbn [w_db set_db tick] in *. rewrite E5.
  apply (takedowns_remove d2 _ (rv_source candidate) row account checked_at
           (availability_outcome availability) rid entry (rv_provider_post candidate) event now);
    try assumption; try reflexivity.
  - unfold d2, d1. cbn. by rewrite lookup_insert_eq.
  - by apply outcome_takes_down.
Qed.

Context (revalidation : string → nat → result ComplianceObservation ComplianceSourceError).

Lemma evidence_of_outcome answer availability :
  re_availability (evidence_of answer) = Some availability →
  re_outcome (evidence_of answer) = availability_outcome availability ∧
  re_failure_class (evidence_of answer) = None.
Proof. by destruct answer; intros [= <-]. Qed.

Lemma revalidate_all_justified env gate account candidates summary :
  rely (Ev:=Event) env (on_db (keeps TakedownsJustified)) →
  guar env (on_db (keeps TakedownsJustified)) (revalidate_all revalidation gate account candidates summary).
Proof.
  intros Hr. revert summary. induction candidates as [|c candidates IH]; intros summary; cbn [revalidate_all].
  { apply guar_ret; typeclasses eauto. }
  apply guar_bind; [typeclasses eauto| |].
  { apply guar_attempt, reserve_frame; try done; try typeclasses eauto.
    intros f d HI. by eapply takedowns_grow; [| | | |exact HI]. }
  intros [reservation|error]; [|destruct error; guar_steps].
  apply guar_bind; [typeclasses eauto|apply guar_call; [typeclasses eauto|by intros w0 HI]|]. intros answer.
  apply guar_bind; [typeclasses eauto|guar_steps|]. intros now.
  apply guar_bind; [typeclasses eauto| |intros; apply IH].
  apply guar_transaction_keeps; [done|]. apply record_body_justified. apply evidence_of_outcome.
Qed.

Lemma run_due_justified env gate account due max_items :
  rely (Ev:=Event) env (on_db (keeps TakedownsJustified)) →
  guar env (on_db (keeps TakedownsJustified)) (run_due revalidation gate account due max_items).
Proof.
  intros Hr. unfold run_due. apply guar_bind; [typeclasses eauto|guar_steps|].
  intros candidates. by apply revalidate_all_justified.
Qed.

(** C8. Nothing is taken down without proof: while other writers keep it so, every removed source has
    its announcement in the outbox, its tombstone and, behind the tombstone, one check of the same
    account and source with an authoritative outcome, no failure, and the very instant of the removal.
    A provider failure, of whatever class, removes nothing. *)
Theorem takedowns_rest_on_evidence env gate account due max_items :
  rely (Ev:=Event) env (on_db (keeps TakedownsJustified)) →
  guar env (on_db (keeps TakedownsJustified)) (run_due revalidation gate account due max_items).
Proof. apply run_due_justified. Qed.

(** *** Bounds *)

Lemma record_result_silent env account candidate evidence checked_at :
  guar (Ev:=Event) env silent (record_result account candidate evidence checked_at).
Proof.
  unfold record_result, record_body, remove_source, entity. silently. apply queue_envelope_silent.
Qed.

Definition revalidations (candidates : list RevalidationCandidate) : list Event :=
  (λ c, RevalidatePost (rv_provider_post c)) <$> candidates.

(** What a pass over the candidates did: a prefix was asked about, in order, and the summary counts it. *)
Definition progress (candidates : list RevalidationCandidate) (summary : ComplianceRunSummary) (w : W)
    (r : result ComplianceRunSummary ComplianceRevalidationError) (w' : W) : Prop :=
  ∃ checked rest, candidates = checked ++ rest ∧ w_log w' = w_log w ++ revalidations checked ∧
    match r with
    | Ok s => cm_checked s = cm_checked summary + Z.of_nat (length checked) ∧
        cm_takedowns summary ≤ cm_takedowns s ≤ cm_takedowns summary + Z.of_nat (length checked) ∧
        (cm_budget_exhausted s = cm_budget_exhausted summary ∧ rest = [] ∨
         cm_budget_exhausted s = true ∧ rest ≠ [])
    | Err _ => True
    end.

Lemma progress_refused c candidates summary (w w1 : W) r :
  silent w w1 →
  (∀ s, r = Ok s → s = mkComplianceRunSummary (cm_checked summary) (cm_takedowns summary) true) →
  progress (c :: candidates) summary w r w1.
Proof.
  intros Hs Hr. exists [], (c :: candidates). unfold silent in Hs. rewrite app_nil_r. split_and!; try done.
  destruct r as [s|]; [|done]. rewrite (Hr s eq_refl). cbn. split_and!; try lia. by right.
Qed.

Lemma revalidate_all_progress env gate account candidates summary (w : W) :
  wp env (revalidate_all revalidation gate account candidates summary) (progress candidates summary w) w.
Proof.
  revert summary w. induction candidates as [|c candidates IH]; intros summary w; cbn [revalidate_all].
  { apply wp_ret. exists [], []. cbn. rewrite app_nil_r. split_and!; auto; lia. }
  apply wp_bind, wp_attempt. eapply wp_mono; [apply wp_of_guar, reserve_silent|]. intros [res|error] w1 Hs1.
  2:{ destruct error; first [apply wp_throw | apply wp_ret]; (apply progress_refused; [done|]);
      by intros s [= <-]. }
  apply wp_bind, wp_call, wp_bind, wp_clock_now, wp_bind. set (w2 := tick (tick _)).
  assert (H2 : w_log w2 = w_log w ++ [RevalidatePost (rv_provider_post c)]) by (cbn; by rewrite Hs1).
  set (now := e_clock env _). clearbody w2 now.
  eapply wp_mono; [apply wp_of_guar, record_result_silent|]. intros [takedown|error] w3 Hs3; unfold silent in Hs3.
  - eapply wp_mono; [apply IH|]. intros r w4 (checked & rest & -> & E & Hr). exists (c :: checked), rest.
    rewrite E, Hs3, H2, <-app_assoc. split_and!; [done..|]. destruct r; [|done].
    cbn [length count_check cm_checked cm_takedowns cm_budget_exhausted] in *.
    destruct Hr as (-> & Ht & Hb). rewrite Nat2Z.inj_succ. split_and!; [lia|destruct takedown; lia..|done].
  - exists [c], candidates. by rewrite Hs3, H2.
Qed.

(** *** The candidates *)

(** A live source of the account that no check at or after the limit looked at. *)
Definition overdue (account due source : Z) (d : Db) : Prop :=
  (∃ row, social_sources d !! source = Some row ∧ ss_account_id row = account ∧ ss_removed_at row = None ∧
     is_Some (post_by_id (ss_post_id row) d)) ∧
  is_Some (accounts d !! account) ∧
  ∀ id e, compliance_revalidation_ledger d !! id = Some e → cl_account_id e = account →
    cl_social_source_id e = source → cl_checked_at e < due.

Lemma latest_before limit entries (latest : option Z) :
  (match fold_left (λ latest entry,
      Some (match latest with Some at_ => Z.max at_ (cl_checked_at entry) | None => cl_checked_at entry end))
    entries latest with None => true | Some at_ => at_ <? limit end) = true ↔
  (∀ at_, latest = Some at_ → at_ < limit) ∧ ∀ e, e ∈ entries → cl_checked_at e < limit.
Proof.
  revert latest. induction entries as [|entry entries IH]; intros latest; cbn [fold_left].
  - destruct latest as [at_|]; [rewrite Z.ltb_lt|]; split; try done.
    + intros H. split; [by intros ? [= <-]|by intros ? ?%elem_of_nil].
    + intros [H _]. by apply H.
    + intros _. split; [done|by intros ? ?%elem_of_nil].
  - rewrite IH. setoid_rewrite elem_of_cons. split.
    + intros [H1 H2]. specialize (H1 _ eq_refl). split.
      * intros at_ ->. lia.
      * intros e [->|He]; [destruct latest; lia|by apply H2].
    + intros [H1 H2]. split; [|auto]. intros at_ [= <-]. pose proof (H2 entry (or_introl eq_refl)).
      destruct latest as [t|]; [specialize (H1 t eq_refl)|]; lia.
Qed.

Lemma due_before_spec limit account source d c :
  due_before limit (last_checked account source d, c) = true ↔
  ∀ id e, compliance_revalidation_ledger d !! id = Some e → cl_account_id e = account →
    cl_social_source_id e = source → cl_checked_at e < limit.
Proof.
  unfold due_before, last_checked. cbn [fst]. rewrite latest_before. split.
  - intros [_ H] id e He Ha Hs. apply H, list_elem_of_In, filter_In. split.
    + apply list_elem_of_In, list_elem_of_fmap. exists (id, e). split; [done|by apply elem_of_map_to_list].
    + by rewrite Ha, Hs, !Z.eqb_refl.
  - intros H. split; [done|]. intros e He. apply list_elem_of_In, filter_In in He as [He Hf].
    apply andb_true_iff in Hf as [?%Z.eqb_eq ?%Z.eqb_eq].
    apply list_elem_of_In, list_elem_of_fmap in He as ([id e'] & -> & Hin). cbn in *.
    apply elem_of_map_to_list in Hin. by eapply H.
Qed.

Lemma candidate_of_spec account d source row last c :
  candidate_of account d (source, row) = Some (last, c) ↔
  ss_account_id row = account ∧ ss_removed_at row = None ∧ last = last_checked account source d ∧
  ∃ post acc, post_by_id (ss_post_id row) d = Some post ∧ accounts d !! account = Some acc ∧
    c = mkRevalidationCandidate source (ss_post_id row) post.1 (acc_internal_user_id acc).
Proof.
  unfold candidate_of. destruct (_ && _) eqn:E.
  - apply andb_true_iff in E as [Ea%Z.eqb_eq Er].
    assert (Hr : ss_removed_at row = None) by (by destruct (ss_removed_at row)).
    destruct (post_by_id _ d) as [[post prow]|]; cbn; [|naive_solver].
    destruct (accounts d !! account) as [acc|]; cbn; [|naive_solver]. split.
    + intros [= <- <-]. split_and!; try done. by exists (post, prow), acc.
    + by intros (_ & _ & -> & p & a & [= <-] & [= <-] & ->).
  - split; [done|]. intros (Ea & Er & _). rewrite Ea, Er, Z.eqb_refl in E. done.
Qed.

Lemma ranked_candidate account due d last c :
  (last, c) ∈ List.filter (due_before due) (omap (candidate_of account d) (map_to_list (social_sources d))) ↔
  ∃ row, social_sources d !! rv_source c = Some row ∧ candidate_of account d (rv_source c, row) = Some (last, c) ∧
    due_before due (last, c) = true.
Proof.
  rewrite list_elem_of_In, filter_In, <-list_elem_of_In, list_elem_of_omap. split.
  - intros [([source row] & Hin & Hc) Hd]. apply elem_of_map_to_list in Hin.
    assert (E : rv_source c = source) by (apply candidate_of_spec in Hc as (_ & _ & _ & ? & ? & _ & _ & ->); done).
    exists row. by rewrite E.
  - intros (row & Hrow & Hc & Hd). split; [|done]. exists (rv_source c, row).
    split; [by apply elem_of_map_to_list|done].
Qed.

Lemma due_source_overdue account due max_items d c :
  c ∈ due_sources account due max_items d → overdue account due (rv_source c) d.
Proof.
  unfold due_sources. intros ([last c'] & -> & Hin)%list_elem_of_fmap.
  apply elem_of_take in Hin as (i & Hi%list_elem_of_lookup_2 & _). apply elem_of_sort, ranked_candidate in Hi.
  destruct Hi as (row & Hrow & Hc & Hd). cbn [snd] in *.
  apply candidate_of_spec in Hc as (Ha & Hr & -> & post & acc & Hp & Hacc & _).
  rewrite due_before_spec in Hd. split; [|split; [by rewrite Hacc|done]]. exists row. by rewrite Hp.
Qed.

Lemma sublist_filter_list {A} (P : A → bool) xs : sublist (List.filter P xs) xs.
Proof. induction xs as [|x xs IH]; cbn; [constructor|]. by destruct (P x); constructor. Qed.

Lemma omap_candidates_NoDup account d (kvs : list (Z * SocialSource)) :
  NoDup kvs.*1 → NoDup (rv_source <$> (omap (candidate_of account d) kvs).*2).
Proof.
  induction kvs as [|[source row] kvs IH]; [constructor|]. cbn. intros [Hn Hd]%NoDup_cons.
  destruct (_ && _); [|by apply IH]. destruct (post_by_id _ d) as [[post ?]|]; cbn; [|by apply IH].
  destruct (accounts d !! account); cbn; [|by apply IH]. apply NoDup_cons. split; [|by apply IH].
  intros (c & E & Hin)%list_elem_of_fmap. cbn in E. subst source.
  apply list_elem_of_fmap in Hin as ([last c'] & -> & Hin). apply list_elem_of_omap in Hin as ([s r] & Hkv & Hc).
  apply candidate_of_spec in Hc as (_ & _ & _ & ? & ? & _ & _ & ->). apply Hn. cbn.
  apply list_elem_of_fmap. by exists (s, r).
Qed.

Lemma due_sources_NoDup account due max_items d :
  NoDup (rv_source <$> due_sources account due max_items d).
Proof.
  unfold due_sources. set (ranked := List.filter _ _).
  assert (Hranked : NoDup (rv_source <$> ranked.*2)).
  { eapply sublist_NoDup; [apply (omap_candidates_NoDup account d), NoDup_fst_map_to_list|].
    do 2 apply fmap_sublist. apply sublist_filter_list. }
  rewrite <-(sort_perm due_source_leb ranked) in Hranked.
  eapply sublist_NoDup; [exact Hranked|]. do 2 apply fmap_sublist. apply sublist_take.
Qed.

Lemma due_sources_complete account due max_items d source :
  overdue account due source d → Z.of_nat (length (due_sources account due max_items d)) < max_items →
  source ∈ rv_source <$> due_sources account due max_items d.
Proof.
  intros [(row & Hrow & Ha & Hr & [post Hp]) [[acc Hacc] Hd]]. unfold due_sources.
  set (sorted := sort _ _). rewrite length_fmap, length_take. intros Hlen.
  rewrite take_ge by lia.
  set (c := mkRevalidationCandidate source (ss_post_id row) post.1 (acc_internal_user_id acc)).
  apply list_elem_of_fmap. exists c. split; [done|]. apply list_elem_of_fmap.
  exists (last_checked account source d, c). split; [done|]. apply elem_of_sort, ranked_candidate.
  exists row. split_and!; [done| |by apply due_before_spec].
  apply candidate_of_spec. split_and!; try done. by exists post, acc.
Qed.

(** A compliance pass is bounded and thorough: it considers at most [max_items] sources, each once,
    each a live source of the account that was never checked or not since the limit, and all of them
    when they fit; it asks the provider about a prefix of them, one call each, whose length the summary
    reports; it stops short only on an error or on an exhausted budget, which it says; and it counts no
    more takedowns than checks. *)
Theorem checks_are_bounded env gate account due max_items (w : W) :
  let d := e_other env (w_tick w) (w_db w) in
  let candidates := due_sources account due max_items d in
  Z.of_nat (length candidates) ≤ Z.max 0 max_items ∧ NoDup (rv_source <$> candidates) ∧
  (∀ c, c ∈ candidates → overdue account due (rv_source c) d) ∧
  (∀ source, overdue account due source d → Z.of_nat (length candidates) < max_items →
     source ∈ rv_source <$> candidates) ∧
  wp env (run_due revalidation gate account due max_items) (λ r w', ∃ checked rest,
    candidates = checked ++ rest ∧ w_log w' = w_log w ++ revalidations checked ∧
    match r with
    | Ok s => cm_checked s = Z.of_nat (length checked) ∧ 0 ≤ cm_takedowns s ≤ cm_checked s ∧
        (cm_budget_exhausted s = true ↔ rest ≠ [])
    | Err _ => True
    end) w.
Proof.
  cbv zeta. set (d := e_other _ _ _). split_and!.
  - unfold due_sources. rewrite length_fmap, length_take. lia.
  - apply due_sources_NoDup.
  - intros c. apply due_source_overdue.
  - intros source. apply due_sources_complete.
  - unfold run_due. apply wp_bind, wp_on_pool, wp_select; fold d.
    + eapply wp_mono; [apply revalidate_all_progress|]. cbn [w_db set_db].
      intros r w' (checked & rest & E & Hlog & Hr). exists checked, rest. split_and!; [done..|].
      destruct r as [s|]; [|done]. cbn [cm_checked cm_takedowns cm_budget_exhausted] in Hr.
      destruct Hr as (Hc & Ht & Hb). split_and!; [lia..|]. destruct Hb as [[-> ->]|[-> Hne]]; done.
    + exists [], (due_sources account due max_items d). cbn. by rewrite app_nil_r.
Qed.
End Takedowns.

(** ** Concrete checks *)
Module ComplianceSamples.
Import SampleChrono SampleContracts ArticleSamples SocialSamples BudgetSamples.

#[export] Instance sample_takedown_contracts : RemovalContracts := {| removal_payload_ok _ := true |}.

(** The provider knows one post is gone, and fails on the other. *)
Definition sample_revalidation (post : string) (_ : nat) : result ComplianceObservation ComplianceSourceError :=
  if String.eqb post "900" then Ok (mkComplianceObservation ComplianceDeleted (Some "req-1"%string))
  else Err ProviderFailure.

Definition sample_retained (post : Z) : SocialSource :=
  mkSocialSource 1 post ("sha256", "other")%string "official_api" "authoritative_platform_state" 0 None None.
Definition sample_other_post : PostRow :=
  mkPostRow 11 (pst_author_user_id sample_post_row) (pst_text sample_post_row) (pst_long_text sample_post_row)
    (pst_expanded_urls sample_post_row) (pst_language sample_post_row) (pst_published_at sample_post_row)
    (pst_edited_at sample_post_row) (pst_conversation_provider_id sample_post_row)
    (pst_metrics sample_post_row) (pst_parser_version sample_post_row) "official-api" "active".
Definition sample_due : Db :=
  on_social_sources (λ _, {[30 := sample_retained 10; 31 := sample_retained 11]})
    (on_posts (insert "901"%string sample_other_post) sample_base).
Definition sample_check : result ComplianceRunSummary ComplianceRevalidationError * W :=
  run_due sample_revalidation sample_gate 1 500 10 (calm sample_now) (mkWorld sample_due 0 []).

Example sample_check_outcome :
  sample_check.1 = Ok (mkComplianceRunSummary 2 1 false) ∧
  (λ s, ss_removed_at <$> social_sources (w_db sample_check.2) !! s) <$> [30; 31] =
    [Some (Some sample_now); Some None] ∧
  (λ t, tb_reason <$> tombstones (w_db sample_check.2) !! t) <$> [30; 31] = [Some "deleted"%string; None] ∧
  w_log sample_check.2 = [RevalidatePost "900"; RevalidatePost "901"].
Proof. vm_compute. done. Qed.

Lemma takedowns_rest_on_evidence_witness :
  guar (calm sample_now) (on_db (keeps TakedownsJustified))
    (run_due sample_revalidation sample_gate 1 500 10).
Proof.
  apply (takedowns_rest_on_evidence sample_revalidation (calm sample_now) sample_gate 1 500 10).
  apply calm_rely. typeclasses eauto.
Defined.
End ComplianceSamples.
