(* ===== verification/Folders.v ===== *)
(** * Native folder membership snapshots ([crates/x-sync/src/folders.rs])

    A run stages the pages of one native folder as a candidate snapshot and one final transaction
    reconciles the folder's items against it and makes it the folder's authority. The provider, which
    may also deny the capability, is an answer per step. *)
From S2P Require Export SnapshotStaging.

(** ** Pages and results *)

Inductive FolderCapability := Listing | Membership.

Record NativeFolder := mkNativeFolder {
  folder_provider_id : string;
  folder_name : option string;
}.

Record FolderMembershipPage := mkFolderPage {
  fp_envelope : Normalize.Dto.Envelope;
  fp_next_token : option string;
}.

Inductive FolderMembershipSourceError :=
  | MembershipUnavailable
  | CapabilityDenied (capability : FolderCapability).

(** [fetch_membership_page]'s result per step. *)
Definition FolderMembershipPageSource : Type :=
  nat → result FolderMembershipPage FolderMembershipSourceError.

Inductive FolderSnapshotOutcome :=
  | FolderIncomplete (run_id : Z)
  | FolderCompleted (run_id snapshot_id : Z)
  | CapabilityLimited (run_id : Z) (capability : FolderCapability).

Record FolderRun := mkFolderRun {
  fr_id : Z;
  fr_snapshot_id : Z;
  fr_folder_id : Z;
  fr_checkpoint : option string;
}.

Record MembershipStatistics := mkMembershipStatistics {
  ms_added : Z;
  ms_retained : Z;
  ms_removed : Z;
}.

Definition folder_capability_name (capability : FolderCapability) : string :=
  match capability with Listing => "listing" | Membership => "membership" end.
Definition folder_run_type (capability : FolderCapability) : string :=
  match capability with Listing => "folder_listing" | Membership => "folder_membership" end.

(** ** Runs *)

Section Folders.
Context {ch : Chrono} {ct : Contracts} {ec : EnvelopeCodec} {cr : Crypto} {ac : ArticleContracts}
  {sc : SocialContracts} {ho : HashOrder}.

(** [upsert_folder]: the row's id is fresh, or the one the account's folder already has. *)
Definition upsert_folder (fresh account : Z) (folder : NativeFolder) (d : Db) : option (Z * Db) :=
  let key := (account, folder_provider_id folder) in
  match bookmark_folders d !! key with
  | Some (id, _) => Some (id, on_bookmark_folders (insert key (id, folder_name folder)) d)
  | None =>
      if bool_decide (is_Some (accounts d !! account)) then
        match find_row (λ _ row, bool_decide (row.1 = fresh)) (bookmark_folders d) with
        | Some _ => None
        | None => Some (fresh, on_bookmark_folders (insert key (fresh, folder_name folder)) d)
        end
      else None
  end.

Definition create_folder_run (account : Z) (folder : NativeFolder) : Prog SnapshotError FolderRun :=
  transaction SnapshotQuery (
    let! fresh := new_uuid in
    let! folder_id := stmt SnapshotQuery (upsert_folder fresh account folder) in
    let! run_id := new_uuid in
    do! stmt SnapshotQuery (insert_run run_id account "folder_membership") in
    let! snapshot_id := new_uuid in
    do! stmt SnapshotQuery (insert_snapshot snapshot_id run_id (Some folder_id)) in
    ret (Commit (mkFolderRun run_id snapshot_id folder_id None))).

(** The join of a run with its snapshot and its folder. *)
Definition resumable_folder (account : Z) (folder : NativeFolder) (run_id : Z) (d : Db) :
    option (Z * Z * option string) :=
  run ← sync_runs d !! run_id;
  '(snapshot_id, snapshot) ← find_row (λ _ s, bool_decide (snap_sync_run_id s = run_id) &&
                                         bool_decide (is_Some (snap_folder_id s))) (snapshots d);
  folder_id ← snap_folder_id snapshot;
  '((_, provider_id), _) ← find_row (λ _ row, bool_decide (row.1 = folder_id)) (bookmark_folders d);
  if bool_decide (run_account_id run = account) &&
     String.eqb (run_run_type run) "folder_membership" &&
     (String.eqb (run_state run) "running" || String.eqb (run_state run) "failed") &&
     String.eqb provider_id (folder_provider_id folder)
  then Some (snapshot_id, folder_id, run_checkpoint run) else None.

Definition resume_folder_run (account : Z) (folder : NativeFolder) (run_id : Z) :
    Prog SnapshotError FolderRun :=
  let! row := on_pool (select SnapshotQuery (resumable_folder account folder run_id)) in
  match row with
  | None => throw RunUnavailable
  | Some (snapshot_id, folder_id, checkpoint) =>
      do! on_pool (execute SnapshotQuery
            (on_sync_runs (alter (with_run_state "running" None) run_id))) in
      ret (mkFolderRun run_id snapshot_id folder_id checkpoint)
  end.

Definition load_or_create_folder_run (account : Z) (folder : NativeFolder) (resume_run_id : option Z) :
    Prog SnapshotError FolderRun :=
  match resume_run_id with
  | Some run_id => resume_folder_run account folder run_id
  | None => create_folder_run account folder
  end.

(** ** Staging *)

Definition stage_membership (snapshot_id observed_at post_id : Z) (d : Db) : Db :=
  on_snapshot_folder_membership_items (set_rows snapshot_id (insert post_id observed_at)) d.

(** The checkpoint statement, whatever the state of the run. *)
Definition checkpoint_folder_run (run_id : Z) (next_token : option string) (post_count : Z) (d : Db) :
    option (unit * Db) :=
  match sync_runs d !! run_id with
  | Some run =>
      pages ← int4 (run_pages_fetched run + 1);
      items ← int4 (run_items_observed run + post_count);
      Some (tt, on_sync_runs (insert run_id (staged_run next_token pages items run)) d)
  | None => Some (tt, d)
  end.

(** The body of [stage_page]'s transaction. *)
Definition stage_folder_body (run : FolderRun) (next_token : option string) (post_count observed_at : Z)
    (normalized : NormalizedBatch) : Prog SnapshotError (ending unit) :=
  let! seed := new_uuid in
  let! posts := persist_page normalized in
  do! for_each (hash_values seed posts) (λ post_id,
        execute SnapshotQuery (stage_membership (fr_snapshot_id run) observed_at post_id)) in
  do! stmt SnapshotQuery (checkpoint_folder_run (fr_id run) next_token post_count) in
  ret (Commit tt).

Definition stage_folder_page (run : FolderRun) (page : FolderMembershipPage) : Prog SnapshotError unit :=
  let! normalized := of_result (result_map_err SnapshotNormalize (normalize (fp_envelope page))) in
  let! post_count := of_result (ok_or (i32_try_from (Z.of_nat (length (nb_posts normalized))))
                                  StatisticsOverflow) in
  let! observation_time := clock_now in
  transaction SnapshotQuery
    (stage_folder_body run (fp_next_token page) post_count observation_time normalized).

(** ** Completion *)

Definition folder_finalizable (run : FolderRun) (d : Db) : bool :=
  match snapshots d !! fr_snapshot_id run, sync_runs d !! fr_id run with
  | Some snapshot, Some row =>
      bool_decide (snap_sync_run_id snapshot = fr_id run) &&
      bool_decide (snap_folder_id snapshot = Some (fr_folder_id run)) &&
      negb (snap_complete snapshot) && String.eqb (run_state row) "running"
  | _, _ => false
  end.

Definition lock_folder_finalization (run : FolderRun) : Prog SnapshotError unit :=
  do! execute SnapshotQuery (λ d, d) in
  do! execute SnapshotQuery (λ d, d) in
  let! current := select SnapshotQuery (folder_finalizable run) in
  if (current : bool) then ret tt else throw RunUnavailable.

Definition in_folder (item : FolderItem) : bool :=
  bool_decide (fi_observed_removed_from_folder_at item = None).
Definition staged_members (snapshot_id : Z) (d : Db) : gmap Z Z :=
  rows (snapshot_folder_membership_items d) snapshot_id.
Definition items_of (folder_id : Z) (d : Db) : gmap Z FolderItem := rows (bookmark_folder_items d) folder_id.
Definition active_items (folder_id : Z) (d : Db) : gmap Z FolderItem :=
  filter (λ kv, in_folder kv.2 = true) (items_of folder_id d).

(** The joins of [count_added] and [count_retained]. *)
Definition added_members (run : FolderRun) (d : Db) : gmap Z Z :=
  filter (λ kv, active_items (fr_folder_id run) d !! kv.1 = None) (staged_members (fr_snapshot_id run) d).
Definition retained_members (run : FolderRun) (d : Db) : gmap Z Z :=
  filter (λ kv, is_Some (active_items (fr_folder_id run) d !! kv.1))
    (staged_members (fr_snapshot_id run) d).
Definition count_added (run : FolderRun) : Prog SnapshotError Z :=
  select SnapshotQuery (λ d, Z.of_nat (size (added_members run d))).
Definition count_retained (run : FolderRun) : Prog SnapshotError Z :=
  select SnapshotQuery (λ d, Z.of_nat (size (retained_members run d))).

(** Observations are kept when they exist already. *)
Definition observe_members (kind : string) (run : FolderRun) (observed_at : Z) (post_ids : list Z) (d : Db) :
    Db :=
  on_folder_membership_observations (λ observations, observations ∪
    list_to_map ((λ post_id, ((fr_snapshot_id run, fr_folder_id run, post_id, kind), observed_at))
                   <$> post_ids)) d.
Definition record_added_observations (run : FolderRun) (completed_at : Z) : Prog SnapshotError unit :=
  execute SnapshotQuery (λ d,
    observe_members "added" run completed_at (map_to_list (added_members run d)).*1 d).

Definition activate_member (item : option Z) (row : option FolderItem) : option FolderItem :=
  match item, row with
  | Some _, Some row => Some (mkFolderItem (fi_first_observed_in_folder_at row) None None)
  | Some observed_at, None => Some (mkFolderItem observed_at None None)
  | None, row => row
  end.
Definition upsert_active_memberships (run : FolderRun) (d : Db) : Db :=
  on_bookmark_folder_items (set_rows (fr_folder_id run)
    (λ items, merge activate_member (staged_members (fr_snapshot_id run) d) items)) d.

Definition removed_member (snapshot_id completed_at : Z) (row : FolderItem) : FolderItem :=
  mkFolderItem (fi_first_observed_in_folder_at row) (Some completed_at) (Some snapshot_id).
Definition absent_members (run : FolderRun) (d : Db) : gmap Z FolderItem :=
  filter (λ kv, staged_members (fr_snapshot_id run) d !! kv.1 = None)
    (active_items (fr_folder_id run) d).
Definition remove_absent_members (run : FolderRun) (completed_at : Z) (d : Db) : option (list Z * Db) :=
  let absent := absent_members run d in
  Some ((map_to_list absent).*1,
        on_bookmark_folder_items (set_rows (fr_folder_id run) (λ items,
          (removed_member (fr_snapshot_id run) completed_at <$> absent) ∪ items)) d).
Definition record_absent_memberships (run : FolderRun) (completed_at : Z) : Prog SnapshotError Z :=
  let! removed := stmt SnapshotQuery (remove_absent_members run completed_at) in
  do! for_each removed (λ post_id,
        execute SnapshotQuery (observe_members "removed" run completed_at [post_id])) in
  ret (Z.of_nat (length removed)).

Definition reconcile_memberships (run : FolderRun) (completed_at : Z) :
    Prog SnapshotError MembershipStatistics :=
  let! added := count_added run in
  let! retained := count_retained run in
  do! record_added_observations run completed_at in
  do! execute SnapshotQuery (upsert_active_memberships run) in
  let! removed := record_absent_memberships run completed_at in
  let! added := of_result (ok_or (i32_try_from added) StatisticsOverflow) in
  let! retained := of_result (ok_or (i32_try_from retained) StatisticsOverflow) in
  let! removed := of_result (ok_or (i32_try_from removed) StatisticsOverflow) in
  ret (mkMembershipStatistics added retained removed).

Definition completed_folder_run (completed_at : Z) (statistics : MembershipStatistics) (run : SyncRun) :
    SyncRun :=
  mkSyncRun (run_account_id run) (run_run_type run) "completed" None (run_pages_fetched run)
    (run_items_observed run) (ms_added statistics) (ms_retained statistics) (ms_removed statistics)
    (Some completed_at).
Definition complete_folder_snapshot (run : FolderRun) (completed_at : Z) (d : Db) : option (unit * Db) :=
  match snapshots d !! fr_snapshot_id run with
  | None => Some (tt, d)
  | Some snapshot =>
      row ← sync_runs d !! fr_id run;
      Some (tt, on_snapshots (insert (fr_snapshot_id run)
                  (completed_snapshot completed_at (run_pages_fetched row) snapshot)) d)
  end.
Definition record_folder_completion (run : FolderRun) (completed_at : Z)
    (statistics : MembershipStatistics) : Prog SnapshotError unit :=
  do! execute SnapshotQuery
        (on_sync_runs (alter (completed_folder_run completed_at statistics) (fr_id run))) in
  stmt SnapshotQuery (complete_folder_snapshot run completed_at).

Definition replace_folder_authority (folder_id snapshot_id completed_at : Z) : Prog SnapshotError unit :=
  execute SnapshotQuery (on_folder_membership_snapshot_authority
    (insert folder_id (mkAuthority snapshot_id completed_at))).

Definition folder_completion (run : FolderRun) (completed_at : Z) : Prog SnapshotError unit :=
  do! lock_folder_finalization run in
  let! statistics := reconcile_memberships run completed_at in
  do! record_folder_completion run completed_at statistics in
  replace_folder_authority (fr_folder_id run) (fr_snapshot_id run) completed_at.
Definition complete_folder_run (run : FolderRun) : Prog SnapshotError unit :=
  let! completed_at := clock_now in
  transaction SnapshotQuery (
    do! folder_completion run completed_at in
    ret (Commit tt)).

(** ** Capability limits *)

Definition fail_run (run_id now : Z) (d : Db) : option (Z * Db) :=
  run ← sync_runs d !! run_id;
  Some (run_account_id run, on_sync_runs (alter (with_run_state "failed" (Some now)) run_id) d).

Definition mark_capability_limited (run_id : Z) (capability : FolderCapability) :
    Prog SnapshotError unit :=
  let! recorded_at := clock_now in
  transaction SnapshotQuery (
    let! account := stmt SnapshotQuery (fail_run run_id recorded_at) in
    do! execute SnapshotQuery (on_folder_capability_limits
          (insert (account, folder_capability_name capability) (run_id, recorded_at))) in
    ret (Commit tt)).

Definition record_capability_limit (account : Z) (capability : FolderCapability) :
    Prog SnapshotError FolderSnapshotOutcome :=
  let! run_id := on_pool (
    let! run_id := new_uuid in
    do! stmt SnapshotQuery (insert_run run_id account (folder_run_type capability)) in
    ret run_id) in
  do! mark_capability_limited run_id capability in
  ret (CapabilityLimited run_id capability).

(** ** The service *)

Definition with_folder_checkpoint (run : FolderRun) (checkpoint : option string) : FolderRun :=
  mkFolderRun (fr_id run) (fr_snapshot_id run) (fr_folder_id run) checkpoint.

(** [loop { ... }]: [None] is a loop that is still going after [fuel] rounds. *)
Fixpoint run_folder_pages (fuel : nat) (gate : BudgetGate) (source : FolderMembershipPageSource)
    (account : Z) (folder : NativeFolder) (run : FolderRun) :
    Prog SnapshotError (option FolderSnapshotOutcome) :=
  match fuel with
  | O => ret None
  | S fuel =>
      let! reserved := attempt (reserve gate account 1) in
      match reserved with
      | Err error =>
          do! mark_failed (fr_id run) in
          match error with
          | Exhausted _ => ret (Some (FolderIncomplete (fr_id run)))
          | _ => throw (SnapshotBudget error)
          end
      | Ok _ =>
          let! answer := call (FetchMembership (folder_provider_id folder) (fr_checkpoint run)) source in
          match answer with
          | Err MembershipUnavailable =>
              do! mark_failed (fr_id run) in
              ret (Some (FolderIncomplete (fr_id run)))
          | Err (CapabilityDenied capability) =>
              do! mark_capability_limited (fr_id run) capability in
              ret (Some (CapabilityLimited (fr_id run) capability))
          | Ok page =>
              let! staged := attempt (stage_folder_page run page) in
              match staged with
              | Err error =>
                  do! mark_failed (fr_id run) in
                  throw error
              | Ok _ =>
                  let run := with_folder_checkpoint run (fp_next_token page) in
                  match fr_checkpoint run with
                  | Some _ => run_folder_pages fuel gate source account folder run
                  | None =>
                      do! complete_folder_run run in
                      ret (Some (FolderCompleted (fr_id run) (fr_snapshot_id run)))
                  end
              end
          end
      end
  end.

Definition run_folder (fuel : nat) (gate : BudgetGate) (source : FolderMembershipPageSource)
    (account : Z) (folder : NativeFolder) (resume_run_id : option Z) :
    Prog SnapshotError (option FolderSnapshotOutcome) :=
  let! run := load_or_create_folder_run account folder resume_run_id in
  run_folder_pages fuel gate source account folder run.
End Folders.

(** ** What a completion does *)

(** The item a completed snapshot leaves for one post. *)
Definition reconciled_member (snapshot_id completed_at : Z) (staged : option Z) (row : option FolderItem) :
    option FolderItem :=
  match staged, row with
  | None, Some row => Some (if in_folder row then removed_member snapshot_id completed_at row else row)
  | _, _ => activate_member staged row
  end.

(** An observation of one kind for each of some posts, unless there is one. *)
Definition observation (kind : string) (run : FolderRun) (now : Z) (post_ids : list Z)
    (key : Z * Z * Z * string) (old : option Z) : option Z :=
  let '(snapshot_id, folder_id, post_id, k) := key in
  match old with
  | Some t => Some t
  | None =>
      if bool_decide (snapshot_id = fr_snapshot_id run ∧ folder_id = fr_folder_id run ∧ k = kind ∧
                      post_id ∈ post_ids)
      then Some now else None
  end.

Definition membership_statistics (run : FolderRun) (d : Db) : MembershipStatistics :=
  mkMembershipStatistics (Z.of_nat (size (added_members run d)))
    (Z.of_nat (size (retained_members run d))) (Z.of_nat (size (absent_members run d))).

(** The tables one completion writes. *)
Definition with_membership (items : gmap Z FolderItem) (observations : gmap (Z * Z * Z * string) Z)
    (folder_id : Z) (d : Db) : Db :=
  on_folder_membership_observations (λ _, observations)
    (on_bookmark_folder_items (set_rows folder_id (λ _, items)) d).

Record FolderEffect (run : FolderRun) (now : Z) (d d' : Db) : Prop := {
  fe_final : folder_finalizable run d = true;
  fe_change : ∃ items observations snapshot row,
    (∀ post, items !! post = reconciled_member (fr_snapshot_id run) now
       (staged_members (fr_snapshot_id run) d !! post) (items_of (fr_folder_id run) d !! post)) ∧
    (∀ key, observations !! key =
       observation "removed" run now (map_to_list (absent_members run d)).*1 key
         (observation "added" run now (map_to_list (added_members run d)).*1 key
            (folder_membership_observations d !! key))) ∧
    snapshots d !! fr_snapshot_id run = Some snapshot ∧ sync_runs d !! fr_id run = Some row ∧
    d' = on_folder_membership_snapshot_authority (insert (fr_folder_id run) (mkAuthority (fr_snapshot_id run) now))
           (on_snapshots (insert (fr_snapshot_id run) (completed_snapshot now (run_pages_fetched row) snapshot))
             (on_sync_runs (alter (completed_folder_run now (membership_statistics run d)) (fr_id run))
               (with_membership items observations (fr_folder_id run) d)));
}.

Section FolderCompletion.
Context {ch : Chrono} {ct : Contracts} {ec : EnvelopeCodec} {cr : Crypto} {ac : ArticleContracts}
  {sc : SocialContracts} {ho : HashOrder}.

Lemma lookup_observed kind run now post_ids observations key :
  (observations ∪ list_to_map ((λ post_id, ((fr_snapshot_id run, fr_folder_id run, post_id, kind), now))
     <$> post_ids) : gmap (Z * Z * Z * string) Z) !! key =
  observation kind run now post_ids key (observations !! key).
Proof.
  destruct key as [[[s f] p] k]. rewrite lookup_union. unfold observation.
  destruct (observations !! (s, f, p, k)) as [t|]; [by rewrite union_Some_l|]. rewrite (left_id_L None _).
  induction post_ids as [|q qs IH]; cbn [fmap list_fmap list_to_map foldr].
  { rewrite bool_decide_eq_false_2; [done|]. intros (_ & _ & _ & []%elem_of_nil). }
  change (foldr _ _ _) with (list_to_map (M:=gmap (Z * Z * Z * string) Z)
    ((λ post_id, ((fr_snapshot_id run, fr_folder_id run, post_id, kind), now)) <$> qs)).
  simpl. rewrite lookup_insert. destruct (decide ((_, q, kind) = _)) as [E|E].
  - simplify_eq. rewrite bool_decide_eq_true_2; [done|]. split_and!; try done. by left.
  - rewrite IH. apply reflexive_eq. erewrite bool_decide_ext; [done|].
    rewrite elem_of_cons. split; [tauto|]. intros (-> & -> & -> & [->|?]); done.
Qed.

Lemma observe_each_spec env kind run now post_ids (w : W) :
  yields env (for_each post_ids (λ post_id,
      execute SnapshotQuery (observe_members kind run now [post_id]))) (λ _ w', ∃ observations,
    w_db w' = on_folder_membership_observations (λ _, observations) (w_db w) ∧
    ∀ key, observations !! key =
      observation kind run now post_ids key (folder_membership_observations (w_db w) !! key)) w.
Proof.
  revert w. induction post_ids as [|p ps IH]; intros w; cbn [for_each].
  - yields_steps. exists (folder_membership_observations (w_db w)). split; [by destruct (w_db w)|].
    intros [[[s f] q] k]. unfold observation. destruct (folder_membership_observations _ !! _); [done|].
    rewrite bool_decide_eq_false_2; [done|]. intros (_ & _ & _ & []%elem_of_nil).
  - yields_steps. eapply yields_mono; [apply IH|]. intros [] w'. cbn [w_db set_db tick].
    intros (observations & E & Hobs). exists observations. rewrite E. split; [by destruct (w_db w)|].
    intros key. rewrite Hobs. unfold observe_members. simpl.
    change (_ ∪ _) with (folder_membership_observations (w_db w) ∪ list_to_map
      ((λ post_id, ((fr_snapshot_id run, fr_folder_id run, post_id, kind), now)) <$> [p])).
    rewrite lookup_observed. destruct key as [[[s f] q] k]. unfold observation.
    destruct (folder_membership_observations _ !! _); [done|].
    case_bool_decide as H1; [rewrite bool_decide_eq_true_2; [done|]|].
    + rewrite list_elem_of_singleton in H1. rewrite elem_of_cons. tauto.
    + erewrite bool_decide_ext; [done|]. rewrite list_elem_of_singleton in H1. rewrite elem_of_cons. tauto.
Qed.

Lemma lookup_joined run d post :
  items_of (fr_folder_id run) (upsert_active_memberships run d) !! post =
    activate_member (staged_members (fr_snapshot_id run) d !! post) (items_of (fr_folder_id run) d !! post).
Proof.
  unfold items_of, upsert_active_memberships. simpl. rewrite rows_set_eq, lookup_merge.
  by destruct (staged_members (fr_snapshot_id run) d !! post), (rows (bookmark_folder_items d) (fr_folder_id run) !! post).
Qed.

Lemma absent_joined run d :
  absent_members run (upsert_active_memberships run d) = absent_members run d.
Proof.
  apply map_eq. intros post. unfold absent_members, active_items. rewrite !lookup_unstaged, lookup_joined.
  change (staged_members (fr_snapshot_id run) (upsert_active_memberships run d))
    with (staged_members (fr_snapshot_id run) d).
  by destruct (staged_members (fr_snapshot_id run) d !! post), (items_of (fr_folder_id run) d !! post).
Qed.

Lemma lookup_reconciled run now d post :
  ((removed_member (fr_snapshot_id run) now <$> absent_members run d)
     ∪ items_of (fr_folder_id run) (upsert_active_memberships run d)) !! post =
  reconciled_member (fr_snapshot_id run) now (staged_members (fr_snapshot_id run) d !! post)
    (items_of (fr_folder_id run) d !! post).
Proof.
  rewrite lookup_union, lookup_fmap, lookup_joined. unfold absent_members, active_items.
  rewrite lookup_unstaged.
  destruct (staged_members (fr_snapshot_id run) d !! post), (items_of (fr_folder_id run) d !! post) as [row|];
    try done.
  simpl. by destruct (in_folder row).
Qed.

Lemma set_rows_twice {V} k f g (m : gmap Z (gmap Z V)) :
  set_rows k f (set_rows k g m) = set_rows k (λ _, f (g (rows m k))) m.
Proof. unfold set_rows at 1. rewrite rows_set_eq. unfold set_rows. by rewrite insert_insert_eq. Qed.

Lemma items_written f g h observations d :
  on_folder_membership_observations (λ _, observations)
    (on_bookmark_folder_items f (on_bookmark_folder_items g (on_folder_membership_observations h d))) =
  on_folder_membership_observations (λ _, observations) (on_bookmark_folder_items (λ m, f (g m)) d).
Proof. done. Qed.

Lemma membership_written run now observations f kind post_ids d :
  on_folder_membership_observations (λ _, observations)
    (on_bookmark_folder_items (set_rows (fr_folder_id run) f)
      (upsert_active_memberships run (observe_members kind run now post_ids d))) =
  with_membership (f (items_of (fr_folder_id run) (upsert_active_memberships run d))) observations
    (fr_folder_id run) d.
Proof.
  unfold upsert_active_memberships, observe_members. rewrite items_written.
  assert (E : ∀ F G, F (bookmark_folder_items d) = G (bookmark_folder_items d) →
            on_bookmark_folder_items F d = on_bookmark_folder_items G d).
  { intros F G H. unfold on_bookmark_folder_items. by rewrite H. }
  unfold with_membership. f_equal. apply E. rewrite set_rows_twice. unfold items_of.
  simpl bookmark_folder_items. by rewrite rows_set_eq.
Qed.

Lemma reconcile_memberships_spec env run now (w : W) :
  yields env (reconcile_memberships run now) (λ statistics w',
    statistics = membership_statistics run (w_db w) ∧
    ∃ items observations, w_db w' = with_membership items observations (fr_folder_id run) (w_db w) ∧
      (∀ post, items !! post = reconciled_member (fr_snapshot_id run) now
         (staged_members (fr_snapshot_id run) (w_db w) !! post)
         (items_of (fr_folder_id run) (w_db w) !! post)) ∧
      (∀ key, observations !! key =
         observation "removed" run now (map_to_list (absent_members run (w_db w))).*1 key
           (observation "added" run now (map_to_list (added_members run (w_db w))).*1 key
              (folder_membership_observations (w_db w) !! key)))) w.
Proof.
  unfold reconcile_memberships, count_added, count_retained, record_added_observations,
    record_absent_memberships.
  set (d := w_db w). yields_steps. intros removed d1. unfold remove_absent_members. cbv zeta.
  set (d0 := observe_members "added" run now (map_to_list (added_members run d)).*1 d).
  rewrite absent_joined. change (absent_members run d0) with (absent_members run d).
  intros [= <- <-]. yields_steps. eapply yields_mono; [apply observe_each_spec|].
  intros [] w' (observations & E & Hobs). cbn [w_db set_db tick] in *.
  rewrite length_fmap, length_map_to_list. yields_steps.
  unfold i32_try_from. intros a Ha. yields_steps. intros b Hb. yields_steps. intros c Hc. yields_steps.
  destruct (int4 _) eqn:E1 in Ha; [|done]. destruct (int4 _) eqn:E2 in Hb; [|done].
  destruct (int4 _) eqn:E3 in Hc; [|done]. simplify_eq/=.
  apply int4_Some in E1 as [-> _], E2 as [-> _], E3 as [-> _]. split; [done|].
  exists ((removed_member (fr_snapshot_id run) now <$> absent_members run d)
     ∪ items_of (fr_folder_id run) (upsert_active_memberships run d)), observations.
  split_and!.
  - rewrite E, membership_written. done.
  - intros post. apply lookup_reconciled.
  - intros key. rewrite Hobs. unfold observe_members. simpl. by rewrite lookup_observed.
Qed.

Lemma folder_completion_spec env run now (w : W) :
  yields env (folder_completion run now) (λ _ w', FolderEffect run now (w_db w) (w_db w')) w.
Proof.
  unfold folder_completion, lock_folder_finalization. yields_steps.
  destruct (folder_finalizable run (w_db w)) eqn:Hfin; [|yields_steps]. yields_steps.
  eapply yields_mono; [apply reconcile_memberships_spec|]. cbn [w_db set_db tick].
  intros statistics w1 (-> & items & observations & E & Hitems & Hobs).
  unfold record_folder_completion. yields_steps. intros [] d2. unfold complete_folder_snapshot. rewrite E.
  simpl. pose proof Hfin as Hf. unfold folder_finalizable in Hf.
  destruct (snapshots (w_db w) !! _) as [snapshot|] eqn:Es; [|done].
  destruct (sync_runs (w_db w) !! _) as [row|] eqn:Er; [|done].
  rewrite lookup_alter_eq, Er. simpl. intros [= <-]. unfold replace_folder_authority. yields_steps.
  split; [done|]. by exists items, observations, snapshot, row.
Qed.
End FolderCompletion.

(** ** Outside a completion *)

(** What bookmark snapshots, head scans and write-backs rest on; folder runs leave it alone. *)
Definition bookmark_evidence (d : Db) :=
  (bookmarks d, bookmark_snapshot_authority d, bookmark_write_operations d, bookmark_write_consents d,
   bookmark_write_audit_events d, bookmark_incremental_state d, snapshot_bookmark_items d,
   bookmark_reconciliation_repairs d, (social_sources d, social_source_revisions d, outbox_events d)).

(** What the archive claims about native folders. *)
Definition folder_claims (d : Db) :=
  (bookmark_folder_items d, folder_membership_snapshot_authority d, folder_membership_observations d).

(** Everything a folder run does before its completion. *)
Record FolderFrame (d d' : Db) : Prop := {
  ff_claims : folder_claims d' = folder_claims d;
  ff_bookmarks : bookmark_evidence d' = bookmark_evidence d;
  ff_snapshots id s : snapshots d !! id = Some s → snapshots d' !! id = Some s;
  ff_runs id r : sync_runs d !! id = Some r →
    ∃ r', sync_runs d' !! id = Some r' ∧ run_account_id r' = run_account_id r;
}.

#[export] Instance folder_frame_preorder : PreOrder FolderFrame.
Proof.
  split; [intros d; split; eauto|]. intros d1 d2 d3 [A1 B1 C1 D1] [A2 B2 C2 D2].
  split; [by etrans..|auto|]. intros id r Hr. destruct (D1 id r Hr) as (r2 & Hr2 & ?).
  destruct (D2 id r2 Hr2) as (r3 & Hr3 & ?). exists r3. split; [done|congruence].
Qed.

Ltac folder_frame := split; simpl; eauto.

Lemma folder_frame_records : IgnoresRecords FolderFrame.
Proof. split; intros f d; folder_frame. Qed.

Lemma folder_frame_alter f id d :
  (∀ r, run_account_id (f r) = run_account_id r) → FolderFrame d (on_sync_runs (alter f id) d).
Proof.
  intros Hf. folder_frame. intros i r Hr. rewrite lookup_alter. case_decide; [subst|by exists r].
  rewrite Hr. simpl. by exists (f r).
Qed.

Lemma folder_frame_checkpoint run_id next_token count d u d' :
  checkpoint_folder_run run_id next_token count d = Some (u, d') → FolderFrame d d'.
Proof.
  unfold checkpoint_folder_run. destruct (sync_runs d !! run_id) as [run|] eqn:E; [|by intros [= _ <-]].
  destruct (int4 (run_pages_fetched run + 1)) as [pages|]; simpl; [|done].
  destruct (int4 (run_items_observed run + count)) as [items|]; simpl; [|done].
  intros [= _ <-]. folder_frame. intros i r Hr. rewrite lookup_insert.
  case_decide; [subst|by exists r]. assert (r = run) as -> by congruence. by eexists.
Qed.

Lemma folder_frame_insert_run id account run_type d u d' :
  insert_run id account run_type d = Some (u, d') → FolderFrame d d'.
Proof.
  unfold insert_run, insert_new. case_bool_decide; [|done].
  destruct (sync_runs d !! id) eqn:E; simpl; [done|]. intros [= _ <-]. folder_frame.
  intros i r Hr. exists r. by rewrite lookup_insert_ne by congruence.
Qed.

Lemma folder_frame_insert_snapshot id run_id folder d u d' :
  insert_snapshot id run_id folder d = Some (u, d') → FolderFrame d d'.
Proof.
  unfold insert_snapshot, insert_new. destruct (snapshots d !! id) eqn:E; simpl; [done|].
  intros [= _ <-]. folder_frame. intros i s Hs. by rewrite lookup_insert_ne by congruence.
Qed.

Lemma folder_frame_upsert fresh account folder d id d' :
  upsert_folder fresh account folder d = Some (id, d') → FolderFrame d d'.
Proof.
  unfold upsert_folder. destruct (bookmark_folders d !! _) as [[known name]|]; [intros [= _ <-]; folder_frame|].
  case_bool_decide; [|done]. destruct (find_row _ _); [done|]. intros [= _ <-]. folder_frame.
Qed.

Lemma folder_frame_fail run_id now d account d' :
  fail_run run_id now d = Some (account, d') → FolderFrame d d'.
Proof.
  unfold fail_run. destruct (sync_runs d !! run_id); simpl; [|done]. intros [= _ <-].
  by apply folder_frame_alter.
Qed.

Section FolderRuns.
Context {ch : Chrono} {ct : Contracts} {ec : EnvelopeCodec} {cr : Crypto} {ac : ArticleContracts}
  {sc : SocialContracts} {ho : HashOrder}.

Lemma stage_folder_body_frame env run next_token count observed_at normalized :
  guar (Ev:=Event) env (on_db FolderFrame)
    (stage_folder_body run next_token count observed_at normalized).
Proof.
  unfold stage_folder_body.
  guar_steps; try (apply (persist_page_ignored _ _), folder_frame_records).
  - unfold on_db. folder_frame.
  - by eapply folder_frame_checkpoint.
Qed.

(** Other connections, under any relation that tolerates the frame. *)
Section Interleaved.
Context (env : Env Db) (S : relation Db) `{!PreOrder S} (Hsub : ∀ d d', FolderFrame d d' → S d d')
  (Hr : rely (Ev:=Event) env (on_db S)).

Lemma create_folder_run_guar account folder : guar env (on_db S) (create_folder_run account folder).
Proof.
  unfold create_folder_run. guar_steps; apply Hsub.
  - by eapply folder_frame_upsert.
  - by eapply folder_frame_insert_run.
  - by eapply folder_frame_insert_snapshot.
Qed.

Lemma load_folder_run_guar account folder resume :
  guar env (on_db S) (load_or_create_folder_run account folder resume).
Proof.
  unfold load_or_create_folder_run. destruct resume; [|apply create_folder_run_guar].
  unfold resume_folder_run. guar_steps. apply Hsub. by apply folder_frame_alter.
Qed.

Lemma folder_mark_failed_guar run_id : guar env (on_db S) (mark_failed run_id).
Proof. unfold mark_failed. guar_steps. apply Hsub. by apply folder_frame_alter. Qed.

Lemma mark_limited_guar run_id capability :
  guar env (on_db S) (mark_capability_limited run_id capability).
Proof.
  unfold mark_capability_limited. guar_steps; apply Hsub; [by eapply folder_frame_fail|].
  unfold on_db. folder_frame.
Qed.

Lemma record_limit_guar account capability :
  guar env (on_db S) (record_capability_limit account capability).
Proof.
  unfold record_capability_limit. guar_steps; [|apply mark_limited_guar].
  apply Hsub. by eapply folder_frame_insert_run.
Qed.

Lemma stage_folder_guar run page : guar env (on_db S) (stage_folder_page run page).
Proof.
  unfold stage_folder_page. guar_steps.
  eapply guar_weaken; [|apply stage_folder_body_frame]. intros w w'. apply Hsub.
Qed.

(** A completion among the steps of others. *)
Definition completed_among (run : FolderRun) (now : Z) (d d' : Db) : Prop :=
  ∃ d1 d2, S d d1 ∧ FolderEffect run now d1 d2 ∧ S d2 d'.

Lemma complete_folder_spec run (w : W) :
  wp env (complete_folder_run run) (λ r w',
    let completed := completed_among run (e_clock env (w_tick w)) (w_db w) (w_db w') in
    match r with Ok _ => completed | Err _ => S (w_db w) (w_db w') ∨ completed end) w.
Proof.
  unfold complete_folder_run. apply wp_bind, wp_clock_now. set (now := e_clock _ _).
  apply wp_transaction. cbv zeta. set (w1 := set_db _ _).
  assert (H1 : S (w_db w) (w_db w1)) by exact (Hr (w_tick (tick w)) (tick w)). clearbody w1.
  split; [by left|]. pose proof (folder_completion_spec env run now (tick w1)) as Hc.
  unfold yields, wp in Hc. apply wp_bind. unfold wp at 1.
  destruct (folder_completion run now env (tick w1)) as [[u|e] w2]; cbn [fst snd] in *; [|by left].
  apply wp_ret. cbn [w_db set_db tick] in *.
  assert (Hdone : completed_among run now (w_db w) (w_db w2)).
  { exists (w_db w1), (w_db w2). split_and!; [done..|reflexivity]. }
  split_and!; [done|by left|by right].
Qed.

(** What one run did. *)
Definition folder_ran (d d' : Db) (r : result (option FolderSnapshotOutcome) SnapshotError) : Prop :=
  match r with
  | Ok (Some (FolderCompleted run_id snapshot_id)) => ∃ run now,
      fr_id run = run_id ∧ fr_snapshot_id run = snapshot_id ∧ completed_among run now d d'
  | Ok _ => S d d'
  | Err _ => S d d' ∨ ∃ run now, completed_among run now d d'
  end.

Lemma folder_ran_step {A} (m : Prog SnapshotError A) k d (w : W) :
  guar env (on_db S) m → S d (w_db w) →
  (∀ a w1, S d (w_db w1) → wp env (k a) (λ r w', folder_ran d (w_db w') r) w1) →
  wp env (bind m k) (λ r w', folder_ran d (w_db w') r) w.
Proof.
  intros Hm Hd Hk. apply wp_bind. pose proof (guar_elim Hm w) as Hs. unfold on_db in Hs. unfold wp at 1.
  destruct (m env w) as [[a|e] w1]; cbn [fst snd] in *; [apply Hk; by etrans|left; by etrans].
Qed.

Lemma run_folder_pages_ran fuel gate source account folder run d (w : W) :
  (∀ f d, S d (on_api_budget_windows f d)) → S d (w_db w) →
  wp env (run_folder_pages fuel gate source account folder run) (λ r w', folder_ran d (w_db w') r) w.
Proof.
  intros Hbud. revert run w. induction fuel as [|fuel IH]; intros run w Hd; cbn [run_folder_pages].
  { by apply wp_ret. }
  apply folder_ran_step; [apply guar_attempt, (reserve_frame _ _ _ _ _ Hbud Hr)|done|].
  intros [reservation|error] w1 H1.
  2:{ apply folder_ran_step; [apply folder_mark_failed_guar|done|]. intros _ w2 H2.
      destruct error; first [by apply wp_ret | apply wp_throw; by left]. }
  apply folder_ran_step; [apply guar_call; [typeclasses eauto|]; intros w0; unfold on_db; simpl; reflexivity|done|].
  intros [page|[|capability]] w2 H2.
  - apply folder_ran_step; [apply guar_attempt, stage_folder_guar|done|]. intros [u|error] w3 H3.
    2:{ apply folder_ran_step; [apply folder_mark_failed_guar|done|]. intros _ w4 H4.
        apply wp_throw. by left. }
    cbv zeta. destruct (fr_checkpoint _); [by apply IH|].
    set (run' := with_folder_checkpoint run (fp_next_token page)).
    apply wp_bind. eapply wp_mono; [apply complete_folder_spec|]. cbv zeta.
    assert (Hafter : ∀ now d', completed_among run' now (w_db w3) d' → completed_among run' now d d').
    { intros now d' (d1 & d2 & ? & ? & ?). exists d1, d2. split_and!; [by etrans|done..]. }
    intros [v|e] w4 H4; [apply wp_ret; eexists run', _; eauto|].
    destruct H4 as [H4|H4]; [left; by etrans|right; eauto].
  - apply folder_ran_step; [apply folder_mark_failed_guar|done|]. intros _ w3 H3. by apply wp_ret.
  - apply folder_ran_step; [apply mark_limited_guar|done|]. intros _ w3 H3. by apply wp_ret.
Qed.
End Interleaved.

(** A folder run is a sequence of stages followed by at most one completion of its own snapshot,
    whatever fails and whatever other connections do that leave folder claims and bookmark evidence
    alone. A run that is incomplete, limited by the provider or still going changed no claim about
    any folder, and no folder run ever changes what bookmarks, head scans, write-backs or published
    sources rest on; recording a capability limit changes neither. *)
Theorem folder_run_refines env fuel gate source account folder resume capability (w : W) :
  rely (Ev:=Event) env (on_db FolderFrame) →
  wp env (run_folder fuel gate source account folder resume) (λ r w',
    folder_ran FolderFrame (w_db w) (w_db w') r ∧
    bookmark_evidence (w_db w') = bookmark_evidence (w_db w)) w ∧
  guar env (on_db FolderFrame) (record_capability_limit account capability).
Proof.
  intros Hr. split; [|by apply (record_limit_guar env FolderFrame)].
  eapply wp_mono; [unfold run_folder; apply (folder_ran_step env FolderFrame);
    [by apply (load_folder_run_guar env FolderFrame)|reflexivity|]|].
  { intros run w1 H1. apply (run_folder_pages_ran env FolderFrame); [done|done|intros f d; folder_frame|done]. }
  intros r w' H. split; [exact H|].
  assert (Hc : ∀ run now d d', completed_among FolderFrame run now d d' →
            bookmark_evidence d' = bookmark_evidence d).
  { intros run now d d' (d1 & d2 & H1 & [_ (i & o & s & row & _ & _ & _ & _ & E)] & H2).
    rewrite (ff_bookmarks _ _ H2), E, <-(ff_bookmarks _ _ H1). done. }
  destruct r as [[[id|id snap|id cap]|]|e]; simpl in H; try apply (ff_bookmarks _ _ H).
  - destruct H as (run & now & _ & _ & H). by eapply Hc.
  - destruct H as [H|(run & now & H)]; [apply (ff_bookmarks _ _ H)|by eapply Hc].
Qed.
End FolderRuns.

(** ** What a completion means *)

Section FolderMeaning.
Context {ch : Chrono} {ct : Contracts} {ec : EnvelopeCodec} {cr : Crypto} {ac : ArticleContracts}
  {sc : SocialContracts} {ho : HashOrder}.

Lemma folder_effect_items run now d d' post :
  FolderEffect run now d d' →
  items_of (fr_folder_id run) d' !! post =
    reconciled_member (fr_snapshot_id run) now (staged_members (fr_snapshot_id run) d !! post)
      (items_of (fr_folder_id run) d !! post).
Proof.
  intros [_ (items & o & s & row & Hitems & _ & _ & _ & ->)]. rewrite <-Hitems.
  unfold items_of at 1. simpl. by rewrite rows_set_eq.
Qed.

Lemma folder_effect_active run now d d' post :
  FolderEffect run now d d' →
  is_Some (active_items (fr_folder_id run) d' !! post) ↔
  is_Some (staged_members (fr_snapshot_id run) d !! post).
Proof.
  intros H. unfold active_items. rewrite lookup_present, (folder_effect_items _ _ _ _ _ H).
  destruct (staged_members (fr_snapshot_id run) d !! post), (items_of (fr_folder_id run) d !! post) as [row|];
    simpl; try done.
  destruct (in_folder row) eqn:E; simpl; [done|]. by rewrite E.
Qed.

Lemma folder_effect_others run now d d' other :
  FolderEffect run now d d' → other ≠ fr_folder_id run → items_of other d' = items_of other d.
Proof.
  intros [_ (items & o & s & row & _ & _ & _ & _ & ->)] Hne. unfold items_of. simpl.
  by rewrite rows_set_ne by done.
Qed.

(** Membership of a key list, as the statements use it. *)
Lemma elem_of_keys {V} (m : gmap Z V) post : post ∈ (map_to_list m).*1 ↔ is_Some (m !! post).
Proof.
  rewrite list_elem_of_fmap. split.
  - intros ([k v] & -> & H%elem_of_map_to_list). by exists v.
  - intros [v H%elem_of_map_to_list]. by exists (post, v).
Qed.

Lemma observation_kept kind run now ids key old t :
  old = Some t → observation kind run now ids key old = Some t.
Proof. intros ->. by destruct key as [[[s f] p] k]. Qed.

Lemma observation_own kind run now ids k post old :
  is_Some (observation kind run now ids (fr_snapshot_id run, fr_folder_id run, post, k) old) ↔
  is_Some old ∨ (k = kind ∧ post ∈ ids).
Proof.
  unfold observation. destruct old; [split; eauto|]. case_bool_decide as H.
  - split; [|done]. intros _. right. tauto.
  - split; [by intros [? ?]|]. intros [[? ?]|[-> ?]]; [done|]. exfalso. by apply H.
Qed.

Lemma observation_other kind run now ids s f p k old :
  (s, f) ≠ (fr_snapshot_id run, fr_folder_id run) →
  observation kind run now ids (s, f, p, k) old = old.
Proof.
  intros Hne. unfold observation. destruct old; [done|]. rewrite bool_decide_eq_false_2; [done|].
  intros (-> & -> & _). done.
Qed.

(** What one completion leaves, in the terms of its own snapshot and folder. *)
Record MembershipReconciled (run : FolderRun) (now : Z) (d d' : Db) : Prop := {
  mr_final : folder_finalizable run d = true;
  mr_active post : is_Some (active_items (fr_folder_id run) d' !! post) ↔
    is_Some (staged_members (fr_snapshot_id run) d !! post);
  mr_others other : other ≠ fr_folder_id run → items_of other d' = items_of other d;
  mr_partition : (size (added_members run d) + size (retained_members run d))%nat =
    size (staged_members (fr_snapshot_id run) d);
  mr_added post : is_Some (folder_membership_observations d' !!
      (fr_snapshot_id run, fr_folder_id run, post, "added"%string)) ↔
    is_Some (folder_membership_observations d !!
      (fr_snapshot_id run, fr_folder_id run, post, "added"%string)) ∨ is_Some (added_members run d !! post);
  mr_removed post : is_Some (folder_membership_observations d' !!
      (fr_snapshot_id run, fr_folder_id run, post, "removed"%string)) ↔
    is_Some (folder_membership_observations d !!
      (fr_snapshot_id run, fr_folder_id run, post, "removed"%string)) ∨ is_Some (absent_members run d !! post);
  mr_observed key t : folder_membership_observations d !! key = Some t →
    folder_membership_observations d' !! key = Some t;
  mr_run : ∃ row, sync_runs d' !! fr_id run = Some row ∧ run_state row = "completed"%string ∧
    run_added_count row = Z.of_nat (size (added_members run d)) ∧
    run_retained_count row = Z.of_nat (size (retained_members run d)) ∧
    run_removed_count row = Z.of_nat (size (absent_members run d));
  mr_authority : folder_membership_snapshot_authority d' =
    <[fr_folder_id run := mkAuthority (fr_snapshot_id run) now]> (folder_membership_snapshot_authority d);
  mr_snapshot : ∃ s, snapshots d' !! fr_snapshot_id run = Some s ∧ snap_complete s = true;
  mr_bookmarks : bookmark_evidence d' = bookmark_evidence d;
}.

Lemma folder_effect_reconciled run now d d' :
  FolderEffect run now d d' → MembershipReconciled run now d d'.
Proof.
  intros H. pose proof H as [Hf (items & o & s & row & _ & Ho & Hs & Hr & E)].
  assert (Hobs : folder_membership_observations d' = o) by by rewrite E. split.
  - done.
  - intros post. by eapply folder_effect_active.
  - intros other. by eapply folder_effect_others.
  - apply (staged_partition in_folder).
  - intros post. rewrite Hobs, Ho, !observation_own, !elem_of_keys. naive_solver.
  - intros post. rewrite Hobs, Ho, !observation_own, !elem_of_keys. naive_solver.
  - intros key t Hk. rewrite Hobs, Ho. by do 2 apply observation_kept.
  - rewrite E. simpl. rewrite lookup_alter_eq, Hr. by eexists.
  - by rewrite E.
  - rewrite E. simpl. rewrite lookup_insert_eq. by eexists.
  - by rewrite E.
Qed.

Lemma record_absent_count env run now (w : W) :
  yields env (record_absent_memberships run now)
    (λ removed _, removed = Z.of_nat (size (absent_members run (w_db w)))) w.
Proof.
  unfold record_absent_memberships. yields_steps. intros removed d [= <- _]. yields_steps.
  apply yields_any. intros _ w'. yields_steps. by rewrite length_fmap, length_map_to_list.
Qed.

Lemma reconcile_memberships_ok env run now (w : W) :
  quiet env →
  Z.of_nat (size (staged_members (fr_snapshot_id run) (w_db w))) ≤ i32_max →
  Z.of_nat (size (items_of (fr_folder_id run) (w_db w))) ≤ i32_max →
  ok_at env (reconcile_memberships run now) w.
Proof.
  intros Hq Hs Hb. unfold reconcile_memberships, count_added, count_retained, record_added_observations.
  assert (Hfit : ∀ n m : nat, (n ≤ m)%nat → Z.of_nat m ≤ i32_max →
            i32_try_from (Z.of_nat n) = Some (Z.of_nat n)).
  { intros n m Hn Hm. apply int4_Some. split; [done|]. unfold i32_min. lia. }
  apply ok_at_bind; [apply (succeeds_select _ Hq)|]. intros added w1. rewrite select_quiet by done.
  intros [= <- <-]. apply ok_at_bind; [apply (succeeds_select _ Hq)|]. intros retained w2.
  rewrite select_quiet by done. intros [= <- <-].
  apply ok_at_bind; [apply (succeeds_execute _ Hq)|]. intros [] w3. rewrite execute_quiet by done.
  intros [= <-]. apply ok_at_bind; [apply (succeeds_execute _ Hq)|]. intros [] w4.
  rewrite execute_quiet by done. intros [= <-]. cbn [w_db set_db tick]. apply ok_at_bind.
  { unfold record_absent_memberships. apply ok_at_bind; [unfold ok_at; rewrite stmt_quiet by done;
      by eexists _, _|]. intros removed w5 _. apply ok_at_bind; [|by eexists _, _].
    apply succeeds_for_each. intros x. apply (succeeds_execute _ Hq). }
  intros removed w5 E5. eapply yields_result in E5; [|apply record_absent_count].
  cbv beta in E5. subst removed.
  cbn [w_db set_db tick]. rewrite absent_joined.
  match goal with |- context [absent_members run (observe_members ?k run now ?ids ?d)] =>
    change (absent_members run (observe_members k run now ids d)) with (absent_members run d) end.
  rewrite (Hfit (size (added_members _ _)) _ (map_size_filter _ _) Hs).
  rewrite (Hfit (size (retained_members _ _)) _ (map_size_filter _ _) Hs).
  rewrite (Hfit (size (absent_members _ _)) (size (items_of (fr_folder_id run) (w_db w)))); [|..|done].
  - unfold ok_at. run_quiet Hq. by eexists _, _.
  - unfold absent_members, active_items. etrans; apply map_size_filter.
Qed.

Lemma complete_folder_succeeds env run (w : W) :
  quiet env → folder_finalizable run (w_db w) = true →
  Z.of_nat (size (staged_members (fr_snapshot_id run) (w_db w))) ≤ i32_max →
  Z.of_nat (size (items_of (fr_folder_id run) (w_db w))) ≤ i32_max →
  (complete_folder_run run env w).1 = Ok tt.
Proof.
  intros Hq Hfin Hs Hb. unfold complete_folder_run. run_quiet Hq.
  set (now := e_clock env (w_tick w)). set (w0 := tick (tick (tick w))).
  enough (Hok : ok_at env (folder_completion run now) w0).
  { destruct Hok as (u & w' & E). rewrite E. run_quiet Hq. by destruct u. }
  unfold folder_completion. apply ok_at_bind.
  { unfold lock_folder_finalization, ok_at. run_quiet Hq. unfold w0. cbn [w_db set_db tick].
    rewrite Hfin. by eexists _, _. }
  intros u1 w1 E1.
  assert (Hl : yields env (lock_folder_finalization run) (λ _ w', w_db w' = w_db w0) w0).
  { unfold lock_folder_finalization. yields_steps. destruct (folder_finalizable _ _); by yields_steps. }
  apply (yields_result _ _ _ _ Hl) in E1. cbv beta in E1. unfold w0 in E1. cbn [w_db tick] in E1.
  apply ok_at_bind; [apply reconcile_memberships_ok; by rewrite ?E1|].
  intros stats w2 E2. eapply yields_result in E2; [|apply reconcile_memberships_spec].
  cbv beta in E2. destruct E2 as (_ & items & o & E2 & _). rewrite E1 in E2.
  apply ok_at_bind; [|intros; apply (succeeds_execute _ Hq)].
  unfold record_folder_completion. apply ok_at_bind; [apply (succeeds_execute _ Hq)|].
  intros u4 w4. rewrite execute_quiet by done. intros [= _ <-]. unfold ok_at.
  rewrite stmt_quiet by done. unfold complete_folder_snapshot. cbn [w_db set_db tick].
  rewrite E2. simpl. unfold folder_finalizable in Hfin.
  destruct (snapshots (w_db w) !! fr_snapshot_id run) as [snapshot|]; [|done].
  destruct (sync_runs (w_db w) !! fr_id run) as [row|] eqn:Er; [|done].
  rewrite lookup_alter_eq, Er. simpl. by eexists _, _.
Qed.

Lemma complete_folder_atomic env run (w : W) :
  (∀ n d, e_other env n d = d) →
  wp env (complete_folder_run run) (λ r w',
    let effect := FolderEffect run (e_clock env (w_tick w)) (w_db w) (w_db w') in
    match r with Ok _ => effect | Err _ => w_db w' = w_db w ∨ effect end) w.
Proof.
  intros Ho. unfold complete_folder_run. apply wp_bind, wp_clock_now. set (now := e_clock _ _).
  eapply wp_mono.
  { apply (wp_atomic env _ _ (λ _ d', FolderEffect run now (w_db w) d')); [done|]. yields_steps.
    eapply yields_mono; [apply folder_completion_spec|]. intros u w' H. yields_steps. exact H. }
  intros [u|e] w'; [done|]. intros [E|[[] H]]; [by left|by right].
Qed.

(** C32. Completing a folder run is all or nothing, under any fault. A completion makes the folder's
    active items exactly the staged posts, counts and records every staged post that was not an
    active item as added, every active item the snapshot does not hold as removed, keeps every
    earlier observation, leaves other folders' items and everything bookmarks rest on alone,
    completes the run and its snapshot and makes that snapshot the folder's authority. Nothing but
    its preconditions can prevent it: when nothing fails it happens. *)
Theorem membership_reconciles_exactly env run (w : W) :
  (∀ n d, e_other env n d = d) →
  wp env (complete_folder_run run) (λ r w',
    (r ≠ Ok tt ∧ w_db w' = w_db w) ∨
    MembershipReconciled run (e_clock env (w_tick w)) (w_db w) (w_db w')) w ∧
  (quiet env → folder_finalizable run (w_db w) = true →
   Z.of_nat (size (staged_members (fr_snapshot_id run) (w_db w))) ≤ i32_max →
   Z.of_nat (size (items_of (fr_folder_id run) (w_db w))) ≤ i32_max →
   (complete_folder_run run env w).1 = Ok tt).
Proof.
  intros Ho. split; [|apply complete_folder_succeeds].
  eapply wp_mono; [apply (complete_folder_atomic env run w Ho)|].
  intros [[]|e] w'; [right|intros [?|?]; [left|right]]; by try apply folder_effect_reconciled.
Qed.
End FolderMeaning.

(** ** Concrete folder runs *)
Module FolderSamples.
Import SampleChrono SampleContracts ArticleSamples SocialSamples SnapshotSamples.

Definition sample_folder : NativeFolder := mkNativeFolder "f1" (Some "Reading"%string).

(** One page holds both posts of the sample envelope; the second run meets a denial. *)
Definition sample_membership : FolderMembershipPageSource := λ n,
  Ok (mkFolderPage NormalizeSamples.sample_envelope None).
Definition denied_membership : FolderMembershipPageSource := λ n, Err (CapabilityDenied Membership).

Definition sample_folder_run : result (option FolderSnapshotOutcome) SnapshotError * W :=
  run_folder 3 sample_gate sample_membership 1 sample_folder None (calm 5) sample_world.
Definition denied_folder_run : result (option FolderSnapshotOutcome) SnapshotError * W :=
  run_folder 3 sample_gate denied_membership 1 sample_folder None (calm 5) sample_world.

Example sample_folder_completes :
  (size <$> (map_to_list (bookmark_folder_items (w_db sample_folder_run.2))).*2) = [2%nat] ∧
  size (folder_membership_observations (w_db sample_folder_run.2)) = 2%nat ∧
  bookmarks (w_db sample_folder_run.2) = bookmarks sample_db.
Proof. vm_compute. done. Qed.

Example denied_folder_is_recorded :
  bookmark_folder_items (w_db denied_folder_run.2) = ∅ ∧
  (map_to_list (folder_capability_limits (w_db denied_folder_run.2))).*1 = [(1, "membership"%string)].
Proof. vm_compute. done. Qed.

Lemma folder_run_refines_witness :
  folder_ran FolderFrame sample_db (w_db sample_folder_run.2) sample_folder_run.1.
Proof.
  refine (proj1 (proj1 (folder_run_refines (calm 5) 3 sample_gate sample_membership 1 sample_folder None
    Listing sample_world _))).
  apply calm_rely. typeclasses eauto.
Defined.

(** A staged folder run that can be completed: post 10 stays, 11 is new, 12 is gone. *)
Definition sample_folder_handle : FolderRun := mkFolderRun 50 51 70 None.
Definition staged_folder_db : Db :=
  on_bookmark_folder_items (insert 70 {[ 10 := mkFolderItem 1 None None; 12 := mkFolderItem 1 None None ]})
    (on_snapshot_folder_membership_items (insert 51 {[ 10 := 3; 11 := 3 ]})
       (on_snapshots (insert 51 (mkSnapshot 50 (Some 70) false None 0))
          (on_sync_runs (insert 50 (mkSyncRun 1 "folder_membership" "running" None 1 2 0 0 0 None)) sample_db))).

Lemma membership_reconciles_exactly_witness :
  (complete_folder_run sample_folder_handle (calm 5) (mkWorld staged_folder_db 0 [])).1 = Ok tt.
Proof.
  refine (proj2 (membership_reconciles_exactly (calm 5) sample_folder_handle
    (mkWorld staged_folder_db 0 []) _) _ _ _ _);
    [done | apply calm_quiet | vm_compute; reflexivity | vm_compute; discriminate..].
Defined.
End FolderSamples.
