(* ===== verification/Incremental.v ===== *)
(** * Incremental bookmark scans ([crates/x-sync/src/incremental.rs])

    A bounded scan from the head of the account's bookmarks to the post its last scan ended at. It
    only observes: it stores the pages it sees, and says when it could not close the gap. *)
From S2P Require Export Folders.

Inductive IncrementalOutcome :=
  | ScanCompleted (run_id : Z) (watermark_provider_post_id : option string)
  | RequiresFullSnapshot (run_id : Z)
  | ScanIncomplete (run_id : Z).

Inductive ScheduledScan := IncrementalScan | FullSnapshot.

Definition SCHEDULED_BOOKMARK_SCAN_COMMAND : string := "x.bookmarks.scan_requested.v1".

Record IncrementalScanService := mkIncrementalService {
  is_budget : BudgetGate;
  is_page_cap : Z;
  is_request_cap : Z;
}.

Section Incremental.
Context {ch : Chrono} {ct : Contracts} {ec : EnvelopeCodec} {cr : Crypto} {ac : ArticleContracts}
  {sc : SocialContracts} {ho : HashOrder}.

(** [load_state]: an account without a row starts fresh. *)
Definition scan_state (account : Z) (d : Db) : option string * bool :=
  match bookmark_incremental_state d !! account with
  | Some row => (inc_watermark_provider_post_id row, inc_requires_full_snapshot row)
  | None => (None, false)
  end.
Definition load_state (account : Z) : Prog SnapshotError (option string * bool) :=
  on_pool (select SnapshotQuery (scan_state account)).

Definition scheduled_scan (command_type : string) (account : Z) : Prog SnapshotError ScheduledScan :=
  if negb (String.eqb command_type SCHEDULED_BOOKMARK_SCAN_COMMAND) then throw RunUnavailable
  else
    let! state := load_state account in
    ret (if snd state then FullSnapshot else IncrementalScan).

Definition create_scan_run (account : Z) : Prog SnapshotError Z :=
  on_pool (
    let! run_id := new_uuid in
    do! stmt SnapshotQuery (insert_run run_id account "incremental") in
    ret run_id).

(** *** Observing a page *)

(** [upsert_observed_bookmarks], one post. *)
Definition first_scanned (run_id observed_at : Z) : Bookmark :=
  mkBookmark observed_at observed_at None None None None None (Some run_id).
Definition rescanned (run_id observed_at : Z) (b : Bookmark) : Bookmark :=
  mkBookmark (bm_first_observed_saved_at b) observed_at None None (bm_last_write_operation_id b)
    (bm_last_write_observed_at b) (bm_observed_removed_write_operation_id b) (Some run_id).
Definition observe_bookmark (account run_id observed_at post_id : Z) (d : Db) : Db :=
  on_bookmarks (set_rows account
    (upsert post_id (first_scanned run_id observed_at) (rescanned run_id observed_at))) d.
Definition upsert_observed_bookmarks (account run_id : Z) (post_ids : list Z) (observed_at : Z) :
    Prog SnapshotError unit :=
  for_each post_ids (λ post_id, execute SnapshotQuery (observe_bookmark account run_id observed_at post_id)).

(** The counters of the run, which must fit their columns. *)
Definition scanned_run (pages items : Z) (run : SyncRun) : SyncRun :=
  mkSyncRun (run_account_id run) (run_run_type run) (run_state run) (run_checkpoint run) pages items
    (run_added_count run) (run_retained_count run) (run_removed_count run) (run_finished_at run).
Definition count_page (run_id item_count : Z) (d : Db) : option (unit * Db) :=
  match sync_runs d !! run_id with
  | Some run =>
      pages ← int4 (run_pages_fetched run + 1);
      items ← int4 (run_items_observed run + item_count);
      Some (tt, on_sync_runs (insert run_id (scanned_run pages items run)) d)
  | None => Some (tt, d)
  end.

(** The body of [observe_page]'s transaction. *)
Definition observe_body (account run_id observation_time : Z) (normalized : NormalizedBatch) :
    Prog SnapshotError (ending unit) :=
  let! seed := new_uuid in
  let! posts := persist_page normalized in
  let post_ids := hash_values seed posts in
  do! publish_bookmark_sources account post_ids observation_time in
  do! upsert_observed_bookmarks account run_id post_ids observation_time in
  let! item_count := of_result (ok_or (i32_try_from (Z.of_nat (size posts))) StatisticsOverflow) in
  do! stmt SnapshotQuery (count_page run_id item_count) in
  ret (Commit tt).

Definition page_ids (normalized : NormalizedBatch) : list string :=
  np_provider_id <$> nb_posts normalized.
Definition newest_of_scan (newest : option string) (normalized : NormalizedBatch) : option string :=
  match newest with Some id => Some id | None => head (page_ids normalized) end.
Definition reaches (watermark : option string) (normalized : NormalizedBatch) : bool :=
  match watermark with Some id => existsb (String.eqb id) (page_ids normalized) | None => false end.

(** [observe_page]: whether the watermark was reached, and the newest post identity so far. *)
Definition observe_page (account run_id : Z) (page : BookmarkPage) (newest : option string) :
    Prog SnapshotError (bool * option string) :=
  let! normalized := of_result (result_map_err SnapshotNormalize (normalize (page_envelope page))) in
  let! prior := load_state account in
  let! observation_time := clock_now in
  do! transaction SnapshotQuery (observe_body account run_id observation_time normalized) in
  ret (reaches (fst prior) normalized, newest_of_scan newest normalized).

(** *** Ends of a scan *)

Definition finish_run (state : string) (run_id now : Z) (d : Db) : option (Z * Db) :=
  run ← sync_runs d !! run_id;
  Some (run_account_id run, on_sync_runs (alter (with_run_state state (Some now)) run_id) d).

Definition completed_state (watermark : option string) (run_id now : Z) : IncrementalState :=
  mkIncrementalState watermark false "completed" (Some run_id) now.
Definition recompleted_state (watermark : option string) (run_id now : Z) (s : IncrementalState) :
    IncrementalState :=
  mkIncrementalState watermark (inc_requires_full_snapshot s) "completed" (Some run_id) now.
Definition complete_scan (run_id : Z) (watermark : option string) : Prog SnapshotError unit :=
  let! completed_at := clock_now in
  transaction SnapshotQuery (
    let! account := stmt SnapshotQuery (finish_run "completed" run_id completed_at) in
    do! execute SnapshotQuery (on_bookmark_incremental_state
          (upsert account (completed_state watermark run_id completed_at)
             (recompleted_state watermark run_id completed_at))) in
    ret (Commit tt)).

(** [mark_gap]: the account needs a full snapshot from now on. *)
Definition gap_state (run_id now : Z) (s : IncrementalState) : IncrementalState :=
  mkIncrementalState (inc_watermark_provider_post_id s) true "gap" (Some run_id) now.
Definition mark_gap (account run_id : Z) : Prog SnapshotError unit :=
  let! observed_at := clock_now in
  transaction SnapshotQuery (
    do! execute SnapshotQuery
          (on_sync_runs (alter (with_run_state "failed" (Some observed_at)) run_id)) in
    do! execute SnapshotQuery (on_bookmark_incremental_state
          (upsert account (mkIncrementalState None true "gap" (Some run_id) observed_at)
             (gap_state run_id observed_at))) in
    ret (Commit tt)).

Definition stopped_state (outcome : string) (run_id now : Z) (s : IncrementalState) : IncrementalState :=
  mkIncrementalState (inc_watermark_provider_post_id s) (inc_requires_full_snapshot s) outcome
    (Some run_id) now.
Definition stop_run (account run_id : Z) (outcome : string) : Prog SnapshotError unit :=
  let! observed_at := clock_now in
  transaction SnapshotQuery (
    do! execute SnapshotQuery
          (on_sync_runs (alter (with_run_state "failed" (Some observed_at)) run_id)) in
    do! execute SnapshotQuery (on_bookmark_incremental_state
          (upsert account (mkIncrementalState None false outcome (Some run_id) observed_at)
             (stopped_state outcome run_id observed_at))) in
    ret (Commit tt)).

(** *** The scan *)

Context (service : IncrementalScanService) (source : BookmarkPageSource) (account : Z).

(** [loop { ... }]: [None] is a loop that is still going after [fuel] rounds. *)
Fixpoint scan_pages (fuel : nat) (watermark : option string) (run_id : Z)
    (continuation newest : option string) (pages_fetched requests_made : Z) :
    Prog SnapshotError (option IncrementalOutcome) :=
  match fuel with
  | O => ret None
  | S fuel =>
      if bool_decide (is_page_cap service ≤ pages_fetched) then
        do! mark_gap account run_id in
        ret (Some (RequiresFullSnapshot run_id))
      else if bool_decide (is_request_cap service ≤ requests_made) then
        do! stop_run account run_id "request_cap" in
        ret (Some (ScanIncomplete run_id))
      else
        let! reserved := attempt (reserve (is_budget service) account 1) in
        match reserved with
        | Err (Exhausted _) =>
            do! stop_run account run_id "budget_exhausted" in
            ret (Some (ScanIncomplete run_id))
        | Err error =>
            do! mark_failed run_id in
            throw (SnapshotBudget error)
        | Ok _ =>
            let! answer := call (FetchBookmarks continuation) source in
            match answer with
            | Err _ =>
                do! mark_failed run_id in
                throw RunUnavailable
            | Ok page =>
                let! observed := observe_page account run_id page newest in
                let '(reached, newest) := observed in
                if reached || bool_decide (watermark = None) then
                  do! complete_scan run_id newest in
                  ret (Some (ScanCompleted run_id newest))
                else
                  match page_next_token page with
                  | None =>
                      do! mark_failed run_id in
                      throw RunUnavailable
                  | Some token =>
                      scan_pages fuel watermark run_id (Some token) newest (pages_fetched + 1)
                        (requests_made + 1)
                  end
            end
        end
  end.

(** Every round fetches a page, so the caps bound the rounds. *)
Definition scan_rounds : nat := S (Z.to_nat (is_page_cap service)).

Definition run_scan : Prog SnapshotError (option IncrementalOutcome) :=
  let! state := load_state account in
  let '(watermark, requires_full_snapshot) := state in
  if requires_full_snapshot then throw RunUnavailable
  else
    let! run_id := create_scan_run account in
    scan_pages scan_rounds watermark run_id None None 0 0.
End Incremental.

(** ** Scans only observe *)

(** What a scan may do to one bookmark of its account: store it as active, keeping when it was first
    seen and what write-backs said about it. *)
Definition bookmark_seen (b b' : Bookmark) : Prop :=
  bm_first_observed_saved_at b' = bm_first_observed_saved_at b ∧
  bm_last_write_operation_id b' = bm_last_write_operation_id b ∧
  bm_last_write_observed_at b' = bm_last_write_observed_at b ∧
  bm_observed_removed_write_operation_id b' = bm_observed_removed_write_operation_id b.
Definition observed_step (o o' : option Bookmark) : Prop :=
  o' = o ∨ ∃ b', o' = Some b' ∧ is_active b' = true ∧ bm_observed_removed_snapshot_id b' = None ∧
                 ∀ b, o = Some b → bookmark_seen b b'.

Record ScanSteps (account : Z) (d d' : Db) : Prop := {
  sn_bookmarks post : observed_step (bookmarks_of account d !! post) (bookmarks_of account d' !! post);
  sn_others other : other ≠ account → bookmarks_of other d' = bookmarks_of other d;
  sn_authority : bookmark_snapshot_authority d' = bookmark_snapshot_authority d;
  sn_writes : (bookmark_write_operations d', bookmark_write_consents d', bookmark_write_audit_events d') =
    (bookmark_write_operations d, bookmark_write_consents d, bookmark_write_audit_events d);
  sn_folders : folder_evidence d' = folder_evidence d;
  sn_staged : snapshot_bookmark_items d' = snapshot_bookmark_items d;
  sn_flag other : (scan_state other d).2 = true → (scan_state other d').2 = true;
  sn_snapshots : snapshots d' = snapshots d;
  sn_runs id r : sync_runs d !! id = Some r →
    ∃ r', sync_runs d' !! id = Some r' ∧ run_account_id r' = run_account_id r;
}.

#[export] Instance scan_steps_preorder account : PreOrder (ScanSteps account).
Proof.
  split; [intros d; split; try done; [by left|eauto]|].
  intros d1 d2 d3 [B1 O1 A1 W1 F1 S1 G1 N1 R1] [B2 O2 A2 W2 F2 S2 G2 N2 R2].
  split; try (by etrans); [|by intros other Hne; rewrite O2, O1|by auto|].
  - intros post. destruct (B2 post) as [->|(b3 & E3 & H3 & N3 & K3)]; [apply B1|].
    right. exists b3. split_and!; [done..|]. intros b Hb.
    destruct (B1 post) as [E|(b2 & E2 & _ & _ & K2)]; [apply K3; congruence|].
    destruct (K2 b Hb) as (?&?&?&?), (K3 b2 E2) as (?&?&?&?). unfold bookmark_seen. split_and!; congruence.
  - intros id r Hr. destruct (R1 id r Hr) as (r2 & Hr2 & ?). destruct (R2 id r2 Hr2) as (r3 & Hr3 & ?).
    exists r3. split; [done|congruence].
Qed.

Ltac scan_frame := split; simpl; try done; [by left|by eauto].

Section ScanFrames.
Context (account : Z).
Notation ScanSteps := (ScanSteps account).

Lemma scan_ignores_sources : IgnoresSources ScanSteps.
Proof. split; intros f d; scan_frame. Qed.
Lemma scan_ignores_records : IgnoresRecords ScanSteps.
Proof. split; intros f d; scan_frame. Qed.
Lemma scan_ignores_budget f d : ScanSteps d (on_api_budget_windows f d).
Proof. scan_frame. Qed.

Lemma scan_runs f id d :
  (∀ r, run_account_id (f r) = run_account_id r) → ScanSteps d (on_sync_runs (alter f id) d).
Proof.
  intros Hf. split; simpl; try done; [by left|]. intros i r Hr. rewrite lookup_alter.
  case_decide; [subst|by exists r]. rewrite Hr. simpl. by exists (f r).
Qed.

Lemma scan_count_page run_id count d u d' : count_page run_id count d = Some (u, d') → ScanSteps d d'.
Proof.
  unfold count_page. destruct (sync_runs d !! run_id) as [run|] eqn:E; [|by intros [= _ <-]].
  destruct (int4 (run_pages_fetched run + 1)) as [pages|]; simpl; [|done].
  destruct (int4 (run_items_observed run + count)) as [items|]; simpl; [|done].
  intros [= _ <-]. split; simpl; try done; [by left|]. intros i r Hr. rewrite lookup_insert.
  case_decide; [subst|by exists r]. assert (r = run) as -> by congruence. by eexists.
Qed.

Lemma scan_insert_run id run_type d u d' : insert_run id account run_type d = Some (u, d') → ScanSteps d d'.
Proof.
  unfold insert_run, insert_new. case_bool_decide; [|done].
  destruct (sync_runs d !! id) eqn:E; simpl; [done|]. intros [= _ <-].
  split; simpl; try done; [by left|]. intros i r Hr. exists r. by rewrite lookup_insert_ne by congruence.
Qed.

Lemma scan_finish state run_id now d owner d' :
  finish_run state run_id now d = Some (owner, d') → ScanSteps d d'.
Proof.
  unfold finish_run. destruct (sync_runs d !! run_id); simpl; [|done]. intros [= _ <-].
  by apply scan_runs.
Qed.

(** A state row that appears or is revised without dropping the flag. *)
Lemma scan_upsert_state owner fresh revise d :
  (∀ s, inc_requires_full_snapshot s = true → inc_requires_full_snapshot (revise s) = true) →
  ScanSteps d (on_bookmark_incremental_state (upsert owner fresh revise) d).
Proof.
  intros Hrev. split; simpl; try done; [by left| |by eauto].
  intros other. unfold scan_state. simpl. rewrite lookup_upsert. case_decide; [subst|done].
  destruct (bookmark_incremental_state d !! other); [apply Hrev|done].
Qed.

Lemma scan_observe run_id at_ post d : ScanSteps d (observe_bookmark account run_id at_ post d).
Proof.
  split; simpl; try done; [| |by eauto].
  - intros p. unfold observe_bookmark. rewrite bookmarks_of_set, decide_True by done.
    rewrite lookup_upsert. case_decide; [subst|by left]. right.
    destruct (bookmarks_of account d !! p) as [b|]; eexists; (split; [done|]); split_and!; try done.
    by intros ? [= <-].
  - intros other Hne. unfold observe_bookmark. rewrite bookmarks_of_set. by rewrite decide_False.
Qed.
End ScanFrames.

Section ScanTheorems.
Context {ch : Chrono} {ct : Contracts} {ec : EnvelopeCodec} {cr : Crypto} {ac : ArticleContracts}
  {sc : SocialContracts} {ho : HashOrder}.
Context (service : IncrementalScanService) (source : BookmarkPageSource) (account : Z).

Lemma observe_body_frame env run_id at_ normalized :
  guar (Ev:=Event) env (on_db (ScanSteps account)) (observe_body account run_id at_ normalized).
Proof.
  unfold observe_body, upsert_observed_bookmarks.
  guar_steps; try (apply (persist_page_ignored _ _), scan_ignores_records);
    try (apply (publish_sources_ignored _ _), scan_ignores_sources).
  - apply scan_observe.
  - by eapply scan_count_page.
Qed.

(** A whole scan, under any relation that each of its parts respects. *)
Lemma run_scan_parts env (S : relation Db) `{!PreOrder S} :
  rely (Ev:=Event) env (on_db S) →
  guar env (on_db S) (create_scan_run account) →
  guar env (on_db S) (reserve (is_budget service) account 1) →
  (∀ run_id page newest, guar env (on_db S) (observe_page account run_id page newest)) →
  (∀ run_id watermark, guar env (on_db S) (complete_scan run_id watermark)) →
  (∀ run_id, guar env (on_db S) (mark_gap account run_id)) →
  (∀ run_id outcome, guar env (on_db S) (stop_run account run_id outcome)) →
  (∀ run_id, guar env (on_db S) (mark_failed run_id)) →
  guar env (on_db S) (run_scan service source account).
Proof.
  intros Hr Hcreate Hreserve Hobserve Hcomplete Hgap Hstop Hfailed. unfold run_scan, load_state.
  assert (Hpages : ∀ fuel watermark run_id continuation newest pages requests, guar env (on_db S)
    (scan_pages service source account fuel watermark run_id continuation newest pages requests)).
  { intros fuel watermark run_id. induction fuel as [|fuel IH]; intros; cbn [scan_pages]; guar_steps;
      first [done | apply Hobserve | apply Hcomplete | apply Hgap | apply Hstop | apply Hfailed | apply IH
            | apply guar_call; [typeclasses eauto|]; intros w0; unfold on_db; simpl; reflexivity]. }
  guar_steps.
Qed.

(** A scan among others, under any relation that tolerates its steps. *)
Section ScanAmong.
Context (env : Env Db) (S : relation Db) `{!PreOrder S} (Hsub : ∀ d d', ScanSteps account d d' → S d d')
  (Hr : rely (Ev:=Event) env (on_db S)).

Lemma observe_page_guar run_id page newest : guar env (on_db S) (observe_page account run_id page newest).
Proof.
  unfold observe_page, load_state. guar_steps.
  eapply guar_weaken; [|apply observe_body_frame]. intros w w'. apply Hsub.
Qed.

Lemma complete_scan_guar run_id watermark : guar env (on_db S) (complete_scan run_id watermark).
Proof.
  unfold complete_scan. guar_steps; apply Hsub; [by eapply scan_finish|].
  by apply scan_upsert_state.
Qed.

Lemma mark_gap_guar run_id : guar env (on_db S) (mark_gap account run_id).
Proof.
  unfold mark_gap. guar_steps; apply Hsub; [by apply scan_runs|]. by apply scan_upsert_state.
Qed.

Lemma stop_run_guar run_id outcome : guar env (on_db S) (stop_run account run_id outcome).
Proof.
  unfold stop_run. guar_steps; apply Hsub; [by apply scan_runs|]. by apply scan_upsert_state.
Qed.

Lemma scan_failed_guar run_id : guar env (on_db S) (mark_failed run_id).
Proof. unfold mark_failed. guar_steps. apply Hsub. by apply scan_runs. Qed.

Lemma create_scan_guar : guar env (on_db S) (create_scan_run account).
Proof. unfold create_scan_run. guar_steps. apply Hsub. by eapply scan_insert_run. Qed.

Lemma run_scan_guar : guar env (on_db S) (run_scan service source account).
Proof.
  assert (Hbud : ∀ f d, S d (on_api_budget_windows f d)) by (intros; apply Hsub, scan_ignores_budget).
  apply run_scan_parts; [typeclasses eauto|done|apply create_scan_guar|exact (reserve_frame _ _ _ _ _ Hbud Hr)
    |apply observe_page_guar|apply complete_scan_guar|apply mark_gap_guar|apply stop_run_guar|apply scan_failed_guar].
Qed.
End ScanAmong.

(** A scan only observes, whatever fails and however it interleaves with other scans of the account:
    authority, staged snapshots, folder evidence and write-back records stay as they are, other
    accounts' bookmarks are untouched, a bookmark is only ever stored as active, keeping when it was
    first seen and what write-backs recorded, so no absence is ever concluded from a scan, and an
    account that needs a full snapshot goes on needing one. *)
Theorem scan_only_observes env :
  rely (Ev:=Event) env (on_db (ScanSteps account)) →
  guar env (on_db (ScanSteps account)) (run_scan service source account).
Proof. intros Hr. by apply (run_scan_guar env _). Qed.
End ScanTheorems.

(** ** Bounds and outcomes *)

Section ScanSilence.
Context {ch : Chrono} {ct : Contracts} {ec : EnvelopeCodec} {cr : Crypto} {ac : ArticleContracts}
  {sc : SocialContracts} {ho : HashOrder}.
Context (env : Env Db).

Lemma capture_links_silent account_id source urls :
  guar env silent (capture_expanded_links_in_transaction account_id source urls).
Proof.
  unfold capture_expanded_links_in_transaction, capture_link, queue_article_command.
  pose proof (silent_rely (Ev:=Event) env) as Hs. guar_steps; try apply queue_envelope_silent; done.
Qed.

Lemma publish_sources_silent account_id post_ids captured_at :
  guar env silent (publish_bookmark_sources account_id post_ids captured_at).
Proof.
  unfold publish_bookmark_sources, publish_source, publish_revision, record_revision, queue_source_event.
  pose proof (silent_rely (Ev:=Event) env) as Hs.
  guar_steps; try apply queue_envelope_silent; try apply capture_links_silent; done.
Qed.

Lemma persist_page_silent normalized : guar env silent (persist_page normalized).
Proof.
  unfold persist_page, persist_users, persist_user, persist_posts, persist_post, persist_relations,
    persist_relation, persist_media, persist_media_item. silently.
Qed.

Lemma observe_page_silent account_id run_id page newest :
  guar env silent (observe_page account_id run_id page newest).
Proof.
  unfold observe_page, load_state, observe_body, upsert_observed_bookmarks.
  pose proof (silent_rely (Ev:=Event) env) as Hs.
  guar_steps; try apply persist_page_silent; try apply publish_sources_silent; done.
Qed.

Lemma complete_scan_silent run_id watermark : guar env silent (complete_scan run_id watermark).
Proof. unfold complete_scan. silently. Qed.
Lemma mark_gap_silent account_id run_id : guar env silent (mark_gap account_id run_id).
Proof. unfold mark_gap. silently. Qed.
Lemma stop_run_silent account_id run_id outcome : guar env silent (stop_run account_id run_id outcome).
Proof. unfold stop_run. silently. Qed.
Lemma mark_failed_silent run_id : guar env silent (mark_failed run_id).
Proof. unfold mark_failed. silently. Qed.
End ScanSilence.

Section ScanOutcomes.
Context {ch : Chrono} {ct : Contracts} {ec : EnvelopeCodec} {cr : Crypto} {ac : ArticleContracts}
  {sc : SocialContracts} {ho : HashOrder}.
Context (service : IncrementalScanService) (source : BookmarkPageSource) (account : Z) (env : Env Db).

(** At most [n] calls left the process. *)
Definition calls_within (n : Z) (w w' : W) : Prop :=
  ∃ events, w_log w' = w_log w ++ events ∧ Z.of_nat (length events) ≤ Z.max 0 n.

Lemma calls_within_silent n (w w1 w' : W) : silent w w1 → calls_within n w1 w' → calls_within n w w'.
Proof. unfold silent. intros E (events & E' & H). exists events. by rewrite E', E. Qed.

Lemma calls_within_none n (w w' : W) : silent w w' → calls_within n w w'.
Proof. unfold silent. intros E. exists []. rewrite app_nil_r. split; [done|simpl; lia]. Qed.

(** A part that stays inside the process, then the rest. *)
Lemma calls_within_step {A B} n (m : Prog SnapshotError A) (k : A → Prog SnapshotError B)
    (Q : result B SnapshotError → Prop) (w : W) :
  guar env silent m → (∀ e, Q (Err e)) →
  (∀ a w1, wp env (k a) (λ r w', Q r ∧ calls_within n w1 w') w1) →
  wp env (bind m k) (λ r w', Q r ∧ calls_within n w w') w.
Proof.
  intros Hm He Hk. apply wp_bind. pose proof (guar_elim Hm w) as Hs. unfold wp at 1.
  destruct (m env w) as [[a|e] w1]; cbn [fst snd] in *.
  - eapply wp_mono; [apply Hk|]. intros r w' [? ?]. split; [done|]. by eapply calls_within_silent.
  - split; [done|]. by apply calls_within_none.
Qed.

Lemma scan_pages_bounded fuel watermark run_id continuation newest pages requests (w : W) :
  is_page_cap service - pages < Z.of_nat fuel → (0 < fuel)%nat →
  wp env (scan_pages service source account fuel watermark run_id continuation newest pages requests)
    (λ r w', r ≠ Ok None ∧
       calls_within (Z.min (is_page_cap service - pages) (is_request_cap service - requests)) w w') w.
Proof.
  revert continuation newest pages requests w.
  induction fuel as [|fuel IH]; intros continuation newest pages requests w Hfuel Hpos; [lia|].
  cbn [scan_pages].
  assert (Hend : ∀ n (m : Prog SnapshotError unit) (k : Prog SnapshotError (option IncrementalOutcome)) (w0 : W),
    guar env silent m → (∀ w1, wp env k (λ r w', r ≠ Ok None ∧ silent w1 w') w1) →
    wp env (bind m (λ _, k)) (λ r w', r ≠ Ok None ∧ calls_within n w0 w') w0).
  { intros n m k w0 Hm Hk. apply (calls_within_step n _ _ (λ r, r ≠ Ok None)); [done|done|].
    intros _ w1. eapply wp_mono; [apply Hk|]. intros r w' [? ?]. split; [done|]. by apply calls_within_none. }
  case_bool_decide as Hpage; [apply Hend; [apply mark_gap_silent|by intros; apply wp_ret]|].
  case_bool_decide as Hreq; [apply Hend; [apply stop_run_silent|by intros; apply wp_ret]|].
  apply (calls_within_step _ _ _ (λ r, r ≠ Ok None)); [apply guar_attempt, reserve_silent|done|].
  intros [reservation|error] w1.
  2:{ destruct error; (apply Hend; [first [apply stop_run_silent | apply mark_failed_silent]|intros w2]);
        first [by apply wp_ret | by apply wp_throw]. }
  set (n := Z.min _ _).
  apply wp_bind, wp_call. set (w2 := tick (emit _ w1)).
  assert (Hsent : ∀ w', calls_within (n - 1) w2 w' → calls_within n w1 w').
  { intros w' (events & E & Hl). unfold w2 in E. simpl in E. rewrite <-app_assoc in E.
    eexists. split; [exact E|]. simpl. unfold n in *. lia. }
  clearbody w2. eapply (wp_mono _ _ (λ r w', r ≠ Ok None ∧ calls_within (n - 1) w2 w'));
    [|intros r w' [? ?]; split; [done|by apply Hsent]].
  destruct (source _) as [page|e]; [|apply Hend; [apply mark_failed_silent|by intros; apply wp_throw]].
  apply (calls_within_step _ _ _ (λ r, r ≠ Ok None)); [apply observe_page_silent|done|].
  intros [reached newest'] w3.
  destruct (reached || _); [apply Hend; [apply complete_scan_silent|by intros; apply wp_ret]|].
  destruct (page_next_token page); [|apply Hend; [apply mark_failed_silent|by intros; apply wp_throw]].
  eapply wp_mono; [apply IH; lia|]. intros r w' [? Hc]. split; [done|].
  destruct Hc as (events & E & Hl). exists events. split; [done|]. unfold n. lia.
Qed.

(** A scan always ends, whatever the provider offers, whatever fails and whatever else runs: within
    the page cap it completes, gives up or asks for a full snapshot, and it makes at most as many
    provider requests as both caps allow. *)
Theorem scan_is_bounded (w : W) :
  wp env (run_scan service source account) (λ r w',
    r ≠ Ok None ∧ calls_within (Z.min (is_page_cap service) (is_request_cap service)) w w') w.
Proof.
  unfold run_scan, create_scan_run, load_state. pose proof (silent_rely (Ev:=Event) env) as Hs.
  apply (calls_within_step _ _ _ (λ r, r ≠ Ok None)); [guar_steps; done|done|].
  intros [watermark full] w1. destruct full; [apply wp_throw; split; [done|by apply calls_within_none]|].
  apply (calls_within_step _ _ _ (λ r, r ≠ Ok None)); [guar_steps; done|done|]. intros run_id w2.
  eapply wp_mono; [apply scan_pages_bounded; unfold scan_rounds; lia|]. intros r w' [? Hc]. split; [done|].
  destruct Hc as (events & E & Hl). exists events. split; [done|lia].
Qed.
End ScanOutcomes.

Section ScanRecords.
Context {ch : Chrono} {ct : Contracts} {ec : EnvelopeCodec} {cr : Crypto} {ac : ArticleContracts}
  {sc : SocialContracts} {ho : HashOrder}.
Context (service : IncrementalScanService) (source : BookmarkPageSource) (account : Z) (env : Env Db).
Context (Hr : rely (Ev:=Event) env (on_db (ScanSteps account))).

Definition owned_run (run_id : Z) (d : Db) : Prop :=
  ∃ r, sync_runs d !! run_id = Some r ∧ run_account_id r = account.

Lemma owned_run_steps run_id d d' : ScanSteps account d d' → owned_run run_id d → owned_run run_id d'.
Proof.
  intros Hs (r & H & E). destruct (sn_runs _ _ _ Hs _ _ H) as (r' & H' & E'). exists r'.
  split; [done|congruence].
Qed.

Lemma complete_scan_records run_id watermark (w : W) :
  owned_run run_id (w_db w) →
  yields env (complete_scan run_id watermark) (λ _ w', (scan_state account (w_db w')).1 = watermark) w.
Proof.
  intros Ho. unfold complete_scan. yields_step. yields_step. yields_step.
  set (w1 := set_db _ _). assert (H1 : owned_run run_id (w_db w1)).
  { eapply owned_run_steps; [exact (Hr (w_tick (tick w)) (tick w))|done]. }
  clearbody w1. yields_steps. intros owner d. unfold finish_run. destruct H1 as (r & Hrow & Hacc).
  cbn [w_db tick]. rewrite Hrow. simpl. intros [= <- <-]. yields_steps. unfold scan_state. simpl.
  rewrite lookup_upsert, decide_True by done.
  by destruct (bookmark_incremental_state (w_db w1) !! run_account_id r).
Qed.

Lemma mark_gap_records run_id (w : W) :
  yields env (mark_gap account run_id) (λ _ w', (scan_state account (w_db w')).2 = true) w.
Proof.
  unfold mark_gap. yields_steps. unfold scan_state. simpl. rewrite lookup_upsert, decide_True by done.
  by destruct (bookmark_incremental_state _ !! account).
Qed.

(** The least, in text order, of the provider ids on a page. *)
Definition head_of_page (page : BookmarkPage) (watermark : option string) : Prop :=
  ∃ normalized id, normalize (page_envelope page) = Ok normalized ∧ watermark = Some id ∧
    id ∈ page_ids normalized ∧ ∀ other, other ∈ page_ids normalized → str_leb id other = true.

(** The page a scan that stands at [w] fetches next: the answer once its request was reserved. *)
Definition next_page (w : W) (page : BookmarkPage) : Prop :=
  ∃ reservation w', reserve (is_budget service) account 1 env w = (Ok reservation, w') ∧
    source (w_tick w') = Ok page.

(** The watermark of a scan at [w]: the one it has, or the head of the page it fetches next. *)
Definition head_of_scan (w : W) (newest watermark : option string) : Prop :=
  match newest with
  | Some _ => watermark = newest
  | None => ∃ page, next_page w page ∧ head_of_page page watermark
  end.

Lemma observe_page_newest run_id page newest (w : W) :
  yields env (observe_page account run_id page newest) (λ observed _, is_Some observed.2 ∧
    match newest with Some _ => observed.2 = newest | None => head_of_page page observed.2 end) w.
Proof.
  unfold observe_page, load_state. yields_steps. intros normalized Hn. do 6 yields_step.
  apply yields_any. intros ? w'. yields_steps. simpl.
  destruct (normalize (page_envelope page)) as [b|] eqn:En; [|done]. injection Hn as ->.
  destruct (normalized_posts _ _ En) as (Hsorted & _ & Hne). unfold newest_of_scan, head_of_page.
  destruct newest as [x|]; [split; [by eexists|done]|].
  unfold page_ids at 1 2. destruct (nb_posts normalized) as [|p ps] eqn:Ep; [done|]. simpl.
  split; [by eexists|]. exists normalized, (np_provider_id p). unfold page_ids. rewrite Ep.
  split_and!; [done..|left|]. simpl in Hsorted. apply StronglySorted_inv in Hsorted as [_ Hall]. rewrite Forall_forall in Hall.
  intros other [->|Hin]%elem_of_cons; [apply str_leb_refl|by apply Hall].
Qed.

Definition scan_recorded (w : W) (newest : option string) (run_id : Z) (r : option IncrementalOutcome) (d : Db) :
    Prop :=
  match r with
  | Some (ScanCompleted id watermark) => id = run_id ∧ (scan_state account d).1 = watermark ∧
      head_of_scan w newest watermark
  | Some (RequiresFullSnapshot id) => id = run_id ∧ (scan_state account d).2 = true
  | Some (ScanIncomplete id) => id = run_id
  | None => True
  end.

Lemma scan_pages_recorded fuel watermark run_id continuation newest pages requests (w : W) :
  owned_run run_id (w_db w) →
  yields env (scan_pages service source account fuel watermark run_id continuation newest pages requests)
    (λ r w', scan_recorded w newest run_id r (w_db w')) w.
Proof.
  revert continuation newest pages requests w.
  induction fuel as [|fuel IH]; intros continuation newest pages requests w Ho; cbn [scan_pages]; [done|].
  assert (Hown : ∀ w' : W, ScanSteps account (w_db w) (w_db w') → owned_run run_id (w_db w'))
    by (intros; by eapply owned_run_steps).
  case_bool_decide.
  { yields_step. eapply yields_mono; [apply mark_gap_records|]. intros ? w' H'. by yields_steps. }
  case_bool_decide; [yields_step; apply yields_any; intros ? w'; by yields_steps|].
  yields_step. apply yields_attempt. unfold wp.
  pose proof (guar_elim (reserve_frame env (is_budget service) account 1 (ScanSteps account)
    (scan_ignores_budget account) Hr) w) as Hres. unfold on_db in Hres.
  destruct (reserve _ _ _ env w) as [[reservation|error] w1] eqn:Er; cbn [fst snd] in *.
  2:{ destruct error; yields_step; apply yields_any; intros ? w'; by yields_steps. }
  yields_step. apply wp_call. destruct (source (w_tick _)) as [page|e] eqn:Es.
  2:{ yields_step. apply yields_any. intros ? w'. yields_steps. }
  assert (Hnext : next_page w page) by (by exists reservation, w1).
  set (w2 := tick (emit _ w1)). assert (Ho2 : owned_run run_id (w_db w2)) by by apply Hown. clearbody w2.
  yields_step. eapply yields_mono.
  { apply (yields_frame env (ScanSteps account)); [by apply (observe_page_guar account env _)|].
    by eapply observe_page_newest. }
  intros [reached newest'] w3 [[Hsome Hhead] H3]. simpl in Hsome, Hhead.
  assert (Hscan : head_of_scan w newest newest') by (destruct newest; [done|by exists page]).
  assert (Ho3 : owned_run run_id (w_db w3)) by by eapply owned_run_steps.
  destruct (reached || _).
  { yields_step. eapply yields_mono; [by apply complete_scan_records|]. intros ? w' H'. by yields_steps. }
  destruct (page_next_token page); [|yields_step; apply yields_any; intros ? w'; yields_steps].
  eapply yields_mono; [by apply IH|]. intros r w' Hrec. destruct Hsome as [x ->].
  unfold scan_recorded in *. destruct r as [[id wm|id|id]|]; try done. destruct Hrec as (-> & Hst & Hwm).
  split_and!; try done. unfold head_of_scan in Hwm. by rewrite Hwm.
Qed.

(** The first page of a scan: the answer to its first request, made once its state was read, its run
    created and the request reserved. *)
Definition first_page (w : W) (page : BookmarkPage) : Prop :=
  ∃ state w0 run_id w1, load_state account env w = (Ok state, w0) ∧
    create_scan_run account env w0 = (Ok run_id, w1) ∧ next_page w1 page.

(** C33. What a finished scan recorded. A completed scan leaves the account's watermark at the one it
    returned, which is the least, in text order, of the provider ids on the scan's first page, the one
    that answered its first request, however many pages followed. (The source and the scan's
    specification call it the newest observed identity; the code takes the first id of a page that
    normalization sorts ascending as text.) A scan that ran into its page cap leaves the account needing
    a full snapshot; while it does, the scheduler selects one, every scan is refused without a request
    or a change, and a completed snapshot lifts it. *)
Theorem scan_outcomes_are_recorded (w : W) :
  yields env (run_scan service source account) (λ r w',
    match r with
    | Some (ScanCompleted _ watermark) => (scan_state account (w_db w')).1 = watermark ∧
        ∃ page normalized id, first_page w page ∧ normalize (page_envelope page) = Ok normalized ∧
          watermark = Some id ∧ id ∈ page_ids normalized ∧
          ∀ other, other ∈ page_ids normalized → str_leb id other = true
    | Some (RequiresFullSnapshot _) => (scan_state account (w_db w')).2 = true
    | _ => True
    end) w ∧
  (quiet env → (scan_state account (w_db w)).2 = true →
    (scheduled_scan SCHEDULED_BOOKMARK_SCAN_COMMAND account env w).1 = Ok FullSnapshot ∧
    ∃ w', run_scan service source account env w = (Err RunUnavailable, w') ∧ w_db w' = w_db w ∧ silent w w') ∧
  (∀ run now d d', CompletionEffect account run now d d' → (scan_state account d').2 = false).
Proof.
  split_and!.
  - unfold yields, wp. destruct (run_scan service source account env w) as [[r|e] w'] eqn:Erun; [|done].
    unfold run_scan in Erun. unfold bind at 1 in Erun.
    destruct (load_state account env w) as [[[watermark full]|e] w0] eqn:El; [|done].
    destruct full; [done|]. unfold bind at 1 in Erun.
    destruct (create_scan_run account env w0) as [[run_id|e] w1] eqn:Ec; [|done].
    assert (Ho : owned_run run_id (w_db w1)).
    { revert Ec. assert (Hy : yields env (create_scan_run account) (λ id w', owned_run id (w_db w')) w0); [|intros Ec;
        unfold yields, wp in Hy; by rewrite Ec in Hy].
      unfold create_scan_run. yields_steps. intros id d. unfold insert_run. case_bool_decide; [|done].
      unfold insert_new. destruct (sync_runs _ !! _) eqn:E; [done|]. cbn [mbind option_bind].
      intros [= <- <-]. yields_steps. eexists. cbn [w_db set_db tick]. simpl. by rewrite lookup_insert_eq. }
    pose proof (scan_pages_recorded (scan_rounds service) watermark run_id None None 0 0 w1 Ho) as Hrec.
    unfold yields, wp in Hrec. rewrite Erun in Hrec. cbn [fst snd] in *. destruct r as [[]|]; try done; [|by apply Hrec].
    destruct Hrec as (_ & Hst & page & Hnext & normalized & id & Hn & Hw & Hin & Hleast). split; [done|].
    exists page, normalized, id. split; [|done]. exists (watermark, false), w0, run_id, w1. done.
  - intros Hq Hflag. destruct w as [d t l]. cbn [w_db] in Hflag. unfold scheduled_scan, run_scan, load_state.
    rewrite String.eqb_refl. cbn [negb]. run_quiet Hq. rewrite Hflag. split; [done|].
    destruct (scan_state account d) as [watermark full]. simpl in Hflag. subst full. by eexists.
  - intros run now d d' He. unfold scan_state. rewrite (ce_incremental _ _ _ _ _ He), lookup_alter_eq.
    by destruct (bookmark_incremental_state d !! account).
Qed.
End ScanRecords.

(** ** Concrete scans *)
Module ScanSamples.
Import SampleChrono SampleContracts ArticleSamples SocialSamples SnapshotSamples.

Definition sample_scanner : IncrementalScanService := mkIncrementalService sample_gate 2 5.

(** The first scan of an account takes one page; its watermark is the least id of the page. *)
Definition first_scan : result (option IncrementalOutcome) SnapshotError * W :=
  run_scan sample_scanner sample_source 1 (calm 5) sample_world.
Example first_scan_completes :
  match first_scan.1 with
  | Ok (Some (ScanCompleted _ (Some watermark))) =>
      match normalize NormalizeSamples.sample_envelope with
      | Ok b => head (page_ids b) = Some watermark
      | Err _ => False
      end
  | _ => False
  end ∧ length (w_log first_scan.2) = 1%nat.
Proof. vm_compute. done. Qed.

(** A scan whose watermark is not on the first two pages runs into its page cap. *)
Definition gap_db : Db :=
  on_bookmark_incremental_state
    (insert 1 (mkIncrementalState (Some "lost"%string) false "completed" None 0)) sample_db.
Definition endless_source : BookmarkPageSource := λ n, Ok (sample_page (Some "next"%string)).
Definition gap_scan : result (option IncrementalOutcome) SnapshotError * W :=
  run_scan sample_scanner endless_source 1 (calm 5) (mkWorld gap_db 0 []).
Example gap_scan_asks_for_a_snapshot :
  match gap_scan.1 with Ok (Some (RequiresFullSnapshot _)) => True | _ => False end ∧
  (scheduled_scan SCHEDULED_BOOKMARK_SCAN_COMMAND 1 (calm 5) gap_scan.2).1 = Ok FullSnapshot.
Proof. vm_compute. done. Qed.

Lemma scan_only_observes_witness :
  guar (Ev:=Event) (calm 5) (on_db (ScanSteps 1)) (run_scan sample_scanner sample_source 1).
Proof.
  apply (scan_only_observes sample_scanner sample_source 1 (calm 5)).
  apply calm_rely. typeclasses eauto.
Defined.

Lemma scan_outcomes_are_recorded_witness :
  (∃ run_id id page normalized, first_scan.1 = Ok (Some (ScanCompleted run_id (Some id))) ∧
     (scan_state 1 (w_db first_scan.2)).1 = Some id ∧
     first_page sample_scanner sample_source 1 (calm 5) sample_world page ∧
     normalize (page_envelope page) = Ok normalized ∧ id ∈ page_ids normalized) ∧
  ∃ w', run_scan sample_scanner endless_source 1 (calm 5) gap_scan.2 = (Err RunUnavailable, w') ∧
        w_db w' = w_db gap_scan.2 ∧ silent gap_scan.2 w'.
Proof.
  assert (Hr : rely (Ev:=Event) (calm 5) (on_db (ScanSteps 1))) by (apply calm_rely; typeclasses eauto). split.
  - pose proof (proj1 (scan_outcomes_are_recorded sample_scanner sample_source 1 (calm 5) Hr sample_world)) as H.
    unfold yields, wp in H. fold first_scan in H. pose proof first_scan_completes as [Hc _].
    destruct first_scan as [[[[run_id [id|]|?|?]|]|e] w']; cbn [fst snd] in *; try done.
    destruct H as (Hst & page & normalized & id' & Hp & Hn & [= <-] & Hin & _). by exists run_id, id, page, normalized.
  - refine (proj2 (proj1 (proj2 (scan_outcomes_are_recorded sample_scanner endless_source 1 (calm 5) Hr
      gap_scan.2)) _ _)); [apply calm_quiet|vm_compute; reflexivity].
Defined.
End ScanSamples.
