(* ===== verification/Writeback.v ===== *)
(** * Bookmark write-back ([crates/x-sync/src/writeback/types.rs], [writeback/service.rs],
      [writeback/service/support.rs], [writeback/service/completion.rs])

    One explicit approval admits one official mutation: the consent, the idempotency claim, the local
    gates, the isolated budget, one provider call, and the terminal transition of the operation. The
    provider is the interface [BookmarkMutationProvider]. *)
From S2P Require Export Connection Snapshot.

(** ** Vocabulary *)

Inductive BookmarkAction := Add | Remove.

#[export] Instance action_eq_dec : EqDecision BookmarkAction.
Proof. solve_decision. Defined.

Definition action_str (action : BookmarkAction) : string :=
  match action with Add => "add" | Remove => "remove" end.

Record BookmarkWriteConsent := mkBookmarkWriteConsent {
  bwc_id : Z;
  bwc_internal_user_id : Z;
  bwc_account_id : Z;
  bwc_action : BookmarkAction;
  bwc_provider_post_id : string;
  bwc_approved_at : Z;
  bwc_expires_at : Z;
  bwc_surface : string;
}.

Record BookmarkWriteRequest := mkBookmarkWriteRequest {
  wr_internal_user_id : Z;
  wr_account_id : Z;
  wr_consent_id : Z;
  wr_provider_post_id : string;
  wr_idempotency_key : string;
}.

Inductive BookmarkWriteStatus :=
  | Succeeded
  | AlreadySatisfied
  | Uncertain
  | ProjectionPending
  | ReconciledNotCurrent.

Record BookmarkWriteResult := mkBookmarkWriteResult {
  wres_operation_id : Z;
  wres_status : BookmarkWriteStatus;
}.

Inductive BookmarkAdmissionRefusal :=
  | RefusedOwnership
  | RefusedConnection
  | RefusedAuthorization
  | RefusedScope
  | RefusedConsent
  | RefusedBudget.

#[export] Instance refusal_eq_dec : EqDecision BookmarkAdmissionRefusal.
Proof. solve_decision. Defined.

Inductive BookmarkDryRunOutcome :=
  | WouldSubmit (action : BookmarkAction)
  | WouldAlreadySatisfy (action : BookmarkAction)
  | WouldRefuse (class : BookmarkAdmissionRefusal).

Record BookmarkDryRunResult := mkBookmarkDryRunResult {
  dr_outcome : BookmarkDryRunOutcome;
  dr_evaluated_at : Z;
  dr_observed_at : option Z;
  dr_budget_reset_at : option Z;
  dr_advisory : bool;
}.

(** A validated request id of a provider response. *)
Record BookmarkProviderEvidence := mkEvidence { request_id : option string }.

Inductive BookmarkProviderError :=
  | ProviderUnavailable
  | CredentialUnavailable
  | CredentialScopeRequired
  | CredentialInvalid
  | Transient
  | AuthorizationLost (evidence : BookmarkProviderEvidence)
  | RateLimited (reset_epoch_seconds : option Z) (evidence : BookmarkProviderEvidence)
  | DefiniteRefusal (status : Z) (evidence : BookmarkProviderEvidence)
  | ProviderUncertain (status : option Z) (evidence : BookmarkProviderEvidence).

Inductive BookmarkWritebackError :=
  | OwnershipMismatch
  | ConnectionInactive
  | WriteAuthorizationRequired
  | WriteScopeRequired
  | ConsentRequired
  | IdempotencyConflict
  | OperationInProgress
  | InvalidIdempotencyKey
  | InvalidTarget
  | InvalidSurface
  | InvalidApprovalInstant
  | WriteBudget (e : BudgetError)
  | InvalidBudgetEvidence
  | WriteProvider (e : BookmarkProviderError)
  | WriteQuery.

(** ** The provider seam *)

Class BookmarkMutationProvider := {
  mutate_bookmark (action : BookmarkAction) (account : Z) (provider_post_id : string) :
    Prog BookmarkProviderError BookmarkProviderEvidence;
}.

(** A provider only reads the database and sends at most one request. *)
Class MutationProviderLaws `{BookmarkMutationProvider} : Prop := {
  mutate_frame env (R : relation Db) action account post :
    PreOrder R → rely (Ev:=Event) env (on_db R) →
    guar env (on_db R) (mutate_bookmark action account post);
  mutate_once env action account post (w : W) :
    wp env (mutate_bookmark action account post) (λ _ w',
      w_log w' = w_log w ∨
      ∃ http_method url token tweet,
        w_log w' = w_log w ++ [SendBookmark http_method url token tweet]) w;
}.

(** [DateTime::to_rfc3339], a rendering of the [chrono] crate. *)
Class Rfc3339 := { to_rfc3339 : Z → string }.

(** ** Validation *)

Definition digits (s : string) : bool := all_chars is_ascii_digit s.

(** [validate_provider_post_id]. *)
Definition valid_provider_post_id (s : string) : bool :=
  in_range 1 19 (Z.of_nat (String.length s)) && digits s.

(** [ConsentSurfaceId::parse]. *)
Definition surface_first (c : ascii) : bool := is_ascii_lower c || is_ascii_digit c.
Definition surface_char (c : ascii) : bool :=
  surface_first c || Ascii.eqb c "." || Ascii.eqb c "_" || Ascii.eqb c "-".
Definition parse_surface (value : string) : result string BookmarkWritebackError :=
  let first_valid := match value with String c _ => surface_first c | EmptyString => false end in
  let rest_valid := match value with String _ rest => all_chars surface_char rest | EmptyString => true end in
  if bool_decide (Z.of_nat (String.length value) ≤ 64) && first_valid && rest_valid
  then Ok value else Err InvalidSurface.

Definition valid_idempotency_key (key : string) : bool :=
  negb (String.eqb key "") && bool_decide (Z.of_nat (String.length key) ≤ 256).

(** ** Classifications *)

Inductive OperationClaim :=
  | ClaimExecute (operation_id : Z)
  | ClaimReplay (result : BookmarkWriteResult)
  | ClaimInProgress (operation_id : Z).

Inductive LocalAdmission :=
  | AdmittedLocally (budget_reset_at : Z)
  | LocallySatisfied (observed_at : Z)
  | Refused (class : BookmarkAdmissionRefusal) (reset_at : option Z).

Definition stored_write_status (status : string) : option BookmarkWriteStatus :=
  if String.eqb status "succeeded" || String.eqb status "reconciled_succeeded" then Some Succeeded
  else if String.eqb status "projection_pending" then Some ProjectionPending
  else if String.eqb status "uncertain" then Some Uncertain
  else if String.eqb status "reconciled_not_current" then Some ReconciledNotCurrent
  else None.

Definition audit_ordinal (event_class : string) : Z :=
  if String.eqb event_class "request_received" then 1
  else if existsb (String.eqb event_class) ["gate_admitted"; "gate_refused"; "budget_refused"]%string then 2
  else if String.eqb event_class "provider_attempted" then 3
  else if String.eqb event_class "provider_classified" then 4
  else if existsb (String.eqb event_class) ["projection_reconciled"; "outcome_uncertain"]%string then 5
  else if String.eqb event_class "operation_completed" then 6
  else if existsb (String.eqb event_class)
            ["idempotent_replay"; "idempotency_conflict"; "dry_run_completed"]%string then 7
  else if String.eqb event_class "snapshot_reconciled" then 8
  else 9.

Definition admission_refusal_error (refusal : BookmarkAdmissionRefusal) (reset_at : option Z) :
    BookmarkWritebackError :=
  match refusal with
  | RefusedOwnership => OwnershipMismatch
  | RefusedConnection => ConnectionInactive
  | RefusedAuthorization => WriteAuthorizationRequired
  | RefusedScope => WriteScopeRequired
  | RefusedConsent => ConsentRequired
  | RefusedBudget =>
      match reset_at with
      | Some reset_at => WriteBudget (Exhausted reset_at)
      | None => InvalidBudgetEvidence
      end
  end.

Definition dry_run_outcome_token (outcome : BookmarkDryRunOutcome) : string :=
  match outcome with
  | WouldSubmit Add => "would_add"
  | WouldSubmit Remove => "would_remove"
  | WouldAlreadySatisfy Add => "already_added"
  | WouldAlreadySatisfy Remove => "already_removed"
  | WouldRefuse RefusedOwnership => "refused_ownership"
  | WouldRefuse RefusedConnection => "refused_connection"
  | WouldRefuse RefusedAuthorization => "refused_authorization"
  | WouldRefuse RefusedScope => "refused_scope"
  | WouldRefuse RefusedConsent => "refused_consent"
  | WouldRefuse RefusedBudget => "refused_budget"
  end.

(** The outcome text [refuse_operation] stores. *)
Definition refusal_outcome (class : BookmarkAdmissionRefusal) : string :=
  match class with
  | RefusedOwnership => "ownership_mismatch"
  | RefusedConnection => "connection_inactive"
  | RefusedAuthorization => "write_authorization_required"
  | RefusedScope => "write_scope_required"
  | RefusedConsent => "consent_required"
  | RefusedBudget => "budget_exhausted"
  end.

Definition required_write_scopes : list string :=
  ["users.read"; "tweet.read"; "bookmark.read"; "offline.access"; "bookmark.write"].

Definition covers_required (scopes : list string) : bool :=
  forallb (λ scope, existsb (String.eqb scope) scopes) required_write_scopes.

(** ** The service *)

Section Service.
Context {ch : Chrono} {ct : Contracts} {cr : Crypto} {rf : Rfc3339} {mp : BookmarkMutationProvider}.

(** [fingerprint_parts]: a domain prefix, then every part behind its length. *)
Definition fingerprint_domain : string := "ratatoskr-x-bookmark-write" +:+ String (byte 0) "".
Definition fingerprint_encoding (parts : list string) : string :=
  fold_left (λ out part, out +:+ be_bytes 8 (Z.of_nat (String.length part)) +:+ part) parts
    fingerprint_domain.
Definition fingerprint_parts (parts : list string) : string := hex (sha256 (fingerprint_encoding parts)).
Definition request_parts (request : BookmarkWriteRequest) (action : BookmarkAction) (mode : string) :
    list string :=
  [uuid_text (wr_internal_user_id request); uuid_text (wr_account_id request); action_str action;
   wr_provider_post_id request; uuid_text (wr_consent_id request); mode].
Definition request_fingerprint (request : BookmarkWriteRequest) (action : BookmarkAction)
    (mode : string) : string := fingerprint_parts (request_parts request action mode).

(** [provider_failure_evidence]. *)
Definition provider_failure_evidence (error : BookmarkProviderError) :
    string * option string * option Z :=
  match error with
  | ProviderUnavailable => ("provider_unavailable"%string, None, None)
  | CredentialUnavailable => ("credential_unavailable"%string, None, None)
  | CredentialScopeRequired => ("credential_scope_required"%string, None, None)
  | CredentialInvalid => ("credential_invalid"%string, None, None)
  | Transient => ("transient_before_contact"%string, None, None)
  | AuthorizationLost evidence => ("authorization_lost"%string, request_id evidence, None)
  | RateLimited reset evidence =>
      ("rate_limited"%string, request_id evidence, seconds ← reset; from_timestamp seconds)
  | DefiniteRefusal _ evidence => ("definite_refusal"%string, request_id evidence, None)
  | ProviderUncertain _ evidence => ("uncertain"%string, request_id evidence, None)
  end.

(** *** Audit rows *)

(** [append_operation_audit_details]: one row for an operation that exists. The surface is the
    consent's; the first byte of the row's random id is its ordinal. *)
Definition operation_audit (operation_id : Z) (event_class : string) (now : Z) (details : Value)
    (o : WriteOperation) (surface : string) (provider_request_id : option string) : AuditEvent :=
  mkAuditEvent (Some operation_id) (wo_consent_id o) (wo_account_id o) (wo_internal_user_id o)
    (wo_action o) (wo_provider_post_id o) surface event_class (audit_ordinal event_class) now
    (Some (uuid_text operation_id)) (Some (wo_idempotency_digest o)) provider_request_id details.

Definition append_audit (rows : list AuditEvent) : Db → Db :=
  on_bookmark_write_audit_events (λ log, log ++ rows).

Definition consent_surface (o : WriteOperation) (d : Db) : option string :=
  id ← wo_consent_id o; wc_surface <$> bookmark_write_consents d !! id.

Definition append_audit_row (operation_id : Z) (event_class : string) (now : Z) (details : Value)
    (d : Db) : Db :=
  match bookmark_write_operations d !! operation_id with
  | Some o =>
      append_audit [operation_audit operation_id event_class now details o
                      (default "unknown"%string (consent_surface o d)) (wo_provider_request_id o)] d
  | None => d
  end.

Definition append_operation_audit_details (operation_id : Z) (event_class : string) (details : Value) :
    Prog BookmarkWritebackError unit :=
  let! now := clock_now in
  on_pool (execute WriteQuery (append_audit_row operation_id event_class now details)).

Definition append_operation_audit (operation_id : Z) (event_class : string) :
    Prog BookmarkWritebackError unit :=
  append_operation_audit_details operation_id event_class (obj []).

Definition append_conflict_audit (operation_id : Z) : Prog BookmarkWritebackError unit :=
  append_operation_audit operation_id "idempotency_conflict".
Definition append_replay_audit (operation_id : Z) : Prog BookmarkWritebackError unit :=
  append_operation_audit operation_id "idempotent_replay".

(** [append_admission_audit]: the two rows of an admitted operation, in one statement. *)
Definition admission_rows (operation_id now cost : Z) (o : WriteOperation) (surface : string) :
    list AuditEvent :=
  [operation_audit operation_id "gate_admitted" now (obj []) o surface None;
   operation_audit operation_id "provider_attempted" now
     (obj [("budget_class"%string, Str "bookmark_write");
           ("cost"%string, Number (default i32_max (i32_try_from cost)))]) o surface None].
Definition append_admission_audit (operation_id now cost : Z) (d : Db) : Db :=
  match bookmark_write_operations d !! operation_id with
  | Some o =>
      match consent_surface o d with
      | Some surface => append_audit (admission_rows operation_id now cost o surface) d
      | None => d
      end
  | None => d
  end.

(** *** Ownership and authority *)

(** [account_state]. *)
Definition owned_account_state (internal_user account : Z) : Prog BookmarkWritebackError string :=
  let! state := on_pool (select WriteQuery (λ d,
    row ← accounts d !! account;
    if bool_decide (acc_internal_user_id row = internal_user) then Some (acc_state row) else None)) in
  of_result (ok_or state OwnershipMismatch).

(** [require_write_authority]. *)
Definition require_write_authority (account : Z) : Prog BookmarkWritebackError unit :=
  let! credential_scopes := on_pool (select WriteQuery (λ d,
    (λ row, crd_granted_scopes row.2) <$> newest_credential (is_active_of account) d)) in
  let! credential_scopes := of_result (ok_or credential_scopes WriteAuthorizationRequired) in
  let! authorization := on_pool (select WriteQuery (λ d, bookmark_write_authorizations d !! account)) in
  let! authorization := of_result (ok_or authorization WriteAuthorizationRequired) in
  if negb (String.eqb (wa_status authorization) "active") then throw WriteAuthorizationRequired
  else if covers_required credential_scopes && covers_required (wa_granted_scopes authorization)
  then ret tt else throw WriteScopeRequired.

(** *** Consents *)

(** The consent a request names, while it is live for exactly this request. *)
Definition consent_admits (request : BookmarkWriteRequest) (action : BookmarkAction) (now : Z)
    (c : WriteConsent) : bool :=
  bool_decide (wc_internal_user_id c = wr_internal_user_id request) &&
  bool_decide (wc_account_id c = wr_account_id request) &&
  String.eqb (wc_action c) (action_str action) &&
  String.eqb (wc_provider_post_id c) (wr_provider_post_id request) &&
  bool_decide (wc_consumed_at c = None) && bool_decide (now < wc_expires_at c).
Definition live_consent (request : BookmarkWriteRequest) (action : BookmarkAction) (now : Z) (d : Db) :
    bool :=
  match bookmark_write_consents d !! wr_consent_id request with
  | Some c => consent_admits request action now c
  | None => false
  end.

(** The constraints of the consent table. *)
Definition insert_consent (id : Z) (row : WriteConsent) (d : Db) : option (unit * Db) :=
  if bool_decide (is_Some (accounts d !! wc_account_id row)) &&
     bool_decide (wc_approved_at row < wc_expires_at row) &&
     valid_provider_post_id (wc_provider_post_id row)
  then
    table ← insert_new id row (bookmark_write_consents d);
    Some (tt, on_bookmark_write_consents (λ _, table) d)
  else None.

Definition consent_recorded_row (id now : Z) (c : WriteConsent) : AuditEvent :=
  mkAuditEvent None (Some id) (wc_account_id c) (wc_internal_user_id c) (wc_action c)
    (wc_provider_post_id c) (wc_surface c) "consent_recorded" 0 now None None None
    (obj [("approved_at"%string, Str (to_rfc3339 (wc_approved_at c)));
          ("expires_at"%string, Str (to_rfc3339 (wc_expires_at c)))]).

(** [BookmarkWritebackService]. *)
Record BookmarkWritebackService := mkWritebackService {
  ws_budget : BudgetGate;
  ws_consent_lifetime : Z;
}.

(** [BookmarkWritebackService::new]. *)
Definition new_writeback_service (budget : BudgetGate) (consent_lifetime_seconds : Z) :
    result BookmarkWritebackService BookmarkWritebackError :=
  match try_seconds consent_lifetime_seconds with
  | None => Err InvalidApprovalInstant
  | Some lifetime =>
      if bool_decide (lifetime ≤ 0) then Err InvalidApprovalInstant
      else Ok (mkWritebackService budget lifetime)
  end.

Context (service : BookmarkWritebackService).

(** [record_consent]. The surface is already parsed. *)
Definition record_consent (internal_user account : Z) (action : BookmarkAction)
    (provider_post_id : string) (approved_at : Z) (surface : string) :
    Prog BookmarkWritebackError BookmarkWriteConsent :=
  if negb (valid_provider_post_id provider_post_id) then throw InvalidTarget
  else
    let! state := owned_account_state internal_user account in
    if negb (String.eqb state "connected") then throw ConnectionInactive
    else
      let! now := clock_now in
      let! expires_at := of_result (ok_or (checked_add_signed approved_at (ws_consent_lifetime service))
                                      InvalidApprovalInstant) in
      if bool_decide (now < approved_at ∨ expires_at ≤ now) then throw InvalidApprovalInstant
      else
        transaction WriteQuery (
          let! id := new_uuid in
          let row := mkWriteConsent account internal_user (action_str action) provider_post_id
                       approved_at expires_at surface None in
          do! stmt WriteQuery (insert_consent id row) in
          do! execute WriteQuery (append_audit [consent_recorded_row id now row]) in
          ret (Commit (mkBookmarkWriteConsent id internal_user account action provider_post_id
                         approved_at expires_at surface))).

(** *** Idempotency *)

Definition operation_of (account : Z) (digest : string) (d : Db) : option (Z * WriteOperation) :=
  find_row (λ _ o, bool_decide (wo_account_id o = account) &&
                   String.eqb (wo_idempotency_digest o) digest) (bookmark_write_operations d).

(** The claiming insert: nothing happens when the account already used the key. *)
Definition claimed_operation (request : BookmarkWriteRequest) (action : BookmarkAction) (mode : string)
    (now : Z) (d : Db) : WriteOperation :=
  mkWriteOperation (wr_account_id request) (wr_internal_user_id request)
    (const (wr_consent_id request) <$> bookmark_write_consents d !! wr_consent_id request)
    (action_str action) (wr_provider_post_id request) mode (sha256_hex (wr_idempotency_key request))
    (request_fingerprint request action mode) "received" None None None None now.
Definition insert_operation (id : Z) (request : BookmarkWriteRequest) (action : BookmarkAction)
    (mode : string) (now : Z) (d : Db) : option (option Z * Db) :=
  match operation_of (wr_account_id request) (sha256_hex (wr_idempotency_key request)) d with
  | Some _ => Some (None, d)
  | None =>
      if bool_decide (is_Some (accounts d !! wr_account_id request)) then
        table ← insert_new id (claimed_operation request action mode now d)
                  (bookmark_write_operations d);
        Some (Some id, on_bookmark_write_operations (λ _, table) d)
      else None
  end.

(** [claim_operation]. *)
Definition claim_operation (request : BookmarkWriteRequest) (action : BookmarkAction) (mode : string) :
    Prog BookmarkWritebackError OperationClaim :=
  let! claimed := on_pool (
    let! id := new_uuid in
    let! now := pg_now in
    stmt WriteQuery (insert_operation id request action mode now)) in
  match claimed with
  | Some operation_id =>
      do! append_operation_audit operation_id "request_received" in
      ret (ClaimExecute operation_id)
  | None =>
      let! existing := on_pool (stmt WriteQuery (λ d,
        row ← operation_of (wr_account_id request) (sha256_hex (wr_idempotency_key request)) d;
        Some (row, d))) in
      let '(operation_id, o) := existing in
      if negb (String.eqb (wo_request_fingerprint o) (request_fingerprint request action mode)) then
        do! append_conflict_audit operation_id in
        throw IdempotencyConflict
      else
        match stored_write_status (wo_status o) with
        | Some status =>
            do! append_replay_audit operation_id in
            ret (ClaimReplay (mkBookmarkWriteResult operation_id status))
        | None => ret (ClaimInProgress operation_id)
        end
  end.

(** [wait_for_operation]: the sleeps between polls are not modelled. *)
Definition MAX_POLLS : nat := 500.
Fixpoint poll_operation (polls : nat) (operation_id : Z) :
    Prog BookmarkWritebackError BookmarkWriteResult :=
  match polls with
  | O => throw OperationInProgress
  | S polls =>
      let! status := on_pool (select WriteQuery (λ d,
        wo_status <$> bookmark_write_operations d !! operation_id)) in
      match status ≫= stored_write_status with
      | Some status =>
          do! append_replay_audit operation_id in
          ret (mkBookmarkWriteResult operation_id status)
      | None => poll_operation polls operation_id
      end
  end.
Definition wait_for_operation (operation_id : Z) : Prog BookmarkWritebackError BookmarkWriteResult :=
  poll_operation MAX_POLLS operation_id.

(** *** Local admission *)

Definition observation_of (request : BookmarkWriteRequest) (d : Db) : option Bookmark :=
  post ← posts d !! wr_provider_post_id request;
  bookmarks_of (wr_account_id request) d !! pst_id post.

(** What a stored observation already proves. *)
Definition locally_satisfied (action : BookmarkAction) (observation : option Bookmark) : option Z :=
  b ← observation;
  match action, bm_observed_removed_at b with
  | Add, None => Some (bm_last_observed_saved_at b)
  | Remove, Some observed_at => Some observed_at
  | _, _ => None
  end.

(** The last gates of [evaluate_local]: the consent, the stored observation and the budget. *)
Definition evaluate_gates (request : BookmarkWriteRequest) (action : BookmarkAction) (evaluated_at : Z) :
    Prog BookmarkWritebackError LocalAdmission :=
  let! consent_exists := on_pool (select WriteQuery (live_consent request action evaluated_at)) in
  if negb consent_exists then ret (Refused RefusedConsent None)
  else
    let! observation := on_pool (select WriteQuery (observation_of request)) in
    match locally_satisfied action observation with
    | Some observed_at => ret (LocallySatisfied observed_at)
    | None =>
        let! inspection := map_err WriteBudget (inspect (ws_budget service) (wr_account_id request) 1) in
        ret (if eligible inspection then AdmittedLocally (reset_at inspection)
             else Refused RefusedBudget (Some (reset_at inspection)))
    end.

(** [evaluate_local]. *)
Definition evaluate_local (request : BookmarkWriteRequest) (action : BookmarkAction) (evaluated_at : Z) :
    Prog BookmarkWritebackError LocalAdmission :=
  let! state := attempt (owned_account_state (wr_internal_user_id request) (wr_account_id request)) in
  match state with
  | Err OwnershipMismatch => ret (Refused RefusedOwnership None)
  | Err error => throw error
  | Ok state =>
      if negb (String.eqb state "connected") then ret (Refused RefusedConnection None)
      else
        let! authority := attempt (require_write_authority (wr_account_id request)) in
        match authority with
        | Err WriteAuthorizationRequired => ret (Refused RefusedAuthorization None)
        | Err WriteScopeRequired => ret (Refused RefusedScope None)
        | Err error => throw error
        | Ok _ => evaluate_gates request action evaluated_at
        end
  end.

(** *** Transitions of an operation *)

Definition with_outcome (status : string) (outcome request_id : option string)
    (reset observed : option Z) (now : Z) (o : WriteOperation) : WriteOperation :=
  mkWriteOperation (wo_account_id o) (wo_internal_user_id o) (wo_consent_id o) (wo_action o)
    (wo_provider_post_id o) (wo_execution_mode o) (wo_idempotency_digest o)
    (wo_request_fingerprint o) status outcome request_id reset observed now.

(** [update ... where id = $1 and status = <from>]. *)
Definition transition (operation_id : Z) (from : string) (f : WriteOperation → WriteOperation) : Db → Db :=
  on_bookmark_write_operations
    (alter (λ o, if String.eqb (wo_status o) from then f o else o) operation_id).

Definition satisfied_operation (status outcome : string) (observed : option Z) (now : Z) (o : WriteOperation) :=
  with_outcome status (Some outcome) (wo_provider_request_id o) (wo_rate_limit_reset_at o) observed now o.
Definition refused_operation (outcome : string) (reset : option Z) (now : Z) (o : WriteOperation) :=
  with_outcome "refused" (Some outcome) (wo_provider_request_id o) reset (wo_projection_observed_at o) now o.
Definition dry_run_operation (r : BookmarkDryRunResult) (o : WriteOperation) :=
  with_outcome "dry_run" (Some (dry_run_outcome_token (dr_outcome r))) (wo_provider_request_id o)
    (dr_budget_reset_at r) (dr_observed_at r) (dr_evaluated_at r) o.
Definition in_flight_operation (now : Z) (o : WriteOperation) :=
  with_outcome "provider_in_flight" (wo_outcome o) (wo_provider_request_id o)
    (wo_rate_limit_reset_at o) (wo_projection_observed_at o) now o.
Definition confirmed_operation (projected : bool) (evidence : BookmarkProviderEvidence) (now : Z)
    (o : WriteOperation) :=
  with_outcome (if projected then "succeeded" else "projection_pending") (Some "confirmed"%string)
    (request_id evidence) (wo_rate_limit_reset_at o) (if projected then Some now else None) now o.
Definition uncertain_operation (evidence : BookmarkProviderEvidence) (now : Z) (o : WriteOperation) :=
  with_outcome "uncertain" (Some "uncertain"%string) (request_id evidence) (wo_rate_limit_reset_at o)
    (wo_projection_observed_at o) now o.
Definition failed_operation (outcome : string) (request : option string) (reset : option Z) (now : Z)
    (o : WriteOperation) :=
  with_outcome "failed" (Some outcome) request reset (wo_projection_observed_at o) now o.

(** [complete_operation]. *)
Definition complete_operation (operation_id : Z) (status outcome : string) (observed_at : option Z) :
    Prog BookmarkWritebackError unit :=
  let! now := clock_now in
  do! on_pool (execute WriteQuery
        (transition operation_id "received" (satisfied_operation status outcome observed_at now))) in
  if String.eqb outcome "already_satisfied" then
    do! append_operation_audit_details operation_id "gate_admitted" (obj [("result"%string, Str outcome)]) in
    do! append_operation_audit_details operation_id "projection_reconciled"
          (obj [("projection"%string, Str outcome)]) in
    append_operation_audit_details operation_id "operation_completed" (obj [("result"%string, Str outcome)])
  else ret tt.

(** [refuse_operation]. *)
Definition refusal_details (class : BookmarkAdmissionRefusal) (reset_at : option Z) : Value :=
  obj (("refusal"%string, Str (refusal_outcome class)) ::
       match reset_at with Some t => [("reset_at"%string, Str (to_rfc3339 t))] | None => [] end).
Definition refusal_event (class : BookmarkAdmissionRefusal) : string :=
  if bool_decide (class = RefusedBudget) then "budget_refused" else "gate_refused".
Definition refuse_operation (operation_id : Z) (class : BookmarkAdmissionRefusal) (reset_at : option Z) :
    Prog BookmarkWritebackError unit :=
  let! now := clock_now in
  do! on_pool (execute WriteQuery
        (transition operation_id "received" (refused_operation (refusal_outcome class) reset_at now))) in
  append_operation_audit_details operation_id (refusal_event class) (refusal_details class reset_at).

(** [complete_dry_run]. *)
Definition dry_run_gate (r : BookmarkDryRunResult) : string * Value :=
  match dr_outcome r with
  | WouldRefuse RefusedBudget =>
      ("budget_refused"%string,
       obj [("mode"%string, Str "dry_run");
            ("reset_at"%string, opt_str (to_rfc3339 <$> dr_budget_reset_at r))])
  | WouldRefuse refusal =>
      ("gate_refused"%string,
       obj [("mode"%string, Str "dry_run");
            ("refusal"%string, Str (dry_run_outcome_token (WouldRefuse refusal)))])
  | _ => ("gate_admitted"%string, obj [("mode"%string, Str "dry_run")])
  end.
Definition complete_dry_run (operation_id : Z) (r : BookmarkDryRunResult) :
    Prog BookmarkWritebackError unit :=
  do! on_pool (execute WriteQuery (transition operation_id "received" (dry_run_operation r))) in
  let '(gate_event, gate_details) := dry_run_gate r in
  do! append_operation_audit_details operation_id gate_event gate_details in
  append_operation_audit operation_id "dry_run_completed".

(** [complete_uncertain]. *)
Definition complete_uncertain (operation_id : Z) (evidence : BookmarkProviderEvidence) :
    Prog BookmarkWritebackError unit :=
  let! now := clock_now in
  do! on_pool (execute WriteQuery
        (transition operation_id "provider_in_flight" (uncertain_operation evidence now))) in
  for_each ["provider_classified"; "outcome_uncertain"; "operation_completed"]%string
    (λ event_class, append_operation_audit_details operation_id event_class
                      (obj [("result"%string, Str "uncertain")])).

(** [complete_provider_failure]. *)
Definition complete_provider_failure (operation_id : Z) (error : BookmarkProviderError) :
    Prog BookmarkWritebackError unit :=
  let '(outcome, request, reset) := provider_failure_evidence error in
  let! now := clock_now in
  do! on_pool (execute WriteQuery
        (transition operation_id "provider_in_flight" (failed_operation outcome request reset now))) in
  do! append_operation_audit_details operation_id "provider_classified" (obj [("result"%string, Str outcome)]) in
  append_operation_audit_details operation_id "operation_completed" (obj [("result"%string, Str outcome)]).

(** *** The projection of a confirmed write *)

Definition saved_by (operation_id now : Z) (b : Bookmark) : Bookmark :=
  mkBookmark (bm_first_observed_saved_at b) now None None (Some operation_id) (Some now) None
    (bm_last_incremental_run_id b).
Definition first_saved_by (operation_id now : Z) : Bookmark :=
  mkBookmark now now None None (Some operation_id) (Some now) None None.
Definition removed_by (operation_id now : Z) (b : Bookmark) : Bookmark :=
  mkBookmark (bm_first_observed_saved_at b) (bm_last_observed_saved_at b) (Some now) None
    (bm_last_write_operation_id b) (bm_last_write_observed_at b) (Some operation_id)
    (bm_last_incremental_run_id b).

(** The write of [project_confirmed_bookmark], with whether it touched a row. *)
Definition project_write (operation_id account post_id : Z) (action : BookmarkAction) (now : Z) (d : Db) :
    option (bool * Db) :=
  match action with
  | Add =>
      Some (true, on_bookmarks (set_rows account
        (upsert post_id (first_saved_by operation_id now) (saved_by operation_id now))) d)
  | Remove =>
      Some (bool_decide (is_Some (bookmarks_of account d !! post_id)),
            on_bookmarks (set_rows account (alter (removed_by operation_id now) post_id)) d)
  end.
Definition project_confirmed_bookmark (operation_id account : Z) (provider_post_id : string)
    (action : BookmarkAction) (observed_at : Z) : Prog BookmarkWritebackError bool :=
  let! post_id := select WriteQuery (λ d, pst_id <$> posts d !! provider_post_id) in
  match post_id with
  | None => ret false
  | Some post_id => stmt WriteQuery (project_write operation_id account post_id action observed_at)
  end.

(** The three audit rows of a confirmed write, in one statement. *)
Definition confirmed_rows (operation_id now : Z) (evidence : BookmarkProviderEvidence) (projected : bool)
    (o : WriteOperation) (surface : string) : list AuditEvent :=
  (λ event_class, operation_audit operation_id event_class now
     (obj [("result"%string, Str "confirmed");
           ("projection"%string, Str (if projected then "updated" else "pending"))])
     o surface (request_id evidence)) <$>
  ["provider_classified"; "projection_reconciled"; "operation_completed"]%string.
Definition append_confirmed_audit (operation_id now : Z) (evidence : BookmarkProviderEvidence)
    (projected : bool) (d : Db) : Db :=
  match bookmark_write_operations d !! operation_id with
  | Some o =>
      match consent_surface o d with
      | Some surface => append_audit (confirmed_rows operation_id now evidence projected o surface) d
      | None => d
      end
  | None => d
  end.

(** [complete_confirmed]. *)
Definition complete_confirmed (operation_id account : Z) (provider_post_id : string)
    (action : BookmarkAction) (evidence : BookmarkProviderEvidence) :
    Prog BookmarkWritebackError BookmarkWriteStatus :=
  let! observed_at := clock_now in
  transaction WriteQuery (
    let! projected := project_confirmed_bookmark operation_id account provider_post_id action
                        observed_at in
    do! execute WriteQuery (transition operation_id "provider_in_flight"
                              (confirmed_operation projected evidence observed_at)) in
    do! execute WriteQuery (append_confirmed_audit operation_id observed_at evidence projected) in
    ret (Commit (if projected then Succeeded else ProjectionPending))).

(** *** Consuming the consent *)

Definition consumed_consent (now : Z) (c : WriteConsent) : WriteConsent :=
  mkWriteConsent (wc_account_id c) (wc_internal_user_id c) (wc_action c) (wc_provider_post_id c)
    (wc_approved_at c) (wc_expires_at c) (wc_surface c) (Some now).
Definition consume_consent_row (request : BookmarkWriteRequest) (now : Z) : Db → Db :=
  on_bookmark_write_consents (alter (consumed_consent now) (wr_consent_id request)).

(** The transaction of [consume_consent]. *)
Definition consume_transaction (operation_id : Z) (request : BookmarkWriteRequest)
    (action : BookmarkAction) (now : Z) (reservation : Reservation) : Prog BookmarkWritebackError unit :=
  transaction WriteQuery (
    let! locked := select WriteQuery (live_consent request action now) in
    if negb locked then throw ConsentRequired
    else
      do! execute WriteQuery (consume_consent_row request now) in
      do! execute WriteQuery (transition operation_id "received" (in_flight_operation now)) in
      do! execute WriteQuery (append_admission_audit operation_id now (cost reservation)) in
      ret (Commit tt)).

(** [refund_before_provider]. *)
Definition refund_before_provider (account : Z) (reservation : Reservation) :
    Prog BookmarkWritebackError unit :=
  map_err WriteBudget
    (refund (ws_budget service) account (window_start reservation) (cost reservation)).

(** [consume_consent]: every failure refunds the reservation before it is returned. *)
Definition consume_consent (operation_id : Z) (request : BookmarkWriteRequest)
    (action : BookmarkAction) (now : Z) (reservation : Reservation) : Prog BookmarkWritebackError unit :=
  let! consumed := attempt (consume_transaction operation_id request action now reservation) in
  match consumed with
  | Ok _ => ret tt
  | Err error =>
      do! refund_before_provider (wr_account_id request) reservation in
      throw error
  end.

(** *** The live path *)

(** The one provider call of an operation whose consent is consumed, and its terminal transition. *)
Definition submit (operation_id : Z) (request : BookmarkWriteRequest) (action : BookmarkAction) :
    Prog BookmarkWritebackError BookmarkWriteResult :=
  let! outcome := attempt (mutate_bookmark action (wr_account_id request) (wr_provider_post_id request)) in
  match outcome with
  | Ok evidence =>
      let! status := complete_confirmed operation_id (wr_account_id request)
                       (wr_provider_post_id request) action evidence in
      ret (mkBookmarkWriteResult operation_id status)
  | Err (ProviderUncertain _ evidence) =>
      do! complete_uncertain operation_id evidence in
      ret (mkBookmarkWriteResult operation_id Uncertain)
  | Err error =>
      do! complete_provider_failure operation_id error in
      throw (WriteProvider error)
  end.

(** From the budget reservation on. *)
Definition reserve_and_submit (operation_id : Z) (request : BookmarkWriteRequest) (action : BookmarkAction) (now : Z) :
    Prog BookmarkWritebackError BookmarkWriteResult :=
  let! reserved := attempt (reserve (ws_budget service) (wr_account_id request) 1) in
  match reserved with
  | Err (Exhausted reset_at) =>
      do! refuse_operation operation_id RefusedBudget (Some reset_at) in
      throw (WriteBudget (Exhausted reset_at))
  | Err error => throw (WriteBudget error)
  | Ok reservation =>
      do! consume_consent operation_id request action now reservation in
      submit operation_id request action
  end.

(** A claimed operation. *)
Definition run_operation (operation_id : Z) (request : BookmarkWriteRequest) (action : BookmarkAction) :
    Prog BookmarkWritebackError BookmarkWriteResult :=
  let! now := clock_now in
  let! admission := evaluate_local request action now in
  match admission with
  | LocallySatisfied observed_at =>
      do! complete_operation operation_id "succeeded" "already_satisfied" (Some observed_at) in
      ret (mkBookmarkWriteResult operation_id AlreadySatisfied)
  | Refused class reset_at =>
      do! refuse_operation operation_id class reset_at in
      throw (admission_refusal_error class reset_at)
  | AdmittedLocally _ => reserve_and_submit operation_id request action now
  end.

(** [execute]; [add_bookmark] and [remove_bookmark] are its two instances. *)
Definition execute_write (request : BookmarkWriteRequest) (action : BookmarkAction) :
    Prog BookmarkWritebackError BookmarkWriteResult :=
  if negb (valid_provider_post_id (wr_provider_post_id request)) then throw InvalidTarget
  else if negb (valid_idempotency_key (wr_idempotency_key request)) then throw InvalidIdempotencyKey
  else
    let! claim := claim_operation request action "live" in
    match claim with
    | ClaimReplay result => ret result
    | ClaimInProgress operation_id => wait_for_operation operation_id
    | ClaimExecute operation_id => run_operation operation_id request action
    end.

(** *** The dry run *)

Definition dry_run_result (action : BookmarkAction) (evaluated_at : Z) (admission : LocalAdmission) :
    BookmarkDryRunResult :=
  match admission with
  | Refused class reset_at => mkBookmarkDryRunResult (WouldRefuse class) evaluated_at None reset_at true
  | LocallySatisfied observed_at =>
      mkBookmarkDryRunResult (WouldAlreadySatisfy action) evaluated_at (Some observed_at) None true
  | AdmittedLocally budget_reset_at =>
      mkBookmarkDryRunResult (WouldSubmit action) evaluated_at None (Some budget_reset_at) true
  end.

Definition dry_run (request : BookmarkWriteRequest) (action : BookmarkAction) :
    Prog BookmarkWritebackError BookmarkDryRunResult :=
  if negb (valid_provider_post_id (wr_provider_post_id request)) then throw InvalidTarget
  else if negb (valid_idempotency_key (wr_idempotency_key request)) then throw InvalidIdempotencyKey
  else
    let! claim := claim_operation request action "dry_run" in
    match claim with
    | ClaimReplay _ | ClaimInProgress _ => throw OperationInProgress
    | ClaimExecute operation_id =>
        let! evaluated_at := clock_now in
        let! admission := evaluate_local request action evaluated_at in
        let result := dry_run_result action evaluated_at admission in
        do! complete_dry_run operation_id result in
        ret result
    end.
End Service.
