(* ===== verification/WritebackSafety.v ===== *)
(** * The life of a write operation

    What the write-back service ([Writeback.v]) and the snapshot service ([Snapshot.v]) may do to
    operations, consents and audit rows, whatever fails and however they interleave. *)
From S2P Require Export Writeback.

(** ** Steps *)

(** The transitions of an operation's status. *)
Inductive lifecycle : string → string → Prop :=
  | life_refused : lifecycle "received" "refused"
  | life_dry_run : lifecycle "received" "dry_run"
  | life_satisfied : lifecycle "received" "succeeded"
  | life_in_flight : lifecycle "received" "provider_in_flight"
  | life_succeeded : lifecycle "provider_in_flight" "succeeded"
  | life_pending : lifecycle "provider_in_flight" "projection_pending"
  | life_uncertain : lifecycle "provider_in_flight" "uncertain"
  | life_failed : lifecycle "provider_in_flight" "failed"
  | life_reconciled_succeeded : lifecycle "uncertain" "reconciled_succeeded"
  | life_reconciled_not_current : lifecycle "uncertain" "reconciled_not_current".

(** What identifies an operation never changes. *)
Record same_operation (o o' : WriteOperation) : Prop := {
  so_account : wo_account_id o' = wo_account_id o;
  so_user : wo_internal_user_id o' = wo_internal_user_id o;
  so_consent : wo_consent_id o' = wo_consent_id o;
  so_action : wo_action o' = wo_action o;
  so_post : wo_provider_post_id o' = wo_provider_post_id o;
  so_mode : wo_execution_mode o' = wo_execution_mode o;
  so_digest : wo_idempotency_digest o' = wo_idempotency_digest o;
  so_fingerprint : wo_request_fingerprint o' = wo_request_fingerprint o;
}.

#[export] Instance same_operation_preorder : PreOrder same_operation.
Proof. split; [by intros o|]. intros o1 o2 o3 [] []. split; congruence. Qed.

(** A consent changes only by being consumed, once. *)
Definition consent_step (c c' : WriteConsent) : Prop :=
  c' = c ∨ (wc_consumed_at c = None ∧ ∃ t, c' = consumed_consent t c).

Record WriteSteps (d d' : Db) : Prop := {
  wst_operations id o : bookmark_write_operations d !! id = Some o →
    ∃ o', bookmark_write_operations d' !! id = Some o' ∧ same_operation o o' ∧
          rtc lifecycle (wo_status o) (wo_status o');
  wst_consents id c : bookmark_write_consents d !! id = Some c →
    ∃ c', bookmark_write_consents d' !! id = Some c' ∧ consent_step c c';
  wst_audit : ∃ rows, bookmark_write_audit_events d' = bookmark_write_audit_events d ++ rows;
}.

#[export] Instance write_steps_preorder : PreOrder WriteSteps.
Proof.
  split.
  - intros d. split.
    + intros id o H. exists o. by split_and!; [|reflexivity|apply rtc_refl].
    + intros id c H. exists c. split; [done|by left].
    + exists []. by rewrite app_nil_r.
  - intros d1 d2 d3 [O1 C1 [l1 A1]] [O2 C2 [l2 A2]]. split.
    + intros id o (o2 & (o3 & H3 & S3 & L3)%O2 & S2 & L2)%O1. exists o3.
      split_and!; [done|by etrans|by etrans].
    + intros id c (c2 & (c3 & H3 & S3)%C2 & S2)%C1. exists c3. split; [done|].
      destruct S2 as [->|[Hn [t ->]]]; [exact S3|].
      destruct S3 as [->|[Hn' _]]; [right; eauto|]. done.
    + exists (l1 ++ l2). by rewrite A2, A1, app_assoc.
Qed.

(** A step that touches none of the three tables. *)
Lemma write_steps_frame d d' :
  bookmark_write_operations d' = bookmark_write_operations d →
  bookmark_write_consents d' = bookmark_write_consents d →
  bookmark_write_audit_events d' = bookmark_write_audit_events d → WriteSteps d d'.
Proof.
  intros Ho Hc Ha. destruct (reflexivity (R:=WriteSteps) d) as [H1 H2 H3].
  split; by rewrite ?Ho, ?Hc, ?Ha.
Qed.

Lemma write_steps_audit rows d : WriteSteps d (append_audit rows d).
Proof.
  destruct (reflexivity (R:=WriteSteps) d) as [H1 H2 _]. split; [done..|by exists rows].
Qed.

Lemma write_steps_transition id from f d :
  (∀ o, wo_status o = from → same_operation o (f o) ∧ lifecycle from (wo_status (f o))) →
  WriteSteps d (transition id from f d).
Proof.
  intros Hf. destruct (reflexivity (R:=WriteSteps) d) as [H1 H2 H3]. split; [|done..].
  simpl. intros i o Ho. rewrite lookup_alter. case_decide; [subst|by apply H1].
  rewrite Ho. simpl. eexists. split; [done|].
  destruct (String.eqb_spec (wo_status o) from) as [E|]; [|by split; [|apply rtc_refl]].
  destruct (Hf o E) as [? Hl]. split; [done|]. rewrite E. by apply rtc_once.
Qed.

Lemma write_steps_consume id now d :
  (∀ c, bookmark_write_consents d !! id = Some c → wc_consumed_at c = None) →
  WriteSteps d (on_bookmark_write_consents (alter (consumed_consent now) id) d).
Proof.
  intros Hc. destruct (reflexivity (R:=WriteSteps) d) as [H1 H2 H3]. split; [done| |done].
  simpl. intros i c Hi. rewrite lookup_alter. case_decide; [subst|by apply H2].
  rewrite Hi. simpl. eexists. split; [done|]. right. eauto.
Qed.

Section Safety.
Context {ch : Chrono} {ct : Contracts} {ec : EnvelopeCodec} {cr : Crypto} {ac : ArticleContracts}
  {sc : SocialContracts} {ho : HashOrder} {rf : Rfc3339} {mp : BookmarkMutationProvider}
  {mpl : MutationProviderLaws}.

Lemma insert_operation_steps id request action mode now d a d' :
  insert_operation id request action mode now d = Some (a, d') → WriteSteps d d'.
Proof.
  unfold insert_operation, insert_new.
  destruct (operation_of _ _ _); [by intros [= _ <-]|]. case_bool_decide; [|done].
  destruct (bookmark_write_operations d !! id) eqn:E; simpl; [done|]. intros [= _ <-].
  destruct (reflexivity (R:=WriteSteps) d) as [H1 H2 H3]. split; [|done..].
  simpl. intros i o Hi. rewrite lookup_insert_ne by congruence. by apply H1.
Qed.

Lemma insert_consent_steps id row d a d' :
  insert_consent id row d = Some (a, d') → WriteSteps d d'.
Proof.
  unfold insert_consent, insert_new. destruct (_ && _); [|done].
  destruct (bookmark_write_consents d !! id) eqn:E; simpl; [done|]. intros [= _ <-].
  destruct (reflexivity (R:=WriteSteps) d) as [H1 H2 H3]. split; [done| |done].
  simpl. intros i o Hi. rewrite lookup_insert_ne by congruence. by apply H2.
Qed.

Lemma append_row_steps id event_class now details d :
  WriteSteps d (append_audit_row id event_class now details d).
Proof.
  unfold append_audit_row. destruct (bookmark_write_operations d !! id); [apply write_steps_audit|done].
Qed.

Lemma append_admission_steps id now cost d : WriteSteps d (append_admission_audit id now cost d).
Proof.
  unfold append_admission_audit. destruct (bookmark_write_operations d !! id); [|done].
  destruct (consent_surface _ _); [apply write_steps_audit|done].
Qed.

Lemma append_confirmed_steps id now evidence projected d :
  WriteSteps d (append_confirmed_audit id now evidence projected d).
Proof.
  unfold append_confirmed_audit. destruct (bookmark_write_operations d !! id); [|done].
  destruct (consent_surface _ _); [apply write_steps_audit|done].
Qed.

Lemma live_consent_unconsumed request action now d :
  live_consent request action now d = true →
  ∀ c, bookmark_write_consents d !! wr_consent_id request = Some c → wc_consumed_at c = None.
Proof.
  unfold live_consent, consent_admits. intros H c Hc. rewrite Hc in H.
  rewrite !andb_true_iff, !bool_decide_eq_true in H. tauto.
Qed.

Context (env : Env Db) (Hr : rely (Ev:=Event) env (on_db WriteSteps)).

Lemma append_details_guar id event_class details :
  guar env (on_db WriteSteps) (append_operation_audit_details id event_class details).
Proof. unfold append_operation_audit_details. guar_steps. apply append_row_steps. Qed.

Lemma owned_account_guar user account : guar env (on_db WriteSteps) (owned_account_state user account).
Proof. unfold owned_account_state. guar_steps. Qed.

Lemma require_authority_guar account : guar env (on_db WriteSteps) (require_write_authority account).
Proof. unfold require_write_authority. guar_steps. Qed.

Lemma record_consent_guar service user account action post approved_at surface :
  guar env (on_db WriteSteps) (record_consent service user account action post approved_at surface).
Proof.
  unfold record_consent, owned_account_state. guar_steps; unfold on_db; simpl.
  - by eapply insert_consent_steps.
  - apply write_steps_audit.
Qed.

Lemma claim_operation_guar request action mode :
  guar env (on_db WriteSteps) (claim_operation request action mode).
Proof.
  unfold claim_operation, append_operation_audit, append_conflict_audit, append_replay_audit,
    append_operation_audit.
  guar_steps; try apply append_details_guar; unfold on_db; simpl.
  - by eapply insert_operation_steps.
  - destruct (operation_of _ _ _); simpl in *; [|done]. by simplify_eq.
Qed.

Lemma poll_operation_guar polls id : guar env (on_db WriteSteps) (poll_operation polls id).
Proof.
  induction polls as [|polls IH]; simpl; [guar_steps|]. unfold append_replay_audit, append_operation_audit.
  guar_steps. apply append_details_guar.
Qed.

Lemma evaluate_local_guar service request action at_ :
  guar env (on_db WriteSteps) (evaluate_local service request action at_).
Proof.
  unfold evaluate_local, evaluate_gates, inspect, window_usage.
  guar_steps; first [apply owned_account_guar | apply require_authority_guar | idtac].
Qed.

Lemma complete_operation_guar id observed_at :
  guar env (on_db WriteSteps) (complete_operation id "succeeded" "already_satisfied" observed_at).
Proof.
  unfold complete_operation. guar_steps; try apply append_details_guar.
  unfold on_db. simpl. apply write_steps_transition. intros o E. split; [by split|constructor].
Qed.

Lemma refuse_operation_guar id class reset_at :
  guar env (on_db WriteSteps) (refuse_operation id class reset_at).
Proof.
  unfold refuse_operation. guar_steps; try apply append_details_guar.
  unfold on_db. simpl. apply write_steps_transition. intros o E. split; [by split|constructor].
Qed.

Lemma complete_dry_run_guar id r : guar env (on_db WriteSteps) (complete_dry_run id r).
Proof.
  unfold complete_dry_run, append_operation_audit. guar_steps; try apply append_details_guar.
  unfold on_db. simpl. apply write_steps_transition. intros o E. split; [by split|constructor].
Qed.

Lemma complete_uncertain_guar id evidence : guar env (on_db WriteSteps) (complete_uncertain id evidence).
Proof.
  unfold complete_uncertain. guar_steps; try apply append_details_guar.
  unfold on_db. simpl. apply write_steps_transition. intros o E. split; [by split|constructor].
Qed.

Lemma complete_provider_failure_guar id error :
  guar env (on_db WriteSteps) (complete_provider_failure id error).
Proof.
  unfold complete_provider_failure. destruct (provider_failure_evidence error) as [[outcome request] reset].
  guar_steps; try apply append_details_guar.
  unfold on_db. simpl. apply write_steps_transition. intros o E. split; [by split|constructor].
Qed.

Lemma complete_confirmed_guar id account post action evidence :
  guar env (on_db WriteSteps) (complete_confirmed id account post action evidence).
Proof.
  unfold complete_confirmed, project_confirmed_bookmark. guar_steps; unfold on_db; simpl.
  - unfold project_write in *. destruct action; simplify_eq/=; by apply write_steps_frame.
  - apply write_steps_transition. intros o E.
    split; [by split|]. match goal with |- context [confirmed_operation ?p] => destruct p end; constructor.
  - apply append_confirmed_steps.
Qed.

(** The consent is consumed only after the same transaction found it live. *)
Lemma consume_transaction_guar id request action now reservation :
  guar env (on_db WriteSteps) (consume_transaction id request action now reservation).
Proof.
  unfold consume_transaction. apply guar_atomic; [typeclasses eauto|done|]. intros w. yields_steps.
  destruct (live_consent request action now (w_db w)) eqn:El; simpl; [|done]. yields_steps.
  etrans; [|apply append_admission_steps].
  etrans; [|apply write_steps_transition; intros o E; split; [by split|constructor]].
  apply write_steps_consume. by eapply live_consent_unconsumed.
Qed.

Lemma consume_consent_guar service id request action now reservation :
  guar env (on_db WriteSteps) (consume_consent service id request action now reservation).
Proof.
  unfold consume_consent, refund_before_provider, refund, window_refund.
  guar_steps; try apply consume_transaction_guar. by apply write_steps_frame.
Qed.

Lemma budget_steps f d : WriteSteps d (on_api_budget_windows f d).
Proof. by apply write_steps_frame. Qed.

Lemma execute_write_guar service request action :
  guar env (on_db WriteSteps) (execute_write service request action).
Proof.
  unfold execute_write, run_operation, reserve_and_submit, submit, wait_for_operation.
  guar_steps;
    lazymatch goal with
    | |- guar _ _ (claim_operation _ _ _) => apply claim_operation_guar
    | |- guar _ _ (evaluate_local _ _ _ _) => apply evaluate_local_guar
    | |- guar _ _ (complete_operation _ _ _ _) => apply complete_operation_guar
    | |- guar _ _ (refuse_operation _ _ _) => apply refuse_operation_guar
    | |- guar _ _ (reserve _ _ _) => exact (reserve_frame _ _ _ _ WriteSteps budget_steps Hr)
    | |- guar _ _ (consume_consent _ _ _ _ _ _) => apply consume_consent_guar
    | |- guar _ _ (mutate_bookmark _ _ _) => apply mutate_frame; [typeclasses eauto | exact Hr]
    | |- guar _ _ (complete_confirmed _ _ _ _ _) => apply complete_confirmed_guar
    | |- guar _ _ (complete_uncertain _ _) => apply complete_uncertain_guar
    | |- guar _ _ (complete_provider_failure _ _) => apply complete_provider_failure_guar
    | |- guar _ _ (poll_operation _ _) => apply poll_operation_guar
    end.
Qed.

Lemma dry_run_guar service request action :
  guar env (on_db WriteSteps) (dry_run service request action).
Proof.
  unfold dry_run. guar_steps;
    lazymatch goal with
    | |- guar _ _ (claim_operation _ _ _) => apply claim_operation_guar
    | |- guar _ _ (evaluate_local _ _ _ _) => apply evaluate_local_guar
    | |- guar _ _ (complete_dry_run _ _) => apply complete_dry_run_guar
    end.
Qed.

(** What a completed snapshot does to uncertain operations is part of their life. *)
Lemma reconcile_operation_steps now (row : Z * (string * bool)) d :
  WriteSteps d (on_bookmark_write_operations
    (alter (reconciled_operation (reconciled_status row.2.1 row.2.2) (reconciled_outcome row.2.2) now)
       row.1) d).
Proof.
  destruct (reflexivity (R:=WriteSteps) d) as [H1 H2 H3]. split; [|done..].
  simpl. intros i o Ho. rewrite lookup_alter. case_decide; [subst|by apply H1].
  rewrite Ho. simpl. eexists. split; [done|]. unfold reconciled_operation.
  destruct (String.eqb_spec (wo_status o) "uncertain") as [E|]; [|by split; [|apply rtc_refl]].
  split; [by split|]. simpl. rewrite E. unfold reconciled_status.
  case_match; apply rtc_once; constructor.
Qed.

Lemma complete_run_guar account run : guar env (on_db WriteSteps) (complete_run account run).
Proof.
  unfold complete_run, completion, lock_finalization, reconcile_bookmarks, record_absent_bookmarks,
    repair_removed, reconcile_uncertain_bookmark_writes, reconcile_operation, record_completion,
    replace_authority.
  guar_steps; unfold on_db; simpl; try by apply write_steps_frame.
  - unfold remove_absent in *. simplify_eq. by apply write_steps_frame.
  - simplify_eq. apply (reconcile_operation_steps _ (_, (_, _))).
  - unfold audit_reconciliation. destruct (bookmark_write_operations _ !! _); [|done].
    destruct (_ ≫= _); [apply write_steps_audit|done].
  - unfold complete_snapshot_row in *. destruct (snapshots _ !! _); [|by simplify_eq].
    destruct (sync_runs _ !! _); simpl in *; [|done]. simplify_eq. by apply write_steps_frame.
Qed.
End Safety.

(** ** Silence: only the mutation leaves the process *)

Section Silence.
Context {ch : Chrono} {ct : Contracts} {cr : Crypto} {rf : Rfc3339} {mp : BookmarkMutationProvider}.
Context (env : Env Db).

Ltac silently := pose proof (silent_rely (Ev:=Event) env) as Hs; guar_steps; done.

Lemma append_details_silent id event_class details :
  guar env silent (append_operation_audit_details id event_class details).
Proof. unfold append_operation_audit_details. silently. Qed.

Lemma claim_silent request action mode : guar env silent (claim_operation request action mode).
Proof.
  unfold claim_operation, append_conflict_audit, append_replay_audit, append_operation_audit,
    append_operation_audit_details. silently.
Qed.

Lemma poll_silent polls id : guar env silent (poll_operation polls id).
Proof.
  pose proof (silent_rely (Ev:=Event) env) as Hs.
  induction polls as [|polls IH]; simpl; [guar_steps|].
  unfold append_replay_audit, append_operation_audit, append_operation_audit_details. guar_steps. done.
Qed.

Lemma evaluate_silent service request action at_ :
  guar env silent (evaluate_local service request action at_).
Proof.
  unfold evaluate_local, evaluate_gates, owned_account_state, require_write_authority, inspect,
    window_usage. silently.
Qed.

Lemma complete_silent id status outcome observed :
  guar env silent (complete_operation id status outcome observed).
Proof. unfold complete_operation, append_operation_audit_details. silently. Qed.

Lemma refuse_silent id class reset : guar env silent (refuse_operation id class reset).
Proof. unfold refuse_operation, append_operation_audit_details. silently. Qed.

Lemma complete_dry_run_silent id r : guar env silent (complete_dry_run id r).
Proof.
  unfold complete_dry_run, append_operation_audit, append_operation_audit_details. silently.
Qed.

Lemma complete_confirmed_silent id account post action evidence :
  guar env silent (complete_confirmed id account post action evidence).
Proof. unfold complete_confirmed, project_confirmed_bookmark. silently. Qed.

Lemma complete_uncertain_silent id evidence : guar env silent (complete_uncertain id evidence).
Proof. unfold complete_uncertain, append_operation_audit_details. silently. Qed.

Lemma complete_failure_silent id error : guar env silent (complete_provider_failure id error).
Proof.
  unfold complete_provider_failure, append_operation_audit_details.
  destruct (provider_failure_evidence error) as [[??]?]. silently.
Qed.

Lemma consume_silent service id request action now reservation :
  guar env silent (consume_consent service id request action now reservation).
Proof.
  unfold consume_consent, consume_transaction, refund_before_provider, refund, window_refund. silently.
Qed.

Lemma dry_run_silent service request action : guar env silent (dry_run service request action).
Proof.
  unfold dry_run. guar_steps;
    lazymatch goal with
    | |- guar _ _ (claim_operation _ _ _) => apply claim_silent
    | |- guar _ _ (evaluate_local _ _ _ _) => apply evaluate_silent
    | |- guar _ _ (complete_dry_run _ _) => apply complete_dry_run_silent
    end.
Qed.
End Silence.

(** ** The theorems *)

Section Theorems.
Context {ch : Chrono} {ct : Contracts} {ec : EnvelopeCodec} {cr : Crypto} {ac : ArticleContracts}
  {sc : SocialContracts} {ho : HashOrder} {rf : Rfc3339} {mp : BookmarkMutationProvider}
  {mpl : MutationProviderLaws}.

(** The statuses nothing leaves. *)
Definition settled_statuses : list string :=
  ["refused"; "dry_run"; "succeeded"; "failed"; "projection_pending"; "reconciled_succeeded";
   "reconciled_not_current"].

Lemma settled_final s s' : s ∈ settled_statuses → rtc lifecycle s s' → s' = s.
Proof.
  intros Hs Hl. destruct Hl as [|? s2 ? Hl]; [done|].
  unfold settled_statuses in Hs. rewrite !elem_of_cons, elem_of_nil in Hs.
  inversion Hl; subst; naive_solver.
Qed.

Lemma operation_of_steps account digest d d' :
  WriteSteps d d' → operation_of account digest d' = None → operation_of account digest d = None.
Proof.
  intros Hst Hn. destruct (operation_of account digest d) as [[id o]|] eqn:E; [|done].
  unfold operation_of in *. apply find_row_Some in E as [Hid HP].
  destruct (wst_operations _ _ Hst _ _ Hid) as (o' & Hid' & Hsame & _).
  pose proof (find_row_None _ _ _ _ Hn Hid') as HP'. simpl in *.
  rewrite (so_account _ _ Hsame), (so_digest _ _ Hsame) in HP'. congruence.
Qed.

(** The idempotency key of a request belongs to an operation. *)
Definition key_used (request : BookmarkWriteRequest) (d : Db) : Prop :=
  is_Some (operation_of (wr_account_id request) (sha256_hex (wr_idempotency_key request)) d).

Lemma key_used_steps request d d' : WriteSteps d d' → key_used request d → key_used request d'.
Proof.
  unfold key_used. rewrite <-!not_eq_None_Some. intros Hst Hk Hn. by apply Hk, (operation_of_steps _ _ d d').
Qed.

Lemma key_used_inserted request action mode now d id table :
  insert_new id (claimed_operation request action mode now d) (bookmark_write_operations d) = Some table →
  key_used request (on_bookmark_write_operations (λ _, table) d).
Proof.
  unfold insert_new, key_used. destruct (bookmark_write_operations d !! id); [done|]. intros [= <-].
  rewrite <-not_eq_None_Some. intros Hn.
  eapply (find_row_None _ _ id) in Hn; [|simpl; by rewrite lookup_insert_eq].
  simpl in Hn. by rewrite bool_decide_eq_true_2, String.eqb_refl in Hn.
Qed.

(** What one claim establishes: the key was free, and is this operation's from then on. *)
Lemma claim_fresh env request action mode (w : W) :
  rely (Ev:=Event) env (on_db WriteSteps) →
  yields env (claim_operation request action mode) (λ claim w', match claim with
    | ClaimExecute _ => ¬ key_used request (w_db w) ∧ key_used request (w_db w')
    | _ => True
    end) w.
Proof.
  intros Hr. unfold claim_operation. yields_step. yields_step.
  set (w1 := set_db _ _). assert (H1 : WriteSteps (w_db w) (w_db w1)) by exact (Hr (w_tick w) w).
  clearbody w1. yields_steps. intros claimed d. unfold insert_operation.
  destruct (operation_of _ _ _) as [x|] eqn:E; [intros [= <- <-]|].
  - yields_steps. intros [id o] d' _. destruct (negb _); yields_steps; [by apply yields_any|].
    destruct (stored_write_status _); yields_steps; [|done]. by apply yields_any.
  - apply (operation_of_steps _ _ _ _ H1) in E. case_bool_decide; [|done].
    destruct (insert_new _ _ _) as [table|] eqn:Ei; simpl; [|done].
    intros [= <- <-]. apply key_used_inserted in Ei. yields_steps.
    eapply (yields_guar env WriteSteps); [by apply append_details_guar|].
    intros _ w' Hst. yields_steps. split; [unfold key_used; rewrite E; by intros [? ?]|].
    by eapply key_used_steps.
Qed.

(** One atomic consumption of the consent a request names. *)
Definition consumes (request : BookmarkWriteRequest) (action : BookmarkAction) (d d' : Db) : Prop :=
  ∃ now c, bookmark_write_consents d !! wr_consent_id request = Some c ∧
    consent_admits request action now c = true ∧
    bookmark_write_consents d' !! wr_consent_id request = Some (consumed_consent now c).

(** A consumption among other steps. *)
Definition consumed_within (request : BookmarkWriteRequest) (action : BookmarkAction) (d d' : Db) : Prop :=
  ∃ d1 d2, WriteSteps d d1 ∧ consumes request action d1 d2 ∧ WriteSteps d1 d2 ∧ WriteSteps d2 d'.

Lemma consumed_within_steps request action d0 d1 d2 d3 :
  WriteSteps d0 d1 → consumed_within request action d1 d2 → WriteSteps d2 d3 →
  consumed_within request action d0 d3.
Proof.
  intros ? (e1 & e2 & ? & ? & ? & ?) ?. exists e1, e2. split_and!; [by etrans|done|done|by etrans].
Qed.

Lemma consume_transaction_spec env id request action now reservation (w : W) :
  rely (Ev:=Event) env (on_db WriteSteps) →
  yields env (consume_transaction id request action now reservation)
    (λ _ w', consumed_within request action (w_db w) (w_db w')) w.
Proof.
  intros Hr. unfold consume_transaction. yields_step.
  set (w1 := set_db _ _). assert (H1 : WriteSteps (w_db w) (w_db w1)) by exact (Hr (w_tick w) w).
  clearbody w1. yields_steps.
  destruct (live_consent request action now (w_db w1)) eqn:El; simpl; [|done]. yields_steps.
  exists (w_db w1), (consume_consent_row request now (w_db w1)). split; [done|]. split_and!.
  - unfold live_consent in El. destruct (bookmark_write_consents _ !! _) as [c|] eqn:Ec; [|done].
    exists now, c. split_and!; [done..|]. simpl. by rewrite lookup_alter_eq, Ec.
  - apply write_steps_consume. by eapply live_consent_unconsumed.
  - etrans; [|apply append_admission_steps].
    apply write_steps_transition. intros o E. split; [by split|constructor].
Qed.

Lemma run_snapshot_steps env fuel gate source account resume :
  rely (Ev:=Event) env (on_db WriteSteps) →
  guar env (on_db WriteSteps) (run_snapshot fuel gate source account resume).
Proof.
  intros Hr. apply (run_snapshot_guar env WriteSteps);
    [|done|apply budget_steps|intros; by apply complete_run_guar].
  intros d d' [[] _]. by apply write_steps_frame.
Qed.

(** C12. Whatever fails and however the service interleaves with itself and with snapshot runs, an
    operation only ever moves along its life, keeps its identity, and never leaves a settled status;
    a consent changes only by being consumed, once; audit rows are only ever appended. *)
Theorem writes_follow_their_lifecycle env service request action user account post approved_at surface
    fuel gate source resume :
  rely (Ev:=Event) env (on_db WriteSteps) →
  guar env (on_db WriteSteps)
    (record_consent service user account action post approved_at surface) ∧
  guar env (on_db WriteSteps) (execute_write service request action) ∧
  guar env (on_db WriteSteps) (dry_run service request action) ∧
  guar env (on_db WriteSteps) (run_snapshot fuel gate source account resume) ∧
  (∀ s s', s ∈ settled_statuses → rtc lifecycle s s' → s' = s).
Proof.
  intros Hr. split_and!; [by apply record_consent_guar|by apply execute_write_guar|by apply dry_run_guar|
    by apply run_snapshot_steps|apply settled_final].
Qed.

Lemma consume_consent_spec env service id request action now reservation (w : W) :
  rely (Ev:=Event) env (on_db WriteSteps) →
  yields env (consume_consent service id request action now reservation)
    (λ _ w', consumed_within request action (w_db w) (w_db w')) w.
Proof.
  intros Hr. unfold consume_consent. apply yields_bind, yields_attempt.
  pose proof (consume_transaction_spec env id request action now reservation w Hr) as H.
  unfold yields, wp in H. unfold wp.
  destruct (consume_transaction _ _ _ _ _ env w) as [[u|e] w']; cbn [fst snd] in *; [done|].
  apply yields_bind, yields_any. intros _ w2. apply yields_throw.
Qed.

(** A part that stays inside the process. *)
Lemma wp_inside env {E A} (m : Prog E A) (Q : result A E → W → Prop) w :
  guar env silent m → guar env (on_db WriteSteps) m →
  (∀ r w', silent w w' → WriteSteps (w_db w) (w_db w') → Q r w') → wp env m Q w.
Proof.
  intros H1 H2 HQ. unfold wp. apply HQ; [apply (guar_elim H1)|apply (guar_elim H2)].
Qed.

(** One request left the process. *)
Definition sent_one (w w' : W) : Prop :=
  ∃ http_method url token tweet, w_log w' = w_log w ++ [SendBookmark http_method url token tweet].

(** What reaching the provider proves about one run. *)
Definition authorised (request : BookmarkWriteRequest) (action : BookmarkAction) (w w' : W) : Prop :=
  silent w w' ∨
  (sent_one w w' ∧ ¬ key_used request (w_db w) ∧ key_used request (w_db w') ∧
   consumed_within request action (w_db w) (w_db w')).

(** A consent that was consumed stays so. *)
Lemma consumed_once request action request' action' d1 d2 d3 d4 :
  wr_consent_id request' = wr_consent_id request →
  consumed_within request action d1 d2 → WriteSteps d2 d3 → ¬ consumed_within request' action' d3 d4.
Proof.
  intros Hid (e1 & e2 & _ & (now & c & _ & _ & Hc) & _ & S1) S2 (e3 & e4 & S3 & (now' & c' & Hc' & Ha & _) & _).
  assert (S : WriteSteps e2 e3) by (etrans; [exact S1|by etrans]). rewrite Hid in Hc'.
  apply (wst_consents _ _ S) in Hc as (c2 & Hc2 & Hstep). assert (c2 = c') as -> by congruence.
  assert (Hn : wc_consumed_at c' = None).
  { unfold consent_admits in Ha. rewrite !andb_true_iff, !bool_decide_eq_true in Ha. tauto. }
  destruct Hstep as [->|[? _]]; done.
Qed.

Lemma submit_log env id request action (w : W) :
  rely (Ev:=Event) env (on_db WriteSteps) →
  wp env (submit id request action)
    (λ _ w', WriteSteps (w_db w) (w_db w') ∧ (silent w w' ∨ sent_one w w')) w.
Proof.
  intros Hr. unfold submit. apply wp_bind, wp_attempt.
  pose proof (mutate_once env action (wr_account_id request) (wr_provider_post_id request) w) as Hm.
  pose proof (guar_elim (mutate_frame env WriteSteps action (wr_account_id request)
    (wr_provider_post_id request) _ Hr) w) as Hst.
  unfold on_db in Hst. unfold wp in Hm. unfold wp at 1.
  destruct (mutate_bookmark _ _ _ env w) as [outcome w1]; cbn [fst snd] in *.
  apply wp_inside.
  - guar_steps;
      lazymatch goal with
      | |- guar _ _ (complete_confirmed _ _ _ _ _) => apply complete_confirmed_silent
      | |- guar _ _ (complete_uncertain _ _) => apply complete_uncertain_silent
      | |- guar _ _ (complete_provider_failure _ _) => apply complete_failure_silent
      end.
  - guar_steps;
      lazymatch goal with
      | |- guar _ _ (complete_confirmed _ _ _ _ _) => by apply complete_confirmed_guar
      | |- guar _ _ (complete_uncertain _ _) => by apply complete_uncertain_guar
      | |- guar _ _ (complete_provider_failure _ _) => by apply complete_provider_failure_guar
      end.
  - intros r w2 Hl H2. split; [by etrans|]. unfold silent, sent_one in *. rewrite Hl. exact Hm.
Qed.

(** The run of a claimed operation. *)
Lemma run_operation_log env service id request action (w : W) :
  rely (Ev:=Event) env (on_db WriteSteps) →
  wp env (run_operation service id request action) (λ _ w',
    silent w w' ∨ (sent_one w w' ∧ consumed_within request action (w_db w) (w_db w'))) w.
Proof.
  intros Hr. unfold run_operation. apply wp_bind, wp_clock_now. set (now := e_clock _ _).
  apply wp_bind. apply wp_inside; [apply evaluate_silent|by apply evaluate_local_guar|].
  intros [admission|e] w1 L1 S1; [|by left].
  destruct admission as [reset|observed|class reset].
  2:{ apply wp_inside; [guar_steps; apply complete_silent|guar_steps; by apply complete_operation_guar|].
      intros r w2 L2 _. left. unfold silent in *. simpl in *. congruence. }
  2:{ apply wp_inside; [guar_steps; apply refuse_silent|guar_steps; by apply refuse_operation_guar|].
      intros r w2 L2 _. left. unfold silent in *. simpl in *. congruence. }
  unfold reserve_and_submit. apply wp_bind, wp_attempt.
  apply wp_inside; [apply reserve_silent|exact (reserve_frame _ _ _ _ WriteSteps budget_steps Hr)|].
  intros [reservation|e] w2 L2 S2.
  2:{ apply wp_inside.
      - guar_steps; apply refuse_silent.
      - guar_steps; by apply refuse_operation_guar.
      - intros r w3 L3 _. left. unfold silent in *. simpl in *. congruence. }
  apply wp_bind.
  pose proof (consume_consent_spec env service id request action now reservation w2 Hr) as Hc.
  pose proof (guar_elim (consume_silent env service id request action now reservation) w2) as L3.
  unfold yields, wp in Hc. unfold wp at 1.
  destruct (consume_consent _ _ _ _ _ _ env w2) as [[u|e] w3]; cbn [fst snd] in *;
    [|left; unfold silent in *; simpl in *; congruence].
  eapply wp_mono; [by apply submit_log|]. intros r w4 [S4 [L4|L4]].
  - left. unfold silent in *. simpl in *. congruence.
  - right. split.
    + unfold sent_one, silent in *. simpl in *. rewrite L3, L2, L1 in L4. exact L4.
    + eapply consumed_within_steps; [|exact Hc|exact S4]. by etrans; [exact S1|].
Qed.

(** C1. The provider is reached at most once per run, and only by a run that claimed a free idempotency
    key and, before the call, atomically consumed the one live consent given by this owner for this
    account, action and post. A consumed consent is never consumed again and a used key never becomes
    free again, so one consent and one key each allow at most one call, whatever fails and however runs
    interleave. A dry run never reaches the provider. *)
Theorem provider_calls_are_consented env service request action (w : W) :
  rely (Ev:=Event) env (on_db WriteSteps) →
  wp env (execute_write service request action) (λ _ w', authorised request action w w') w ∧
  guar env silent (dry_run service request action) ∧
  (∀ d d', WriteSteps d d' → key_used request d → key_used request d') ∧
  (∀ request' action' d1 d2 d3 d4, wr_consent_id request' = wr_consent_id request →
    consumed_within request action d1 d2 → WriteSteps d2 d3 → ¬ consumed_within request' action' d3 d4).
Proof.
  intros Hr. split_and!; [|apply dry_run_silent|apply key_used_steps|intros *; apply consumed_once].
  unfold execute_write, authorised.
  destruct (negb _); [by left|]. destruct (negb _); [by left|].
  pose proof (claim_fresh env request action "live" w Hr) as Hf.
  pose proof (guar_elim (claim_silent env request action "live") w) as L1.
  pose proof (guar_elim (claim_operation_guar env Hr request action "live") w) as S1.
  apply wp_bind. unfold yields, wp in Hf. unfold wp at 1.
  destruct (claim_operation _ _ _ env w) as [[claim|e] w1]; cbn [fst snd] in *; [|by left].
  destruct claim as [id|result|id].
  - eapply wp_mono; [by apply run_operation_log|]. intros r w2 [L2|[L2 Hc]].
    + left. unfold silent in *. simpl in *. congruence.
    + right. destruct Hf as [Hfree Hused]. split_and!; [|exact Hfree| |].
      * unfold sent_one, silent in *. rewrite L1 in L2. exact L2.
      * eapply key_used_steps; [|exact Hused]. destruct Hc as (d1 & d2 & ? & _ & ? & ?).
        etrans; [done|]. by etrans.
      * eapply consumed_within_steps; [exact S1|exact Hc|done].
  - left. exact L1.
  - apply wp_inside; [apply poll_silent|by apply poll_operation_guar|].
    intros r w2 L2 _. left. unfold silent in *. simpl in *. congruence.
Qed.
End Theorems.
