(* ===== verification/Archive.v ===== *)
(** * The archive as a whole

    Bookmark snapshots, folder snapshots, head scans and write-backs share one database. What the
    archive claims to be absent, and whose word it takes, always rests on a complete snapshot, however
    the four interleave. *)
From S2P Require Export Incremental WritebackSafety.

(** A complete snapshot of one folder. *)
Definition complete_folder (folder snapshot_id : Z) (d : Db) : Prop :=
  ∃ s, snapshots d !! snapshot_id = Some s ∧ snap_complete s = true ∧ snap_folder_id s = Some folder.

(** Folder authority, observed absence and observations rest on complete snapshots of the folder. *)
Record FoldersJustified (d : Db) : Prop := {
  fj_authority folder a : folder_membership_snapshot_authority d !! folder = Some a →
    complete_folder folder (auth_snapshot_id a) d;
  fj_removed folder post item snapshot_id : items_of folder d !! post = Some item →
    fi_observed_removed_snapshot_id item = Some snapshot_id → complete_folder folder snapshot_id d;
  fj_observed snapshot_id folder post kind t :
    folder_membership_observations d !! (snapshot_id, folder, post, kind) = Some t →
    complete_folder folder snapshot_id d;
}.

Definition ArchiveJustified (d : Db) : Prop := AuthorityJustified d ∧ FoldersJustified d.

(** ** Steps that keep it *)

(** A step that keeps complete snapshots complete and makes no new claim. *)
Record NoNewClaim (d d' : Db) : Prop := {
  nc_complete account snap : complete_for account snap d → complete_for account snap d';
  nc_folder folder snap : complete_folder folder snap d → complete_folder folder snap d';
  nc_authority : bookmark_snapshot_authority d' = bookmark_snapshot_authority d;
  nc_removed account post b' snap : bookmarks_of account d' !! post = Some b' →
    bm_observed_removed_snapshot_id b' = Some snap →
    ∃ b, bookmarks_of account d !! post = Some b ∧ bm_observed_removed_snapshot_id b = Some snap;
  nc_claims : folder_claims d' = folder_claims d;
}.

Lemma no_new_claim d d' : NoNewClaim d d' → keeps ArchiveJustified d d'.
Proof.
  intros [Hc Hf Ha Hr [= Hi Hu Ho]] [[A1 A2] [F1 F2 F3]]. split; split.
  - intros account a. rewrite Ha. eauto.
  - intros account post b snap Hb Hsnap. destruct (Hr _ _ _ _ Hb Hsnap) as (b0 & ? & ?). eauto.
  - intros folder a. rewrite Hu. eauto.
  - intros folder post item snap. unfold items_of. rewrite Hi. eauto.
  - intros snap folder post kind t. rewrite Ho. eauto.
Qed.

(** Snapshots that stay and runs that keep their account keep completeness. *)
Lemma complete_for_mono account snap d d' :
  (∀ id s, snapshots d !! id = Some s → snapshots d' !! id = Some s) →
  (∀ id r, sync_runs d !! id = Some r →
     ∃ r', sync_runs d' !! id = Some r' ∧ run_account_id r' = run_account_id r) →
  complete_for account snap d → complete_for account snap d'.
Proof.
  intros Hs Hr (s & run & Hsnap & Hcomp & Hrun & Hacc). destruct (Hr _ _ Hrun) as (run' & Hrun' & ?).
  exists s, run'. split_and!; auto. congruence.
Qed.

Lemma complete_folder_mono folder snap d d' :
  (∀ id s, snapshots d !! id = Some s → snapshots d' !! id = Some s) →
  complete_folder folder snap d → complete_folder folder snap d'.
Proof. intros Hs (s & Hsnap & ? & ?). exists s. split_and!; auto. Qed.

Lemma sync_frame_archive d d' : SyncFrame d d' → keeps ArchiveJustified d d'.
Proof.
  intros [Hb Ha _ _ _ _ Hf Hs Hr]. apply no_new_claim. split.
  - intros account snap. apply complete_for_mono; [done|]. intros id r (r' & ? & ? & _)%Hr. eauto.
  - intros folder snap. by apply complete_folder_mono.
  - done.
  - intros account post b' snap. unfold bookmarks_of. rewrite Hb. eauto.
  - unfold folder_evidence, folder_claims in *. congruence.
Qed.

Lemma folder_frame_archive d d' : FolderFrame d d' → keeps ArchiveJustified d d'.
Proof.
  intros [Hc Hb Hs Hr]. unfold bookmark_evidence in Hb. injection Hb as Hb Ha _ _ _ _ _ _ _ _ _.
  apply no_new_claim. split; [|by intros; eapply complete_folder_mono|done| |done].
  - intros account snap. by apply complete_for_mono.
  - intros account post b' snap. unfold bookmarks_of. rewrite Hb. eauto.
Qed.

Lemma scan_steps_archive account d d' : ScanSteps account d d' → keeps ArchiveJustified d d'.
Proof.
  intros [Hb Ho Ha _ Hf _ _ Hs Hr].
  assert (Hs' : ∀ id s, snapshots d !! id = Some s → snapshots d' !! id = Some s) by (intros *; by rewrite Hs).
  apply no_new_claim. split.
  - intros a snap. by apply complete_for_mono.
  - intros folder snap. by apply complete_folder_mono.
  - done.
  - intros a post b' snap Hb' Hsnap. destruct (decide (a = account)) as [->|Hne].
    + destruct (Hb post) as [E|(b1 & E & _ & Hnone & _)]; [rewrite E in Hb'; eauto|].
      rewrite E in Hb'. simplify_eq.
    + rewrite (Ho a Hne) in Hb'. eauto.
  - unfold folder_evidence, folder_claims in *. congruence.
Qed.

Lemma completion_archive account run now d d' :
  CompletionEffect account run now d d' → keeps ArchiveJustified d d'.
Proof.
  intros He [HA [F1 F2 F3]]. split; [by eapply effect_justified|].
  pose proof (ce_folders _ _ _ _ _ He) as Hf. unfold folder_evidence in Hf.
  injection Hf as Hi Hu Ho _ _. destruct (ce_snapshot _ _ _ _ _ He) as (s & row & Hs & _ & Hs').
  assert (Hc : ∀ folder snap, complete_folder folder snap d → complete_folder folder snap d').
  { intros folder snap (s0 & Hs0 & Hc0 & Hf0). unfold complete_folder. rewrite Hs', lookup_insert.
    case_decide as E; [|eauto]. subst. simplify_eq. by eexists. }
  split.
  - intros folder a. rewrite Hu. eauto.
  - intros folder post item snap. unfold items_of. rewrite Hi. eauto.
  - intros snap folder post kind t. rewrite Ho. eauto.
Qed.

Lemma folder_effect_archive run now d d' : FolderEffect run now d d' → keeps ArchiveJustified d d'.
Proof.
  intros He [[A1 A2] [F1 F2 F3]].
  pose proof He as [Hfin (items & o & s & row & Hitems & Hobs & Hs & Hrow & E)].
  unfold folder_finalizable in Hfin. rewrite Hs, Hrow in Hfin.
  rewrite !andb_true_iff, !bool_decide_eq_true in Hfin. destruct Hfin as [[[_ Hfolder] Hinc] _].
  set (snap := fr_snapshot_id run) in *. set (folder := fr_folder_id run) in *.
  assert (Hs' : snapshots d' = <[snap := completed_snapshot now (run_pages_fetched row) s]> (snapshots d))
    by by rewrite E.
  assert (Hown : complete_folder folder snap d').
  { eexists. rewrite Hs', lookup_insert_eq. split_and!; done. }
  assert (Hc : ∀ f sn, complete_folder f sn d → complete_folder f sn d').
  { intros f sn (s0 & Hs0 & Hc0 & Hf0). unfold complete_folder. rewrite Hs', lookup_insert.
    case_decide as Eq; [|eauto]. subst. simplify_eq. by rewrite Hc0 in Hinc. }
  assert (Hb : ∀ a sn, complete_for a sn d → complete_for a sn d').
  { intros a sn (s0 & r0 & Hs0 & Hc0 & Hr0 & Ha0). unfold complete_for. rewrite Hs', lookup_insert.
    assert (sn ≠ snap) by (intros ->; simplify_eq; by rewrite Hc0 in Hinc). rewrite decide_False by done.
    assert (Hr : ∃ r, sync_runs d' !! snap_sync_run_id s0 = Some r ∧ run_account_id r = a).
    { rewrite E. simpl. rewrite lookup_alter. case_decide as Eq; [|eauto]. rewrite Eq, Hr0. by eexists. }
    destruct Hr as (r & ? & ?). by exists s0, r. }
  split; split.
  - intros a au Hau. apply Hb, A1. by rewrite E in Hau.
  - intros a post b sn Hb'. rewrite E in Hb'. eauto.
  - intros f a. rewrite E at 1. simpl. rewrite lookup_insert. case_decide as Ef; [|eauto].
    intros [= <-]. subst f. exact Hown.
  - intros f post item sn. destruct (decide (f = folder)) as [->|Hne].
    + rewrite (folder_effect_items _ _ _ _ _ He). fold snap folder.
      destruct (staged_members snap d !! post), (items_of folder d !! post) as [it|] eqn:Eit; simpl;
        intros [= <-]; simpl; try done.
      destruct (in_folder it); simpl; [by intros [= <-]|]. intros Hrm. by apply Hc, (F2 _ post it).
    + rewrite (folder_effect_others _ _ _ _ _ He) by done. eauto.
  - intros sn f post kind t Hk. assert (Ho' : folder_membership_observations d' = o) by by rewrite E.
    rewrite Ho', Hobs in Hk. unfold observation in Hk.
    destruct (folder_membership_observations d !! (sn, f, post, kind)) as [t0|] eqn:E0;
      [eauto|].
    repeat case_bool_decide; simplify_eq; destruct_and?; subst; exact Hown.
Qed.

(** ** The footprint of write-backs

    Everything the write-back service may write, under any relation that tolerates it; what the budget
    gate may do is a matter of its own. *)

Record ToleratesWrites (S : relation Db) : Prop := {
  tw_operations f d : S d (on_bookmark_write_operations f d);
  tw_consents f d : S d (on_bookmark_write_consents f d);
  tw_audit f d : S d (on_bookmark_write_audit_events f d);
  tw_projection id account post action now d b d' :
    project_write id account post action now d = Some (b, d') → S d d';
}.

Section Footprint.
Context {ch : Chrono} {ct : Contracts} {ec : EnvelopeCodec} {cr : Crypto} {ac : ArticleContracts}
  {sc : SocialContracts} {ho : HashOrder} {rf : Rfc3339} {mp : BookmarkMutationProvider}
  {mpl : MutationProviderLaws}.
Context (env : Env Db) (S : relation Db) `{!PreOrder S} (HT : ToleratesWrites S)
  (Hr : rely (Ev:=Event) env (on_db S)).

Lemma tolerates_audit_row id event_class now details d :
  S d (append_audit_row id event_class now details d).
Proof. unfold append_audit_row. destruct (bookmark_write_operations d !! id); [apply (tw_audit _ HT)|done]. Qed.

Lemma tolerates_admission_audit id now cost d : S d (append_admission_audit id now cost d).
Proof.
  unfold append_admission_audit. destruct (bookmark_write_operations d !! id); [|done].
  destruct (consent_surface _ _); [apply (tw_audit _ HT)|done].
Qed.

Lemma tolerates_confirmed_audit id now evidence projected d :
  S d (append_confirmed_audit id now evidence projected d).
Proof.
  unfold append_confirmed_audit. destruct (bookmark_write_operations d !! id); [|done].
  destruct (consent_surface _ _); [apply (tw_audit _ HT)|done].
Qed.

Lemma tolerates_insert_operation id request action mode now d a d' :
  insert_operation id request action mode now d = Some (a, d') → S d d'.
Proof.
  unfold insert_operation. destruct (operation_of _ _ _); [by intros [= _ <-]|]. case_bool_decide; [|done].
  destruct (insert_new _ _ _); simpl; [|done]. intros [= _ <-]. apply (tw_operations _ HT).
Qed.

Lemma tolerates_insert_consent id row d a d' : insert_consent id row d = Some (a, d') → S d d'.
Proof.
  unfold insert_consent. destruct (_ && _); [|done]. destruct (insert_new _ _ _); simpl; [|done].
  intros [= _ <-]. apply (tw_consents _ HT).
Qed.

Ltac footprint :=
  guar_steps; unfold on_db in *; cbn [w_db set_db tick] in *;
  first [ apply (tw_operations _ HT) | apply (tw_consents _ HT) | apply (tw_audit _ HT)
        | apply tolerates_audit_row | apply tolerates_admission_audit | apply tolerates_confirmed_audit
        | by eapply tolerates_insert_operation | by eapply tolerates_insert_consent
        | by eapply (tw_projection _ HT) | idtac ].

Lemma record_consent_footprint service user account action post approved_at surface :
  guar env (on_db S) (record_consent service user account action post approved_at surface).
Proof. unfold record_consent, owned_account_state. footprint. Qed.

Lemma claim_footprint request action mode : guar env (on_db S) (claim_operation request action mode).
Proof.
  unfold claim_operation, append_conflict_audit, append_replay_audit, append_operation_audit,
    append_operation_audit_details.
  footprint. destruct (operation_of _ _ _); simpl in *; [|done]. by simplify_eq.
Qed.

Lemma poll_footprint polls id : guar env (on_db S) (poll_operation polls id).
Proof.
  induction polls as [|polls IH]; simpl; [guar_steps|].
  unfold append_replay_audit, append_operation_audit, append_operation_audit_details. footprint.
Qed.

Lemma evaluate_footprint service request action at_ :
  guar env (on_db S) (evaluate_local service request action at_).
Proof.
  unfold evaluate_local, evaluate_gates, owned_account_state, require_write_authority, inspect, window_usage.
  footprint.
Qed.

Lemma outcomes_footprint id :
  (∀ status outcome observed, guar env (on_db S) (complete_operation id status outcome observed)) ∧
  (∀ class reset, guar env (on_db S) (refuse_operation id class reset)) ∧
  (∀ r, guar env (on_db S) (complete_dry_run id r)) ∧
  (∀ evidence, guar env (on_db S) (complete_uncertain id evidence)) ∧
  (∀ error, guar env (on_db S) (complete_provider_failure id error)) ∧
  (∀ account post action evidence, guar env (on_db S) (complete_confirmed id account post action evidence)).
Proof.
  unfold complete_operation, refuse_operation, complete_dry_run, complete_uncertain,
    complete_provider_failure, complete_confirmed, project_confirmed_bookmark, append_operation_audit,
    append_operation_audit_details.
  split_and!; intros; try destruct (provider_failure_evidence _) as [[??]?]; footprint.
Qed.

(** What the budget gate of the service may do. *)
Record ToleratesBudget (service : BookmarkWritebackService) : Prop := {
  tb_reserve account : guar env (on_db S) (reserve (ws_budget service) account 1);
  tb_refund account start request : 0 ≤ request →
    guar env (on_db S) (refund (ws_budget service) account start request);
}.

Lemma consume_footprint service id request action now reservation :
  ToleratesBudget service → 0 ≤ cost reservation →
  guar env (on_db S) (consume_consent service id request action now reservation).
Proof.
  intros HB Hc. unfold consume_consent, consume_transaction, refund_before_provider. footprint.
  by apply (tb_refund _ HB).
Qed.

Lemma reserve_and_submit_footprint service id request action now :
  ToleratesBudget service → guar env (on_db S) (reserve_and_submit service id request action now).
Proof.
  intros HB. unfold reserve_and_submit, submit.
  apply (guar_bind_val env _ _ _ (λ r, match r with Ok v => cost v = 1 | Err _ => True end));
    [apply guar_attempt, (tb_reserve _ HB)|intros w; apply reserve_cost|]. intros r Hcost.
  guar_steps;
    lazymatch goal with
    | |- guar _ _ (consume_consent _ _ _ _ _ _) => apply consume_footprint; [done|lia]
    | |- guar _ _ (mutate_bookmark _ _ _) => apply mutate_frame; [typeclasses eauto | exact Hr]
    | |- _ => apply outcomes_footprint
    end.
Qed.

Lemma execute_write_footprint service request action :
  ToleratesBudget service → guar env (on_db S) (execute_write service request action).
Proof.
  intros HB. unfold execute_write, run_operation, wait_for_operation.
  guar_steps;
    lazymatch goal with
    | |- guar _ _ (claim_operation _ _ _) => apply claim_footprint
    | |- guar _ _ (evaluate_local _ _ _ _) => apply evaluate_footprint
    | |- guar _ _ (reserve_and_submit _ _ _ _ _) => by apply reserve_and_submit_footprint
    | |- guar _ _ (poll_operation _ _) => apply poll_footprint
    | |- _ => apply outcomes_footprint
    end.
Qed.

Lemma dry_run_footprint service request action : guar env (on_db S) (dry_run service request action).
Proof.
  unfold dry_run. guar_steps;
    lazymatch goal with
    | |- guar _ _ (claim_operation _ _ _) => apply claim_footprint
    | |- guar _ _ (evaluate_local _ _ _ _) => apply evaluate_footprint
    | |- _ => apply outcomes_footprint
    end.
Qed.
End Footprint.

(** A projected write makes no claim of absence on a snapshot's word. *)
Lemma archive_tolerates_writes : ToleratesWrites (keeps ArchiveJustified).
Proof.
  split; [intros f d; apply no_new_claim; split; simpl; eauto..|].
  intros id account post action now d b d' Hp. apply no_new_claim. unfold project_write in Hp.
  assert (Hd : ∃ f, d' = on_bookmarks (set_rows account f) d ∧ ∀ rows p b' snap,
            f rows !! p = Some b' → bm_observed_removed_snapshot_id b' = Some snap →
            rows !! p = Some b').
  { destruct action; simplify_eq; eexists; (split; [done|]); intros rows p b' snap.
    - rewrite lookup_upsert. case_decide; [|done]. subst. by destruct (rows !! p); intros [= <-].
    - rewrite lookup_alter. case_decide; [|done]. subst. by destruct (rows !! p); intros [= <-]. }
  destruct Hd as (f & -> & Hf). split; simpl; eauto.
  intros a p b' snap. rewrite bookmarks_of_set. case_decide; eauto.
Qed.

(** ** The theorem *)

Section Together.
Context {ch : Chrono} {ct : Contracts} {ec : EnvelopeCodec} {cr : Crypto} {ac : ArticleContracts}
  {sc : SocialContracts} {ho : HashOrder} {rf : Rfc3339} {mp : BookmarkMutationProvider}
  {mpl : MutationProviderLaws}.
Context (env : Env Db) (Hr : rely (Ev:=Event) env (on_db (keeps ArchiveJustified))).
Notation kept := (guar env (on_db (keeps ArchiveJustified))).

Lemma complete_run_archive account run : kept (complete_run account run).
Proof.
  unfold complete_run. apply guar_bind; [typeclasses eauto|guar_steps|]. intros now.
  apply guar_transaction_keeps; [done|]. apply keeps_ok_bind; [|intros; apply keeps_ok_ret].
  intros w HI. eapply wp_mono; [apply completion_spec|]. intros [u|e] w'; [|done].
  intros He. by eapply completion_archive.
Qed.

Lemma complete_folder_archive run : kept (complete_folder_run run).
Proof.
  unfold complete_folder_run. apply guar_bind; [typeclasses eauto|guar_steps|]. intros now.
  apply guar_transaction_keeps; [done|]. apply keeps_ok_bind; [|intros; apply keeps_ok_ret].
  intros w HI. eapply wp_mono; [apply folder_completion_spec|]. intros [u|e] w'; [|done].
  intros He. by eapply folder_effect_archive.
Qed.

Lemma budget_archive f d : keeps ArchiveJustified d (on_api_budget_windows f d).
Proof. apply no_new_claim. split; simpl; eauto. Qed.

Lemma run_folder_pages_archive fuel gate source account folder run :
  kept (run_folder_pages fuel gate source account folder run).
Proof.
  revert run. induction fuel as [|fuel IH]; intros run; cbn [run_folder_pages]; guar_steps; try done;
    lazymatch goal with
    | |- guar _ _ (reserve _ _ _) => exact (reserve_frame _ _ _ _ _ budget_archive Hr)
    | |- guar _ _ (call _ _) =>
        apply guar_call; [typeclasses eauto|]; intros w0; unfold on_db; simpl; reflexivity
    | |- guar _ _ (mark_failed _) => by apply (folder_mark_failed_guar env _ folder_frame_archive Hr)
    | |- guar _ _ (mark_capability_limited _ _) => by apply (mark_limited_guar env _ folder_frame_archive Hr)
    | |- guar _ _ (stage_folder_page _ _) => by apply (stage_folder_guar env _ folder_frame_archive Hr)
    | |- guar _ _ (complete_folder_run _) => apply complete_folder_archive
    end.
Qed.

Lemma run_snapshot_archive fuel gate source account resume :
  kept (run_snapshot fuel gate source account resume).
Proof.
  apply (run_snapshot_guar env _); [|done|apply budget_archive|apply complete_run_archive].
  intros d d' [H _]. by apply sync_frame_archive.
Qed.

Lemma run_folder_archive fuel gate source account folder resume :
  kept (run_folder fuel gate source account folder resume).
Proof.
  unfold run_folder. apply guar_bind; [typeclasses eauto| |apply run_folder_pages_archive].
  by apply (load_folder_run_guar env _ folder_frame_archive Hr).
Qed.

Lemma record_limit_archive account capability : kept (record_capability_limit account capability).
Proof. by apply (record_limit_guar env _ folder_frame_archive Hr). Qed.

Lemma run_scan_archive service source account : kept (run_scan service source account).
Proof. apply (run_scan_guar service source account env _); [|done]. apply scan_steps_archive. Qed.

Lemma execute_write_archive service request action : kept (execute_write service request action).
Proof.
  apply (execute_write_footprint env _ archive_tolerates_writes Hr). split; intros.
  - exact (reserve_frame _ _ _ _ _ budget_archive Hr).
  - exact (refund_frame _ _ _ _ _ _ budget_archive Hr).
Qed.

(** C4. No service ever makes the archive claim what no complete snapshot of the same account or folder
    backs: authority, observed absence and folder observations stay justified through bookmark
    snapshots, folder snapshots, capability limits, head scans and write-backs, whatever fails and
    however they interleave. *)
Theorem archive_stays_justified fuel gate source folder_source scans service writeback request action
    account folder resume capability :
  guar env (on_db (keeps ArchiveJustified)) (run_snapshot fuel gate source account resume) ∧
  guar env (on_db (keeps ArchiveJustified)) (run_folder fuel gate folder_source account folder resume) ∧
  guar env (on_db (keeps ArchiveJustified)) (record_capability_limit account capability) ∧
  guar env (on_db (keeps ArchiveJustified)) (run_scan service scans account) ∧
  guar env (on_db (keeps ArchiveJustified)) (execute_write writeback request action) ∧
  guar env (on_db (keeps ArchiveJustified)) (dry_run writeback request action).
Proof.
  split_and!; [apply run_snapshot_archive|apply run_folder_archive|apply record_limit_archive
    |apply run_scan_archive|apply execute_write_archive|].
  by apply (dry_run_footprint env _ archive_tolerates_writes Hr).
Qed.
End Together.
