(* ===== verification/WritebackGates.v ===== *)
(** * The gates of a write, undisturbed

    The decision [evaluate_local] takes as a function of the state, and what a dry run and a live run
    do with it when nothing fails and nobody interferes. *)
From S2P Require Export WritebackSafety.

(** ** The specification of admission *)

Section Specification.
Context {ch : Chrono}.

(** The write authority of an account: the scopes of its newest active credential, and an active
    authorization. *)
Definition authority_refusal (account : Z) (d : Db) : option BookmarkAdmissionRefusal :=
  match newest_credential (is_active_of account) d, bookmark_write_authorizations d !! account with
  | Some (_, credential), Some authorization =>
      if String.eqb (wa_status authorization) "active" then
        if covers_required (crd_granted_scopes credential) && covers_required (wa_granted_scopes authorization)
        then None else Some RefusedScope
      else Some RefusedAuthorization
  | _, _ => Some RefusedAuthorization
  end.

(** The budget gate at an instant. *)
Definition budget_admission (gate : BudgetGate) (account clock : Z) (d : Db) :
    result LocalAdmission BudgetError :=
  let start := window_start_for clock (window_seconds gate) in
  match reset_instant gate start with
  | Err e => Err e
  | Ok reset =>
      Ok (if bool_decide (1 ≤ request_cap_per_window gate ∧
               default 0 (usage account (as_str (budget_class gate)) start d) + 1
                 ≤ request_cap_per_window gate)
          then AdmittedLocally reset else Refused RefusedBudget (Some reset))
  end.

(** The first gate that refuses decides, in the order owner, connection, authority, consent; then
    what is already observed; then the budget. *)
Definition local_admission (service : BookmarkWritebackService) (request : BookmarkWriteRequest)
    (action : BookmarkAction) (now : Z) (d : Db) : result LocalAdmission BookmarkWritebackError :=
  match accounts d !! wr_account_id request with
  | Some account =>
      if bool_decide (acc_internal_user_id account = wr_internal_user_id request) then
        if String.eqb (acc_state account) "connected" then
          match authority_refusal (wr_account_id request) d with
          | Some class => Ok (Refused class None)
          | None =>
              if live_consent request action now d then
                match locally_satisfied action (observation_of request d) with
                | Some observed_at => Ok (LocallySatisfied observed_at)
                | None => result_map_err WriteBudget
                            (budget_admission (ws_budget service) (wr_account_id request) now d)
                end
              else Ok (Refused RefusedConsent None)
          end
        else Ok (Refused RefusedConnection None)
      else Ok (Refused RefusedOwnership None)
  | None => Ok (Refused RefusedOwnership None)
  end.
End Specification.

(** The tables admission reads. *)
Definition gate_tables (d : Db) :=
  (accounts d, credentials d, bookmark_write_authorizations d, bookmark_write_consents d, posts d,
   bookmarks d, api_budget_windows d).

Section Gates.
Context {ch : Chrono} {ct : Contracts} {ec : EnvelopeCodec} {cr : Crypto} {ac : ArticleContracts}
  {sc : SocialContracts} {ho : HashOrder} {rf : Rfc3339} {mp : BookmarkMutationProvider}
  {mpl : MutationProviderLaws}.
Context (env : Env Db) (now : Z) (Hq : quiet env) (Hclock : ∀ n, e_clock env n = now).

Lemma local_admission_frame service request action d d' :
  same gate_tables d d' →
  local_admission service request action now d' = local_admission service request action now d.
Proof.
  intros [= Ha Hc Hw Hcs Hp Hb Hu].
  unfold local_admission, authority_refusal, newest_credential, live_consent, observation_of,
    bookmarks_of, budget_admission, usage.
  by rewrite Ha, Hc, Hw, Hcs, Hp, Hb, Hu.
Qed.

Definition authority_result (account : Z) (d : Db) : result unit BookmarkWritebackError :=
  match authority_refusal account d with
  | None => Ok tt
  | Some class => Err (admission_refusal_error class None)
  end.

Lemma authority_refusal_classes account d class :
  authority_refusal account d = Some class → class = RefusedAuthorization ∨ class = RefusedScope.
Proof.
  unfold authority_refusal. destruct (newest_credential _ d) as [[id c]|]; [|intros [= <-]; by left].
  destruct (bookmark_write_authorizations d !! account); [|intros [= <-]; by left].
  destruct (String.eqb _ _); [|intros [= <-]; by left]. destruct (_ && _); [done|].
  intros [= <-]. by right.
Qed.

Lemma require_authority_spec account (w : W) :
  ∃ n, require_write_authority account env w =
    (authority_result account (w_db w), mkWorld (w_db w) n (w_log w)).
Proof.
  destruct w as [d t l]. cbn [w_db w_log].
  unfold require_write_authority, authority_result, authority_refusal. run_quiet Hq. unfold ok_or.
  destruct (newest_credential _ d) as [[id c]|]; simpl; [|by eexists].
  run_quiet Hq. destruct (bookmark_write_authorizations d !! account) as [a|]; simpl; [|by eexists].
  destruct (String.eqb _ _); simpl; [|by eexists]. destruct (_ && _); by eexists.
Qed.

Lemma inspect_spec gate account request (w : W) :
  ∃ n, inspect gate account request env w =
    (let start := window_start_for now (window_seconds gate) in
     match reset_instant gate start with
     | Err e => Err e
     | Ok reset => Ok (mkBudgetInspection
         (bool_decide (request ≤ request_cap_per_window gate ∧
            default 0 (usage account (as_str (budget_class gate)) start (w_db w)) + request
              ≤ request_cap_per_window gate)) reset)
     end, mkWorld (w_db w) n (w_log w)).
Proof.
  destruct w as [d t l]. cbn [w_db w_log].
  unfold inspect, window_usage. run_quiet Hq. rewrite !Hclock. cbv zeta.
  destruct (reset_instant _ _); simpl; [|by eexists]. run_quiet Hq. by eexists.
Qed.

Lemma evaluate_gates_spec service request action (w : W) :
  ∃ n, evaluate_gates service request action now env w =
    (if live_consent request action now (w_db w) then
       match locally_satisfied action (observation_of request (w_db w)) with
       | Some observed_at => Ok (LocallySatisfied observed_at)
       | None => result_map_err WriteBudget
                   (budget_admission (ws_budget service) (wr_account_id request) now (w_db w))
       end
     else Ok (Refused RefusedConsent None), mkWorld (w_db w) n (w_log w)).
Proof.
  destruct w as [d t l]. cbn [w_db w_log].
  unfold evaluate_gates. run_quiet Hq. destruct (live_consent _ _ _ _); simpl; [|by eexists].
  run_quiet Hq. destruct (locally_satisfied _ _) as [at_|]; [by eexists|].
  unfold bind, map_err.
  match goal with |- context [inspect _ _ _ env ?w] =>
    destruct (inspect_spec (ws_budget service) (wr_account_id request) 1 w) as [n Hi] end.
  exists n. rewrite Hi. unfold budget_admission. cbv zeta.
  destruct (reset_instant _ _); simpl; [|done]. by case_bool_decide.
Qed.

Lemma evaluate_local_spec service request action (w : W) :
  ∃ n, evaluate_local service request action now env w =
    (local_admission service request action now (w_db w), mkWorld (w_db w) n (w_log w)).
Proof.
  unfold evaluate_local, owned_account_state, local_admission. destruct w as [d t l]. cbn [w_db w_log].
  unfold bind at 1, attempt at 1. run_quiet Hq. unfold ok_or.
  destruct (accounts d !! wr_account_id request) as [account|] eqn:Ea; simpl; [|by eexists].
  case_bool_decide as Hown; simpl; [|by eexists].
  destruct (String.eqb (acc_state account) "connected"); simpl; [|by eexists].
  unfold bind, attempt.
  match goal with |- context [require_write_authority _ env ?w] =>
    destruct (require_authority_spec (wr_account_id request) w) as [n Hn] end.
  rewrite Hn. unfold authority_result. cbn [w_db w_log tick].
  destruct (authority_refusal _ d) as [class|] eqn:Eclass.
  - exists n. by apply authority_refusal_classes in Eclass as [-> | ->].
  - match goal with |- context [evaluate_gates _ _ _ _ env ?w] =>
      destruct (evaluate_gates_spec service request action w) as [m Hm] end.
    exists m. exact Hm.
Qed.

(** A claim of a free key. *)
Definition claimable (request : BookmarkWriteRequest) (d : Db) : Prop :=
  is_Some (accounts d !! wr_account_id request) ∧
  operation_of (wr_account_id request) (sha256_hex (wr_idempotency_key request)) d = None ∧
  ∀ n, bookmark_write_operations d !! e_uuid env n = None.

Lemma claim_spec request action mode (w : W) :
  claimable request (w_db w) →
  ∃ id w' pg, claim_operation request action mode env w = (Ok (ClaimExecute id), w') ∧
    bookmark_write_operations (w_db w') =
      <[id := claimed_operation request action mode pg (w_db w)]> (bookmark_write_operations (w_db w)) ∧
    bookmark_write_operations (w_db w) !! id = None ∧
    same gate_tables (w_db w) (w_db w') ∧ silent w w'.
Proof.
  destruct w as [d t l]. cbn [w_db]. intros (Hacc & Hfree & Hid). unfold claim_operation. run_quiet Hq.
  unfold insert_operation, insert_new. rewrite Hfree, bool_decide_eq_true_2, Hid by done. simpl.
  unfold append_operation_audit, append_operation_audit_details. run_quiet Hq.
  eexists _, _, _. split; [done|]. unfold append_audit_row. simpl. rewrite lookup_insert_eq. by split_and!.
Qed.

(** The budget an admitted run finds. *)
Definition spendable (gate : BudgetGate) (account : Z) (d : Db) : Prop :=
  0 < window_seconds gate ≤ i32_max ∧ request_cap_per_window gate ≤ i32_max ∧
  is_Some (accounts d !! account) ∧
  0 ≤ default 0 (usage account (as_str (budget_class gate))
                   (window_start_for now (window_seconds gate)) d).

Lemma reserve_admitted gate account reset (w : W) :
  spendable gate account (w_db w) →
  budget_admission gate account now (w_db w) = Ok (AdmittedLocally reset) →
  let key := (account, as_str (budget_class gate), window_start_for now (window_seconds gate)) in
  ∃ w', reserve gate account 1 env w = (Ok (mkReservation key.2 1), w') ∧ silent w w' ∧
    (∃ f, w_db w' = on_api_budget_windows f (w_db w)) ∧
    usage key.1.1 key.1.2 key.2 (w_db w') = Some (default 0 (usage key.1.1 key.1.2 key.2 (w_db w)) + 1).
Proof.
  intros (Hsec & Hcap & Hacc & Hpos) Hadm. cbv zeta. cbn [fst snd].
  set (start := window_start_for now (window_seconds gate)) in *.
  set (class := as_str (budget_class gate)) in *.
  unfold budget_admission in Hadm. cbv zeta in Hadm. fold start class in Hadm.
  destruct (reset_instant gate start); [|done]. case_bool_decide as Hfit; [|done].
  destruct w as [d t l]. cbn [w_db] in *. unfold reserve, charge.
  rewrite bool_decide_eq_false_2 by lia. run_quiet Hq. rewrite Hclock. fold start class.
  destruct (ensure_window account class start (window_seconds gate) (request_cap_per_window gate) d)
    as [[u d1]|] eqn:E1.
  2:{ exfalso. unfold ensure_window in E1.
      assert (H1 : int4 (window_seconds gate) = Some (window_seconds gate)) by (apply int4_Some; unfold i32_min; lia).
      assert (H2 : int4 (request_cap_per_window gate) = Some (request_cap_per_window gate))
        by (apply int4_Some; unfold i32_min; lia).
      rewrite H1, H2, !bool_decide_eq_true_2 in E1; [done|done| |lia|lia].
      unfold class, as_str. destruct (budget_class gate); auto. }
  pose proof (usage_ensure _ _ _ _ _ _ _ _ E1) as Hu1. run_quiet Hq. rewrite Hu1. simpl.
  rewrite bool_decide_eq_false_2 by lia. run_quiet Hq.
  pose proof E1 as [_ Ed1]%ensure_window_Some.
  assert (E2 : ∃ d2, bump_usage account class start 1 d1 = Some (tt, d2) ∧ ∃ f, d2 = on_api_budget_windows f d1).
  { unfold bump_usage. unfold usage in Hu1 at 1.
    destruct (api_budget_windows d1 !! (account, class, start)) as [row|] eqn:Er; [|done].
    simpl in Hu1. injection Hu1 as ->.
    assert (H3 : int4 (default 0 (usage account class start d) + 1)
                 = Some (default 0 (usage account class start d) + 1))
      by (apply int4_Some; unfold i32_min; lia).
    rewrite H3. simpl. eexists. split; [done|]. eexists (λ _, _). done. }
  destruct E2 as (d2 & E2 & f & Ed2). rewrite E2. run_quiet Hq. eexists. split; [done|].
  destruct (bump_usage_Some _ _ _ _ _ _ _ _ Hu1 E2) as [Hu2 _].
  split; [done|]. split; [|exact Hu2]. exists (λ _, api_budget_windows d2). subst d2 d1. done.
Qed.

Lemma consume_consent_quiet service id request action reservation (w : W) :
  live_consent request action now (w_db w) = true →
  ∃ w', consume_consent service id request action now reservation env w = (Ok tt, w') ∧ silent w w' ∧
    consumes request action (w_db w) (w_db w') ∧
    api_budget_windows (w_db w') = api_budget_windows (w_db w).
Proof.
  intros Hl. destruct w as [d t l]. cbn [w_db] in *. unfold consume_consent, consume_transaction.
  run_quiet Hq. rewrite Hl. cbn [negb]. run_quiet Hq. eexists. split; [done|]. split; [done|].
  set (d3 := append_admission_audit _ _ _ _).
  assert (H3 : same (λ d, (bookmark_write_consents d, api_budget_windows d))
            (transition id "received" (in_flight_operation now) (consume_consent_row request now d)) d3).
  { unfold d3, append_admission_audit. destruct (bookmark_write_operations _ !! _); [|done].
    by destruct (consent_surface _ _). }
  injection H3 as Hc Hb. split; [|cbn [w_db set_db tick]; by rewrite Hb].
  unfold live_consent in Hl. destruct (bookmark_write_consents d !! _) as [c|] eqn:Ec; [|done].
  exists now, c. split_and!; [done..|]. cbn [w_db set_db tick]. rewrite Hc. simpl. by rewrite lookup_alter_eq, Ec.
Qed.

(** Completions that only write cannot fail here. *)
Lemma refuse_operation_quiet id class reset (w : W) :
  ∃ w', refuse_operation id class reset env w = (Ok tt, w').
Proof. destruct w as [d t l]. unfold refuse_operation, append_operation_audit_details. run_quiet Hq. by eexists. Qed.

Lemma complete_satisfied_quiet id observed (w : W) :
  ∃ w', complete_operation id "succeeded" "already_satisfied" observed env w = (Ok tt, w').
Proof.
  destruct w as [d t l]. unfold complete_operation, append_operation_audit_details. run_quiet Hq.
  cbn [String.eqb Ascii.eqb Bool.eqb]. run_quiet Hq. by eexists.
Qed.

Lemma complete_dry_run_quiet id r (w : W) :
  ∃ w', complete_dry_run id r env w = (Ok tt, w') ∧ same gate_tables (w_db w) (w_db w').
Proof.
  destruct w as [d t l]. unfold complete_dry_run, append_operation_audit, append_operation_audit_details.
  run_quiet Hq. destruct (dry_run_gate r) as [gate_event details]. run_quiet Hq. eexists. split; [done|].
  cbn [w_db set_db tick]. assert (Ha : ∀ ec at_ v d, same gate_tables d (append_audit_row id ec at_ v d)).
  { intros. unfold append_audit_row. by destruct (bookmark_write_operations _ !! _). }
  etrans; [|apply Ha]. etrans; [|apply Ha]. done.
Qed.

(** What a claimed run does, by the admission decision of the state it was claimed in. *)
Lemma run_operation_spec service id request action (w : W) :
  spendable (ws_budget service) (wr_account_id request) (w_db w) →
  match local_admission service request action now (w_db w) with
  | Err e => (run_operation service id request action env w).1 = Err e
  | Ok (Refused class reset) =>
      (run_operation service id request action env w).1 = Err (admission_refusal_error class reset)
  | Ok (LocallySatisfied _) =>
      (run_operation service id request action env w).1 = Ok (mkBookmarkWriteResult id AlreadySatisfied)
  | Ok (AdmittedLocally _) => ∃ w2,
      run_operation service id request action env w = submit id request action env w2 ∧ silent w w2 ∧
      consumes request action (w_db w) (w_db w2) ∧
      let key := (wr_account_id request, as_str (budget_class (ws_budget service)),
                  window_start_for now (window_seconds (ws_budget service))) in
      usage key.1.1 key.1.2 key.2 (w_db w2) = Some (default 0 (usage key.1.1 key.1.2 key.2 (w_db w)) + 1)
  end.
Proof.
  intros Hbud. destruct (evaluate_local_spec service request action (tick w)) as [n He].
  cbn [w_db w_log tick] in He. set (w1 := mkWorld (w_db w) n (w_log w)) in *.
  assert (E : run_operation service id request action env w =
    match local_admission service request action now (w_db w) with
    | Err e => (Err e, w1)
    | Ok (LocallySatisfied observed_at) =>
        (do! complete_operation id "succeeded" "already_satisfied" (Some observed_at) in
         ret (mkBookmarkWriteResult id AlreadySatisfied)) env w1
    | Ok (Refused class reset_at) =>
        (do! refuse_operation id class reset_at in throw (admission_refusal_error class reset_at)) env w1
    | Ok (AdmittedLocally _) => reserve_and_submit service id request action now env w1
    end).
  { unfold run_operation, bind at 1. cbn [clock_now]. rewrite Hclock. unfold bind at 1. rewrite He.
    by destruct (local_admission service request action now (w_db w)) as [[]|]. }
  rewrite E. clear E He.
  destruct (local_admission service request action now (w_db w)) as [[reset|observed|class reset]|e] eqn:El;
    [| | |done].
  - assert (Hb : live_consent request action now (w_db w) = true ∧
              budget_admission (ws_budget service) (wr_account_id request) now (w_db w) = Ok (AdmittedLocally reset)).
    { unfold local_admission in El. destruct (accounts _ !! _); [|done]. case_bool_decide; [|done].
      destruct (String.eqb _ _); [|done]. destruct (authority_refusal _ _); [done|].
      destruct (live_consent _ _ _ _); [|done]. split; [done|].
      destruct (locally_satisfied _ _); [done|]. destruct (budget_admission _ _ _ _); [|done].
      by injection El as ->. }
    destruct Hb as [Hlive Hadm]. unfold reserve_and_submit, bind at 1, attempt.
    destruct (reserve_admitted (ws_budget service) (wr_account_id request) reset w1 Hbud Hadm)
      as (w2 & Hres & L2 & [f E2] & Hu2).
    rewrite Hres. cbn [fst snd] in *. unfold bind at 1.
    assert (Hlive2 : live_consent request action now (w_db w2) = true) by (rewrite E2; exact Hlive).
    destruct (consume_consent_quiet service id request action
      (mkReservation (window_start_for now (window_seconds (ws_budget service))) 1) w2 Hlive2)
      as (w3 & Hcons & L3 & Hc & Hb3).
    rewrite Hcons. exists w3. split; [done|]. split; [unfold silent in *; simpl in *; congruence|].
    split; [rewrite E2 in Hc; exact Hc|]. unfold usage in *. rewrite Hb3. exact Hu2.
  - unfold bind. destruct (complete_satisfied_quiet id (Some observed) w1) as [w2 ->]. done.
  - unfold bind. destruct (refuse_operation_quiet id class reset w1) as [w2 ->]. done.
Qed.

(** C16. A dry run predicts the live run. On the same state, under a free key and with nothing failing,
    it sends nothing and leaves consents, budget, bookmarks and credentials as they were; a predicted
    refusal is the refusal of the live run, a predicted observation is its result, and a predicted
    submission is a live run that consumes the consent, spends one request of the budget and reaches
    its provider call. *)
Theorem dry_run_predicts_execute service request action (w : W) :
  valid_provider_post_id (wr_provider_post_id request) = true →
  valid_idempotency_key (wr_idempotency_key request) = true →
  claimable request (w_db w) → spendable (ws_budget service) (wr_account_id request) (w_db w) →
  let '(outcome, w1) := dry_run service request action env w in
  let '(live, w2) := execute_write service request action env w in
  silent w w1 ∧ same gate_tables (w_db w) (w_db w1) ∧
  match outcome with
  | Err e => live = Err e
  | Ok r =>
      match dr_outcome r with
      | WouldRefuse class => live = Err (admission_refusal_error class (dr_budget_reset_at r))
      | WouldAlreadySatisfy _ => ∃ id, live = Ok (mkBookmarkWriteResult id AlreadySatisfied)
      | WouldSubmit _ => ∃ id w3, (live, w2) = submit id request action env w3 ∧ silent w w3 ∧
          consumes request action (w_db w) (w_db w3) ∧
          let key := (wr_account_id request, as_str (budget_class (ws_budget service)),
                      window_start_for now (window_seconds (ws_budget service))) in
          usage key.1.1 key.1.2 key.2 (w_db w3)
            = Some (default 0 (usage key.1.1 key.1.2 key.2 (w_db w)) + 1)
      end
  end.
Proof.
  intros Hpost Hkey Hclaim Hbud.
  destruct (claim_spec request action "live" w Hclaim) as (id & wl & pg & Hl & _ & _ & Tl & Ll).
  destruct (claim_spec request action "dry_run" w Hclaim) as (id' & wd & pg' & Hd & _ & _ & Td & Ld).
  assert (Hbudl : spendable (ws_budget service) (wr_account_id request) (w_db wl)).
  { unfold spendable, usage in *. injection Tl as -> _ _ _ _ _ ->. exact Hbud. }
  pose proof (run_operation_spec service id request action wl Hbudl) as Hrun.
  rewrite (local_admission_frame service request action _ _ Tl) in Hrun.
  unfold dry_run, execute_write. rewrite Hpost, Hkey. cbn [negb].
  unfold bind at 1. rewrite Hd. unfold bind at 1. cbn [clock_now]. rewrite Hclock.
  unfold bind at 1. destruct (evaluate_local_spec service request action (tick wd)) as [n He].
  rewrite He. cbn [w_db w_log tick]. rewrite (local_admission_frame service request action _ _ Td).
  destruct (bind (claim_operation request action "live") _ env w) as [live w2] eqn:Elive.
  unfold bind in Elive. rewrite Hl in Elive. rewrite Elive in Hrun. cbn [fst] in Hrun.
  destruct (local_admission service request action now (w_db w)) as [admission|e]; [|by split_and!].
  unfold bind. set (r := dry_run_result action now admission). set (w1 := mkWorld (w_db wd) n (w_log wd)).
  destruct (complete_dry_run_quiet id' r w1) as (w4 & Hdone & T4).
  pose proof (guar_elim (complete_dry_run_silent env id' r) w1) as L4. rewrite Hdone in *.
  cbn [fst snd] in L4. split_and!; [unfold silent in *; simpl in *; congruence|by etrans|].
  destruct admission as [reset|observed|class reset]; simpl.
  - destruct Hrun as (w3 & E3 & L3 & Hc & Hu). exists id, w3. split_and!.
    + exact E3.
    + unfold silent in *. congruence.
    + injection Tl as _ _ _ Hcs _ _ _. unfold consumes in *. by rewrite <-Hcs.
    + injection Tl as _ _ _ _ _ _ Hb. cbn [fst snd] in *. rewrite Hu. unfold usage. by rewrite Hb.
  - by exists id.
  - exact Hrun.
Qed.

(** Writing an audit row of an existing operation. *)
Lemma append_audit_quiet id event_class details (w : W) :
  ∃ w', append_operation_audit_details id event_class details env w = (Ok tt, w') ∧ silent w w' ∧
    same (λ d, (gate_tables d, bookmark_write_operations d)) (w_db w) (w_db w').
Proof.
  destruct w as [d t l]. unfold append_operation_audit_details. run_quiet Hq. eexists. split; [done|].
  split; [done|]. cbn [w_db set_db tick]. unfold append_audit_row. by destruct (bookmark_write_operations d !! id).
Qed.

Lemma poll_unsettled polls id o (w : W) :
  bookmark_write_operations (w_db w) !! id = Some o → stored_write_status (wo_status o) = None →
  ∃ w', poll_operation polls id env w = (Err OperationInProgress, w') ∧ w_db w' = w_db w ∧
    silent w w'.
Proof.
  revert w. induction polls as [|polls IH]; intros w Ho Hs; simpl; [by exists w|].
  destruct w as [d t l]. cbn [w_db] in *. run_quiet Hq. rewrite Ho. simpl. rewrite Hs.
  exact (IH (mkWorld d _ l) Ho Hs).
Qed.

(** What an exact or conflicting retry of a used key answers. *)
Definition replay_answer (request : BookmarkWriteRequest) (action : BookmarkAction) (id : Z)
    (o : WriteOperation) : result BookmarkWriteResult BookmarkWritebackError :=
  if String.eqb (wo_request_fingerprint o) (request_fingerprint request action "live") then
    match stored_write_status (wo_status o) with
    | Some status => Ok (mkBookmarkWriteResult id status)
    | None => Err OperationInProgress
    end
  else Err IdempotencyConflict.

Lemma used_key_answer service request action id o (w : W) :
  valid_provider_post_id (wr_provider_post_id request) = true →
  valid_idempotency_key (wr_idempotency_key request) = true →
  operation_of (wr_account_id request) (sha256_hex (wr_idempotency_key request)) (w_db w) = Some (id, o) →
  let '(r, w') := execute_write service request action env w in
  r = replay_answer request action id o ∧ silent w w' ∧
  same (λ d, (gate_tables d, bookmark_write_operations d)) (w_db w) (w_db w').
Proof.
  intros Hpost Hkey Hop. unfold execute_write. rewrite Hpost, Hkey. cbn [negb].
  pose proof Hop as [Hid _]%find_row_Some. destruct w as [d t l]. cbn [w_db] in *.
  unfold claim_operation, append_conflict_audit, append_replay_audit, append_operation_audit.
  run_quiet Hq. unfold insert_operation. rewrite Hop. run_quiet Hq. rewrite Hop. cbn [mbind option_bind].
  run_quiet Hq. unfold replay_answer.
  destruct (String.eqb (wo_request_fingerprint o) _) eqn:Ef; cbn [negb].
  - destruct (stored_write_status (wo_status o)) as [status|] eqn:Es.
    + match goal with |- context [append_operation_audit_details ?i ?e ?v env ?w] =>
        destruct (append_audit_quiet i e v w) as (w' & Ha & La & Sa) end.
      rewrite Ha. split_and!; [done|exact La|exact Sa].
    + cbv beta iota. unfold wait_for_operation.
      match goal with |- context [poll_operation _ _ env ?w] =>
        destruct (poll_unsettled MAX_POLLS id o w Hid Es) as (w' & Ha & Ew & Lw) end.
      rewrite Ha. split_and!; [done|exact Lw|]. by rewrite Ew.
  - match goal with |- context [append_operation_audit_details ?i ?e ?v env ?w] =>
      destruct (append_audit_quiet i e v w) as (w' & Ha & La & Sa) end.
    rewrite Ha. split_and!; [done|exact La|exact Sa].
Qed.

(** The statuses with a stored answer, and the settled ones without. *)
Definition answered_statuses : list (string * BookmarkWriteStatus) :=
  [("succeeded", Succeeded); ("reconciled_succeeded", Succeeded); ("projection_pending", ProjectionPending);
   ("uncertain", Uncertain); ("reconciled_not_current", ReconciledNotCurrent)]%string.
Definition unanswered_statuses : list string := ["refused"; "failed"; "dry_run"]%string.

Lemma answered_status status answer :
  (status, answer) ∈ answered_statuses → stored_write_status status = Some answer.
Proof.
  unfold answered_statuses. rewrite !elem_of_cons, elem_of_nil.
  intros H. repeat (destruct H as [H|H]; [by injection H as -> ->|]). done.
Qed.

Lemma unanswered_status status : status ∈ unanswered_statuses → stored_write_status status = None.
Proof.
  unfold unanswered_statuses. rewrite !elem_of_cons, elem_of_nil. intros H.
  repeat (destruct H as [H|H]; [by rewrite H|]). done.
Qed.

(** C30. A used idempotency key is answered from the stored operation alone. Other content is a conflict.
    An exact retry of a write that succeeded, is uncertain, waits for its projection or was reconciled is
    answered with that stored result and the operation's identity. An exact retry of a write that was
    refused or failed for good is not: it is reported as still in progress once the polls run out,
    although the operation is settled. In that last case the code departs from the repository's
    specification, which asks for the stored outcome of every terminal state
    ([openspec/specs/bookmark-writeback/spec.md], [docs/THREAT_MODEL.md] and the write-back design). In
    every case nothing is sent, and no operation, consent, budget or bookmark changes. *)
Theorem used_key_is_answered_from_storage service request action id o (w : W) :
  valid_provider_post_id (wr_provider_post_id request) = true →
  valid_idempotency_key (wr_idempotency_key request) = true →
  operation_of (wr_account_id request) (sha256_hex (wr_idempotency_key request)) (w_db w) = Some (id, o) →
  let '(r, w') := execute_write service request action env w in
  let exact := wo_request_fingerprint o = request_fingerprint request action "live" in
  r = replay_answer request action id o ∧
  (¬ exact → r = Err IdempotencyConflict) ∧
  (exact → ∀ answer, (wo_status o, answer) ∈ answered_statuses → r = Ok (mkBookmarkWriteResult id answer)) ∧
  (exact → wo_status o ∈ unanswered_statuses → r = Err OperationInProgress) ∧
  silent w w' ∧
  same (λ d, (gate_tables d, bookmark_write_operations d)) (w_db w) (w_db w').
Proof.
  intros Hpost Hkey Hop. pose proof (used_key_answer service request action id o w Hpost Hkey Hop) as H.
  destruct (execute_write service request action env w) as [r w']. destruct H as (-> & Hs & Hd).
  unfold replay_answer. split_and!; [done| | | |exact Hs|exact Hd].
  - intros Hne. by rewrite (proj2 (String.eqb_neq _ _) Hne).
  - intros E answer Ha. by rewrite (proj2 (String.eqb_eq _ _) E), (answered_status _ _ Ha).
  - intros E Hu. by rewrite (proj2 (String.eqb_eq _ _) E), (unanswered_status _ Hu).
Qed.
End Gates.
