(* ===== verification/WritebackProvider.v ===== *)
(** * The official bookmark adapter ([crates/x-sync/src/writeback/provider.rs])

    The provider seam over X: the account's own credential, one request that is never retried, and the
    closed classification of what came back. The HTTP client and the JSON parser are parameters: an
    answer per step. The adapter discharges the laws of [BookmarkMutationProvider]. *)
From S2P Require Export WritebackGates.

(** ** What the HTTP client reports *)

(** [reqwest::Error], as far as the adapter looks at it. *)
Record TransportError := mkTransportError { te_is_connect : bool; te_status : option Z }.

(** A response: its readable headers, the chunks of its body and how reading them ends. *)
Record BookmarkResponse := mkBookmarkResponse {
  bh_status : Z;
  bh_request_id : option string;
  bh_rate_limit_reset : option string;
  bh_content_length : option Z;
  bh_chunks : list string;
  bh_failure : option TransportError;
}.

Class BookmarkHttp := {
  bookmark_answer : nat → result BookmarkResponse TransportError;
  parse_json : string → option Value;      (* [serde_json::from_slice::<Value>] *)
}.

Definition MAX_RESPONSE_SIZE : Z := 64 * 1024.

Record OfficialBookmarkProvider := mkOfficialProvider {
  op_cipher : TokenCipher;
  op_base_url : string;
  op_http_ready : bool;
}.

(** [OfficialBookmarkProvider::with_timeout], given whether the client could be built. *)
Definition official_provider (cipher : TokenCipher) (base_url : string) (http_ready : bool) :
    OfficialBookmarkProvider :=
  mkOfficialProvider cipher (trim_end_char "/" base_url) http_ready.

(** ** Classification *)

Definition classify_transport (error : TransportError) : BookmarkProviderError :=
  if te_is_connect error then Transient else ProviderUncertain (te_status error) (mkEvidence None).

Definition request_id_char (c : ascii) : bool :=
  is_ascii_digit c || is_ascii_upper c || is_ascii_lower c || Ascii.eqb c "." || Ascii.eqb c "_"
  || Ascii.eqb c ":" || Ascii.eqb c "-".
Definition bounded_request_id (value : string) : option string :=
  if negb (String.eqb value "") && bool_decide (Z.of_nat (String.length value) ≤ 128)
     && all_chars request_id_char value
  then Some value else None.
Definition response_evidence (response : BookmarkResponse) : BookmarkProviderEvidence :=
  mkEvidence (value ← bh_request_id response; bounded_request_id value).

(** [str::parse::<i64>]. *)
Definition parse_i64 (s : string) : option Z :=
  match s with
  | String "-" rest =>
      if String.eqb rest "" then None
      else z ← digits_in 10 0 rest; if bool_decide (z ≤ i64_max + 1) then Some (- z) else None
  | _ => from_str_radix 10 i64_max s
  end.

(** The chunks of a body under the bound, or the failure that ended the reading. *)
Fixpoint read_body (body : string) (chunks : list string) (failure : option TransportError)
    (oversized : BookmarkProviderError) : result string BookmarkProviderError :=
  match chunks with
  | [] => match failure with Some error => Err (classify_transport error) | None => Ok body end
  | chunk :: chunks =>
      if bool_decide (Z.of_nat (String.length body) + Z.of_nat (String.length chunk) > MAX_RESPONSE_SIZE)
      then Err oversized
      else read_body (body +:+ chunk) chunks failure oversized
  end.

(** [value.pointer("/data/bookmarked").and_then(Value::as_bool)]. *)
Definition member (name : string) (v : Value) : option Value :=
  match v with Object members => obj_get name members | _ => None end.
Definition bookmarked_flag (v : Value) : option bool :=
  data ← member "data" v; flag ← member "bookmarked" data;
  match flag with Bool b => Some b | _ => None end.

Section Official.
Context {ch : Chrono} {ct : Contracts} {cr : Crypto} {http : BookmarkHttp}.

(** The judgement of a completed exchange, the tail of [send]. *)
Definition judge_body (response : BookmarkResponse) (expected : bool) :
    result BookmarkProviderEvidence BookmarkProviderError :=
  let evidence := response_evidence response in
  let uncertain := ProviderUncertain (Some (bh_status response)) evidence in
  if match bh_content_length response with Some n => bool_decide (n > MAX_RESPONSE_SIZE) | None => false end
  then Err uncertain
  else
    match read_body "" (bh_chunks response) (bh_failure response) uncertain with
    | Err error => Err error
    | Ok body =>
        match parse_json body with
        | None => Err uncertain
        | Some value =>
            if bool_decide (bookmarked_flag value = Some expected) then Ok evidence else Err uncertain
        end
    end.
Definition judge_response (response : BookmarkResponse) (expected : bool) :
    result BookmarkProviderEvidence BookmarkProviderError :=
  let evidence := response_evidence response in
  let status := bh_status response in
  if Z.eqb status 401 || Z.eqb status 403 then Err (AuthorizationLost evidence)
  else if Z.eqb status 429 then
    Err (RateLimited (value ← bh_rate_limit_reset response; parse_i64 value) evidence)
  else if in_range 400 499 status then Err (DefiniteRefusal status evidence)
  else if in_range 500 599 status || negb (is_success status)
  then Err (ProviderUncertain (Some status) evidence)
  else judge_body response expected.
Definition judge (answer : result BookmarkResponse TransportError) (expected : bool) :
    result BookmarkProviderEvidence BookmarkProviderError :=
  match answer with
  | Err error => Err (classify_transport error)
  | Ok response => judge_response response expected
  end.

Context (provider : OfficialBookmarkProvider).

(** [send]. *)
Definition send_bookmark (http_method url : string) (credential : CredentialPayload)
    (tweet_id : option string) (expected : bool) :
    Prog BookmarkProviderError BookmarkProviderEvidence :=
  if negb (op_http_ready provider) then throw Transient
  else
    let! answer := call (SendBookmark http_method url (access_token credential) tweet_id) bookmark_answer in
    of_result (judge answer expected).

(** The row of [credential]: a connected account, its newest active credential, its active
    authorization. *)
Definition credential_state (account : Z) (d : Db) :
    option (string * string * list string * list string) :=
  row ← accounts d !! account;
  '(_, credential) ← newest_credential (is_active_of account) d;
  authorization ← bookmark_write_authorizations d !! account;
  if String.eqb (acc_state row) "connected" && String.eqb (wa_status authorization) "active"
  then Some (acc_provider_user_id row, crd_encrypted_payload credential, crd_granted_scopes credential,
             wa_granted_scopes authorization)
  else None.

(** The credential a state yields. *)
Definition open_credential (account : Z)
    (state : option (string * string * list string * list string)) :
    result (string * CredentialPayload) BookmarkProviderError :=
  match state with
  | None => Err CredentialUnavailable
  | Some (provider_user_id, encrypted, credential_scopes, authorization_scopes) =>
      if covers_required credential_scopes && covers_required authorization_scopes then
        match open (op_cipher provider) account Credential encrypted with
        | Err _ => Err CredentialInvalid
        | Ok opened =>
            match payload_decode opened with
            | None => Err CredentialInvalid
            | Some payload => Ok (provider_user_id, payload)
            end
        end
      else Err CredentialScopeRequired
  end.

(** [credential]. *)
Definition credential (account : Z) : Prog BookmarkProviderError (string * CredentialPayload) :=
  let! state := on_pool (select CredentialUnavailable (credential_state account)) in
  of_result (open_credential account state).

(** [add] and [remove]. *)
Definition add_url (provider_user_id : string) : string :=
  op_base_url provider +:+ "/2/users/" +:+ provider_user_id +:+ "/bookmarks".
Definition official_add (account : Z) (provider_post_id : string) :
    Prog BookmarkProviderError BookmarkProviderEvidence :=
  let! opened := credential account in
  let '(provider_user_id, payload) := opened in
  send_bookmark "POST" (add_url provider_user_id) payload (Some provider_post_id) true.
Definition official_remove (account : Z) (provider_post_id : string) :
    Prog BookmarkProviderError BookmarkProviderEvidence :=
  let! opened := credential account in
  let '(provider_user_id, payload) := opened in
  send_bookmark "DELETE" (add_url provider_user_id +:+ "/" +:+ provider_post_id) payload None false.

(** [impl BookmarkMutationProvider for OfficialBookmarkProvider]. *)
#[export] Instance official_mutation : BookmarkMutationProvider := {|
  mutate_bookmark action account provider_post_id :=
    match action with
    | Add => official_add account provider_post_id
    | Remove => official_remove account provider_post_id
    end;
|}.

(** The request one action makes. *)
Definition mutation_request (action : BookmarkAction) (provider_user_id token post : string) : Event :=
  match action with
  | Add => SendBookmark "POST" (add_url provider_user_id) token (Some post)
  | Remove => SendBookmark "DELETE" (add_url provider_user_id +:+ "/" +:+ post) token None
  end.
Definition wanted (action : BookmarkAction) : bool := match action with Add => true | Remove => false end.

Lemma mutate_spec env action account post (w : W) :
  wp env (mutate_bookmark action account post) (λ r w',
    let d := e_other env (w_tick w) (w_db w) in
    w_db w' = d ∧
    match open_credential account (credential_state account d) with
    | Err e => w_log w' = w_log w ∧ (r = Err e ∨ r = Err CredentialUnavailable)
    | Ok (user, payload) =>
        (w_log w' = w_log w ∧ (r = Err CredentialUnavailable ∨ (op_http_ready provider = false ∧ r = Err Transient)))
        ∨ ∃ n, w_log w' = w_log w ++ [mutation_request action user (access_token payload) post] ∧
               r = judge (bookmark_answer n) (wanted action)
    end) w.
Proof.
  assert (H : ∀ http_method url_of tweet expected,
    wp env (bind (credential account) (λ opened, let '(user, payload) := opened in
              send_bookmark http_method (url_of user) payload tweet expected)) (λ r w',
      let d := e_other env (w_tick w) (w_db w) in
      w_db w' = d ∧
      match open_credential account (credential_state account d) with
      | Err e => w_log w' = w_log w ∧ (r = Err e ∨ r = Err CredentialUnavailable)
      | Ok (user, payload) =>
          (w_log w' = w_log w ∧ (r = Err CredentialUnavailable ∨ (op_http_ready provider = false ∧ r = Err Transient)))
          ∨ ∃ n, w_log w' = w_log w ++ [SendBookmark http_method (url_of user) (access_token payload) tweet] ∧
                 r = judge (bookmark_answer n) expected
      end) w).
  { intros http_method url_of tweet expected. cbv zeta. unfold credential. wp_steps.
    - cbn [w_db set_db tick]. destruct (open_credential _ _) as [[user payload]|e]; [|by split; [|split; [|left]]].
      unfold send_bookmark. destruct (op_http_ready provider); cbn [negb].
      + apply wp_bind, wp_call, wp_of_result. split; [done|]. right. by eexists.
      + apply wp_throw. split; [done|]. left. split; [done|]. by right.
    - cbn [w_db set_db tick]. split; [done|].
      destruct (open_credential _ _) as [[user payload]|e]; [left; split; [done|by left]|split; [done|by right]]. }
  destruct action; [apply (H "POST"%string add_url (Some post) true)|].
  apply (H "DELETE"%string (λ user, add_url user +:+ "/" +:+ post) None false).
Qed.

#[export] Instance official_laws : MutationProviderLaws.
Proof.
  split.
  - intros env R action account post HR Hr. apply guar_wp. intros w.
    eapply wp_mono; [apply mutate_spec|]. cbv zeta. intros r w' [E _]. unfold on_db. rewrite E.
    apply (Hr (w_tick w) w).
  - intros env action account post w. eapply wp_mono; [apply mutate_spec|]. cbv zeta. intros r w' [_ H].
    destruct (open_credential _ _) as [[user payload]|e]; [|by left; destruct H].
    destruct H as [[? _]|(n & ? & _)]; [by left|right]. unfold mutation_request in *. destruct action; eauto.
Qed.
End Official.

(** ** What the classification promises *)

Fixpoint concat_chunks (chunks : list string) : string :=
  match chunks with [] => ""%string | chunk :: chunks => (chunk +:+ concat_chunks chunks)%string end.

Lemma app_chunk (a b c : string) : (a +:+ b) +:+ c = a +:+ (b +:+ c).
Proof. induction a as [|x a IH]; simpl; [done|]. by rewrite IH. Qed.
Lemma app_nothing (a : string) : a +:+ "" = a.
Proof. induction a as [|x a IH]; simpl; [done|]. by rewrite IH. Qed.

(** A body that was read is the whole body, within the bound. *)
Lemma read_body_Ok body chunks failure oversized text :
  Z.of_nat (String.length body) ≤ MAX_RESPONSE_SIZE →
  read_body body chunks failure oversized = Ok text →
  failure = None ∧ text = body +:+ concat_chunks chunks ∧
  Z.of_nat (String.length text) ≤ MAX_RESPONSE_SIZE.
Proof.
  revert body. induction chunks as [|chunk chunks IH]; intros body Hb; simpl.
  - destruct failure; [done|]. intros [= <-]. by rewrite app_nothing.
  - case_bool_decide; [done|]. intros Ht.
    apply IH in Ht as (? & -> & ?); [|rewrite str_length_app; lia].
    split_and!; [done| |done]. by rewrite app_chunk.
Qed.

Lemma read_body_Err body chunks failure oversized e :
  read_body body chunks failure oversized = Err e →
  (e = oversized ∧ MAX_RESPONSE_SIZE < Z.of_nat (String.length (body +:+ concat_chunks chunks))) ∨
  ∃ error, failure = Some error ∧ e = classify_transport error.
Proof.
  revert body. induction chunks as [|chunk chunks IH]; intros body; simpl.
  - destruct failure; [|done]. intros [= <-]. eauto.
  - case_bool_decide as Hb.
    + intros [= <-]. left. split; [done|]. rewrite !str_length_app. lia.
    + intros [[-> Hlen]|?]%IH; [left|by right]. by rewrite <-app_chunk.
Qed.

(** The response that confirms a mutation: a success whose complete, bounded body says so. *)
Definition confirms {http : BookmarkHttp} (response : BookmarkResponse) (expected : bool) : Prop :=
  is_success (bh_status response) = true ∧ bh_failure response = None ∧
  Z.of_nat (String.length (concat_chunks (bh_chunks response))) ≤ MAX_RESPONSE_SIZE ∧
  ∃ value, parse_json (concat_chunks (bh_chunks response)) = Some value ∧
           bookmarked_flag value = Some expected.

(** What an outcome of one exchange says about the answer. *)
Definition judged {http : BookmarkHttp} (answer : result BookmarkResponse TransportError)
    (expected : bool) (r : result BookmarkProviderEvidence BookmarkProviderError) : Prop :=
  match r with
  | Ok _ => ∃ response, answer = Ok response ∧ confirms response expected
  | Err Transient =>
      (∃ error, answer = Err error ∧ te_is_connect error = true) ∨
      ∃ response error, answer = Ok response ∧ bh_failure response = Some error ∧ te_is_connect error = true
  | Err (ProviderUncertain _ _) =>
      ∀ response, answer = Ok response →
        in_range 400 499 (bh_status response) = false ∧
        (confirms response expected → ∃ n, bh_content_length response = Some n ∧ MAX_RESPONSE_SIZE < n)
  | Err (AuthorizationLost _) | Err (RateLimited _ _) | Err (DefiniteRefusal _ _) =>
      ∃ response, answer = Ok response ∧ in_range 400 499 (bh_status response) = true
  | Err _ => False
  end.

Section Outcomes.
Context {ch : Chrono} {ct : Contracts} {cr : Crypto} {http : BookmarkHttp}.

Lemma judge_body_judged response expected :
  is_success (bh_status response) = true →
  judged (Ok response) expected (judge_body response expected).
Proof.
  intros Hs. assert (H4 : in_range 400 499 (bh_status response) = false).
  { unfold is_success, in_range in *. case_bool_decide; [|done]. apply bool_decide_eq_false. lia. }
  unfold judge_body. destruct (match bh_content_length _ with Some _ => _ | None => _ end) eqn:El.
  { intros ? [= <-]. split; [done|]. intros _. destruct (bh_content_length response) as [n|]; [|done].
    apply bool_decide_eq_true in El. exists n. split; [done|lia]. }
  destruct (read_body _ _ _ _) as [body|e] eqn:Er.
  - apply read_body_Ok in Er as (Hf & -> & Hlen); [|done]. simpl in *.
    destruct (parse_json _) as [value|] eqn:Ep.
    + case_bool_decide as Hb; [exists response; unfold confirms; split_and!; eauto|].
      intros ? [= <-]. split; [done|]. intros (_ & _ & _ & v & Hv & Hv'). congruence.
    + intros ? [= <-]. split; [done|]. intros (_ & _ & _ & v & Hv & _). congruence.
  - apply read_body_Err in Er as [[-> Hlen]|(error & Hf & ->)].
    + intros ? [= <-]. split; [done|]. intros (_ & _ & Hle & _). simpl in *. lia.
    + unfold classify_transport. destruct (te_is_connect error) eqn:Ec; simpl.
      * right. by exists response, error.
      * intros ? [= <-]. split; [done|]. intros (_ & Hn & _). congruence.
Qed.

Lemma judge_judged answer expected : judged answer expected (judge answer expected).
Proof.
  destruct answer as [response|error]; simpl.
  2:{ unfold classify_transport. destruct (te_is_connect error) eqn:Ec; simpl; [left; eauto|done]. }
  unfold judge_response.
  destruct (Z.eqb_spec (bh_status response) 401) as [E|_].
  { simpl. exists response. by rewrite E. }
  destruct (Z.eqb_spec (bh_status response) 403) as [E|_].
  { simpl. exists response. by rewrite E. }
  destruct (Z.eqb_spec (bh_status response) 429) as [E|_].
  { simpl. exists response. by rewrite E. }
  cbn [orb]. destruct (in_range 400 499 _) eqn:E4; [by exists response|].
  destruct (is_success (bh_status response)) eqn:Es; cbn [negb]; rewrite ?orb_true_r, ?orb_false_r.
  - destruct (in_range 500 599 (bh_status response)) eqn:E5; [|by apply judge_body_judged].
    exfalso. unfold is_success, in_range in *. apply bool_decide_eq_true in Es, E5. lia.
  - intros ? [= <-]. split; [done|]. intros (Hs & _). congruence.
Qed.

(** C31. The adapter never guesses. It succeeds only when the one request it made, with the account's
    own provider id and its decrypted access token, was answered by a success whose whole bounded body
    confirms the wanted state; it reports a refusal only for a 4xx answer to that request; it reports
    that nothing happened only when no request was made or no connection was; every other answer is
    uncertain. A failure before the request sends nothing. *)
Theorem mutation_outcomes_are_conservative env provider action account post (w : W) :
  wp env (mutate_bookmark (BookmarkMutationProvider:=official_mutation provider) action account post)
    (λ r w',
      let d := e_other env (w_tick w) (w_db w) in
      w_db w' = d ∧
      ((w_log w' = w_log w ∧
        (r = Err CredentialUnavailable ∨ r = Err CredentialScopeRequired ∨ r = Err CredentialInvalid ∨
         (op_http_ready provider = false ∧ r = Err Transient))) ∨
       ∃ n user encrypted scopes granted opened payload,
         credential_state account d = Some (user, encrypted, scopes, granted) ∧
         covers_required scopes = true ∧ covers_required granted = true ∧
         open (op_cipher provider) account Credential encrypted = Ok opened ∧
         payload_decode opened = Some payload ∧
         w_log w' = w_log w ++ [mutation_request provider action user (access_token payload) post] ∧
         judged (bookmark_answer n) (wanted action) r)) w.
Proof.
  eapply wp_mono; [apply mutate_spec|]. cbv zeta. intros r w' [Hd H]. split; [exact Hd|].
  unfold open_credential in H.
  destruct (credential_state account _) as [[[[user encrypted] scopes] granted]|] eqn:Es;
    [|left; naive_solver].
  destruct (covers_required scopes) eqn:E1; simpl in H; [|left; naive_solver].
  destruct (covers_required granted) eqn:E2; [|left; naive_solver].
  destruct (open _ _ _ _) as [opened|e] eqn:Eo; [|left; naive_solver].
  destruct (payload_decode opened) as [payload|] eqn:Ep; [|left; naive_solver].
  destruct H as [[Hl Hr]|(n & Hl & ->)]; [left; naive_solver|].
  right. exists n, user, encrypted, scopes, granted, opened, payload.
  split_and!; [done..|apply judge_judged].
Qed.
End Outcomes.
