(* ===== verification/WritebackSamples.v ===== *)
(** * Concrete write-backs

    The write-back service with the official adapter on a small database: an owner, a connected
    account with a sealed credential, an authorization and one live consent. *)
From S2P Require Export Archive WritebackProvider.

Module WritebackSamples.
Import SampleChrono SampleContracts ArticleSamples SocialSamples SnapshotSamples FolderSamples ScanSamples.

#[export] Instance sample_rfc3339 : Rfc3339 := {| to_rfc3339 := sample_uuid |}.

(** The provider confirms whatever was asked. *)
#[export] Instance sample_bookmark_http : BookmarkHttp := {|
  bookmark_answer _ := Ok (mkBookmarkResponse 200 (Some "r-1"%string) None (Some 4) ["tr"; "ue"]%string None);
  parse_json body :=
    if String.eqb body "true" then Some (Object [("data"%string, Object [("bookmarked"%string, Bool true)])])
    else None;
|}.

Definition sample_writer : OfficialBookmarkProvider :=
  official_provider (mkTokenCipher "k") "https://api.x.com/" true.
#[export] Instance sample_mutation : BookmarkMutationProvider := official_mutation sample_writer.
#[export] Instance sample_mutation_laws : MutationProviderLaws := official_laws sample_writer.

Definition write_now : Z := 1000 * usec.
Definition sample_writeback : BookmarkWritebackService :=
  mkWritebackService (mkBudgetGate BookmarkWrite 10 900 (900 * usec)) (300 * usec).
Definition sample_request : BookmarkWriteRequest := mkBookmarkWriteRequest 7 1 60 "900" "key-1".
Definition sample_sealed : string :=
  seal_with (op_cipher sample_writer) "123456789012" 1 Credential
    (payload_encode (mkCredentialPayload "access" "refresh")).
Definition sample_consent : WriteConsent :=
  mkWriteConsent 1 7 "add" "900" write_now (write_now + 60 * usec) "ui" None.
Definition write_db : Db :=
  on_bookmark_write_consents (insert 60 sample_consent)
    (on_bookmark_write_authorizations
       (insert 1 (mkWriteAuthorization 70 required_write_scopes "active" write_now None write_now))
       (on_credentials
          (insert 80 (mkCredentialRow 1 sample_sealed required_write_scopes "active" "activated" None None 0))
          (on_accounts (insert 1 (mkAccount 7 "u1" "connected" 0)) empty_db))).
Definition write_world : W := mkWorld write_db 0 [].

Definition sample_write : result BookmarkWriteResult BookmarkWritebackError * W :=
  execute_write sample_writeback sample_request Add (calm write_now) write_world.

(** The write is sent once, with the decrypted token of the account's own credential. *)
Example sample_write_is_sent :
  is_ok sample_write.1 = true ∧
  w_log sample_write.2 =
    [SendBookmark "POST" "https://api.x.com/2/users/u1/bookmarks" "access" (Some "900")]%string.
Proof. vm_compute. done. Qed.

(** The same request again is answered without being sent. *)
Definition retried_write : result BookmarkWriteResult BookmarkWritebackError * W :=
  execute_write sample_writeback sample_request Add (calm write_now) sample_write.2.
Example sample_retry_is_answered :
  retried_write.1 = sample_write.1 ∧ w_log retried_write.2 = w_log sample_write.2.
Proof. vm_compute. done. Qed.

Lemma writes_follow_their_lifecycle_witness :
  guar (Ev:=Event) (calm write_now) (on_db WriteSteps)
    (execute_write sample_writeback sample_request Add).
Proof.
  refine (proj1 (proj2 (writes_follow_their_lifecycle (calm write_now) sample_writeback sample_request
    Add 7 1 "900" write_now "ui" 12 sample_gate sample_source None _))).
  apply calm_rely. typeclasses eauto.
Defined.

Lemma provider_calls_are_consented_witness :
  authorised sample_request Add write_world sample_write.2.
Proof.
  refine (proj1 (provider_calls_are_consented (calm write_now) sample_writeback sample_request Add
    write_world _)).
  apply calm_rely. typeclasses eauto.
Defined.

Lemma archive_stays_justified_witness :
  guar (Ev:=Event) (calm write_now) (on_db (keeps ArchiveJustified))
    (execute_write sample_writeback sample_request Add).
Proof.
  refine (proj1 (proj2 (proj2 (proj2 (proj2 (archive_stays_justified (calm write_now) _ 12 sample_gate
    sample_source sample_membership sample_source sample_scanner sample_writeback sample_request Add 1
    sample_folder None Listing)))))).
  apply calm_rely. typeclasses eauto.
Defined.

Lemma dry_run_predicts_execute_witness :
  silent write_world (dry_run sample_writeback sample_request Add (calm write_now) write_world).2 ∧
  same gate_tables write_db
    (w_db (dry_run sample_writeback sample_request Add (calm write_now) write_world).2).
Proof.
  assert (Hc : claimable (calm write_now) sample_request write_db).
  { split_and!; [eexists; vm_compute; reflexivity|vm_compute; reflexivity|done]. }
  assert (Hs : spendable write_now (ws_budget sample_writeback) 1 write_db).
  { split_and!; [vm_compute; done..|eexists; vm_compute; reflexivity|vm_compute; discriminate]. }
  generalize (dry_run_predicts_execute (calm write_now) write_now (calm_quiet write_now)
    (λ _, eq_refl) sample_writeback sample_request Add write_world eq_refl eq_refl Hc Hs).
  destruct (dry_run _ _ _ _ _) as [outcome w1]. destruct (execute_write _ _ _ _ _) as [live w2].
  intros (H1 & H2 & _). exact (conj H1 H2).
Defined.

(** The same world after the stored operation was refused. *)
Definition refused_world : W :=
  mkWorld (on_bookmark_write_operations (fmap (refused_operation "gate" None write_now)) (w_db sample_write.2)) 0 [].

Lemma used_key_is_answered_from_storage_witness :
  is_ok retried_write.1 = true ∧ silent sample_write.2 retried_write.2 ∧
  (execute_write sample_writeback sample_request Add (calm write_now) refused_world).1 = Err OperationInProgress.
Proof.
  split; [vm_compute; reflexivity|]. split.
  - destruct (operation_of 1 (sha256_hex "key-1") (w_db sample_write.2)) as [[id o]|] eqn:E;
      [|vm_compute in E; discriminate E].
    generalize (used_key_is_answered_from_storage (calm write_now) (calm_quiet write_now)
      sample_writeback sample_request Add id o sample_write.2 eq_refl eq_refl E).
    fold retried_write. destruct retried_write as [r w']. intros (_ & _ & _ & _ & H & _). exact H.
  - destruct (operation_of 1 (sha256_hex "key-1") (w_db refused_world)) as [[id o]|] eqn:E;
      [|vm_compute in E; discriminate E].
    generalize (used_key_is_answered_from_storage (calm write_now) (calm_quiet write_now)
      sample_writeback sample_request Add id o refused_world eq_refl eq_refl E).
    vm_compute in E. injection E as _ <-.
    destruct (execute_write _ _ _ _ refused_world) as [r w']. intros (_ & _ & _ & H & _).
    apply H; [vm_compute; reflexivity|by left].
Defined.
End WritebackSamples.
