(* ===== verification/LegacySource.v ===== *)
(** * Legacy sources ([crates/x-sync/src/legacy_transition/{source_validation,sources}.rs])

    The credential-free preflight of a legacy bookmark export: the retired monolith's CSV, Field
    Theory's JSONL cache or its SQLite index, read within limits, validated field by field and turned
    into one batch of records with distinct keys. Files, the SQLite connection, URL parsing and
    serde_json's parser are parameters; the CSV parser is the crate's own and is modelled byte by
    byte. The data types of [legacy_transition.rs] the batch needs are declared here. *)
From S2P Require Export Time Envelopes.

(** ** Data *)

Definition IMPORTER_PARSER_VERSION : Z := 1.

Inductive LegacySourceKind := MonolithBookmarkMetadataCsv | FieldTheoryJsonl | FieldTheorySqlite.

Inductive LegacySourceVersion := MonolithBookmarkMetadata | FieldTheoryJsonl1 | FieldTheorySqlite6.

Record SourceLimits := mkSourceLimits {
  max_bytes : Z;
  max_rows : Z;
  max_text_bytes : Z;
  max_json_depth : Z;
}.

Definition default_limits : SourceLimits := mkSourceLimits (64 * 1024 * 1024) 100000 1000000 32.

Inductive LegacySourceSelection :=
  | MonolithCsv (path : string)
  | FieldTheory (jsonl sqlite : option string).

Record LegacyRecord := mkLegacyRecord {
  source_record_key : string;
  provider_post_id : option string;
  url_provider_post_id : option string;
  canonical_url_digest : option string;
  text : string;
  posted_at : option Z;
  bookmarked_at : option Z;
  synced_at : Z;
  categories : list string;
  folder_ids : list string;
  folder_names : list string;
  record_digest : string;
}.

(** [LegacyRecordInput]: a record before its lists are normalized and its digest is taken. *)
Record LegacyRecordInput := mkLegacyRecordInput {
  in_source_record_key : string;
  in_provider_post_id : option string;
  in_url_provider_post_id : option string;
  in_canonical_url_digest : option string;
  in_text : string;
  in_posted_at : option Z;
  in_bookmarked_at : option Z;
  in_synced_at : Z;
  in_categories : list string;
  in_folder_ids : list string;
  in_folder_names : list string;
}.

Record PreflightBatch := mkPreflightBatch {
  source_kind : LegacySourceKind;
  source_version : LegacySourceVersion;
  source_digest : string;
  row_count : Z;
  records : list LegacyRecord;
}.

Inductive LegacyTransitionError :=
  | NotImplemented
  | MissingSource
  | SourceUnavailable
  | SourceTooLarge
  | RowLimitExceeded
  | TextLimitExceeded (field : string)
  | JsonDepthExceeded
  | InvalidEncoding
  | InvalidTimestamp (field : string)
  | UnsupportedField (field : string)
  | ForbiddenField (field : string)
  | UnsupportedSourceVersion
  | UnsupportedSqliteSchema
  | InvalidField (field : string)
  | DuplicateSourceKey
  | SourceChanged
  | SourceDatabase
  | MissingOwnershipApproval
  | InvalidOwnershipApproval
  | TargetAccountNotFound
  | TargetAccountNotConnected
  | CurrentIdentityUnavailable
  | CurrentIdentityMismatch
  | DatabaseFailed
  | ImportRunUnavailable
  | SnapshotNotAuthoritative
  | ShadowReportUnavailable
  | ChecklistDigestMismatch.

Abbreviation Checked A := (result A LegacyTransitionError).

(** ** Code this crate does not own *)

(** A parsed URL: its host, its path segments when it has a base, and its text once query and
    fragment are removed. *)
Record SourceUrl := mkSourceUrl {
  host_str : option string;
  path_segments : option (list string);
  without_query_and_fragment : string;
}.

(** What the file system answers to one [read_source_bytes]: whether the path is a file and its
    length, then the two reads; and whether the blocking task ends normally. *)
Record FileAnswers := mkFileAnswers {
  fa_joined : bool;
  fa_metadata : option (bool * Z);
  fa_first : option string;
  fa_second : option string;
}.

(** One column of a SQLite row: text, NULL, or a value that does not decode as text. *)
Inductive SqliteCell := CellText (s : string) | CellNull | CellOther.

Record SqliteSource := mkSqliteSource {
  sq_connect : bool;
  sq_schema_version : option string;
  sq_columns : option (list string);
  sq_rows : Z → option (list (string → SqliteCell));   (* by the bound [limit] *)
  sq_close : bool;
}.

Class LegacyInputs := {
  json_from_str : string → option Value;                  (* [serde_json::from_str::<Value>] *)
  json_strings_from_str : string → option (list string);  (* [serde_json::from_str::<Vec<String>>] *)
  datetime_text : Z → string;                             (* [DateTime<Utc>]'s [Serialize] *)
  url_parse : string → option SourceUrl;                  (* [reqwest::Url::parse] *)
  file_answers : string → nat → FileAnswers;              (* the n-th [read_source_bytes] of a path *)
  sqlite_source : string → SqliteSource;                  (* the immutable read-only connection *)
}.

(** ** Fields of a JSON record *)

Abbreviation Members := (list (string * Value)).

Definition optional_string (object : Members) (field : string) : Checked (option string) :=
  match obj_get field object with
  | None | Some Null => Ok None
  | Some (Str value) => if String.eqb value "" then Err (InvalidField field) else Ok (Some value)
  | _ => Err (InvalidField field)
  end.

Definition required_string (object : Members) (field : string) : Checked string :=
  let? value := optional_string object field in ok_or value (InvalidField field).

Definition array_item (field : string) (value : Value) : Checked string :=
  match value with
  | Str item => if String.eqb item "" then Err (InvalidField field) else Ok item
  | _ => Err (InvalidField field)
  end.

Definition optional_string_array (object : Members) (field : string) : Checked (list string) :=
  match obj_get field object with
  | None | Some Null => Ok []
  | Some (Arr values) => try_map (array_item field) values
  | _ => Err (InvalidField field)
  end.

Definition validate_optional_string_value (object : Members) (field : string) : Checked unit :=
  match obj_get field object with
  | None | Some Null | Some (Str _) => Ok tt
  | _ => Err (InvalidField field)
  end.

Definition validate_optional_bool_value (object : Members) (field : string) : Checked unit :=
  match obj_get field object with
  | None | Some (Bool _) => Ok tt
  | _ => Err (InvalidField field)
  end.

Definition validate_optional_number_value (object : Members) (field : string) : Checked unit :=
  match obj_get field object with
  | None | Some (Number _) => Ok tt
  | _ => Err (InvalidField field)
  end.

(** [allowed.contains(&field)]. *)
Definition allows (allowed : list string) (field : string) : bool :=
  existsb (String.eqb field) allowed.

Definition reject_unknown_fields (object : Members) (allowed_fields : list string) : Checked unit :=
  try_each (λ kv, if allows allowed_fields kv.1 then Ok tt else Err (UnsupportedField kv.1)) object.

Definition validate_optional_object (object : Members) (field : string) (allowed_fields : list string)
    (validate : Members → Checked unit) : Checked unit :=
  match obj_get field object with
  | None => Ok tt
  | Some (Object nested) => do? reject_unknown_fields nested allowed_fields in validate nested
  | _ => Err (InvalidField field)
  end.

Definition validate_author_shape (object : Members) : Checked unit :=
  do? try_each (validate_optional_string_value object)
        ["handle"; "name"; "profileImageUrl"; "description"; "location"; "url"]%string in
  do? validate_optional_bool_value object "verified" in
  try_each (validate_optional_number_value object)
    ["followersCount"; "followingCount"; "statusesCount"]%string.

Definition validate_engagement_shape (object : Members) : Checked unit :=
  try_each (validate_optional_number_value object)
    ["likeCount"; "repostCount"; "replyCount"; "quoteCount"; "bookmarkCount"; "viewCount"]%string.

(** A field that, when present, is an array of objects, each accepted by [validate]. *)
Definition validate_object_array (object : Members) (field : string)
    (validate : Members → Checked unit) : Checked unit :=
  match obj_get field object with
  | None => Ok tt
  | Some (Arr values) =>
      try_each (λ value, match value with Object nested => validate nested
                         | _ => Err (InvalidField field) end) values
  | Some _ => Err (InvalidField field)
  end.

Definition validate_media_variant (variant : Members) : Checked unit :=
  do? reject_unknown_fields variant ["url"; "contentType"; "bitrate"]%string in
  do? validate_optional_string_value variant "url" in
  do? validate_optional_string_value variant "contentType" in
  validate_optional_number_value variant "bitrate".

Definition validate_media_variants (object : Members) (field : string) : Checked unit :=
  validate_object_array object field validate_media_variant.

Definition media_string_fields : list string :=
  ["url"; "mediaUrl"; "expandedUrl"; "previewUrl"; "type"; "altText"; "extAltText"]%string.

Definition validate_media_object (media : Members) : Checked unit :=
  do? reject_unknown_fields media
        (media_string_fields ++ ["width"; "height"; "videoVariants"; "variants"]%string) in
  do? try_each (validate_optional_string_value media) media_string_fields in
  do? try_each (validate_optional_number_value media) ["width"; "height"]%string in
  try_each (validate_media_variants media) ["videoVariants"; "variants"]%string.

Definition validate_media_objects (object : Members) (field : string) : Checked unit :=
  validate_object_array object field validate_media_object.

Definition validate_quoted_tweet_shape (object : Members) : Checked unit :=
  do? required_string object "id" in
  do? required_string object "text" in
  do? required_string object "url" in
  do? try_each (validate_optional_string_value object)
        ["authorHandle"; "authorName"; "authorProfileImageUrl"; "postedAt"]%string in
  do? optional_string_array object "media" in
  validate_media_objects object "mediaObjects".

Definition validate_ingested_via (object : Members) : Checked unit :=
  let? ingested_via := optional_string object "ingestedVia" in
  match ingested_via with
  | Some via => if allows ["api"; "browser"; "graphql"]%string via then Ok tt
                else Err (InvalidField "ingestedVia")
  | None => Ok tt
  end.

Definition validate_field_theory_record_shape (object : Members) : Checked unit :=
  do? required_string object "tweetId" in
  do? try_each (validate_optional_string_value object)
        ["tweetId"; "authorHandle"; "authorName"; "authorProfileImageUrl"; "postedAt";
         "bookmarkedAt"; "sortIndex"; "conversationId"; "inReplyToStatusId"; "inReplyToUserId";
         "quotedStatusId"; "articleTitle"; "articleText"; "articleSite"; "enrichedAt"; "language";
         "sourceApp"; "ingestedVia"; "textExpandedAt"; "quotedTweetFailedAt"]%string in
  do? validate_optional_bool_value object "possiblySensitive" in
  do? validate_ingested_via object in
  do? try_each (λ field, do? optional_string_array object field in Ok tt)
        ["media"; "links"; "tags"; "folderIds"; "folderNames"]%string in
  do? validate_optional_object object "author"
        ["handle"; "name"; "profileImageUrl"; "description"; "location"; "url"; "verified";
         "followersCount"; "followingCount"; "statusesCount"]%string validate_author_shape in
  do? validate_optional_object object "engagement"
        ["likeCount"; "repostCount"; "replyCount"; "quoteCount"; "bookmarkCount"; "viewCount"]%string
        validate_engagement_shape in
  do? validate_optional_object object "quotedTweet"
        ["id"; "text"; "authorHandle"; "authorName"; "authorProfileImageUrl"; "postedAt"; "media";
         "mediaObjects"; "url"]%string validate_quoted_tweet_shape in
  validate_media_objects object "mediaObjects".

(** ** Forbidden names and nesting *)

Fixpoint filter_chars (p : ascii → bool) (s : string) : string :=
  match s with
  | EmptyString => EmptyString
  | String a s' => if p a then String a (filter_chars p s') else filter_chars p s'
  end.

Definition forbidden_words : list string :=
  ["token"; "cookie"; "session"; "password"; "secret"; "authorization"; "bearer"; "credential"]%string.

Definition forbidden_field_name (field : string) : bool :=
  let normalized := to_ascii_lowercase (filter_chars is_ascii_alphanumeric field) in
  existsb (λ forbidden, str_contains forbidden normalized) forbidden_words.

Fixpoint reject_forbidden_fields (value : Value) : Checked unit :=
  match value with
  | Object object =>
      try_each (λ kv, if forbidden_field_name kv.1 then Err (ForbiddenField kv.1)
                      else reject_forbidden_fields kv.2) object
  | Arr values => try_each reject_forbidden_fields values
  | _ => Ok tt
  end.

Fixpoint json_depth (value : Value) : nat :=
  match value with
  | Object object => S (foldr (λ kv deepest, Nat.max (json_depth kv.2) deepest) 0%nat object)
  | Arr values => S (foldr (λ v deepest, Nat.max (json_depth v) deepest) 0%nat values)
  | _ => 0%nat
  end.

(** ** Text, instants and lists *)

Definition nonempty (value : string) : option string :=
  if String.eqb value "" then None else Some value.

Definition validate_text (field value : string) (max : Z) : Checked unit :=
  if max <? Z.of_nat (String.length value) then Err (TextLimitExceeded field) else Ok tt.

Definition sort_unique (values : list string) : list string := dedup (sort str_leb values).

Section Instants.
Context {ch : Chrono}.

Definition parse_optional_timestamp (field value : string) : Checked (option Z) :=
  match nonempty value with
  | None => Ok None
  | Some value => let? t := ok_or (parse_from_rfc3339 value) (InvalidTimestamp field) in Ok (Some t)
  end.

Definition parse_required_timestamp (field value : string) : Checked Z :=
  let? t := parse_optional_timestamp field value in ok_or t (InvalidField field).

Definition optional_timestamp_from_json (object : Members) (field : string) : Checked (option Z) :=
  let? value := optional_string object field in
  match value with
  | None => Ok None
  | Some value => let? t := parse_required_timestamp field value in Ok (Some t)
  end.

Definition required_timestamp_from_json (object : Members) (field : string) : Checked Z :=
  let? value := required_string object field in parse_required_timestamp field value.
End Instants.

(** [valid_sha256]. *)
Definition lower_hex_char (c : ascii) : bool := is_ascii_digit c || byte_in 97 102 c.
Definition valid_sha256 (value : string) : bool :=
  Nat.eqb (String.length value) 64 && all_chars lower_hex_char value.

(** ** Status URLs and the lists of the SQLite index *)

Definition status_hosts : list string := ["x.com"; "www.x.com"; "twitter.com"; "www.twitter.com"]%string.

(** The segment after the first [status] segment. *)
Fixpoint segment_after_status (segments : list string) : option string :=
  match segments with
  | segment :: rest => if String.eqb segment "status" then head rest else segment_after_status rest
  | [] => None
  end.

Definition digits_only (value : string) : bool :=
  negb (String.eqb value "") && all_chars is_ascii_digit value.

Section Sources.
Context {ch : Chrono} {ct : Contracts} {cr : Crypto} {inp : LegacyInputs}.

Definition parse_x_status_url (value : string) : option string * option string :=
  match url_parse value with
  | None => (None, None)
  | Some url =>
      match to_ascii_lowercase <$> host_str url with
      | None => (None, None)
      | Some host =>
          if negb (allows status_hosts host) then (None, None)
          else
            match segment_after_status (default [] (path_segments url)) with
            | None => (None, None)
            | Some provider_id =>
                if digits_only provider_id
                then (Some provider_id, Some (sha256_hex (without_query_and_fragment url)))
                else (None, None)
            end
      end
  end.

Definition parse_legacy_list (value : option string) : Checked (list string) :=
  match value ≫= nonempty with
  | None => Ok []
  | Some value =>
      if starts_with "[" (trim_start value) then
        let? values := ok_or (json_strings_from_str value) InvalidEncoding in
        Ok (List.filter (λ item, negb (String.eqb item "")) values)
      else Ok (List.filter (λ item, negb (String.eqb item "")) (trim <$> split_on "," value))
  end.

Definition merge_legacy_lists (categories primary : option string) : Checked (list string) :=
  let? values := parse_legacy_list categories in
  Ok (sort_unique (match primary ≫= nonempty with
                   | Some primary => values ++ [primary]
                   | None => values
                   end)).

(** ** Records *)

Definition opt_datetime (t : option Z) : Value := opt_str (datetime_text <$> t).

(** The projection of a record its digest is taken of. *)
Definition digest_document (source_record_key : string)
    (provider_post_id url_provider_post_id canonical_url_digest : option string) (text : string)
    (posted_at bookmarked_at : option Z) (synced_at : Z)
    (categories folder_ids folder_names : list string) : Value :=
  obj [("source_record_key", Str source_record_key);
       ("provider_post_id", opt_str provider_post_id);
       ("url_provider_post_id", opt_str url_provider_post_id);
       ("canonical_url_digest", opt_str canonical_url_digest);
       ("content_digest", Str (sha256_hex text));
       ("posted_at", opt_datetime posted_at);
       ("bookmarked_at", opt_datetime bookmarked_at);
       ("synced_at", Str (datetime_text synced_at));
       ("categories", Arr (Str <$> categories));
       ("folder_ids", Arr (Str <$> folder_ids));
       ("folder_names", Arr (Str <$> folder_names))].

Definition build_record (input : LegacyRecordInput) : Checked LegacyRecord :=
  if String.eqb (in_source_record_key input) "" then Err (InvalidField "id")
  else
    let categories := sort_unique (in_categories input) in
    let folder_ids := sort_unique (in_folder_ids input) in
    let folder_names := sort_unique (in_folder_names input) in
    let digest_value :=
      digest_document (in_source_record_key input) (in_provider_post_id input)
        (in_url_provider_post_id input) (in_canonical_url_digest input) (in_text input)
        (in_posted_at input) (in_bookmarked_at input) (in_synced_at input) categories folder_ids
        folder_names in
    Ok (mkLegacyRecord (in_source_record_key input) (in_provider_post_id input)
          (in_url_provider_post_id input) (in_canonical_url_digest input) (in_text input)
          (in_posted_at input) (in_bookmarked_at input) (in_synced_at input) categories folder_ids
          folder_names (sha256_hex (json_text digest_value))).

(** The map [unique] after the records: the first record of each key. *)
Definition keep_first (unique : list (string * LegacyRecord)) (record : LegacyRecord) :
    Checked (list (string * LegacyRecord)) :=
  match obj_get (source_record_key record) unique with
  | Some existing =>
      if String.eqb (record_digest existing) (record_digest record) then Ok unique
      else Err DuplicateSourceKey
  | None => Ok (obj_insert (source_record_key record) record unique)
  end.

Fixpoint unique_records (unique : list (string * LegacyRecord)) (records : list LegacyRecord) :
    Checked (list (string * LegacyRecord)) :=
  match records with
  | [] => Ok unique
  | record :: rest => let? unique := keep_first unique record in unique_records unique rest
  end.

Definition finish_batch (kind : LegacySourceKind) (version : LegacySourceVersion) (digest : string)
    (records : list LegacyRecord) : Checked PreflightBatch :=
  let? unique := unique_records [] records in
  let records := unique.*2 in
  Ok (mkPreflightBatch kind version digest (Z.of_nat (length records)) records).

(** ** Reading the selected artifact *)

Definition read_checked (max_bytes : Z) (bytes : option string) : Checked string :=
  let? bytes := ok_or bytes SourceUnavailable in
  if max_bytes <? Z.of_nat (String.length bytes) then Err SourceTooLarge else Ok bytes.

Definition read_source_bytes (answers : FileAnswers) (max_bytes : Z) : Checked string :=
  if negb (fa_joined answers) then Err SourceUnavailable
  else
    let? metadata := ok_or (fa_metadata answers) SourceUnavailable in
    if negb metadata.1 then Err SourceUnavailable
    else if max_bytes <? metadata.2 then Err SourceTooLarge
    else
      let? first := read_checked max_bytes (fa_first answers) in
      let? second := read_checked max_bytes (fa_second answers) in
      if String.eqb first second then Ok first else Err SourceChanged.

(** [std::str::from_utf8]. *)
Definition decode_utf8 (bytes : string) : Checked string :=
  if utf8_valid bytes then Ok bytes else Err InvalidEncoding.
End Sources.

(** ** CSV *)

Definition push (field : string) (c : ascii) : string := field +:+ String c "".

(** [String::pop] of a trailing carriage return. *)
Definition pop_cr (field : string) : string := default field (str_strip_suffix (String CR "") field).

(** The end of the source: an unterminated last row is kept unless it is one empty field. *)
Definition csv_end (rows : list (list string)) (row : list string) (field : string) :
    list (list string) :=
  if negb (String.eqb field "") || negb (bool_decide (row = [])) then rows ++ [row ++ [field]] else rows.

Fixpoint csv_scan (rows : list (list string)) (row : list string) (field : string)
    (quoted just_closed_quote : bool) (source : string) : Checked (list (list string)) :=
  match source with
  | EmptyString => if quoted then Err InvalidEncoding else Ok (csv_end rows row field)
  | String character rest =>
      if quoted then
        if Ascii.eqb character dquote then
          match rest with
          | String next rest' =>
              if Ascii.eqb next dquote
              then csv_scan rows row (push field dquote) true just_closed_quote rest'
              else csv_scan rows row field false true rest
          | EmptyString => csv_scan rows row field false true rest
          end
        else csv_scan rows row (push field character) true just_closed_quote rest
      else if Ascii.eqb character dquote && String.eqb field "" && negb just_closed_quote then
        csv_scan rows row field true just_closed_quote rest
      else if Ascii.eqb character "," then csv_scan rows (row ++ [field]) "" false false rest
      else if Ascii.eqb character LF then
        let field := if just_closed_quote then field else pop_cr field in
        csv_scan (rows ++ [row ++ [field]]) [] "" false false rest
      else if Ascii.eqb character CR && starts_with (String LF "") rest then
        csv_scan rows row field false just_closed_quote rest
      else if just_closed_quote then Err InvalidEncoding
      else csv_scan rows row (push field character) false just_closed_quote rest
  end.

Definition parse_csv (source : string) : Checked (list (list string)) :=
  csv_scan [] [] "" false false source.

(** [str::lines]. *)
Definition strip_cr (line : string) : string := pop_cr line.
Fixpoint lines_from (line source : string) : list string :=
  match source with
  | EmptyString => if String.eqb line "" then [] else [line]
  | String c rest =>
      if Ascii.eqb c LF then strip_cr line :: lines_from "" rest else lines_from (push line c) rest
  end.
Definition lines (source : string) : list string := lines_from "" source.

(** ** The three preflights *)

Definition MONOLITH_HEADERS : list string :=
  ["request_id"; "bookmark_external_id"; "x_category"; "tweet_text"; "tweet_text_tsv";
   "tweet_author"; "tweet_url"; "posted_at"; "synced_at"]%string.

Definition FIELD_THEORY_SQLITE_COLUMNS : list string :=
  ["id"; "tweet_id"; "url"; "text"; "author_handle"; "author_name"; "author_profile_image_url";
   "posted_at"; "bookmarked_at"; "synced_at"; "conversation_id"; "in_reply_to_status_id";
   "quoted_status_id"; "language"; "like_count"; "repost_count"; "reply_count"; "quote_count";
   "bookmark_count"; "view_count"; "media_count"; "link_count"; "links_json"; "tags_json";
   "ingested_via"; "categories"; "primary_category"; "github_urls"; "domains"; "primary_domain";
   "quoted_tweet_json"; "article_title"; "article_text"; "article_site"; "enriched_at";
   "folder_ids"; "folder_names"]%string.

Definition FIELD_THEORY_JSONL_FIELDS : list string :=
  ["id"; "tweetId"; "authorHandle"; "authorName"; "authorProfileImageUrl"; "author"; "url"; "text";
   "postedAt"; "bookmarkedAt"; "sortIndex"; "syncedAt"; "conversationId"; "inReplyToStatusId";
   "inReplyToUserId"; "quotedStatusId"; "quotedTweet"; "articleTitle"; "articleText";
   "articleSite"; "enrichedAt"; "language"; "sourceApp"; "possiblySensitive"; "engagement"; "media";
   "mediaObjects"; "links"; "tags"; "ingestedVia"; "folderIds"; "folderNames"; "textExpandedAt";
   "quotedTweetFailedAt"]%string.

Section Preflight.
Context {ch : Chrono} {ct : Contracts} {cr : Crypto} {inp : LegacyInputs}.

(** One row of the monolith's export. *)
Definition monolith_record (limits : SourceLimits) (row : list string) : Checked LegacyRecord :=
  match row with
  | [request_id; bookmark_external_id; category; tweet_text; _; _; tweet_url; posted_at; synced_at] =>
      do? validate_text "tweet_text" tweet_text (max_text_bytes limits) in
      let '(url_provider_post_id, canonical_url_digest) := parse_x_status_url tweet_url in
      let? posted_at := parse_optional_timestamp "posted_at" posted_at in
      let? synced_at := parse_required_timestamp "synced_at" synced_at in
      build_record (mkLegacyRecordInput request_id (nonempty bookmark_external_id)
        url_provider_post_id canonical_url_digest tweet_text posted_at None synced_at
        (match nonempty category with Some category => [category] | None => [] end) [] [])
  | _ => Err InvalidEncoding
  end.

Definition preflight_monolith_csv (path : string) (limits : SourceLimits) : Checked PreflightBatch :=
  let? bytes := read_source_bytes (file_answers path 0) (max_bytes limits) in
  let? text := decode_utf8 bytes in
  let? rows := parse_csv text in
  match rows with
  | [] => Err UnsupportedSourceVersion
  | header :: rows =>
      if negb (bool_decide (header = MONOLITH_HEADERS)) then Err UnsupportedSourceVersion
      else if max_rows limits <? Z.of_nat (length rows) then Err RowLimitExceeded
      else
        let? records := try_map (monolith_record limits) rows in
        finish_batch MonolithBookmarkMetadataCsv MonolithBookmarkMetadata (sha256_hex bytes) records
  end.

(** One line of Field Theory's cache. *)
Definition jsonl_record (limits : SourceLimits) (line : string) : Checked LegacyRecord :=
  let? value := ok_or (json_from_str line) InvalidEncoding in
  if max_json_depth limits <? Z.of_nat (json_depth value) then Err JsonDepthExceeded
  else
    do? reject_forbidden_fields value in
    match value with
    | Object object =>
        do? reject_unknown_fields object FIELD_THEORY_JSONL_FIELDS in
        do? validate_field_theory_record_shape object in
        let? source_record_key := required_string object "id" in
        let? provider_post_id := optional_string object "tweetId" in
        let? url := required_string object "url" in
        let? text := required_string object "text" in
        do? validate_text "text" text (max_text_bytes limits) in
        let '(url_provider_post_id, canonical_url_digest) := parse_x_status_url url in
        let? folder_ids := optional_string_array object "folderIds" in
        let? folder_names := optional_string_array object "folderNames" in
        let? posted_at := optional_timestamp_from_json object "postedAt" in
        let? bookmarked_at := optional_timestamp_from_json object "bookmarkedAt" in
        let? synced_at := required_timestamp_from_json object "syncedAt" in
        build_record (mkLegacyRecordInput source_record_key provider_post_id url_provider_post_id
          canonical_url_digest text posted_at bookmarked_at synced_at [] folder_ids folder_names)
    | _ => Err (InvalidField "record")
    end.

(** The loop over the lines: the row limit is checked before a line is parsed. *)
Fixpoint jsonl_records (limits : SourceLimits) (records : list LegacyRecord) (lines : list string) :
    Checked (list LegacyRecord) :=
  match lines with
  | [] => Ok records
  | line :: rest =>
      if Z.of_nat (length records) =? max_rows limits then Err RowLimitExceeded
      else
        let? record := jsonl_record limits line in
        jsonl_records limits (records ++ [record]) rest
  end.

Definition preflight_field_theory_jsonl (path : string) (limits : SourceLimits) :
    Checked PreflightBatch :=
  let? bytes := read_source_bytes (file_answers path 0) (max_bytes limits) in
  let? text := decode_utf8 bytes in
  let? records := jsonl_records limits []
                    (List.filter (λ line, negb (String.eqb (trim line) "")) (lines text)) in
  finish_batch FieldTheoryJsonl FieldTheoryJsonl1 (sha256_hex bytes) records.

Definition sqlite_string (row : string → SqliteCell) (field : string) : Checked string :=
  match row field with CellText s => Ok s | _ => Err (InvalidField field) end.

Definition sqlite_optional_string (row : string → SqliteCell) (field : string) :
    Checked (option string) :=
  match row field with
  | CellText s => Ok (Some s)
  | CellNull => Ok None
  | CellOther => Err (InvalidField field)
  end.

(** One row of Field Theory's index. *)
Definition sqlite_record (limits : SourceLimits) (row : string → SqliteCell) : Checked LegacyRecord :=
  let? source_record_key := sqlite_string row "id" in
  let? provider_post_id := sqlite_string row "tweet_id" in
  let? url := sqlite_string row "url" in
  let? text := sqlite_string row "text" in
  do? validate_text "text" text (max_text_bytes limits) in
  let? posted_at := sqlite_optional_string row "posted_at" in
  let? bookmarked_at := sqlite_optional_string row "bookmarked_at" in
  let? synced_at := sqlite_string row "synced_at" in
  let? all_categories := sqlite_optional_string row "categories" in
  let? primary := sqlite_optional_string row "primary_category" in
  let? categories := merge_legacy_lists all_categories primary in
  let? folder_ids := sqlite_optional_string row "folder_ids" in
  let? folder_ids := parse_legacy_list folder_ids in
  let? folder_names := sqlite_optional_string row "folder_names" in
  let? folder_names := parse_legacy_list folder_names in
  let '(url_provider_post_id, canonical_url_digest) := parse_x_status_url url in
  let? posted_at := parse_optional_timestamp "posted_at" (default ""%string posted_at) in
  let? bookmarked_at := parse_optional_timestamp "bookmarked_at" (default ""%string bookmarked_at) in
  let? synced_at := parse_required_timestamp "synced_at" synced_at in
  build_record (mkLegacyRecordInput source_record_key (Some provider_post_id) url_provider_post_id
    canonical_url_digest text posted_at bookmarked_at synced_at categories folder_ids folder_names).

(** The [limit] bound to the row query: one more than the row limit. *)
Definition row_query_limit (max_rows : Z) : Z :=
  let n := if max_rows <=? i64_max then max_rows else i64_max - 1 in Z.min (n + 1) i64_max.

Definition preflight_field_theory_sqlite (path : string) (limits : SourceLimits) :
    Checked PreflightBatch :=
  let? before := read_source_bytes (file_answers path 0) (max_bytes limits) in
  let source := sqlite_source path in
  if negb (sq_connect source) then Err SourceDatabase
  else
    let? schema_version := ok_or (sq_schema_version source) SourceDatabase in
    if negb (String.eqb schema_version "6") then Err UnsupportedSourceVersion
    else
      let? columns := ok_or (sq_columns source) SourceDatabase in
      match List.find forbidden_field_name columns with
      | Some field => Err (ForbiddenField field)
      | None =>
          if negb (bool_decide (columns = FIELD_THEORY_SQLITE_COLUMNS)) then Err UnsupportedSqliteSchema
          else
            let? rows := ok_or (sq_rows source (row_query_limit (max_rows limits))) SourceDatabase in
            if max_rows limits <? Z.of_nat (length rows) then Err RowLimitExceeded
            else
              let? records := try_map (sqlite_record limits) rows in
              if negb (sq_close source) then Err SourceDatabase
              else
                let? after := read_source_bytes (file_answers path 1) (max_bytes limits) in
                if negb (String.eqb before after) then Err SourceChanged
                else finish_batch FieldTheorySqlite FieldTheorySqlite6 (sha256_hex before) records
      end.

(** [preflight_source], which [preflight] calls. *)
Definition preflight_source (selection : LegacySourceSelection) (limits : SourceLimits) :
    Checked PreflightBatch :=
  match selection with
  | MonolithCsv path => preflight_monolith_csv path limits
  | FieldTheory (Some path) _ => preflight_field_theory_jsonl path limits
  | FieldTheory None (Some path) => preflight_field_theory_sqlite path limits
  | FieldTheory None None => Err MissingSource
  end.
End Preflight.

(** ** The CSV parser reads back what a CSV writer prints

    A writer chooses, per cell, to quote it, and per row, to end it with LF or CRLF. *)

Record CsvCell := mkCsvCell { cell_quoted : bool; cell_value : string }.

Fixpoint double_quotes (s : string) : string :=
  match s with
  | EmptyString => EmptyString
  | String c s' => if Ascii.eqb c dquote then String dquote (String dquote (double_quotes s'))
                   else String c (double_quotes s')
  end.

Definition quote_field (s : string) : string := String dquote (double_quotes s +:+ String dquote "").
Definition render_cell (cell : CsvCell) : string :=
  if cell_quoted cell then quote_field (cell_value cell) else cell_value cell.
Definition render_cells (cells : list CsvCell) : string := str_join "," (render_cell <$> cells).
Definition line_end (crlf : bool) : string :=
  if crlf then String CR (String LF "") else String LF "".
Definition render_csv (rows : list (list CsvCell * bool)) (last : list CsvCell) : string :=
  foldr (λ row rest, render_cells row.1 +:+ line_end row.2 +:+ rest) (render_cells last) rows.

(** What may be written without quotes. *)
Definition plain_char (c : ascii) : bool :=
  not_char "," c && not_char LF c && not_char CR c.
Definition plain (v : string) : bool :=
  all_chars plain_char v && negb (starts_with (String dquote "") v).
Definition cell_ok (cell : CsvCell) : Prop := cell_quoted cell = true ∨ plain (cell_value cell) = true.
Definition values (cells : list CsvCell) : list string := cell_value <$> cells.
Definition last_values (cells : list CsvCell) : list (list string) :=
  match cells with [] => [] | _ => [values cells] end.
Definition row_ok (cells : list CsvCell) : Prop := cells ≠ [] ∧ Forall cell_ok cells.

Lemma push_app field c s : push field c +:+ s = field +:+ String c s.
Proof. unfold push. by rewrite str_app_assoc. Qed.

Lemma push_not_empty field c : String.eqb (push field c) "" = false.
Proof. by destruct field. Qed.

(** The rest of the source after a cell: a separator, a line end, or nothing. *)
Definition after_cell (rest : string) : Prop :=
  match rest with
  | EmptyString => True
  | String c rest' => c = ","%char ∨ c = LF ∨ (c = CR ∧ starts_with (String LF "") rest' = true)
  end.

Lemma scan_quoted rows row field closed v rest :
  after_cell rest →
  csv_scan rows row field true closed (double_quotes v +:+ String dquote rest) =
    csv_scan rows row (field +:+ v) false true rest.
Proof.
  intros Hrest. revert field. induction v as [|c v IH]; intros field; simpl.
  - rewrite str_app_nil_r. destruct rest as [|c rest]; [done|].
    destruct (Ascii.eqb c dquote) eqn:E; [|done]. apply Ascii.eqb_eq in E as ->.
    by destruct Hrest as [Hc|[Hc|[Hc _]]].
  - destruct (Ascii.eqb c dquote) eqn:E; simpl.
    + apply Ascii.eqb_eq in E as ->. by rewrite IH, push_app.
    + by rewrite E, IH, push_app.
Qed.

Lemma plain_char_spec c : plain_char c = true ↔ c ≠ ","%char ∧ c ≠ LF ∧ c ≠ CR.
Proof.
  unfold plain_char, not_char. rewrite !andb_true_iff, !negb_true_iff, !Ascii.eqb_neq. tauto.
Qed.

Lemma scan_plain_char rows row field c rest :
  plain_char c = true → (c = dquote → field ≠ ""%string) →
  csv_scan rows row field false false (String c rest) = csv_scan rows row (push field c) false false rest.
Proof.
  intros (H1 & H2 & H3)%plain_char_spec Hq. cbn [csv_scan].
  destruct (Ascii.eqb_spec c dquote) as [->|_]; [destruct (String.eqb_spec field "") as [->|_];
    [by destruct Hq|]|]; simpl;
    rewrite ?(proj2 (Ascii.eqb_neq _ _) H1), ?(proj2 (Ascii.eqb_neq _ _) H2),
      ?(proj2 (Ascii.eqb_neq _ _) H3); done.
Qed.

Lemma scan_plain rows row field v rest :
  all_chars plain_char v = true → (starts_with (String dquote "") v = true → field ≠ ""%string) →
  csv_scan rows row field false false (v +:+ rest) = csv_scan rows row (field +:+ v) false false rest.
Proof.
  revert field. induction v as [|c v IH]; intros field Hv Hq; [by rewrite str_app_nil_r|].
  change (plain_char c && all_chars plain_char v = true) in Hv. apply andb_true_iff in Hv as [Hc Hv].
  change (String c v +:+ rest) with (String c (v +:+ rest)). rewrite scan_plain_char; [|done|].
  - rewrite IH; [by rewrite push_app|done|]. intros _. by destruct field.
  - intros ->. apply Hq. apply (starts_with_app (String dquote "")).
Qed.

Lemma scan_cell rows row cell rest :
  cell_ok cell → after_cell rest →
  csv_scan rows row "" false false (render_cell cell +:+ rest) =
    csv_scan rows row (cell_value cell) false (cell_quoted cell) rest.
Proof.
  intros Hok Hrest. unfold render_cell. destruct (cell_quoted cell) eqn:E.
  - unfold quote_field. change (String dquote ?a +:+ ?b) with (String dquote (a +:+ b)).
    rewrite str_app_assoc. by apply (scan_quoted rows row ""%string).
  - destruct Hok as [|Hok]; [congruence|]. apply andb_true_iff in Hok as [Hc Hs].
    apply scan_plain; [done|]. intros Hq. by rewrite Hq in Hs.
Qed.

(** What a line end leaves of a cell's value. *)
Lemma pop_cr_plain v : all_chars plain_char v = true → pop_cr v = v.
Proof.
  intros Hv. unfold pop_cr. destruct (str_strip_suffix _ v) as [r|] eqn:E; [|done].
  apply str_strip_suffix_Some in E as ->. rewrite all_chars_app in Hv.
  apply andb_true_iff in Hv as [_ Hv]. done.
Qed.

Lemma scan_line_end rows row cell crlf rest :
  cell_ok cell →
  csv_scan rows row (cell_value cell) false (cell_quoted cell) (line_end crlf +:+ rest) =
    csv_scan (rows ++ [row ++ [cell_value cell]]) [] "" false false rest.
Proof.
  intros Hok. assert (Hlf : csv_scan rows row (cell_value cell) false (cell_quoted cell) (String LF rest) =
    csv_scan (rows ++ [row ++ [cell_value cell]]) [] "" false false rest).
  { simpl. destruct (cell_quoted cell) eqn:E; [done|]. destruct Hok as [|Hok]; [congruence|].
    apply andb_true_iff in Hok as [Hc _]. by rewrite pop_cr_plain. }
  destruct crlf; [|exact Hlf]. rewrite <-Hlf. reflexivity.
Qed.

Lemma scan_cells rows row cells crlf rest :
  row_ok cells →
  csv_scan rows row "" false false (render_cells cells +:+ line_end crlf +:+ rest) =
    csv_scan (rows ++ [row ++ values cells]) [] "" false false rest.
Proof.
  intros [Hne Hok]. revert row Hne. induction Hok as [|cell cells Hc Hcs IH]; intros row Hne; [done|].
  destruct cells as [|cell' cells].
  - change (render_cells [cell]) with (render_cell cell). rewrite scan_cell; [by apply scan_line_end|done|].
    destruct crlf; simpl; auto.
  - change (render_cells (cell :: cell' :: cells))
      with (render_cell cell +:+ "," +:+ render_cells (cell' :: cells)).
    rewrite !str_app_assoc, scan_cell; [|done|by left].
    change ("," +:+ ?s) with (String "," s). cbn [csv_scan]. simpl (Ascii.eqb _ _). cbn [andb].
    rewrite IH by done. by rewrite <-app_assoc.
Qed.

Lemma scan_last rows row cells :
  row_ok cells → row ≠ [] ∨ values cells ≠ [""%string] →
  csv_scan rows row "" false false (render_cells cells) = Ok (rows ++ [row ++ values cells]).
Proof.
  intros [Hne Hok]. revert row Hne. induction Hok as [|cell cells Hc Hcs IH]; intros row Hne Hend; [done|].
  destruct cells as [|cell' cells].
  - change (render_cells [cell]) with (render_cell cell). rewrite <-(str_app_nil_r (render_cell cell)).
    rewrite scan_cell by done. simpl. f_equal. unfold csv_end.
    destruct (String.eqb_spec (cell_value cell) "") as [E|]; [|done].
    rewrite bool_decide_eq_false_2; [done|]. destruct Hend as [|Hend]; [done|]. simpl in Hend. by rewrite E in Hend.
  - change (render_cells (cell :: cell' :: cells))
      with (render_cell cell +:+ "," +:+ render_cells (cell' :: cells)).
    rewrite scan_cell; [|done|by left].
    change ("," +:+ ?s) with (String "," s). cbn [csv_scan]. simpl (Ascii.eqb _ _). cbn [andb].
    rewrite IH; [by rewrite <-app_assoc|done|]. left. by destruct row.
Qed.

(** C36. The CSV parser undoes every CSV writer: rows of one or more cells, each quoted at the
    writer's choice or plain, ended by LF or CRLF, parse back to exactly their values; so does a
    last row without a line end, unless it is one empty cell. *)
Theorem csv_parses_what_was_written rows last :
  Forall (λ row, row_ok row.1) rows →
  last = [] ∨ (row_ok last ∧ values last ≠ [""%string]) →
  parse_csv (render_csv rows last) =
    Ok ((values ∘ fst <$> rows) ++ last_values last).
Proof.
  intros Hrows Hlast. unfold parse_csv.
  enough (H : ∀ parsed, csv_scan parsed [] "" false false (render_csv rows last) =
    Ok (parsed ++ (values ∘ fst <$> rows) ++
        last_values last)) by apply (H []).
  induction Hrows as [|row rows Hrow Hrows IH]; intros parsed.
  - change (render_csv [] last) with (render_cells last). destruct last as [|cell last].
    + simpl. unfold csv_end. simpl. by rewrite !app_nil_r.
    + destruct Hlast as [|[Hok Hne]]; [done|]. rewrite scan_last by auto. done.
  - change (render_csv (row :: rows) last)
      with (render_cells row.1 +:+ line_end row.2 +:+ render_csv rows last).
    rewrite scan_cells by done. rewrite IH, <-app_assoc. done.
Qed.

(** ** No credential-shaped name at any depth *)

(** [name] is a member name somewhere in the document. *)
Inductive names_field (name : string) : Value → Prop :=
  | names_here members v : (name, v) ∈ members → names_field name (Object members)
  | names_in_member key v members :
      (key, v) ∈ members → names_field name v → names_field name (Object members)
  | names_in_item v values : v ∈ values → names_field name v → names_field name (Arr values).

Lemma names_member name members :
  names_field name (Object members) ↔
    ∃ kv, kv ∈ members ∧ (name = kv.1 ∨ names_field name kv.2).
Proof.
  split.
  - inversion 1; subst; eexists; (split; [done|]); simpl; auto.
  - intros ([k v] & Hin & [->|H]); [by eapply names_here | by eapply names_in_member].
Qed.

Lemma names_item name values : names_field name (Arr values) ↔ ∃ v, v ∈ values ∧ names_field name v.
Proof.
  split; [by inversion 1; subst; eauto|]. intros (v & Hin & H). by eapply names_in_item.
Qed.

(** A document is refused exactly when some object in it, at whatever depth, has a member whose
    name holds a credential or session word. *)
Lemma reject_forbidden_fields_Ok value :
  reject_forbidden_fields value = Ok tt ↔
    ∀ name, names_field name value → forbidden_field_name name = false.
Proof.
  induction value as [| | | |values IH|members IH] using value_nested_ind;
    try (split; [intros _ name H; inversion H|done]).
  - cbn [reject_forbidden_fields]. rewrite try_each_Ok. split.
    + intros Hall name (v & Hin & H)%names_item. rewrite Forall_forall in IH, Hall.
      by eapply IH; [|apply Hall|].
    + intros H. rewrite Forall_forall in IH |- *. intros v Hin. apply IH; [done|].
      intros name Hn. apply H, names_item. eauto.
  - cbn [reject_forbidden_fields]. rewrite try_each_Ok, Forall_forall. rewrite Forall_forall in IH. split.
    + intros Hall name (kv & Hin & H)%names_member. specialize (Hall _ Hin). simpl in Hall.
      destruct (forbidden_field_name kv.1) eqn:E; [done|]. destruct H as [->|H]; [done|].
      by eapply IH.
    + intros H kv Hin. rewrite (H kv.1) by (apply names_member; eauto). apply IH; [done|].
      intros name Hn. apply H, names_member. eauto.
Qed.

(** ** Records and batches *)

Section Batches.
Context {ch : Chrono} {ct : Contracts} {cr : Crypto} {inp : LegacyInputs}.

(** The digest of the stored fields of a record. *)
Definition digest_of (r : LegacyRecord) : string :=
  sha256_hex (json_text (digest_document (source_record_key r) (provider_post_id r)
    (url_provider_post_id r) (canonical_url_digest r) (text r) (posted_at r) (bookmarked_at r)
    (synced_at r) (categories r) (folder_ids r) (folder_names r))).

(** What validation guarantees of a record. *)
Record record_ok (limits : SourceLimits) (r : LegacyRecord) : Prop := {
  ro_key : source_record_key r ≠ ""%string;
  ro_text : Z.of_nat (String.length (text r)) ≤ max_text_bytes limits;
  ro_url : match url_provider_post_id r, canonical_url_digest r with
           | Some id, Some _ => digits_only id = true
           | None, None => True
           | _, _ => False
           end;
  ro_categories : StronglySorted str_lt (categories r);
  ro_folder_ids : StronglySorted str_lt (folder_ids r);
  ro_folder_names : StronglySorted str_lt (folder_names r);
  ro_digest : record_digest r = digest_of r;
}.

Lemma parse_x_status_url_ok url :
  match parse_x_status_url url with
  | (Some id, Some _) => digits_only id = true
  | (None, None) => True
  | _ => False
  end.
Proof.
  unfold parse_x_status_url. destruct (url_parse url) as [u|]; [|done].
  destruct (to_ascii_lowercase <$> host_str u) as [host|]; [|done].
  destruct (allows status_hosts host); simpl; [|done].
  destruct (segment_after_status _) as [id|]; [|done]. by destruct (digits_only id) eqn:E.
Qed.

Lemma build_record_ok limits input r :
  Z.of_nat (String.length (in_text input)) ≤ max_text_bytes limits →
  (∃ url, parse_x_status_url url = (in_url_provider_post_id input, in_canonical_url_digest input)) →
  build_record input = Ok r → record_ok limits r.
Proof.
  intros Htext (url & Hurl). unfold build_record. destruct (String.eqb_spec (in_source_record_key input) "");
    [done|]. intros [= <-]. split; simpl; try done; try apply sort_dedup_strict.
  pose proof (parse_x_status_url_ok url) as H. rewrite Hurl in H.
  by destruct (in_url_provider_post_id input), (in_canonical_url_digest input).
Qed.

Lemma validate_text_Ok field value max u :
  validate_text field value max = Ok u → Z.of_nat (String.length value) ≤ max.
Proof. unfold validate_text. destruct (Z.ltb_spec max (Z.of_nat (String.length value))); [done|lia]. Qed.

Lemma monolith_record_ok limits row r : monolith_record limits row = Ok r → record_ok limits r.
Proof.
  unfold monolith_record. intros H. do 10 (destruct row as [|? row]; try done). opens.
  refine (build_record_ok _ _ _ _ _ H); simpl; [by eapply validate_text_Ok|by eexists].
Qed.

Lemma jsonl_record_ok limits line r : jsonl_record limits line = Ok r → record_ok limits r.
Proof.
  unfold jsonl_record. intros H. opens. destruct x as [| | | | |object]; try done. opens.
  refine (build_record_ok _ _ _ _ _ H); simpl; [by eapply validate_text_Ok|by eexists].
Qed.

Lemma required_string_Ok object field value :
  required_string object field = Ok value → obj_get field object = Some (Str value) ∧ value ≠ ""%string.
Proof.
  unfold required_string, optional_string. destruct (obj_get field object) as [[]|]; try done.
  destruct (String.eqb_spec s ""); [done|]. simpl. by intros [= <-].
Qed.

Lemma optional_string_Some object field value :
  optional_string object field = Ok (Some value) → obj_get field object = Some (Str value).
Proof.
  unfold optional_string. destruct (obj_get field object) as [[]|]; try done.
  destruct (String.eqb_spec s ""); [done|]. by intros [= <-].
Qed.

Lemma reject_unknown_fields_Ok object allowed :
  reject_unknown_fields object allowed = Ok tt → Forall (λ kv, kv.1 ∈ allowed) object.
Proof.
  unfold reject_unknown_fields. rewrite try_each_Ok. intros H. eapply Forall_impl; [exact H|].
  intros kv. simpl. unfold allows. destruct (existsb _ _) eqn:E; [|done]. intros _.
  apply existsb_exists in E as (k & Hin & Hk). apply String.eqb_eq in Hk as ->.
  by apply list_elem_of_In.
Qed.

(** A record of Field Theory's cache is only ever read from an object inside the pinned contract: no
    deeper than the limit, no member at any depth with a credential or session name, no member
    outside the list of public fields, a tweet id, and the key and text of the record exactly as the
    object states them. *)
Theorem cache_records_come_from_contract_objects limits line r :
  jsonl_record limits line = Ok r →
  ∃ object, json_from_str line = Some (Object object) ∧
    Z.of_nat (json_depth (Object object)) ≤ max_json_depth limits ∧
    (∀ name, names_field name (Object object) → forbidden_field_name name = false) ∧
    Forall (λ kv, kv.1 ∈ FIELD_THEORY_JSONL_FIELDS) object ∧
    obj_get "id" object = Some (Str (source_record_key r)) ∧ source_record_key r ≠ ""%string ∧
    (∃ id, provider_post_id r = Some id ∧ id ≠ ""%string ∧ obj_get "tweetId" object = Some (Str id)) ∧
    obj_get "text" object = Some (Str (text r)) ∧ text r ≠ ""%string.
Proof.
  unfold jsonl_record. intros H. opens. apply ok_or_Ok in H0. apply Z.ltb_ge in Heqb.
  destruct x as [| | | | |object]; try done. opens. exists object.
  assert (x0 = tt) as -> by by destruct x0. rewrite reject_forbidden_fields_Ok in H1.
  assert (x = tt) as -> by by destruct x. apply reject_unknown_fields_Ok in H2.
  unfold validate_field_theory_record_shape in H3.
  apply result_bind_Ok in H3 as (id & Hid & _).
  assert (Hopt : x3 = Some id).
  { unfold required_string in Hid. rewrite H5 in Hid. simpl in Hid. by apply ok_or_Ok in Hid. }
  apply required_string_Ok in H4 as [Hkey Hne], H7 as [Htext Htne], Hid as [Hid Hidne].
  unfold build_record in H. cbn [in_source_record_key] in H.
  destruct (String.eqb_spec x2 ""); [done|]. injection H as <-. simpl.
  split_and!; try done. by exists id.
Qed.

Lemma sqlite_record_ok limits row r : sqlite_record limits row = Ok r → record_ok limits r.
Proof.
  unfold sqlite_record. intros H. opens.
  refine (build_record_ok _ _ _ _ _ H); simpl; [by eapply validate_text_Ok|by eexists].
Qed.

(** *** One record per key *)

(** The first record of a list with the given key. *)
Definition find_key (key : string) (rs : list LegacyRecord) : option LegacyRecord :=
  List.find (λ r, String.eqb key (source_record_key r)) rs.

Definition keyed (unique : list (string * LegacyRecord)) : Prop :=
  StronglySorted str_lt unique.*1 ∧ unique.*1 = source_record_key <$> unique.*2.

(** All records of one key carry the same evidence. *)
Definition consistent (rs : list LegacyRecord) : Prop :=
  ∀ r s, r ∈ rs → s ∈ rs → source_record_key r = source_record_key s →
    record_digest r = record_digest s.

Lemma find_key_Some key rs r : find_key key rs = Some r → r ∈ rs ∧ source_record_key r = key.
Proof. intros [Hin E]%find_some. apply String.eqb_eq in E. split; [by apply list_elem_of_In|done]. Qed.

Lemma find_key_present rs r : r ∈ rs → is_Some (find_key (source_record_key r) rs).
Proof.
  intros Hin. unfold find_key. destruct (List.find _ rs) as [s|] eqn:E; [by eexists|].
  apply list_elem_of_In, (find_none _ _ E) in Hin. by rewrite String.eqb_refl in Hin.
Qed.

Lemma obj_get_keyed key unique : keyed unique → obj_get key unique = find_key key unique.*2.
Proof.
  intros [_ Hk]. unfold obj_get, find_key. induction unique as [|[k r] unique IH]; simpl; [done|].
  simpl in Hk. injection Hk as -> Hk. destruct (String.eqb key (source_record_key r)); simpl; [done|].
  by apply IH.
Qed.

Lemma obj_insert_keyed r unique : keyed unique → keyed (obj_insert (source_record_key r) r unique).
Proof.
  intros [Hs Hk]. split; [by apply obj_insert_sorted|]. clear Hs.
  induction unique as [|[k r'] unique IH]; simpl; [done|]. simpl in Hk. injection Hk as -> Hk.
  destruct (String.eqb_spec (source_record_key r) (source_record_key r')) as [E|]; simpl; [by f_equal|].
  destruct (str_leb _ _); simpl; f_equal; [by f_equal|by apply IH].
Qed.

Lemma obj_insert_length {A} k (v : A) m : (length (obj_insert k v m) ≤ S (length m))%nat.
Proof.
  induction m as [|[k' v'] m IH]; simpl; [lia|].
  destruct (String.eqb k k'), (str_leb k k'); simpl; lia.
Qed.

Lemma elem_of_obj_insert_value {A} k (v x : A) m : x ∈ (obj_insert k v m).*2 → x = v ∨ x ∈ m.*2.
Proof.
  induction m as [|[k' v'] m IH]; simpl; [rewrite list_elem_of_singleton; auto|].
  destruct (String.eqb k k'); simpl; [rewrite !elem_of_cons; tauto|].
  destruct (str_leb k k'); simpl; rewrite !elem_of_cons; tauto.
Qed.

Lemma find_key_snoc key before r :
  find_key key (before ++ [r]) =
    match find_key key before with
    | Some s => Some s
    | None => if String.eqb key (source_record_key r) then Some r else None
    end.
Proof.
  unfold find_key. induction before as [|b before IH]; simpl; [done|].
  by destruct (String.eqb key (source_record_key b)).
Qed.

Lemma consistent_snoc before r :
  consistent before →
  (∀ s, s ∈ before → source_record_key s = source_record_key r → record_digest s = record_digest r) →
  consistent (before ++ [r]).
Proof.
  intros Hc Hr a b Ha Hb Hab. rewrite elem_of_app, list_elem_of_singleton in Ha, Hb.
  destruct Ha as [Ha| ->], Hb as [Hb| ->]; [by apply Hc|by apply Hr| |done].
  symmetry. by apply Hr.
Qed.

Lemma consistent_app_l before rs : consistent (before ++ rs) → consistent before.
Proof. intros H a b Ha Hb. apply H; apply elem_of_app; auto. Qed.

(** What the loop keeps of the records it has seen. *)
Record kept (seen : list LegacyRecord) (unique : list (string * LegacyRecord)) : Prop := {
  kp_keyed : keyed unique;
  kp_first key : find_key key unique.*2 = find_key key seen;
  kp_consistent : consistent seen;
  kp_length : (length unique ≤ length seen)%nat;
  kp_from r : r ∈ unique.*2 → r ∈ seen;
}.

Lemma keep_first_spec seen unique r :
  kept seen unique →
  match keep_first unique r with
  | Ok unique' => kept (seen ++ [r]) unique'
  | Err e => e = DuplicateSourceKey ∧ ¬ consistent (seen ++ [r])
  end.
Proof.
  intros [Hu Hf Hc Hl Hfrom]. unfold keep_first. rewrite obj_get_keyed, Hf by done.
  destruct (find_key (source_record_key r) seen) as [s|] eqn:E.
  - pose proof (find_key_Some _ _ _ E) as [Hin Hkey].
    destruct (String.eqb_spec (record_digest s) (record_digest r)) as [Hd|Hd].
    + split; [done| | |rewrite length_app; lia|intros a Ha; apply elem_of_app; auto].
      * intros key. rewrite find_key_snoc, Hf. destruct (find_key key seen) eqn:Ek; [done|].
        destruct (String.eqb_spec key (source_record_key r)); congruence.
      * apply consistent_snoc; [done|]. intros a Ha Hak. rewrite <-Hd. apply Hc; congruence.
    + split; [done|]. intros Hbad. apply Hd, Hbad; [apply elem_of_app; auto| |done].
      apply elem_of_app. right. by left.
  - assert (Hk : keyed (obj_insert (source_record_key r) r unique)) by by apply obj_insert_keyed.
    split; [done| | | |].
    + intros key. rewrite <-(obj_get_keyed _ _ Hk), obj_get_insert, (obj_get_keyed _ _ Hu), find_key_snoc, Hf.
      destruct (String.eqb_spec key (source_record_key r)) as [->|]; [by rewrite E|].
      by destruct (find_key key seen).
    + apply consistent_snoc; [done|]. intros a Ha Heq. apply find_key_present in Ha as [? Ha]. congruence.
    + rewrite length_app. pose proof (obj_insert_length (source_record_key r) r unique). simpl. lia.
    + intros a Ha. apply elem_of_app. apply elem_of_obj_insert_value in Ha as [->|Ha]; [|auto].
      right. by left.
Qed.

Lemma unique_records_spec seen unique rs :
  kept seen unique →
  match unique_records unique rs with
  | Ok unique' => kept (seen ++ rs) unique'
  | Err e => e = DuplicateSourceKey ∧ ¬ consistent (seen ++ rs)
  end.
Proof.
  revert seen unique. induction rs as [|r rs IH]; intros seen unique Hk; simpl; [by rewrite app_nil_r|].
  rewrite (cons_middle r seen rs), app_assoc. pose proof (keep_first_spec seen unique r Hk) as H.
  destruct (keep_first unique r) as [u|e]; simpl; [by apply IH|].
  destruct H as [-> H]. split; [done|]. by intros ?%consistent_app_l.
Qed.

Lemma kept_nothing : kept [] [].
Proof. split; [by repeat constructor|done|by intros ?? ?%elem_of_nil|done|by intros ? ?%elem_of_nil]. Qed.

Lemma finish_batch_spec kind version digest rs :
  match finish_batch kind version digest rs with
  | Ok batch => ∃ unique, kept rs unique ∧
      batch = mkPreflightBatch kind version digest (Z.of_nat (length unique.*2)) unique.*2
  | Err e => e = DuplicateSourceKey ∧ ¬ consistent rs
  end.
Proof.
  unfold finish_batch. pose proof (unique_records_spec [] [] rs kept_nothing) as H.
  destruct (unique_records [] rs) as [u|e]; simpl; [by exists u|done].
Qed.

(** Records of one source become a batch exactly when no two of them disagree under one key; the
    batch then holds the first record of every key, strictly ascending by key. *)
Theorem batches_keep_one_record_per_key kind version digest rs :
  match finish_batch kind version digest rs with
  | Ok batch =>
      consistent rs ∧ (∀ key, find_key key (records batch) = find_key key rs) ∧
      StronglySorted str_lt (source_record_key <$> records batch) ∧
      row_count batch = Z.of_nat (length (records batch)) ∧ source_kind batch = kind ∧
      source_version batch = version ∧ source_digest batch = digest
  | Err e => e = DuplicateSourceKey ∧ ¬ consistent rs
  end.
Proof.
  pose proof (finish_batch_spec kind version digest rs) as H.
  destruct (finish_batch kind version digest rs) as [batch|e]; [|done].
  destruct H as (u & [[Hs Hk] Hf Hc _ _] & ->). simpl. rewrite <-Hk. by split_and!.
Qed.

(** *** What a preflight guarantees of its batch *)

(** The selection resolved by the precedence rules. *)
Definition selected (selection : LegacySourceSelection) :
    option (string * LegacySourceKind * LegacySourceVersion) :=
  match selection with
  | MonolithCsv path => Some (path, MonolithBookmarkMetadataCsv, MonolithBookmarkMetadata)
  | FieldTheory (Some path) _ => Some (path, FieldTheoryJsonl, FieldTheoryJsonl1)
  | FieldTheory None (Some path) => Some (path, FieldTheorySqlite, FieldTheorySqlite6)
  | FieldTheory None None => None
  end.

(** A regular file within the limit that read the same twice. *)
Definition stable_file (limits : SourceLimits) (answers : FileAnswers) (bytes : string) : Prop :=
  fa_joined answers = true ∧ (∃ n, fa_metadata answers = Some (true, n) ∧ n ≤ max_bytes limits) ∧
  fa_first answers = Some bytes ∧ fa_second answers = Some bytes ∧
  Z.of_nat (String.length bytes) ≤ max_bytes limits.

Record batch_ok (limits : SourceLimits) (path : string) (kind : LegacySourceKind)
    (version : LegacySourceVersion) (batch : PreflightBatch) : Prop := {
  bo_kind : source_kind batch = kind;
  bo_version : source_version batch = version;
  bo_source : ∃ bytes, stable_file limits (file_answers path 0) bytes ∧
    source_digest batch = sha256_hex bytes;
  bo_count : row_count batch = Z.of_nat (length (records batch));
  bo_rows : row_count batch ≤ max_rows limits;
  bo_keys : StronglySorted str_lt (source_record_key <$> records batch);
  bo_records : Forall (record_ok limits) (records batch);
}.

Lemma read_checked_Ok max bytes s :
  read_checked max bytes = Ok s → bytes = Some s ∧ Z.of_nat (String.length s) ≤ max.
Proof.
  unfold read_checked. intros (b & Hb%ok_or_Ok & H)%result_bind_Ok.
  destruct (Z.ltb_spec max (Z.of_nat (String.length b))); [done|]. injection H as <-. split; [done|lia].
Qed.

Lemma read_source_bytes_Ok limits answers bytes :
  read_source_bytes answers (max_bytes limits) = Ok bytes → stable_file limits answers bytes.
Proof.
  unfold read_source_bytes. destruct (fa_joined answers) eqn:Ej; [simpl|done].
  intros ([file n] & Hm%ok_or_Ok & H)%result_bind_Ok. simpl in H. destruct file; [simpl in H|done].
  destruct (Z.ltb_spec (max_bytes limits) n); [done|].
  apply result_bind_Ok in H as (first & [Hf Hl]%read_checked_Ok & H).
  apply result_bind_Ok in H as (second & [Hs _]%read_checked_Ok & H).
  destruct (String.eqb_spec first second) as [<-|]; [|done]. injection H as <-.
  split_and!; eauto.
Qed.

Lemma finished_batch_ok limits path kind version bytes rs batch :
  read_source_bytes (file_answers path 0) (max_bytes limits) = Ok bytes →
  Z.of_nat (length rs) ≤ max_rows limits → Forall (record_ok limits) rs →
  finish_batch kind version (sha256_hex bytes) rs = Ok batch → batch_ok limits path kind version batch.
Proof.
  intros Hread%read_source_bytes_Ok Hrows Hok H.
  pose proof (finish_batch_spec kind version (sha256_hex bytes) rs) as Hspec. rewrite H in Hspec.
  destruct Hspec as (u & [[Hs Hk] _ _ Hl Hfrom] & ->).
  split; simpl; try done; [by exists bytes| |by rewrite <-Hk|].
  - rewrite length_fmap. lia.
  - rewrite Forall_forall in Hok |- *. auto.
Qed.

Lemma try_map_Forall {A B E} (f : A → result B E) (P : B → Prop) xs ys :
  (∀ x y, f x = Ok y → P y) → try_map f xs = Ok ys → Forall P ys ∧ length ys = length xs.
Proof.
  intros HP H%try_map_Ok. split; [|symmetry; by eapply Forall2_length].
  induction H; constructor; eauto.
Qed.

Lemma jsonl_records_ok limits rs ls rs' :
  jsonl_records limits rs ls = Ok rs' → Z.of_nat (length rs) ≤ max_rows limits →
  Forall (record_ok limits) rs →
  Z.of_nat (length rs') ≤ max_rows limits ∧ Forall (record_ok limits) rs'.
Proof.
  revert rs. induction ls as [|l ls IH]; intros rs; simpl; [by intros [= <-]|].
  destruct (Z.eqb_spec (Z.of_nat (length rs)) (max_rows limits)); [done|].
  intros (r & Hr & H)%result_bind_Ok Hl Hok. apply IH in H; [done| |].
  - rewrite length_app. simpl. lia.
  - apply Forall_app. split; [done|]. constructor; [by eapply jsonl_record_ok|done].
Qed.

(** A batch that passes preflight comes from the one artifact the selection names, read twice without
    change within the byte limit, and is bound to it by its digest; it has at most the allowed rows,
    one record per key in ascending order, and every record is valid: a key, bounded text, a numeric
    post id wherever a status URL was recognised, strictly sorted lists, and the digest of exactly
    its own fields. *)
Theorem preflight_batches_are_well_formed selection limits batch :
  0 ≤ max_rows limits → preflight_source selection limits = Ok batch →
  ∃ path kind version, selected selection = Some (path, kind, version) ∧
    batch_ok limits path kind version batch.
Proof.
  intros Hmax H. destruct selection as [path|[path|] sqlite]; [| |destruct sqlite as [path|]; [|done]];
    simpl in H; eexists _, _, _; (split; [reflexivity|]).
  - unfold preflight_monolith_csv in H. opens. destruct x1 as [|header rows]; [done|]. opens.
    apply Z.ltb_ge in Heqb0. destruct (try_map_Forall _ _ _ _ (monolith_record_ok limits) H3).
    eapply finished_batch_ok; eauto. lia.
  - unfold preflight_field_theory_jsonl in H. opens.
    edestruct (jsonl_records_ok limits); [done|simpl; lia|done|]. by eapply finished_batch_ok.
  - unfold preflight_field_theory_sqlite in H. opens. destruct (List.find _ _); [done|]. opens.
    apply Z.ltb_ge in Heqb2. destruct (try_map_Forall _ _ _ _ (sqlite_record_ok limits) H4).
    eapply finished_batch_ok; eauto. lia.
Qed.
End Batches.

(** ** Concrete artifacts *)
Module LegacySourceSamples.
Import SampleChrono SampleCrypto SampleContracts.

Definition cells (quoted : list bool) (vs : list string) : list CsvCell :=
  zip_with mkCsvCell quoted vs.

Definition sample_header : list CsvCell := cells (replicate 9 false) MONOLITH_HEADERS.
Definition sample_row (key id text url : string) : list CsvCell :=
  cells [false; false; true; true; true; false; false; false; false]
    [key; id; "go"; text; ""; "author"; url; ""; "2024-01-01T00:00:00Z"]%string.

(** Two spellings of one export: the first row with a comma and a quote in its text. *)
Definition sample_rows (crlf : bool) : list (list CsvCell * bool) :=
  [(sample_header, crlf);
   (sample_row "k2" "42" (String dquote "a, b") "https://x.com/u/status/42", crlf)].
Definition sample_last : list CsvCell := sample_row "k1" "" "plain" "https://example.com/".
Definition sample_csv (crlf : bool) : string := render_csv (sample_rows crlf) sample_last.

Definition sample_object : Value :=
  obj [("id", Str "f1"); ("tweetId", Str "7"); ("url", Str "https://x.com/u/status/42");
       ("text", Str "hello"); ("syncedAt", Str "2024-01-01T00:00:00Z");
       ("author", obj [("handle", Str "u"); ("verified", Bool true)])]%string.

#[export] Instance sample_inputs : LegacyInputs := {|
  json_from_str s := Some sample_object;
  json_strings_from_str s := Some [s];
  datetime_text t := decimal t;
  url_parse s :=
    if starts_with "https://x.com/" s
    then Some (mkSourceUrl (Some "X.com"%string) (Some ["u"; "status"; "42"]%string) s)
    else Some (mkSourceUrl (Some "example.com"%string) (Some [""%string]) s);
  file_answers path n := mkFileAnswers true (Some (true, 400))
    (Some (sample_csv (String.eqb path "crlf.csv"))) (Some (sample_csv (String.eqb path "crlf.csv")));
  sqlite_source path := mkSqliteSource false None None (λ _, None) false;
|}.

Definition sample_preflight (path : string) : Checked PreflightBatch :=
  preflight_source (MonolithCsv path) default_limits.

Example sample_records :
  match sample_preflight "crlf.csv" with
  | Ok batch => (λ r, (source_record_key r, url_provider_post_id r, text r)) <$> records batch
  | Err _ => []
  end = [("k1", None, "plain"); ("k2", Some "42", String dquote "a, b")]%string.
Proof. vm_compute. reflexivity. Qed.

(** Field Theory's cache is preferred; with neither artifact there is nothing to read. *)
Example no_artifact : preflight_source (FieldTheory None None) default_limits = Err MissingSource.
Proof. reflexivity. Qed.

Example credential_words :
  forbidden_field_name "Access-Token" = true ∧ forbidden_field_name "set_cookie_at" = true ∧
  forbidden_field_name "authorName" = false.
Proof. vm_compute. done. Qed.

(** Both carriage returns before a line feed are dropped from an unquoted field, not one. *)
Example two_carriage_returns :
  parse_csv ("a" +:+ String CR (String CR (String LF ""))) = Ok [["a"%string]].
Proof. vm_compute. reflexivity. Qed.

Lemma cells_ok (row : list CsvCell) :
  forallb (λ cell, cell_quoted cell || plain (cell_value cell)) row = true → row ≠ [] → row_ok row.
Proof.
  intros H Hne. split; [done|]. rewrite forallb_forall in H. apply Forall_forall.
  intros cell Hin%list_elem_of_In%H. by apply orb_true_iff in Hin.
Qed.

Lemma csv_parses_what_was_written_witness :
  parse_csv (sample_csv true) =
    Ok ((values ∘ fst <$> sample_rows true) ++ [values sample_last]).
Proof.
  apply (csv_parses_what_was_written (sample_rows true) sample_last).
  - apply Forall_cons; split; [|apply Forall_singleton];
      (apply cells_ok; [vm_compute; reflexivity|discriminate]).
  - right. split; [|discriminate]. apply cells_ok; [vm_compute; reflexivity|discriminate].
Defined.

Definition sample_record : LegacyRecord :=
  match jsonl_record default_limits "{...}" with
  | Ok r => r
  | Err _ => mkLegacyRecord "" None None None "" None None 0 [] [] [] ""
  end.

Lemma cache_records_come_from_contract_objects_witness :
  ∃ object, sample_object = Object object ∧
    obj_get "id" object = Some (Str (source_record_key sample_record)).
Proof.
  destruct (cache_records_come_from_contract_objects default_limits "{...}" sample_record)
    as (object & Hobject & _ & _ & _ & Hid & _).
  - vm_compute. reflexivity.
  - exists object. split; [|exact Hid]. change (Some sample_object = Some (Object object)) in Hobject.
    by apply (inj Some) in Hobject.
Defined.

Definition sample_batch : PreflightBatch :=
  match sample_preflight "lf.csv" with
  | Ok batch => batch
  | Err _ => mkPreflightBatch FieldTheoryJsonl FieldTheoryJsonl1 "" 0 []
  end.

Lemma preflight_batches_are_well_formed_witness :
  ∃ path kind version, selected (MonolithCsv "lf.csv") = Some (path, kind, version) ∧
    batch_ok default_limits path kind version sample_batch.
Proof.
  apply (preflight_batches_are_well_formed (MonolithCsv "lf.csv") default_limits sample_batch).
  - vm_compute. discriminate.
  - vm_compute. reflexivity.
Defined.
End LegacySourceSamples.
