(* ===== verification/LegacyShadow.v ===== *)
(** * Shadow comparison ([crates/x-sync/src/legacy_transition/shadow.rs])

    The redacted comparison of imported evidence with one complete official snapshot: the
    classification of every legacy row and of every official post no row accounts for, in one
    deterministic order, and its counts. The two queries and the persisting statement of the file are
    in [LegacyReview]. *)
From stdpp Require Import sorting.
From S2P Require Export LegacySource TokenClient.

(** ** Data *)

Inductive ShadowDiffClass :=
  | Matched
  | UrlMatched
  | LegacyOnly
  | OfficialOnly
  | IdentityConflict
  | UnmappedEntry.

#[export] Instance shadow_diff_class_eq_dec : EqDecision ShadowDiffClass.
Proof. solve_decision. Defined.

Record ShadowDiff := mkShadowDiff {
  sd_class : ShadowDiffClass;
  sd_provider_post_id : option string;
  sd_legacy_record_digest : option string;
  sd_content_changed : bool;
  sd_legacy_category_present : bool;
  sd_legacy_folder_present : bool;
}.

Record ShadowSummary := mkShadowSummary {
  su_matched : Z;
  su_url_matched : Z;
  su_legacy_only : Z;
  su_official_only : Z;
  su_identity_conflicts : Z;
  su_unmapped : Z;
}.

Record ShadowReport := mkShadowReport {
  report_version : Z;
  rp_account_id : Z;
  rp_import_run_id : Z;
  rp_snapshot_id : Z;
  rp_import_digest : string;
  rp_snapshot_digest : string;
  entries : list ShadowDiff;
  summary : ShadowSummary;
}.

Record ShadowLegacyRow := mkShadowLegacyRow {
  row_digest : string;
  sl_provider_post_id : option string;
  sl_content_digest : option string;
  category_metadata : Value;
  folder_metadata : Value;
  resolution : string;
}.

(** ** Classification *)

Definition json_array_has_values (value : Value) : bool :=
  match value with Arr (_ :: _) => true | _ => false end.

(** The derived [Ord] of the class. *)
Definition class_rank (c : ShadowDiffClass) : Z :=
  match c with
  | Matched => 0 | UrlMatched => 1 | LegacyOnly => 2 | OfficialOnly => 3 | IdentityConflict => 4
  | UnmappedEntry => 5
  end.

(** [Option<&str>]: [None] comes first. *)
Definition opt_leb (a b : option string) : bool :=
  match a, b with
  | None, _ => true
  | Some _, None => false
  | Some a, Some b => str_leb a b
  end.

(** The key of [entries.sort_by]: class, post id and row digest, in this order. *)
Definition entry_leb (left right : ShadowDiff) : bool :=
  if class_rank (sd_class left) =? class_rank (sd_class right) then
    if decide (sd_provider_post_id left = sd_provider_post_id right)
    then opt_leb (sd_legacy_record_digest left) (sd_legacy_record_digest right)
    else opt_leb (sd_provider_post_id left) (sd_provider_post_id right)
  else class_rank (sd_class left) <? class_rank (sd_class right).

Definition official_only (provider_post_id : string) : ShadowDiff :=
  mkShadowDiff OfficialOnly (Some provider_post_id) None false false false.

Section Shadow.
Context {ct : Contracts} {cr : Crypto}.

(** The entry of one legacy row against the official posts. *)
Definition classify_row (official : list (string * string)) (legacy : ShadowLegacyRow) :
    Checked ShadowDiff :=
  let entry class id changed :=
    mkShadowDiff class id (Some (row_digest legacy)) changed
      (json_array_has_values (category_metadata legacy)) (json_array_has_values (folder_metadata legacy)) in
  if String.eqb (resolution legacy) "identity_conflict" then
    Ok (entry IdentityConflict (sl_provider_post_id legacy) false)
  else if String.eqb (resolution legacy) "unmapped" then Ok (entry UnmappedEntry None false)
  else if String.eqb (resolution legacy) "provider_post" || String.eqb (resolution legacy) "canonical_url"
  then
    let? provider_post_id := ok_or (sl_provider_post_id legacy) DatabaseFailed in
    match obj_get provider_post_id official with
    | Some official_text =>
        Ok (entry (if String.eqb (resolution legacy) "canonical_url" then UrlMatched else Matched)
              (Some provider_post_id)
              (match sl_content_digest legacy with
               | Some digest => negb (String.eqb digest (sha256_hex official_text))
               | None => false
               end))
    | None => Ok (entry LegacyOnly (Some provider_post_id) false)
    end
  else Err DatabaseFailed.

(** The ids [matched_official_ids] holds after the loop. *)
Definition is_match (c : ShadowDiffClass) : bool :=
  match c with Matched | UrlMatched => true | _ => false end.
Definition matched_official_ids (found : list ShadowDiff) : list string :=
  omap (λ e, if is_match (sd_class e) then sd_provider_post_id e else None) found.

Definition classify_shadow_entries (legacy_rows : list ShadowLegacyRow)
    (official_rows : list (string * string)) : Checked (list ShadowDiff) :=
  let official := obj_extend [] official_rows in
  let? found := try_map (classify_row official) legacy_rows in
  let matched := matched_official_ids found in
  Ok (sort entry_leb
        (found ++ (official_only <$> filter (λ id, id ∉ matched) official.*1))).

Definition shadow_count (entries : list ShadowDiff) (class : ShadowDiffClass) : Z :=
  fold_left (λ count e, if decide (sd_class e = class) then Z.min u64_max (count + 1) else count) entries 0.

Definition summary_of (entries : list ShadowDiff) : ShadowSummary :=
  mkShadowSummary (shadow_count entries Matched) (shadow_count entries UrlMatched)
    (shadow_count entries LegacyOnly) (shadow_count entries OfficialOnly)
    (shadow_count entries IdentityConflict) (shadow_count entries UnmappedEntry).

Definition import_digest_of (legacy_rows : list ShadowLegacyRow) : string :=
  sha256_hex (str_join (String LF "") (row_digest <$> legacy_rows)).
Definition snapshot_digest_of (official_rows : list (string * string)) : string :=
  sha256_hex (str_join (String LF "")
    ((λ row, (row.1 +:+ ":" +:+ sha256_hex row.2)%string) <$> official_rows)).

Definition build_shadow_report (account_id import_run_id snapshot_id : Z)
    (legacy_rows : list ShadowLegacyRow) (official_rows : list (string * string)) :
    Checked ShadowReport :=
  let? entries := classify_shadow_entries legacy_rows official_rows in
  Ok (mkShadowReport 1 account_id import_run_id snapshot_id (import_digest_of legacy_rows)
        (snapshot_digest_of official_rows) entries (summary_of entries)).

(** ** The document of a report

    Members in the order of the derived [Serialize]; [report_value] is [serde_json::to_value], whose
    maps are sorted, and [report_text] is [serde_json::to_vec], which prints them as declared. *)
Definition class_name (c : ShadowDiffClass) : string :=
  match c with
  | Matched => "matched" | UrlMatched => "url_matched" | LegacyOnly => "legacy_only"
  | OfficialOnly => "official_only" | IdentityConflict => "identity_conflict"
  | UnmappedEntry => "unmapped"
  end.

Definition entry_members (e : ShadowDiff) : Members :=
  [("class", Str (class_name (sd_class e))); ("provider_post_id", opt_str (sd_provider_post_id e));
   ("legacy_record_digest", opt_str (sd_legacy_record_digest e));
   ("content_changed", Bool (sd_content_changed e));
   ("legacy_category_present", Bool (sd_legacy_category_present e));
   ("legacy_folder_present", Bool (sd_legacy_folder_present e))]%string.

Definition summary_members (s : ShadowSummary) : Members :=
  [("matched", Number (su_matched s)); ("url_matched", Number (su_url_matched s));
   ("legacy_only", Number (su_legacy_only s)); ("official_only", Number (su_official_only s));
   ("identity_conflicts", Number (su_identity_conflicts s)); ("unmapped", Number (su_unmapped s))]%string.

Definition report_members (object : Members → Value) (r : ShadowReport) : Members :=
  [("report_version", Number (report_version r)); ("account_id", Str (uuid_text (rp_account_id r)));
   ("import_run_id", Str (uuid_text (rp_import_run_id r)));
   ("snapshot_id", Str (uuid_text (rp_snapshot_id r)));
   ("import_digest", Str (rp_import_digest r)); ("snapshot_digest", Str (rp_snapshot_digest r));
   ("entries", Arr (object ∘ entry_members <$> entries r));
   ("summary", object (summary_members (summary r)))]%string.

Definition report_value (r : ShadowReport) : Value := obj (report_members obj r).
Definition report_text (r : ShadowReport) : string := json_text (Object (report_members Object r)).
Definition report_digest_of (r : ShadowReport) : string := sha256_hex (report_text r).

Definition report_summary_count (summary : Members) (field : string) : Checked Z :=
  match obj_get field summary with
  | Some (Number n) => if in_range 0 u64_max n then Ok n else Err DatabaseFailed
  | _ => Err DatabaseFailed
  end.
End Shadow.

(** ** What a report says *)

Section ShadowTheorems.
Context {ct : Contracts} {cr : Crypto}.

Lemma obj_extend_sorted {A} (m more : list (string * A)) :
  StronglySorted str_lt m.*1 → StronglySorted str_lt (obj_extend m more).*1.
Proof.
  unfold obj_extend. revert m. induction more as [|[k v] more IH]; intros m Hm; simpl; [done|].
  by apply IH, obj_insert_sorted.
Qed.

Lemma obj_get_extend {A} k (m more : list (string * A)) :
  NoDup more.*1 →
  obj_get k (obj_extend m more) =
    match obj_get k more with Some v => Some v | None => obj_get k m end.
Proof.
  unfold obj_extend. revert m. induction more as [|[k' v] more IH]; intros m Hnd; simpl; [done|].
  apply NoDup_cons in Hnd as [Hk Hnd]. rewrite IH by done. rewrite obj_get_insert.
  unfold obj_get at 3. simpl. destruct (String.eqb_spec k k') as [->|]; [|done].
  destruct (obj_get k' more) as [w|] eqn:E; [|done]. apply obj_get_Some in E.
  destruct Hk. apply list_elem_of_fmap. by exists (k', w).
Qed.

Lemma sorted_lt_nodup ks : StronglySorted str_lt ks → NoDup ks.
Proof.
  induction 1 as [|k ks _ IH Hall]; constructor; [|done]. intros Hin.
  rewrite Forall_forall in Hall. by destruct (Hall _ Hin).
Qed.

Lemma obj_get_elem {A} k (v : A) m : NoDup m.*1 → obj_get k m = Some v ↔ (k, v) ∈ m.
Proof.
  intros Hnd. split; [apply obj_get_Some|]. induction m as [|[k' v'] m IH]; [by intros ?%elem_of_nil|].
  apply NoDup_cons in Hnd as [Hk Hnd]. unfold obj_get in *. simpl.
  intros [[= <- <-]|Hin]%elem_of_cons; [by rewrite String.eqb_refl|].
  destruct (String.eqb_spec k k') as [->|]; [|by apply IH].
  destruct Hk. apply list_elem_of_fmap. by exists (k', v).
Qed.

(** The official posts as the report looks them up. *)
Lemma official_lookup id text (official : list (string * string)) :
  NoDup official.*1 → obj_get id (obj_extend [] official) = Some text ↔ (id, text) ∈ official.
Proof.
  intros Hnd. rewrite obj_get_extend by done. rewrite <-obj_get_elem by done.
  destruct (obj_get id official); [done|]. by split.
Qed.

Lemma official_ids id (official : list (string * string)) :
  NoDup official.*1 → id ∈ (obj_extend [] official).*1 ↔ id ∈ official.*1.
Proof.
  intros Hnd. assert (Hs : NoDup (obj_extend [] official).*1)
    by (apply sorted_lt_nodup, obj_extend_sorted; constructor).
  rewrite !list_elem_of_fmap. split.
  - intros ([k t] & -> & H). rewrite <-obj_get_elem, official_lookup in H by done. by exists (k, t).
  - intros ([k t] & -> & H). exists (k, t). split; [done|]. by rewrite <-obj_get_elem, official_lookup.
Qed.

(** The array holds something. *)
Definition has_values (value : Value) : Prop := ∃ v vs, value = Arr (v :: vs).

(** The resolution names a post: by its id, or by its canonical address. *)
Definition resolved (row : ShadowLegacyRow) : Prop :=
  resolution row = "provider_post"%string ∨ resolution row = "canonical_url"%string.

(** A row the comparison can classify. *)
Definition comparable (row : ShadowLegacyRow) : Prop :=
  resolution row = "identity_conflict"%string ∨ resolution row = "unmapped"%string ∨
  resolved row ∧ is_Some (sl_provider_post_id row).

(** The row's post is in the snapshot; its content changed when the row has a digest and the official text
    has another one. *)
Definition in_snapshot (official : list (string * string)) (row : ShadowLegacyRow) (e : ShadowDiff) : Prop :=
  ∃ id official_text, sl_provider_post_id row = Some id ∧ sd_provider_post_id e = Some id ∧
    (id, official_text) ∈ official ∧
    (sd_content_changed e = true ↔
       ∃ digest, sl_content_digest row = Some digest ∧ digest ≠ sha256_hex official_text).

(** [e] is the entry of [row]: its class says how the row was resolved and whether the snapshot has its
    post. *)
Record entry_for (official : list (string * string)) (row : ShadowLegacyRow) (e : ShadowDiff) : Prop := {
  ef_digest : sd_legacy_record_digest e = Some (row_digest row);
  ef_category : sd_legacy_category_present e = true ↔ has_values (category_metadata row);
  ef_folder : sd_legacy_folder_present e = true ↔ has_values (folder_metadata row);
  ef_class : match sd_class e with
    | IdentityConflict => resolution row = "identity_conflict"%string ∧
        sd_provider_post_id e = sl_provider_post_id row ∧ sd_content_changed e = false
    | UnmappedEntry => resolution row = "unmapped"%string ∧
        sd_provider_post_id e = None ∧ sd_content_changed e = false
    | Matched => resolution row = "provider_post"%string ∧ in_snapshot official row e
    | UrlMatched => resolution row = "canonical_url"%string ∧ in_snapshot official row e
    | LegacyOnly => resolved row ∧ sd_content_changed e = false ∧
        ∃ id, sl_provider_post_id row = Some id ∧ sd_provider_post_id e = Some id ∧ id ∉ official.*1
    | OfficialOnly => False
    end;
}.

Lemma json_array_has_values_iff value : json_array_has_values value = true ↔ has_values value.
Proof.
  unfold has_values. destruct value as [| | | |[|v vs]|]; simpl; split; try done; naive_solver.
Qed.

Lemma content_changed_iff (digest : option string) (text : string) :
  match digest with Some d => negb (String.eqb d (sha256_hex text)) | None => false end = true ↔
    ∃ d, digest = Some d ∧ d ≠ sha256_hex text.
Proof.
  destruct digest as [d|]; [|split; [done|by intros (? & ? & _)]].
  rewrite negb_true_iff, String.eqb_neq. naive_solver.
Qed.

(** The entry of a row; a row that has none is not comparable. *)
Lemma classify_row_spec official row :
  NoDup official.*1 →
  match classify_row (obj_extend [] official) row with
  | Ok e => comparable row ∧ entry_for official row e
  | Err e => e = DatabaseFailed ∧ ¬ comparable row
  end.
Proof.
  intros Hnd. unfold classify_row, comparable, resolved.
  destruct (String.eqb_spec (resolution row) "identity_conflict") as [Ei|Ei];
    [split; [auto|split; simpl; auto using json_array_has_values_iff]|].
  destruct (String.eqb_spec (resolution row) "unmapped") as [Eu|Eu];
    [split; [auto|split; simpl; auto using json_array_has_values_iff]|].
  destruct (String.eqb_spec (resolution row) "provider_post") as [Ep|Ep];
    [|destruct (String.eqb_spec (resolution row) "canonical_url") as [Ec|Ec]];
    [..|by split; [|intros [?|[?|[[?|?] _]]]]];
    cbn [orb]; (destruct (sl_provider_post_id row) as [id|] eqn:Eid; cbn [ok_or result_bind];
      [|split; [done|intros [?|[?|[_ []%is_Some_None]]]; done]]).
  all: destruct (obj_get id (obj_extend [] official)) as [text|] eqn:E.
  all: split; [right; right; split; [auto|done]|].
  1: rewrite Ep; change (String.eqb "provider_post" "canonical_url") with false.
  all: split; cbn -[sha256_hex]; auto using json_array_has_values_iff.
  1, 3: split; [done|]; exists id, text; split_and!; [done..|by apply official_lookup|apply content_changed_iff].
  all: split_and!; [unfold resolved; auto|done|]; exists id; split_and!; [done..|].
  all: intros ([k t] & -> & Ht)%list_elem_of_fmap; rewrite <-official_lookup in Ht by done; simpl in E; congruence.
Qed.

Lemma classify_row_Ok official row e :
  NoDup official.*1 → classify_row (obj_extend [] official) row = Ok e → entry_for official row e.
Proof. intros Hnd H. pose proof (classify_row_spec official row Hnd) as Hs. rewrite H in Hs. apply Hs. Qed.

Lemma classify_row_digest official row e :
  classify_row official row = Ok e → sd_legacy_record_digest e = Some (row_digest row).
Proof.
  unfold classify_row. repeat (case_match; [by intros [= <-]|]). case_match; [|done].
  intros (id & _ & He)%result_bind_Ok. by destruct (obj_get id official); injection He as <-.
Qed.

Lemma classify_shadow_entries_Ok rows official es :
  classify_shadow_entries rows official = Ok es →
  ∃ found, Forall2 (λ row e, classify_row (obj_extend [] official) row = Ok e) rows found ∧
    es = sort entry_leb (found ++ (official_only <$>
           filter (λ id, id ∉ matched_official_ids found) (obj_extend [] official).*1)).
Proof.
  unfold classify_shadow_entries. intros (found & H%try_map_Ok & [= <-])%result_bind_Ok. eauto.
Qed.

(** *** Order *)

Lemma opt_leb_total a b : opt_leb a b = true ∨ opt_leb b a = true.
Proof. destruct a, b; simpl; auto using str_leb_total. Qed.

Lemma opt_leb_trans a b c : opt_leb a b = true → opt_leb b c = true → opt_leb a c = true.
Proof. destruct a, b, c; simpl; try done. apply str_leb_trans. Qed.

Lemma opt_leb_antisym a b : opt_leb a b = true → opt_leb b a = true → a = b.
Proof. destruct a, b; simpl; try done. intros. f_equal. by apply str_leb_antisym. Qed.

Lemma class_rank_inj c c' : class_rank c = class_rank c' → c = c'.
Proof. by destruct c, c'. Qed.

Lemma entry_leb_total a b : entry_leb a b = true ∨ entry_leb b a = true.
Proof.
  unfold entry_leb. rewrite (Z.eqb_sym (class_rank (sd_class b))).
  destruct (Z.eqb_spec (class_rank (sd_class a)) (class_rank (sd_class b))); [|rewrite !Z.ltb_lt; lia].
  destruct (decide (sd_provider_post_id a = _)), (decide (sd_provider_post_id b = _));
    try congruence; apply opt_leb_total.
Qed.

Lemma entry_leb_trans a b c : entry_leb a b = true → entry_leb b c = true → entry_leb a c = true.
Proof.
  unfold entry_leb.
  destruct (Z.eqb_spec (class_rank (sd_class a)) (class_rank (sd_class b))) as [Eab|],
    (Z.eqb_spec (class_rank (sd_class b)) (class_rank (sd_class c))) as [Ebc|]; rewrite ?Z.ltb_lt;
    intros H1 H2; [|rewrite ?(proj2 (Z.eqb_neq (class_rank (sd_class a)) _)), ?Z.ltb_lt by lia; lia..].
  rewrite (proj2 (Z.eqb_eq _ _)) by congruence.
  destruct (decide (sd_provider_post_id a = sd_provider_post_id b)) as [Ha|],
    (decide (sd_provider_post_id b = sd_provider_post_id c)) as [Hb|],
    (decide (sd_provider_post_id a = sd_provider_post_id c)) as [Hc|]; try congruence;
    [by eapply opt_leb_trans..| |by eapply opt_leb_trans].
  exfalso. rewrite Hc in H1. by apply opt_leb_antisym in H1.
Qed.

(** Entries that compare equal have one key. *)
Lemma entry_leb_antisym a b :
  entry_leb a b = true → entry_leb b a = true →
  sd_class a = sd_class b ∧ sd_provider_post_id a = sd_provider_post_id b ∧
  sd_legacy_record_digest a = sd_legacy_record_digest b.
Proof.
  unfold entry_leb. rewrite (Z.eqb_sym (class_rank (sd_class b))).
  destruct (Z.eqb_spec (class_rank (sd_class a)) (class_rank (sd_class b))) as [E|]; [|rewrite !Z.ltb_lt; lia].
  apply class_rank_inj in E.
  destruct (decide (sd_provider_post_id a = _)) as [Ep|], (decide (sd_provider_post_id b = _)); try congruence.
  - auto using opt_leb_antisym.
  - intros H1 H2. by apply opt_leb_antisym in H1.
Qed.

(** *** Counts *)

Definition entries_of (class : ShadowDiffClass) (es : list ShadowDiff) : list ShadowDiff :=
  filter (λ e, sd_class e = class) es.

Lemma shadow_count_from es class n :
  0 ≤ n → n + Z.of_nat (length es) ≤ u64_max →
  fold_left (λ count e, if decide (sd_class e = class) then Z.min u64_max (count + 1) else count) es n =
    n + Z.of_nat (length (entries_of class es)).
Proof.
  revert n. induction es as [|e es IH]; intros n Hn Hmax; simpl in *; [lia|].
  unfold entries_of. rewrite filter_cons. destruct (decide (sd_class e = class)); simpl.
  - rewrite Z.min_r by lia. rewrite IH by lia. unfold entries_of. lia.
  - by rewrite IH by lia.
Qed.

Lemma shadow_count_value es class :
  Z.of_nat (length es) ≤ u64_max → shadow_count es class = Z.of_nat (length (entries_of class es)).
Proof. intros H. unfold shadow_count. rewrite shadow_count_from; lia. Qed.

(** *** Complete accounts *)

(** The order of a report: by class, then by post, then by the row's digest; what has none comes first. *)
Definition in_order (a b : ShadowDiff) : Prop :=
  class_rank (sd_class a) < class_rank (sd_class b) ∨
  sd_class a = sd_class b ∧
    (sd_provider_post_id a ≠ sd_provider_post_id b ∧
       opt_leb (sd_provider_post_id a) (sd_provider_post_id b) = true ∨
     sd_provider_post_id a = sd_provider_post_id b ∧
       opt_leb (sd_legacy_record_digest a) (sd_legacy_record_digest b) = true).

Definition entry_count (class : ShadowDiffClass) (es : list ShadowDiff) : Z :=
  Z.of_nat (length (entries_of class es)).

(** One entry per row, one per official post that no row matched, nothing else, in order and counted. *)
Record complete_account (rows : list ShadowLegacyRow) (official : list (string * string))
    (r : ShadowReport) : Prop := {
  ca_entries : ∃ found missing, Forall2 (entry_for official) rows found ∧ NoDup missing ∧
    (∀ id, id ∈ missing ↔ id ∈ official.*1 ∧
       ∀ e, e ∈ found → sd_class e = Matched ∨ sd_class e = UrlMatched → sd_provider_post_id e ≠ Some id) ∧
    entries r ≡ₚ found ++ ((λ id, mkShadowDiff OfficialOnly (Some id) None false false false) <$> missing);
  ca_order : StronglySorted in_order (entries r);
  ca_matched : su_matched (summary r) = entry_count Matched (entries r);
  ca_url_matched : su_url_matched (summary r) = entry_count UrlMatched (entries r);
  ca_legacy_only : su_legacy_only (summary r) = entry_count LegacyOnly (entries r);
  ca_official_only : su_official_only (summary r) = entry_count OfficialOnly (entries r);
  ca_identity_conflicts : su_identity_conflicts (summary r) = entry_count IdentityConflict (entries r);
  ca_unmapped : su_unmapped (summary r) = entry_count UnmappedEntry (entries r);
}.

Lemma entry_leb_in_order a b : entry_leb a b = true → in_order a b.
Proof.
  unfold entry_leb, in_order. destruct (Z.eqb_spec (class_rank (sd_class a)) (class_rank (sd_class b))) as [E|].
  - apply class_rank_inj in E. destruct (decide _); auto.
  - rewrite Z.ltb_lt. auto.
Qed.

Lemma elem_of_matched id found :
  id ∈ matched_official_ids found ↔
    ∃ e, e ∈ found ∧ is_match (sd_class e) = true ∧ sd_provider_post_id e = Some id.
Proof.
  unfold matched_official_ids. rewrite list_elem_of_omap. split.
  - intros (e & Hin & H). exists e. by destruct (is_match (sd_class e)).
  - intros (e & Hin & Hm & H). exists e. by rewrite Hm.
Qed.

Lemma found_row {official rows found e} :
  Forall2 (λ row e, classify_row official row = Ok e) rows found → e ∈ found →
  ∃ row, row ∈ rows ∧ classify_row official row = Ok e.
Proof.
  intros H Hin. apply list_elem_of_lookup in Hin as [i Hi].
  destruct (Forall2_lookup_r _ _ _ _ _ H Hi) as (row & Hrow & Hc). exists row.
  split; [by eapply list_elem_of_lookup_2|done].
Qed.

Lemma official_length (official : list (string * string)) :
  (length (obj_extend [] official) ≤ length official)%nat.
Proof.
  unfold obj_extend. enough (H : ∀ m : list (string * string),
    (length (fold_left (λ acc kv, obj_insert kv.1 kv.2 acc) official m) ≤ length m + length official)%nat)
    by apply (H []).
  induction official as [|[k t] rest IH]; intros m; simpl; [lia|]. rewrite IH.
  pose proof (obj_insert_length k t m). lia.
Qed.

Lemma is_match_iff class : is_match class = true ↔ class = Matched ∨ class = UrlMatched.
Proof. destruct class; simpl; naive_solver. Qed.

(** The comparison fails when a row is not comparable, and only then. *)
Lemma classify_rows_spec official rows :
  NoDup official.*1 →
  match try_map (classify_row (obj_extend [] official)) rows with
  | Ok found => Forall comparable rows ∧ Forall2 (entry_for official) rows found
  | Err e => e = DatabaseFailed ∧ ¬ Forall comparable rows
  end.
Proof.
  intros Hnd. induction rows as [|row rows IH]; simpl; [by split|].
  pose proof (classify_row_spec official row Hnd) as Hrow. destruct (classify_row _ row) as [e|e]; simpl.
  - destruct Hrow as [Hc He]. destruct (try_map _ rows) as [found|e']; simpl.
    + destruct IH. by split; constructor.
    + destruct IH as [-> Hn]. split; [done|]. by intros [_ ?]%Forall_cons.
  - destruct Hrow as [-> Hn]. split; [done|]. by intros [? _]%Forall_cons.
Qed.

(** C37. The report accounts for everything once. It exists exactly when every imported row is comparable.
    It then has one entry per row, whose class is the one the row's resolution and the snapshot call for,
    whose content is changed exactly when the two digests differ, and which says whether the row has
    categories and folders; one official-only entry per official post that no row matched; and nothing
    else. The entries are in order, and each of the six counters counts the entries of its class. *)
Theorem shadow_report_accounts_for_everything account run snapshot rows official :
  NoDup official.*1 → Z.of_nat (length rows + length official) ≤ u64_max →
  match build_shadow_report account run snapshot rows official with
  | Ok report => Forall comparable rows ∧ complete_account rows official report ∧
      (rp_account_id report, rp_import_run_id report, rp_snapshot_id report) = (account, run, snapshot)
  | Err e => e = DatabaseFailed ∧ ¬ Forall comparable rows
  end.
Proof.
  intros Hnd Hmax. unfold build_shadow_report, classify_shadow_entries.
  pose proof (classify_rows_spec official rows Hnd) as Hspec.
  destruct (try_map _ rows) as [found|e]; cbn [result_bind]; [|done].
  destruct Hspec as [Hcmp Hf]. set (missing := filter _ (obj_extend [] official).*1).
  set (all := found ++ _). assert (Hperm : sort entry_leb all ≡ₚ all) by apply sort_perm.
  assert (Hlen : Z.of_nat (length (sort entry_leb all)) ≤ u64_max).
  { rewrite Hperm. unfold all, missing. rewrite length_app, length_fmap, <-(Forall2_length _ _ _ Hf).
    pose proof (length_filter (λ id, id ∉ matched_official_ids found) (obj_extend [] official).*1) as Hm.
    rewrite length_fmap in Hm. pose proof (official_length official). lia. }
  split; [done|]. split; [|done]. split; cbn -[shadow_count]; rewrite ?shadow_count_value by done; try done.
  - exists found, missing. split_and!; [done|apply NoDup_filter, sorted_lt_nodup, obj_extend_sorted; constructor| |done].
    intros id. unfold missing. rewrite list_elem_of_filter, official_ids, elem_of_matched by done.
    setoid_rewrite is_match_iff. naive_solver.
  - eapply sorted_weaken; [apply entry_leb_in_order|].
    apply sort_sorted; [apply entry_leb_total|apply entry_leb_trans].
Qed.

(** *** Determinism *)

Lemma try_map_Err {A B E} (f : A → result B E) xs e : try_map f xs = Err e → ∃ x, x ∈ xs ∧ f x = Err e.
Proof.
  induction xs as [|x xs IH]; simpl; [done|]. destruct (f x) as [y|e'] eqn:E1; simpl.
  - destruct (try_map f xs) as [ys|e'] eqn:E2; [done|]. intros [= ->].
    destruct (IH eq_refl) as (x' & ? & ?). exists x'. split; [by right|done].
  - intros [= ->]. exists x. split; [by left|done].
Qed.

Lemma try_map_perm {A B E} (f : A → result B E) xs xs' ys :
  xs ≡ₚ xs' → try_map f xs = Ok ys → ∃ ys', try_map f xs' = Ok ys' ∧ ys ≡ₚ ys'.
Proof.
  intros Hp. setoid_rewrite try_map_Ok. intros H.
  destruct (Permutation_Forall2 Hp H) as (ys' & Hy & H'). by exists ys'.
Qed.

Lemma sorted_members {A} (m : list (string * A)) :
  StronglySorted str_lt m.*1 → StronglySorted (λ a b, str_lt a.1 b.1) m.
Proof.
  induction m as [|kv m IH]; intros H; [constructor|]. apply StronglySorted_inv in H as [H Hall].
  constructor; [by apply IH|]. change (Forall (str_lt kv.1) m.*1) in Hall.
  rewrite Forall_forall in Hall. apply Forall_forall. intros kv' Hin.
  apply Hall, list_elem_of_fmap. by exists kv'.
Qed.

(** The officials map does not depend on the order of the rows. *)
Lemma obj_extend_perm (official official' : list (string * string)) :
  NoDup official.*1 → official ≡ₚ official' → obj_extend [] official = obj_extend [] official'.
Proof.
  intros Hnd Hp. assert (Hnd' : NoDup official'.*1) by by rewrite <-Hp.
  assert (Hsort : ∀ m, StronglySorted (λ a b, str_lt a.1 b.1) (obj_extend [] (A:=string) m))
    by (intros m; apply sorted_members, obj_extend_sorted; constructor).
  assert (Hnodup : ∀ m, NoDup (obj_extend [] (A:=string) m)).
  { intros m. apply (NoDup_fmap_1 fst), sorted_lt_nodup, obj_extend_sorted. constructor. }
  apply (StronglySorted_unique_strong (λ a b, str_lt a.1 b.1)); [|apply Hsort..|].
  - intros a b _ _ [H1 N1] [H2 _]. by destruct N1; apply str_leb_antisym.
  - apply NoDup_Permutation; [apply Hnodup..|]. intros [k t].
    rewrite <-!obj_get_elem by (apply sorted_lt_nodup, obj_extend_sorted; constructor).
    rewrite !official_lookup by done. by rewrite Hp.
Qed.

Lemma classify_row_Err official row e : classify_row official row = Err e → e = DatabaseFailed.
Proof.
  unfold classify_row. repeat (case_match; [done|]). case_match; [|by intros [= <-]].
  destruct (sl_provider_post_id row); simpl; [by case_match|by intros [= <-]].
Qed.

(** The entries depend on the evidence alone: whatever the order in which the two queries return the
    imported rows and the official posts, the comparison gives the same list of entries, or fails in
    the same way. *)
Theorem shadow_entries_are_deterministic rows rows' official official' :
  rows ≡ₚ rows' → official ≡ₚ official' → NoDup official.*1 →
  (∀ r r', r ∈ rows → r' ∈ rows → row_digest r = row_digest r' → r = r') →
  classify_shadow_entries rows official = classify_shadow_entries rows' official'.
Proof.
  intros Hr Ho Hnd Hdig. unfold classify_shadow_entries. rewrite <-(obj_extend_perm _ _ Hnd Ho).
  set (om := obj_extend [] official). destruct (try_map (classify_row om) rows) as [found|e] eqn:E.
  - destruct (try_map_perm _ _ _ _ Hr E) as (found' & -> & Hp). simpl. f_equal.
    assert (Hm : ∀ id, id ∈ matched_official_ids found ↔ id ∈ matched_official_ids found').
    { intros id. rewrite !elem_of_matched. by setoid_rewrite Hp. }
    assert (Hmiss : filter (λ id, id ∉ matched_official_ids found) om.*1 =
              filter (λ id, id ∉ matched_official_ids found') om.*1).
    { apply list_filter_iff. intros id. by rewrite Hm. }
    rewrite <-Hmiss. set (missing := filter _ _). apply try_map_Ok in E.
    apply (StronglySorted_unique_strong (λ a b, entry_leb a b = true));
      [|apply sort_sorted; [apply entry_leb_total|apply entry_leb_trans]..|by rewrite !sort_perm, Hp].
    intros a b. rewrite !elem_of_sort, <-Hp, !elem_of_app, !list_elem_of_fmap.
    intros Ha Hb H1 H2. destruct (entry_leb_antisym a b H1 H2) as (Hc & Hid & Hd).
    destruct Ha as [Ha|(id & -> & _)], Hb as [Hb|(id' & -> & _)].
    + destruct (found_row E Ha) as (ra & Hra & Ea), (found_row E Hb) as (rb & Hrb & Eb).
      pose proof (classify_row_digest _ _ _ Ea) as Da. pose proof (classify_row_digest _ _ _ Eb) as Db.
      assert (ra = rb) as -> by (apply Hdig; congruence). congruence.
    + destruct (found_row E Ha) as (ra & _ & Da%classify_row_digest). by rewrite Da in Hd.
    + destruct (found_row E Hb) as (rb & _ & Db%classify_row_digest). by rewrite Db in Hd.
    + by injection Hid as ->.
  - destruct (try_map (classify_row om) rows') as [found'|e'] eqn:E'.
    + symmetry in Hr. destruct (try_map_perm _ _ _ _ Hr E') as (? & ? & _). congruence.
    + apply try_map_Err in E as (? & _ & ->%classify_row_Err), E' as (? & _ & ->%classify_row_Err). done.
Qed.
End ShadowTheorems.

(** ** A concrete comparison *)
Module ShadowSamples.
Import SampleCrypto SampleContracts.

Definition row (digest : string) (id : option string) (resolved : string) : ShadowLegacyRow :=
  mkShadowLegacyRow digest id (Some "old"%string) (Arr [Str "go"%string]) (Arr []) resolved.

Definition sample_rows : list ShadowLegacyRow :=
  [row "d1" (Some "1") "provider_post"; row "d2" (Some "2") "canonical_url";
   row "d3" (Some "9") "provider_post"; row "d4" (Some "4") "identity_conflict";
   row "d5" None "unmapped"]%string.
Definition sample_official : list (string * string) :=
  [("1", "one"); ("2", "two"); ("3", "three")]%string.

Definition sample_report : ShadowReport :=
  match build_shadow_report 1 2 3 sample_rows sample_official with
  | Ok report => report
  | Err _ => mkShadowReport 0 0 0 0 "" "" [] (mkShadowSummary 0 0 0 0 0 0)
  end.

Example sample_summary : summary sample_report = mkShadowSummary 1 1 1 1 1 1.
Proof. vm_compute. reflexivity. Qed.

Lemma sample_official_ids : NoDup sample_official.*1.
Proof. apply NoDup_ListNoDup. repeat constructor; simpl; intuition discriminate. Qed.

(** The five rows and three posts give a report with one entry of each class; a row whose resolution is
    unknown leaves none. *)
Lemma shadow_report_accounts_for_everything_witness :
  complete_account sample_rows sample_official sample_report ∧
  ((λ e, (sd_class e, sd_provider_post_id e, sd_content_changed e)) <$> entries sample_report =
    [(Matched, Some "1", true); (UrlMatched, Some "2", true); (LegacyOnly, Some "9", false);
     (OfficialOnly, Some "3", false); (IdentityConflict, Some "4", false); (UnmappedEntry, None, false)])%string ∧
  ¬ Forall comparable (row "d6" None "provider_post" :: sample_rows).
Proof.
  assert (Hu : Z.of_nat (length (row "d6" None "provider_post" :: sample_rows) + length sample_official)%nat ≤ u64_max)
    by (vm_compute; discriminate).
  split; [|split; [vm_compute; reflexivity|]].
  - exact (proj1 (proj2 (shadow_report_accounts_for_everything 1 2 3 sample_rows sample_official
      sample_official_ids ltac:(vm_compute; discriminate)))).
  - exact (proj2 (shadow_report_accounts_for_everything 1 2 3 (row "d6" None "provider_post" :: sample_rows)
      sample_official sample_official_ids Hu)).
Defined.

Lemma sample_digests_identify_rows r r' :
  r ∈ sample_rows → r' ∈ sample_rows → row_digest r = row_digest r' → r = r'.
Proof.
  unfold sample_rows. rewrite !elem_of_cons, !elem_of_nil.
  intros Hr Hr'. repeat destruct Hr as [->|Hr]; repeat destruct Hr' as [->|Hr']; done.
Qed.

Lemma shadow_entries_are_deterministic_witness :
  classify_shadow_entries sample_rows sample_official =
    classify_shadow_entries (reverse sample_rows) (reverse sample_official).
Proof.
  apply (shadow_entries_are_deterministic sample_rows (reverse sample_rows) sample_official
           (reverse sample_official)).
  - symmetry. apply reverse_Permutation.
  - symmetry. apply reverse_Permutation.
  - exact sample_official_ids.
  - exact sample_digests_identify_rows.
Defined.
End ShadowSamples.
