(* ===== verification/LegacyTransition.v ===== *)
(** * The legacy transition ([crates/x-sync/src/legacy_transition/{imports,service}.rs])

    The operator's workflow over the owned database: importing a preflighted batch for an approved
    account whose provider identity is the connected one, comparing the imported evidence with the
    account's authoritative snapshot, and recording owner decisions on the resulting checklist. The
    identity lookup is an interface ([CurrentAccountIdentity]); the official adapter of
    [legacy_transition.rs] is its instance here. *)
From S2P Require Export Connection Snapshot LegacyShadow.

(** ** Data of [legacy_transition.rs] *)

Inductive LegacyResolution := ProviderPost | UrlDerivedPost | ConflictingPost | UnmappedPost.

Record ImportCounts := mkImportCounts {
  ic_inserted : Z;
  ic_matched : Z;
  ic_updated : Z;
  ic_conflicted : Z;
  ic_rejected : Z;
  ic_unmapped : Z;
}.
Definition no_counts : ImportCounts := mkImportCounts 0 0 0 0 0 0.

Record OwnershipApproval := mkOwnershipApproval {
  oa_account_id : Z;
  oa_internal_owner_id : Z;
  oa_source_digest : string;
  oa_approval_digest : string;
}.

Record ImportOutcome := mkImportOutcome { io_run_id : Z; io_counts : ImportCounts; io_reused : bool }.

Record ShadowReportOutcome := mkShadowReportOutcome {
  so_report_id : Z;
  so_report_digest : string;
  so_report : ShadowReport;
  so_reused : bool;
}.

Record ChecklistOutcome := mkChecklistOutcome {
  co_markdown : string;
  co_checklist_digest : string;
  co_shadow_report_id : Z;
}.

Inductive ApprovalDecision := Approved | Rejected.

Record TransitionApprovalRequest := mkTransitionApprovalRequest {
  tr_account_id : Z;
  tr_internal_owner_id : Z;
  tr_shadow_report_id : Z;
  tr_checklist_digest : string;
  tr_owner_evidence_digest : string;
  tr_decision : ApprovalDecision;
  tr_decided_at : Z;
}.

Record TransitionApprovalOutcome := mkTransitionApprovalOutcome {
  ao_approval_id : Z;
  ao_reused : bool;
}.

(** ** The current identity of an account *)

(** [CurrentAccountIdentity]: who the account's credential authenticates now. *)
Class CurrentAccountIdentity := {
  provider_user_id : Z → Prog LegacyTransitionError string;
}.

(** What the service relies on: a lookup does not write. *)
Class ReadOnlyIdentity `{CurrentAccountIdentity} : Prop := {
  identity_reads env (R : relation Db) account : PreOrder R →
    rely (Ev:=Event) env (on_db R) → guar env (on_db R) (provider_user_id account);
}.

(** A response of [/2/users/me]: its body arrives in chunks, and reading may break after them. *)
Record IdentityResponse := mkIdentityResponse {
  ir_status : Z;
  ir_content_length : option Z;
  ir_chunks : list string;
  ir_broken : bool;
}.

Class IdentityHttp := {
  identity_answer_at : nat → option IdentityResponse;   (* [send]: [None] is a transport failure *)
  json_from_slice : string → option Value;              (* [serde_json::from_slice::<Value>] *)
}.

Record OfficialCurrentAccountIdentity := mkOfficialIdentity {
  oi_cipher : TokenCipher;
  oi_base_url : string;
  oi_http_ready : bool;
}.

(** [OfficialCurrentAccountIdentity::new]: [client_ready] says whether the client could be built. *)
Definition new_official_identity (cipher : TokenCipher) (base_url : string) (client_ready : bool) :
    OfficialCurrentAccountIdentity :=
  mkOfficialIdentity cipher (trim_end_char "/" base_url) client_ready.

Definition IDENTITY_BODY_LIMIT : Z := 64 * 1024.

Fixpoint identity_body (body : string) (chunks : list string) (broken : bool) : Checked string :=
  match chunks with
  | [] => if broken then Err CurrentIdentityUnavailable else Ok body
  | chunk :: chunks =>
      if IDENTITY_BODY_LIMIT <? Z.of_nat (String.length body) + Z.of_nat (String.length chunk)
      then Err CurrentIdentityUnavailable
      else identity_body (body +:+ chunk) chunks broken
  end.

(** [value.pointer("/data/id").and_then(Value::as_str)]. *)
Definition data_id (value : Value) : option string :=
  match value with
  | Object members =>
      match obj_get "data" members with
      | Some (Object data) => match obj_get "id" data with Some (Str id) => Some id | _ => None end
      | _ => None
      end
  | _ => None
  end.

Section Identity.
Context {cr : Crypto} {http : IdentityHttp}.

Definition identity_of_response (response : IdentityResponse) : Checked string :=
  if negb (is_success (ir_status response)) ||
     match ir_content_length response with
     | Some length => IDENTITY_BODY_LIMIT <? length
     | None => false
     end
  then Err CurrentIdentityUnavailable
  else
    let? body := identity_body "" (ir_chunks response) (ir_broken response) in
    ok_or ((json_from_slice body ≫= data_id) ≫= nonempty) CurrentIdentityUnavailable.

(** The newest active credential of a connected account. *)
Definition identity_credential (account : Z) (d : Db) : option (string * list string) :=
  row ← accounts d !! account;
  '(_, credential) ← newest_credential (is_active_of account) d;
  if String.eqb (acc_state row) "connected"
  then Some (crd_encrypted_payload credential, crd_granted_scopes credential) else None.

Definition opened_identity (identity : OfficialCurrentAccountIdentity) (account : Z)
    (credential : option (string * list string)) : Checked CredentialPayload :=
  let? stored := ok_or credential CurrentIdentityUnavailable in
  let '(encrypted, scopes) := stored in
  if negb (existsb (String.eqb "users.read") scopes) then Err CurrentIdentityUnavailable
  else
    let? plaintext := result_map_err (λ _, CurrentIdentityUnavailable)
                        (open (oi_cipher identity) account Credential encrypted) in
    ok_or (payload_decode plaintext) CurrentIdentityUnavailable.

(** [current_provider_user_id]. *)
Definition current_provider_user_id (identity : OfficialCurrentAccountIdentity) (account : Z) :
    Prog LegacyTransitionError string :=
  let! stored := on_pool (select CurrentIdentityUnavailable (identity_credential account)) in
  let! credential := of_result (opened_identity identity account stored) in
  if negb (oi_http_ready identity) then throw CurrentIdentityUnavailable
  else
    let! answer := call (GetBearer (oi_base_url identity +:+ "/2/users/me") (access_token credential))
                     identity_answer_at in
    let! response := of_result (ok_or answer CurrentIdentityUnavailable) in
    of_result (identity_of_response response).

Definition official_identity (identity : OfficialCurrentAccountIdentity) : CurrentAccountIdentity :=
  {| provider_user_id := current_provider_user_id identity |}.
End Identity.

(** ** Importing *)

(** [length] of a text column counts characters. *)
Fixpoint char_count (s : string) : Z :=
  match s with
  | EmptyString => 0
  | String c s' => (if continuation c then 0 else 1) + char_count s'
  end.

Definition valid_import_post_id (value : string) : bool :=
  negb (String.eqb value "") && (Z.of_nat (String.length value) <=? 19) && all_chars is_ascii_digit value.

Definition valid_id (value : option string) : option string :=
  match value with Some id => if valid_import_post_id id then Some id else None | None => None end.

(** [resolve_record_identity]: the resolution, the resolved id, and the conflicting one. *)
Definition resolve_record_identity (record : LegacyRecord) :
    LegacyResolution * option string * option string :=
  match valid_id (provider_post_id record), valid_id (url_provider_post_id record) with
  | Some explicit, Some from_url =>
      if negb (String.eqb explicit from_url) then (ConflictingPost, None, Some from_url)
      else (ProviderPost, Some explicit, None)
  | Some explicit, None => (ProviderPost, Some explicit, None)
  | None, Some from_url => (UrlDerivedPost, Some from_url, None)
  | None, None => (UnmappedPost, None, None)
  end.

Definition resolution_database_value (resolution : LegacyResolution) : string :=
  match resolution with
  | ProviderPost => "provider_post"
  | UrlDerivedPost => "canonical_url"
  | ConflictingPost => "identity_conflict"
  | UnmappedPost => "unmapped"
  end.

Definition source_database_identity (batch : PreflightBatch) : Checked (string * Z) :=
  match source_kind batch, source_version batch with
  | MonolithBookmarkMetadataCsv, MonolithBookmarkMetadata => Ok ("monolith_csv"%string, 1)
  | FieldTheoryJsonl, FieldTheoryJsonl1 => Ok ("field_theory_jsonl"%string, 1)
  | FieldTheorySqlite, FieldTheorySqlite6 => Ok ("field_theory_sqlite"%string, 6)
  | _, _ => Err UnsupportedSourceVersion
  end.

Definition bounded_count (value : Z) : Checked Z := ok_or (i32_try_from value) DatabaseFailed.
Definition nonnegative_count (value : Z) : Checked Z :=
  if value <? 0 then Err DatabaseFailed else Ok value.

Definition LEGACY_IMPORT : string := "legacy-import".

(** The owner, provider identity and state of an account. *)
Definition account_identity (account : Z) (d : Db) : option (Z * string * string) :=
  row ← accounts d !! account;
  Some (acc_internal_user_id row, acc_provider_user_id row, acc_state row).

(** [validate_locked_import_account]. *)
Definition validate_locked_import_account (approval : OwnershipApproval)
    (verified_provider_user_id : string) : Prog LegacyTransitionError unit :=
  let! locked := select DatabaseFailed (account_identity (oa_account_id approval)) in
  match locked with
  | None => throw TargetAccountNotFound
  | Some (owner, provider_user, state) =>
      if negb (owner =? oa_internal_owner_id approval) then throw InvalidOwnershipApproval
      else if negb (String.eqb state "connected") then throw TargetAccountNotConnected
      else if negb (String.eqb provider_user verified_provider_user_id)
      then throw CurrentIdentityMismatch
      else ret tt
  end.

(** *** Posts *)

Definition imported_post (id : Z) (record : LegacyRecord) : PostRow :=
  mkPostRow id None (text record) None [] None (posted_at record) None None
    [None; None; None; None; None; None] IMPORTER_PARSER_VERSION LEGACY_IMPORT "unknown".

Definition insert_imported_post (id : Z) (provider_id : string) (record : LegacyRecord) (d : Db) :
    option (Z * Db) :=
  match posts d !! provider_id, post_by_id id d with
  | None, None => Some (id, on_posts (insert provider_id (imported_post id record)) d)
  | _, _ => None
  end.

Definition reimported (record : LegacyRecord) (row : PostRow) : PostRow :=
  mkPostRow (pst_id row) (pst_author_user_id row) (text record) (pst_long_text row)
    (pst_expanded_urls row) (pst_language row) (posted_at record) (pst_edited_at row)
    (pst_conversation_provider_id row) (pst_metrics row) IMPORTER_PARSER_VERSION
    (pst_normalization_provenance row) "unknown".

Definition is_legacy (row : PostRow) : bool :=
  String.eqb (pst_normalization_provenance row) LEGACY_IMPORT.

Definition update_imported_post (post_id : Z) (record : LegacyRecord) (d : Db) : Db :=
  on_posts (fmap (λ row, if (pst_id row =? post_id) && is_legacy row
                         then reimported record row else row)) d.

Definition count_inserted (c : ImportCounts) : ImportCounts :=
  mkImportCounts (ic_inserted c + 1) (ic_matched c) (ic_updated c) (ic_conflicted c) (ic_rejected c)
    (ic_unmapped c).
Definition count_matched (c : ImportCounts) : ImportCounts :=
  mkImportCounts (ic_inserted c) (ic_matched c + 1) (ic_updated c) (ic_conflicted c) (ic_rejected c)
    (ic_unmapped c).
Definition count_updated (c : ImportCounts) : ImportCounts :=
  mkImportCounts (ic_inserted c) (ic_matched c) (ic_updated c + 1) (ic_conflicted c) (ic_rejected c)
    (ic_unmapped c).
Definition count_unresolved (resolution : LegacyResolution) (c : ImportCounts) : ImportCounts :=
  match resolution with
  | ConflictingPost =>
      mkImportCounts (ic_inserted c) (ic_matched c) (ic_updated c) (ic_conflicted c + 1)
        (ic_rejected c) (ic_unmapped c)
  | UnmappedPost =>
      mkImportCounts (ic_inserted c) (ic_matched c) (ic_updated c) (ic_conflicted c) (ic_rejected c)
        (ic_unmapped c + 1)
  | ProviderPost | UrlDerivedPost => c
  end.

(** Whether the record changes a row that an earlier import wrote. *)
Definition supersedes (record : LegacyRecord) (row : PostRow) : bool :=
  is_legacy row && (negb (String.eqb (pst_text row) (text record)) ||
                    negb (bool_decide (pst_published_at row = posted_at record))).

(** [upsert_imported_post]: the post's id, and what is counted. *)
Definition upsert_imported_post (provider_id : string) (record : LegacyRecord) :
    Prog LegacyTransitionError (Z * (ImportCounts → ImportCounts)) :=
  let! existing := select DatabaseFailed (λ d, posts d !! provider_id) in
  match existing with
  | None =>
      let! fresh := new_uuid in
      let! post_id := stmt DatabaseFailed (insert_imported_post fresh provider_id record) in
      ret (post_id, count_inserted)
  | Some row =>
      if supersedes record row then
        do! execute DatabaseFailed (update_imported_post (pst_id row) record) in
        ret (pst_id row, count_updated)
      else ret (pst_id row, count_matched)
  end.

Section Imports.
Context {cr : Crypto}.

(** *** Items *)

Definition folder_metadata_of (record : LegacyRecord) : Value :=
  Arr (((λ id, obj [("id"%string, Str id)]) <$> folder_ids record) ++
       ((λ name, obj [("name"%string, Str name)]) <$> folder_names record)).

(** The id an item names: the resolved one, or a valid explicit one. *)
Definition item_post_id (resolved : option string) (record : LegacyRecord) : option string :=
  match resolved with Some id => Some id | None => valid_id (provider_post_id record) end.

Definition import_item (resolution : LegacyResolution) (resolved conflicting : option string)
    (post_id : option Z) (record : LegacyRecord) : ImportItem :=
  mkImportItem (record_digest record) (item_post_id resolved record) conflicting post_id
    (canonical_url_digest record) (Some (sha256_hex (text record))) (bookmarked_at record)
    (Some (synced_at record)) (Arr (Str <$> categories record)) (folder_metadata_of record) false
    (resolution_database_value resolution) LEGACY_IMPORT.

Definition opt_check (p : string → bool) (value : option string) : bool :=
  match value with Some v => p v | None => true end.

(** The checks and references of [legacy_import_items]. *)
Definition item_accepted (run_id : Z) (key : string) (item : ImportItem) (d : Db) : bool :=
  in_range 1 256 (char_count key) &&
  valid_sha256 (li_source_row_digest item) &&
  opt_check valid_import_post_id (li_provider_post_id item) &&
  opt_check valid_import_post_id (li_conflicting_provider_post_id item) &&
  opt_check valid_sha256 (li_canonical_url_digest item) &&
  opt_check valid_sha256 (li_content_digest item) &&
  bool_decide (is_Some (legacy_import_runs d !! run_id)) &&
  match li_post_id item with
  | Some id => bool_decide (is_Some (post_by_id id d)) && bool_decide (is_Some (li_provider_post_id item))
  | None => true
  end &&
  Bool.eqb (String.eqb (li_resolution item) "identity_conflict")
    (bool_decide (is_Some (li_conflicting_provider_post_id item))).

Definition insert_item (run_id : Z) (key : string) (item : ImportItem) (d : Db) : option (unit * Db) :=
  if item_accepted run_id key item d then
    table ← insert_new (run_id, key) item (legacy_import_items d);
    Some (tt, on_legacy_import_items (λ _, table) d)
  else None.

(** One turn of [persist_import_records]. *)
Definition persist_import_record (run_id : Z) (counts : ImportCounts) (record : LegacyRecord) :
    Prog LegacyTransitionError ImportCounts :=
  let '(resolution, resolved, conflicting) := resolve_record_identity record in
  let! (post_id, counts) :=
    match resolved with
    | Some provider_id =>
        let! (post_id, count) := upsert_imported_post provider_id record in
        ret (Some post_id, count counts)
    | None => ret (None, count_unresolved resolution counts)
    end in
  do! stmt DatabaseFailed (insert_item run_id (source_record_key record)
        (import_item resolution resolved conflicting post_id record)) in
  ret counts.

(** [persist_import_records]. *)
Definition persist_import_records (run_id : Z) (records : list LegacyRecord) :
    Prog LegacyTransitionError ImportCounts :=
  fold_m (persist_import_record run_id) no_counts records.

(** *** Runs *)

Definition is_run_of (account : Z) (kind : string) (version : Z) (digest : string) (row : ImportRun) :
    bool :=
  (lr_account_id row =? account) && String.eqb (lr_source_kind row) kind &&
  (lr_source_version row =? version) && String.eqb (lr_source_digest row) digest &&
  (lr_importer_parser_version row =? IMPORTER_PARSER_VERSION).

Definition existing_run (account : Z) (kind : string) (version : Z) (digest : string) (d : Db) :
    option (Z * ImportRun) :=
  find_row (λ _ row, is_run_of account kind version digest row) (legacy_import_runs d).

Definition running_import (approval : OwnershipApproval) (kind : string) (version : Z)
    (digest : string) : ImportRun :=
  mkImportRun (oa_account_id approval) kind version digest IMPORTER_PARSER_VERSION
    (oa_approval_digest approval) "running" 0 0 0 0 0 0 None.

(** The digests are checked by the schema, and the source is unique per account. *)
Definition insert_import_run (id : Z) (row : ImportRun) (d : Db) : option (Z * Db) :=
  if valid_sha256 (lr_source_digest row) && valid_sha256 (lr_ownership_approval_digest row) &&
     bool_decide (is_Some (accounts d !! lr_account_id row)) &&
     bool_decide (existing_run (lr_account_id row) (lr_source_kind row) (lr_source_version row)
                    (lr_source_digest row) d = None)
  then
    table ← insert_new id row (legacy_import_runs d);
    Some (id, on_legacy_import_runs (λ _, table) d)
  else None.

Definition completed_import (counts : ImportCounts) (now : Z) (row : ImportRun) : ImportRun :=
  mkImportRun (lr_account_id row) (lr_source_kind row) (lr_source_version row) (lr_source_digest row)
    (lr_importer_parser_version row) (lr_ownership_approval_digest row) "completed"
    (ic_inserted counts) (ic_matched counts) (ic_updated counts) (ic_conflicted counts)
    (ic_rejected counts) (ic_unmapped counts) (Some now).

(** [bounded_count] of every column, in the order they are bound. *)
Definition bounded_counts (counts : ImportCounts) : Checked ImportCounts :=
  let? inserted := bounded_count (ic_inserted counts) in
  let? matched := bounded_count (ic_matched counts) in
  let? updated := bounded_count (ic_updated counts) in
  let? conflicted := bounded_count (ic_conflicted counts) in
  let? rejected := bounded_count (ic_rejected counts) in
  let? unmapped := bounded_count (ic_unmapped counts) in
  Ok (mkImportCounts inserted matched updated conflicted rejected unmapped).

Definition stored_counts (row : ImportRun) : Checked ImportCounts :=
  let? inserted := nonnegative_count (lr_inserted_count row) in
  let? matched := nonnegative_count (lr_matched_count row) in
  let? updated := nonnegative_count (lr_updated_count row) in
  let? conflicted := nonnegative_count (lr_conflicted_count row) in
  let? rejected := nonnegative_count (lr_rejected_count row) in
  let? unmapped := nonnegative_count (lr_unmapped_count row) in
  Ok (mkImportCounts inserted matched updated conflicted rejected unmapped).

(** How the transaction of [persist_import] ends: with an earlier run, or with this one. *)
Inductive ImportEnd := ReusedRun (run_id : Z) (row : ImportRun) | FreshRun (outcome : ImportOutcome).

Definition import_body (batch : PreflightBatch) (approval : OwnershipApproval)
    (verified_provider_user_id : string) : Prog LegacyTransitionError (ending ImportEnd) :=
  do! validate_locked_import_account approval verified_provider_user_id in
  let! (kind, version) := of_result (source_database_identity batch) in
  let! existing := select DatabaseFailed
                     (existing_run (oa_account_id approval) kind version (source_digest batch)) in
  match existing with
  | Some (run_id, row) =>
      if String.eqb (lr_status row) "completed" then ret (Commit (ReusedRun run_id row))
      else throw DatabaseFailed
  | None =>
      let! fresh := new_uuid in
      let! run_id := stmt DatabaseFailed (insert_import_run fresh
                       (running_import approval kind version (source_digest batch))) in
      let! counts := persist_import_records run_id (records batch) in
      let! bounded := of_result (bounded_counts counts) in
      let! now := pg_now in
      do! execute DatabaseFailed (on_legacy_import_runs (alter (completed_import bounded now) run_id)) in
      ret (Commit (FreshRun (mkImportOutcome run_id counts false)))
  end.

(** [persist_import]. *)
Definition persist_import (batch : PreflightBatch) (approval : OwnershipApproval)
    (verified_provider_user_id : string) : Prog LegacyTransitionError ImportOutcome :=
  let! ended := transaction DatabaseFailed (import_body batch approval verified_provider_user_id) in
  match ended with
  | FreshRun outcome => ret outcome
  | ReusedRun run_id row =>
      let! counts := of_result (stored_counts row) in ret (mkImportOutcome run_id counts true)
  end.

(** The refusals of [import_batch] before it asks for the current identity. *)
Definition approved_batch (batch : PreflightBatch) (approval : option OwnershipApproval) :
    Checked OwnershipApproval :=
  let? approval := ok_or approval MissingOwnershipApproval in
  if negb (String.eqb (oa_source_digest approval) (source_digest batch)) ||
     negb (valid_sha256 (oa_approval_digest approval))
  then Err InvalidOwnershipApproval
  else Ok approval.

(** [import_batch]. *)
Definition import_batch {id : CurrentAccountIdentity} (batch : PreflightBatch)
    (approval : option OwnershipApproval) : Prog LegacyTransitionError ImportOutcome :=
  let! approval := of_result (approved_batch batch approval) in
  let! account := on_pool (select DatabaseFailed (account_identity (oa_account_id approval))) in
  match account with
  | None => throw TargetAccountNotFound
  | Some (owner, stored_provider_user_id, state) =>
      if negb (owner =? oa_internal_owner_id approval) then throw InvalidOwnershipApproval
      else if negb (String.eqb state "connected") then throw TargetAccountNotConnected
      else
        let! current := provider_user_id (oa_account_id approval) in
        if negb (String.eqb current stored_provider_user_id) then throw CurrentIdentityMismatch
        else persist_import batch approval stored_provider_user_id
  end.
End Imports.

(** ** What an import does to the posts *)

(** How an import leaves a post it finds: nothing of its identity changes. *)
Definition same_post (row row' : PostRow) : Prop :=
  pst_id row' = pst_id row ∧ pst_author_user_id row' = pst_author_user_id row ∧
  pst_normalization_provenance row' = pst_normalization_provenance row ∧
  (pst_availability row' = pst_availability row ∨ pst_availability row' = "unknown"%string).

#[export] Instance same_post_preorder : PreOrder same_post.
Proof.
  unfold same_post. split; [intros r; tauto|].
  intros r1 r2 r3 (-> & -> & -> & Ha) (-> & -> & -> & [->| ->]); auto.
Qed.

(** [n] imported posts are new; a post normalized from the official provider is untouched, and no
    post changes its id, its author or where it came from. *)
Record posts_imported (n : Z) (p p' : gmap string PostRow) : Prop := {
  pi_official pid row : p !! pid = Some row → is_legacy row = false → p' !! pid = Some row;
  pi_kept pid row : p !! pid = Some row → ∃ row', p' !! pid = Some row' ∧ same_post row row';
  pi_new pid row' : p !! pid = None → p' !! pid = Some row' →
    is_legacy row' = true ∧ pst_availability row' = "unknown"%string ∧ pst_author_user_id row' = None;
  pi_size : Z.of_nat (size p') = Z.of_nat (size p) + n;
}.

Lemma posts_imported_refl p : posts_imported 0 p p.
Proof. split; [done|by intros pid row Hp; exists row|by intros ?? ->|lia]. Qed.

Lemma posts_imported_trans n m p1 p2 p3 :
  posts_imported n p1 p2 → posts_imported m p2 p3 → posts_imported (n + m) p1 p3.
Proof.
  intros [O1 K1 N1 S1] [O2 K2 N2 S2]. split.
  - intros pid row Hp Hl. apply O2; auto.
  - intros pid row Hp. destruct (K1 pid row Hp) as (r1 & Hr1 & H1).
    destruct (K2 pid r1 Hr1) as (r2 & Hr2 & H2). exists r2. split; [done|by etrans].
  - intros pid row Hp Hp3. destruct (p2 !! pid) as [r2|] eqn:E2; [|by eapply N2].
    destruct (N1 pid r2 Hp E2) as (Hl & Ha & Hn).
    destruct (K2 pid r2 E2) as (r3 & Hr3 & (_ & Hau & Hpr & Hav)). rewrite Hp3 in Hr3. injection Hr3 as <-.
    unfold is_legacy in *. rewrite Hpr, Hau. split_and!; try done. destruct Hav; congruence.
  - lia.
Qed.

Lemma insert_imported_post_Some id pid record d post_id d' :
  insert_imported_post id pid record d = Some (post_id, d') →
  post_id = id ∧ post_by_id id d = None ∧ posts d !! pid = None ∧ d' = on_posts (insert pid (imported_post id record)) d.
Proof.
  unfold insert_imported_post. destruct (posts d !! pid), (post_by_id id d) eqn:?; try done.
  by intros [= <- <-].
Qed.

Lemma insert_imported id pid record p :
  p !! pid = None → posts_imported 1 p (<[pid := imported_post id record]> p).
Proof.
  intros Hn. split.
  - intros q row Hq _. by rewrite lookup_insert_ne by congruence.
  - intros q row Hq. exists row. by rewrite lookup_insert_ne by congruence.
  - by intros q row' Hq [[<- <-]|[_ ?]]%lookup_insert_Some; [|congruence].
  - rewrite map_size_insert_None by done. lia.
Qed.

Lemma update_imported post_id record p :
  posts_imported 0 p ((λ row, if (pst_id row =? post_id) && is_legacy row then reimported record row else row) <$> p).
Proof.
  split.
  - intros pid row Hp Hl. rewrite lookup_fmap, Hp. simpl. by rewrite Hl, andb_false_r.
  - intros pid row Hp. eexists. rewrite lookup_fmap, Hp. split; [done|].
    destruct (_ && _); [|done]. unfold same_post. simpl. tauto.
  - intros pid row Hp. by rewrite lookup_fmap, Hp.
  - rewrite map_size_fmap. lia.
Qed.

(** ** What an import does *)

(** Every table but the three an import writes. *)
Definition outside_import (d : Db) : Db :=
  on_posts (λ _, ∅) (on_legacy_import_runs (λ _, ∅) (on_legacy_import_items (λ _, ∅) d)).

Definition total (c : ImportCounts) : Z :=
  ic_inserted c + ic_matched c + ic_updated c + ic_conflicted c + ic_rejected c + ic_unmapped c.

Definition resolution_of (record : LegacyRecord) : LegacyResolution :=
  (resolve_record_identity record).1.1.
Definition is_conflict (record : LegacyRecord) : bool :=
  match resolution_of record with ConflictingPost => true | _ => false end.
Definition is_unmapped (record : LegacyRecord) : bool :=
  match resolution_of record with UnmappedPost => true | _ => false end.

(** The counts say what happened to the records. *)
Record counts_of (rs : list LegacyRecord) (c : ImportCounts) : Prop := {
  cn_inserted : 0 ≤ ic_inserted c;
  cn_matched : 0 ≤ ic_matched c;
  cn_updated : 0 ≤ ic_updated c;
  cn_conflicted : ic_conflicted c = Z.of_nat (length (List.filter is_conflict rs));
  cn_rejected : ic_rejected c = 0;
  cn_unmapped : ic_unmapped c = Z.of_nat (length (List.filter is_unmapped rs));
  cn_total : total c = Z.of_nat (length rs);
}.

Lemma resolved_class record :
  let '(resolution, resolved, conflicting) := resolve_record_identity record in
  resolution_of record = resolution ∧
  (is_Some resolved ↔ is_conflict record = false ∧ is_unmapped record = false) ∧
  (is_Some conflicting ↔ is_conflict record = true).
Proof.
  unfold is_conflict, is_unmapped, resolution_of, resolve_record_identity.
  destruct (valid_id (provider_post_id record)) as [a|], (valid_id (url_provider_post_id record)) as [b|];
    [destruct (String.eqb a b)|..]; simpl; split_and!; try done;
    split; try done; try (by intros [? ?]); try (by intros [? [=]]).
Qed.

(** A record that resolves to a post is counted once, by what its upsert did. *)
Inductive post_counted : Z → (ImportCounts → ImportCounts) → Prop :=
  | counted_inserted : post_counted 1 count_inserted
  | counted_matched : post_counted 0 count_matched
  | counted_updated : post_counted 0 count_updated.

Lemma counts_resolved n count rs r c :
  post_counted n count → is_conflict r = false → is_unmapped r = false →
  counts_of rs c → counts_of (rs ++ [r]) (count c) ∧ ic_inserted (count c) = ic_inserted c + n.
Proof.
  intros Hn Hc Hu [H1 H2 H3 H4 H5 H6 H7]. unfold total in H7.
  destruct Hn; simpl; (split; [|lia]); (split; simpl;
    rewrite ?List.filter_app, ?length_app; simpl; rewrite ?Hc, ?Hu; simpl; unfold total; simpl; lia).
Qed.

Lemma counts_unresolved resolution resolved conflicting rs r c :
  resolve_record_identity r = (resolution, resolved, conflicting) → resolved = None →
  counts_of rs c →
  counts_of (rs ++ [r]) (count_unresolved resolution c) ∧
  ic_inserted (count_unresolved resolution c) = ic_inserted c.
Proof.
  intros Hr -> [H1 H2 H3 H4 H5 H6 H7]. unfold total in H7. pose proof (resolved_class r) as H.
  rewrite Hr in H. destruct H as (Hres & Hsome & _).
  assert (Hcase : is_conflict r = true ∨ is_unmapped r = true).
  { destruct (is_conflict r), (is_unmapped r); auto. by destruct Hsome as [_ [? ?]]. }
  assert (Hc : is_conflict r = match resolution with ConflictingPost => true | _ => false end)
    by (unfold is_conflict; by rewrite Hres).
  assert (Hu : is_unmapped r = match resolution with UnmappedPost => true | _ => false end)
    by (unfold is_unmapped; by rewrite Hres).
  rewrite Hc, Hu in Hcase. destruct resolution; [by destruct Hcase|by destruct Hcase|..];
    simpl; (split; [|done]); (split; simpl; rewrite ?List.filter_app, ?length_app; simpl;
      rewrite ?Hc, ?Hu; unfold total; simpl; lia).
Qed.

(** *** What becomes of each post

    Independently of the statements: a record that names a post makes it new, changes what an earlier
    import or an earlier record left of it, or finds it as it is. *)
Definition resolved_id (record : LegacyRecord) : option string := (resolve_record_identity record).1.2.
Definition records_for (pid : string) (rs : list LegacyRecord) : list LegacyRecord :=
  List.filter (λ r, bool_decide (resolved_id r = Some pid)) rs.

(** What a record says of its post, and what a row holds of it. *)
Definition said (r : LegacyRecord) : string * option Z := (text r, posted_at r).
Definition held (row : PostRow) : string * option Z := (pst_text row, pst_published_at row).
Definition from_import (row : PostRow) : Prop := pst_normalization_provenance row = "legacy-import"%string.
#[export] Instance from_import_dec row : Decision (from_import row).
Proof. unfold from_import. apply _. Defined.

(** The members an import never writes on a post it finds. *)
Definition other_members (row : PostRow) :=
  (pst_id row, pst_author_user_id row, pst_long_text row, pst_expanded_urls row, pst_language row,
   pst_edited_at row, pst_conversation_provider_id row, pst_metrics row).
Definition no_members (id : Z) :=
  (id, None : option Z, None : option string, [] : list string, None : option string, None : option Z,
   None : option string, replicate 6 (None : option Z)).

(** The row carries what the record says, as an import stores it. *)
Definition written_from (r : LegacyRecord) (row : PostRow) : Prop :=
  held row = said r ∧ from_import row ∧ pst_availability row = "unknown"%string ∧
  pst_parser_version row = IMPORTER_PARSER_VERSION.

(** One post after the records [rs], by the last record that names it. *)
Definition post_after (p : gmap string PostRow) (rs : list LegacyRecord) (pid : string)
    (after : option PostRow) : Prop :=
  match p !! pid, last (records_for pid rs) with
  | before, None => after = before
  | None, Some r => ∃ row', after = Some row' ∧ written_from r row' ∧ other_members row' = no_members (pst_id row')
  | Some row, Some r =>
      if decide (from_import row ∧ Exists (λ r', said r' ≠ held row) (records_for pid rs))
      then ∃ row', after = Some row' ∧ written_from r row' ∧ other_members row' = other_members row
      else after = Some row
  end.

Inductive Fate := PostInserted | PostMatched | PostUpdated.
#[export] Instance fate_eq_dec : EqDecision Fate.
Proof. solve_decision. Defined.

(** What becomes of the post a record names, after the records before it. *)
Definition fate (p : gmap string PostRow) (before : list LegacyRecord) (r : LegacyRecord) : option Fate :=
  pid ← resolved_id r;
  Some match p !! pid, last (records_for pid before) with
  | None, None => PostInserted
  | None, Some r' => if decide (said r' = said r) then PostMatched else PostUpdated
  | Some row, earlier =>
      if decide (from_import row ∧ match earlier with Some r' => said r' | None => held row end ≠ said r)
      then PostUpdated else PostMatched
  end.
Fixpoint fate_count (p : gmap string PostRow) (f : Fate) (before rs : list LegacyRecord) : Z :=
  match rs with
  | [] => 0
  | r :: rs => (if decide (fate p before r = Some f) then 1 else 0) + fate_count p f (before ++ [r]) rs
  end.

(** No two posts share a row id: the primary key. *)
Definition ids_distinct (p : gmap string PostRow) : Prop :=
  ∀ a b row row', p !! a = Some row → p !! b = Some row' → pst_id row = pst_id row' → a = b.

Record posts_exact (rs : list LegacyRecord) (c : ImportCounts) (p p' : gmap string PostRow) : Prop := {
  px_distinct : ids_distinct p';
  px_after pid : post_after p rs pid (p' !! pid);
  px_inserted : ic_inserted c = fate_count p PostInserted [] rs;
  px_matched : ic_matched c = fate_count p PostMatched [] rs;
  px_updated : ic_updated c = fate_count p PostUpdated [] rs;
}.

Lemma fate_count_snoc p f before rs r :
  fate_count p f before (rs ++ [r]) =
    fate_count p f before rs + (if decide (fate p (before ++ rs) r = Some f) then 1 else 0).
Proof.
  revert before. induction rs as [|x rs IH]; intros before; simpl.
  - rewrite app_nil_r. lia.
  - rewrite IH, <-app_assoc. simpl. lia.
Qed.

Lemma records_for_snoc pid rs r :
  records_for pid (rs ++ [r]) = records_for pid rs ++ (if decide (resolved_id r = Some pid) then [r] else []).
Proof.
  unfold records_for. rewrite List.filter_app. f_equal. cbn [List.filter].
  case_bool_decide; case_decide; done.
Qed.

Lemma post_after_other p rs r pid after :
  resolved_id r ≠ Some pid → post_after p rs pid after → post_after p (rs ++ [r]) pid after.
Proof. intros Hne. unfold post_after. by rewrite records_for_snoc, decide_False, app_nil_r. Qed.

Lemma is_legacy_iff row : is_legacy row = true ↔ from_import row.
Proof. apply String.eqb_eq. Qed.

(** How one upsert leaves its post. *)
Inductive upserted (p : gmap string PostRow) (pid : string) (r : LegacyRecord) :
    option PostRow → (ImportCounts → ImportCounts) → Fate → Prop :=
  | upserted_new row' :
      p !! pid = None → written_from r row' → other_members row' = no_members (pst_id row') →
      upserted p pid r (Some row') count_inserted PostInserted
  | upserted_changed row row' :
      p !! pid = Some row → from_import row → held row ≠ said r →
      written_from r row' → other_members row' = other_members row →
      upserted p pid r (Some row') count_updated PostUpdated
  | upserted_same row :
      p !! pid = Some row → (from_import row → held row = said r) →
      upserted p pid r (Some row) count_matched PostMatched.

(** The post was stored before the import, or it was not. *)
Lemma upserted_step_stored p p1 rs pid r after count f row :
  p !! pid = Some row →
  resolved_id r = Some pid → post_after p rs pid (p1 !! pid) → upserted p1 pid r after count f →
  post_after p (rs ++ [r]) pid after ∧ fate p rs r = Some f.
Proof.
  intros Ep Hr Hbefore Hup. unfold post_after, fate in *. rewrite Hr, records_for_snoc, decide_True by done.
  rewrite last_snoc. cbn [mbind option_bind]. rewrite Ep in *.
  assert (Hl : ∀ r', last (records_for pid rs) = Some r' → r' ∈ records_for pid rs)
    by (intros; by apply last_Some_elem_of).
  destruct (last (records_for pid rs)) as [r'|] eqn:El.
  - specialize (Hl r' eq_refl). destruct (decide (from_import row ∧ Exists _ _)) as [[Hi He]|Hno].
    + rewrite (decide_True (P := from_import row ∧ Exists _ _)) by (split; [done|apply Exists_app; by left]).
      destruct Hbefore as (row1 & E1 & (Hheld & Hfrom & Hav & Hver) & Hoth).
      inversion Hup as [? Hn|row2 row' H2 Hf Hne Hw Ho|row2 H2 Hsame]; subst; simplify_eq.
      * rewrite decide_True by (split; congruence). split; [|done]. exists row'. split_and!; [done..|unfold other_members; congruence].
      * rewrite decide_False by (rewrite <-Hheld, Hsame by done; tauto). split; [|done].
        exists row1.
        split_and!; [done| |unfold other_members, no_members in *; congruence]. unfold written_from. by rewrite Hsame.
    + inversion Hup as [? Hn|row2 row' H2 Hf Hne Hw Ho|row2 H2 Hsame]; subst; rewrite Hbefore in *; simplify_eq.
      * rewrite (decide_True (P := from_import row2 ∧ Exists _ _)).
        2:{ split; [done|]. apply Exists_app. right. constructor. congruence. }
        assert (said r' = held row2) as Hs.
        { apply dec_stable. intros Hd. apply Hno. split; [done|]. apply Exists_exists. by exists r'. }
        rewrite decide_True by (split; congruence). split; [|done].
        exists row'. split_and!; [done..|unfold other_members, no_members in *; congruence].
      * assert (Hd : ¬ (from_import row2 ∧ said r' ≠ said r)).
        { intros [Hf Hd]. apply Hno. split; [done|]. apply Exists_exists. exists r'. split; [done|].
          rewrite Hsame by done. done. }
        rewrite (decide_False (P := from_import row2 ∧ said r' ≠ _)) by done. split; [|done].
        rewrite decide_False; [done|]. intros [Hf [He|He]%Exists_app]; [by apply Hno|].
        apply Exists_cons in He as [He|He]; [|by apply Exists_nil in He]. by rewrite Hsame in He.
  - rewrite (proj1 (last_None _) El) in *. cbn [app].
    inversion Hup as [? Hn|row2 row' H2 Hf Hne Hw Ho|row2 H2 Hsame]; subst; rewrite Hbefore in *; simplify_eq.
    + rewrite decide_True by (split; [done|]; constructor; congruence). rewrite decide_True by done.
      split; [|done].
        exists row'. split_and!; [done..|unfold other_members, no_members in *; congruence].
    + assert (Hd : ¬ (from_import row2 ∧ held row2 ≠ said r)) by (intros [Hf Hd]; by apply Hd, Hsame).
      rewrite (decide_False (P := from_import row2 ∧ held row2 ≠ _)) by done. split; [|done].
      rewrite decide_False; [done|]. intros [Hf He%Exists_cons]. apply Hd. split; [done|].
      destruct He as [He|He]; [congruence|by apply Exists_nil in He].
Qed.

Lemma upserted_step_new p p1 rs pid r after count f :
  p !! pid = None →
  resolved_id r = Some pid → post_after p rs pid (p1 !! pid) → upserted p1 pid r after count f →
  post_after p (rs ++ [r]) pid after ∧ fate p rs r = Some f.
Proof.
  intros Ep Hr Hbefore Hup. unfold post_after, fate in *. rewrite Hr, records_for_snoc, decide_True by done.
  rewrite last_snoc. cbn [mbind option_bind]. rewrite Ep in *.
  destruct (last (records_for pid rs)) as [r'|] eqn:El.
  - destruct Hbefore as (row1 & E1 & (Hheld & Hfrom & Hav & Hver) & Hoth).
    inversion Hup as [? Hn|row2 row' H2 Hf Hne Hw Ho|row2 H2 Hsame]; subst; simplify_eq.
    + rewrite decide_False by congruence. split; [|done]. exists row'. split_and!; [done..|].
      unfold other_members, no_members in *. congruence.
    + rewrite decide_True by (rewrite <-Hheld; by apply Hsame). split; [|done]. exists row1.
      split_and!; [done| |unfold other_members, no_members in *; congruence]. unfold written_from. by rewrite Hsame.
  - inversion Hup as [? Hn|row2 row' H2 Hf Hne Hw Ho|row2 H2 Hsame]; subst; rewrite Hbefore in *; simplify_eq.
    split; [|done].
        exists row'. split_and!; [done..|unfold other_members, no_members in *; congruence].
Qed.

Lemma upserted_step p p1 rs pid r after count f :
  resolved_id r = Some pid → post_after p rs pid (p1 !! pid) → upserted p1 pid r after count f →
  post_after p (rs ++ [r]) pid after ∧ fate p rs r = Some f.
Proof.
  destruct (p !! pid) as [row|] eqn:Ep; [by eapply upserted_step_stored|by eapply upserted_step_new].
Qed.

Lemma reimported_written r row :
  from_import row → written_from r (reimported r row) ∧ other_members (reimported r row) = other_members row.
Proof. intros Hf. by split_and!. Qed.

Lemma imported_written id r :
  written_from r (imported_post id r) ∧ other_members (imported_post id r) = no_members id.
Proof. by split_and!. Qed.

Lemma supersedes_iff r row : supersedes r row = true ↔ from_import row ∧ held row ≠ said r.
Proof.
  unfold supersedes, held, said. rewrite andb_true_iff, orb_true_iff, is_legacy_iff, !negb_true_iff,
    bool_decide_eq_false, String.eqb_neq. split; [intros [? [?|?]]; split; [done|congruence|done|congruence]|].
  intros [? Hne]. split; [done|]. destruct (decide (pst_text row = text r)) as [E|]; [right|by left].
  intros E'. apply Hne. congruence.
Qed.

(** The update statement changes the one row it names. *)
Lemma update_is_insert r pid row (p : gmap string PostRow) :
  ids_distinct p → p !! pid = Some row → from_import row →
  (λ x, if (pst_id x =? pst_id row) && is_legacy x then reimported r x else x) <$> p =
    <[pid := reimported r row]> p.
Proof.
  intros Hd Hp Hf%is_legacy_iff. apply map_eq. intros q. rewrite lookup_fmap.
  destruct (decide (q = pid)) as [->|Hne].
  - rewrite Hp, lookup_insert_eq. simpl. by rewrite Z.eqb_refl, Hf.
  - rewrite lookup_insert_ne by congruence. destruct (p !! q) as [x|] eqn:Eq; [|done]. simpl.
    destruct (Z.eqb_spec (pst_id x) (pst_id row)) as [E|]; [|done]. by destruct (Hne (Hd q pid x row Eq Hp E)).
Qed.

Lemma ids_distinct_insert pid row (p : gmap string PostRow) :
  (∀ q x, q ≠ pid → p !! q = Some x → pst_id x ≠ pst_id row) → ids_distinct p → ids_distinct (<[pid := row]> p).
Proof.
  intros Hfresh Hd a b x y [[<- <-]|[Ha Hx]]%lookup_insert_Some [[<- <-]|[Hb Hy]]%lookup_insert_Some E.
  - done.
  - by destruct (Hfresh b y (not_eq_sym Hb) Hy).
  - by destruct (Hfresh a x (not_eq_sym Ha) Hx).
  - by apply (Hd a b x y).
Qed.

Section ImportEffects.
Context {cr : Crypto}.

(** What an item says of its record. *)
Record item_states (record : LegacyRecord) (resolution : LegacyResolution)
    (resolved conflicting : option string) (item : ImportItem) : Prop := {
  is_digest : li_source_row_digest item = record_digest record;
  is_content : li_content_digest item = Some (sha256_hex (text record));
  is_url : li_canonical_url_digest item = canonical_url_digest record;
  is_saved : li_source_observed_saved_at item = bookmarked_at record;
  is_synced : li_source_synced_at item = Some (synced_at record);
  is_named : li_provider_post_id item =
    match resolved with Some pid => Some pid | None => valid_id (provider_post_id record) end;
  is_conflicting : li_conflicting_provider_post_id item = conflicting;
  is_resolution : li_resolution item = match resolution with
    | ProviderPost => "provider_post" | UrlDerivedPost => "canonical_url"
    | ConflictingPost => "identity_conflict" | UnmappedPost => "unmapped" end%string;
  is_provenance : li_provenance item = "legacy-import"%string;
}.

(** The item an import leaves of a record, and the post it names. *)
Definition evidence (run_id : Z) (record : LegacyRecord) (d : Db) : Prop :=
  let '(resolution, resolved, conflicting) := resolve_record_identity record in
  ∃ item,
    legacy_import_items d !! (run_id, source_record_key record) = Some item ∧
    item_states record resolution resolved conflicting item ∧
    match resolved, li_post_id item with
    | Some pid, Some id => ∃ row, posts d !! pid = Some row ∧ pst_id row = id
    | None, None => True
    | _, _ => False
    end.

Record Imported (run_id : Z) (rs : list LegacyRecord) (c : ImportCounts) (d d' : Db) : Prop := {
  im_outside : outside_import d' = outside_import d;
  im_runs : legacy_import_runs d' = legacy_import_runs d;
  im_posts : posts_imported (ic_inserted c) (posts d) (posts d');
  im_items k : k.1 ≠ run_id ∨ k.2 ∉ source_record_key <$> rs →
    legacy_import_items d' !! k = legacy_import_items d !! k;
  im_fresh r : r ∈ rs → legacy_import_items d !! (run_id, source_record_key r) = None;
  im_evidence r : r ∈ rs → evidence run_id r d';
  im_counts : counts_of rs c;
  im_exact : ids_distinct (posts d) → posts_exact rs c (posts d) (posts d');
}.

(** One upsert leaves its post as the record demands, and every other post alone. *)
Definition upsert_exact (pid : string) (r : LegacyRecord) (count : ImportCounts → ImportCounts)
    (p p' : gmap string PostRow) : Prop :=
  ids_distinct p' ∧ ∃ after f, upserted p pid r after count f ∧ p' = partial_alter (λ _, after) pid p.

Lemma upsert_imported_post_spec env pid record (w : W) :
  yields env (upsert_imported_post pid record) (λ '(post_id, count) w',
    (∃ n, post_counted n count ∧ posts_imported n (posts (w_db w)) (posts (w_db w'))) ∧
    (∃ row, posts (w_db w') !! pid = Some row ∧ pst_id row = post_id) ∧
    (∃ f, w_db w' = on_posts f (w_db w)) ∧
    (ids_distinct (posts (w_db w)) → upsert_exact pid record count (posts (w_db w)) (posts (w_db w')))) w.
Proof.
  unfold upsert_imported_post. yields_steps. destruct (posts (w_db w) !! pid) as [row|] eqn:E.
  - destruct (supersedes record row) eqn:Es; yields_steps.
    + split_and!; [exists 0; split; [constructor|apply update_imported]| |by eexists|].
      { eexists. unfold update_imported_post. cbn [posts on_posts]. rewrite lookup_fmap, E.
        split; [done|]. by destruct (_ && _). }
      intros Hd. apply supersedes_iff in Es as [Hf Hne]. destruct (reimported_written record row Hf) as [Hw Ho].
      unfold upsert_exact, update_imported_post. cbn [posts on_posts w_db tick set_db].
      rewrite (update_is_insert record pid row) by done. split.
      * apply ids_distinct_insert; [|done]. intros q x Hq Hx Eid. by destruct (Hq (Hd q pid x row Hx E Eid)).
      * exists (Some (reimported record row)), PostUpdated. split; [by eapply upserted_changed|done].
    + split_and!; [exists 0; split; [constructor|apply posts_imported_refl]|by eexists| |].
      { exists id. by destruct (w_db w). }
      intros Hd. split; [done|]. exists (Some row), PostMatched. split.
      * apply upserted_same; [done|]. intros Hf. apply dec_stable. intros Hne.
        by rewrite (proj2 (supersedes_iff record row)) in Es.
      * change (posts (w_db w) = <[pid := row]> (posts (w_db w))). by rewrite insert_id.
  - yields_steps. intros post_id d' (-> & Hfresh & _ & ->)%insert_imported_post_Some. yields_steps.
    split_and!; [exists 1; split; [constructor|by apply insert_imported]| |by eexists|].
    { eexists. cbn [posts on_posts]. by rewrite lookup_insert_eq. }
    intros Hd. destruct (imported_written (e_uuid env (w_tick (tick w))) record) as [Hw Ho]. split.
    + apply ids_distinct_insert; [|done]. intros q x _ Hx. unfold post_by_id in Hfresh.
      by apply (find_row_None _ _ _ _ Hfresh), bool_decide_eq_false in Hx.
    + eexists (Some _), PostInserted. split; [by apply upserted_new|done].
Qed.

Lemma posts_exact_step p p1 p2 rs r c count pid :
  resolved_id r = Some pid → posts_exact rs c p p1 → upsert_exact pid r count p1 p2 →
  posts_exact (rs ++ [r]) (count c) p p2.
Proof.
  intros Hr [Hd Ha Hi Hm Hu] (Hd' & after & f & Hup & ->).
  destruct (upserted_step p p1 rs pid r after count f Hr (Ha pid) Hup) as [Hafter Hfate].
  assert (Hcounts : ∀ g, fate_count p g [] (rs ++ [r]) = fate_count p g [] rs + (if decide (f = g) then 1 else 0)).
  { intros g. rewrite fate_count_snoc. cbn [app]. rewrite Hfate. f_equal.
    repeat case_decide; congruence. }
  split; [done| |rewrite Hcounts, <-?Hi, <-?Hm, <-?Hu; destruct Hup; simpl; lia..].
  intros q. destruct (decide (q = pid)) as [->|Hne]; [by rewrite lookup_partial_alter_eq|].
  rewrite lookup_partial_alter_ne by congruence. apply post_after_other; [congruence|apply Ha].
Qed.

Lemma posts_exact_unresolved p p1 rs r c resolution :
  resolved_id r = None → posts_exact rs c p p1 → posts_exact (rs ++ [r]) (count_unresolved resolution c) p p1.
Proof.
  intros Hr [Hd Ha Hi Hm Hu].
  assert (Hfate : fate p rs r = None) by (unfold fate; by rewrite Hr).
  split; [done| |rewrite fate_count_snoc; cbn [app]; rewrite Hfate, <-?Hi, <-?Hm, <-?Hu;
    destruct resolution; simpl; lia..].
  intros q. apply post_after_other; [congruence|apply Ha].
Qed.

Lemma insert_item_Some run_id key item d u d' :
  insert_item run_id key item d = Some (u, d') →
  item_accepted run_id key item d = true ∧ legacy_import_items d !! (run_id, key) = None ∧
  d' = on_legacy_import_items (λ _, <[(run_id, key) := item]> (legacy_import_items d)) d.
Proof.
  unfold insert_item, insert_new. destruct (item_accepted _ _ _ _); [|done].
  destruct (legacy_import_items d !! _); [done|]. by intros [= _ <-].
Qed.

(** Later records of the loop leave the evidence of an earlier one in place. *)
Lemma evidence_stable run_id r n d d' :
  evidence run_id r d → posts_imported n (posts d) (posts d') →
  legacy_import_items d' !! (run_id, source_record_key r) =
    legacy_import_items d !! (run_id, source_record_key r) →
  evidence run_id r d'.
Proof.
  unfold evidence. destruct (resolve_record_identity r) as [[res resolved] conf].
  intros (item & Hi & Hst & Hp) Hposts Hk. exists item. rewrite Hk. split_and!; [done..|].
  destruct resolved as [pid|], (li_post_id item) as [id|]; try done. destruct Hp as (row & Hrow & <-).
  destruct (pi_kept _ _ _ Hposts pid row Hrow) as (row' & ? & Hs & _). by exists row'.
Qed.

(** The item of one more record, once its post is settled. *)
Lemma imported_item run_id rs r c n post_id d0 d1 d2 u d3 c' resolution resolved conflicting :
  Imported run_id rs c d0 d1 →
  resolve_record_identity r = (resolution, resolved, conflicting) →
  (∃ f, d2 = on_posts f d1) → posts_imported n (posts d1) (posts d2) →
  match resolved, post_id with
  | Some pid, Some id => ∃ row, posts d2 !! pid = Some row ∧ pst_id row = id
  | None, None => True
  | _, _ => False
  end →
  counts_of (rs ++ [r]) c' → ic_inserted c' = ic_inserted c + n →
  (ids_distinct (posts d0) → posts_exact (rs ++ [r]) c' (posts d0) (posts d2)) →
  insert_item run_id (source_record_key r) (import_item resolution resolved conflicting post_id r) d2
    = Some (u, d3) →
  Imported run_id (rs ++ [r]) c' d0 d3.
Proof.
  intros [Ho Hr Hp Hi Hf He Hc _] Hres [f ->] Hposts Hpost Hc' Hn Hx (_ & Hnone & ->)%insert_item_Some.
  cbn [legacy_import_items on_posts] in Hnone.
  assert (Hkeys : ∀ key, key ∈ source_record_key <$> rs ++ [r] ↔
            key ∈ source_record_key <$> rs ∨ key = source_record_key r).
  { intros key. rewrite fmap_app, elem_of_app. simpl. by rewrite list_elem_of_singleton. }
  assert (Hnew : source_record_key r ∉ source_record_key <$> rs).
  { intros (r' & Hk & Hr')%list_elem_of_fmap. specialize (He r' Hr'). unfold evidence in He.
    destruct (resolve_record_identity r') as [[res' rd'] cf']. destruct He as (item' & He & _).
    rewrite <-Hk in He. congruence. }
  split; [done|done| | | | |done|done].
  - rewrite Hn. by eapply posts_imported_trans.
  - intros k Hk. cbn. rewrite lookup_insert_ne; [|intros <-; simpl in Hk; rewrite Hkeys in Hk; tauto].
    apply Hi. rewrite Hkeys in Hk. tauto.
  - intros r' [Hr'|Hr'%list_elem_of_singleton]%elem_of_app; [by apply Hf|subst r'].
    rewrite <-Hi; [done|]. by right.
  - intros r' [Hr'|Hr'%list_elem_of_singleton]%elem_of_app; [|subst r'].
    + eapply (evidence_stable _ _ n d1); [by apply He|done|]. cbn. rewrite lookup_insert_ne; [done|].
      intros [= Hk]. apply Hnew. rewrite Hk. apply list_elem_of_fmap. by exists r'.
    + unfold evidence. rewrite Hres. eexists. cbn. rewrite lookup_insert_eq. split; [done|].
      split; [by split; destruct resolution|done].
Qed.

Lemma persist_import_record_spec env run_id rs c r d0 (w : W) :
  Imported run_id rs c d0 (w_db w) →
  yields env (persist_import_record run_id c r)
    (λ c' w', Imported run_id (rs ++ [r]) c' d0 (w_db w')) w.
Proof.
  intros HI. unfold persist_import_record.
  destruct (resolve_record_identity r) as [[resolution resolved] conflicting] eqn:Er.
  pose proof (resolved_class r) as Hclass. rewrite Er in Hclass. destruct Hclass as (_ & Hsome & _).
  apply yields_bind. destruct resolved as [pid|].
  - apply yields_bind. eapply yields_mono; [apply upsert_imported_post_spec|].
    intros [post_id count] w1 ((n & Hn & Hposts) & Hrow & Hf & Hup). yields_steps. intros u d' Hins. yields_steps.
    destruct (proj1 Hsome ltac:(eauto)) as [Hc Hu].
    destruct (counts_resolved n count rs r c Hn Hc Hu (im_counts _ _ _ _ _ HI)) as [Hc' Hi'].
    eapply (imported_item run_id rs r c n (Some post_id)); [done..| |exact Hins].
    intros Hd. pose proof (im_exact _ _ _ _ _ HI Hd) as Hx.
    eapply (posts_exact_step _ _ _ _ _ _ _ pid); [unfold resolved_id; by rewrite Er|exact Hx|].
    by apply Hup, Hx.
  - yields_steps. intros u d' Hins. yields_steps.
    destruct (counts_unresolved _ _ _ rs r c Er eq_refl (im_counts _ _ _ _ _ HI)) as [Hc' Hi'].
    eapply (imported_item run_id rs r c 0 None d0 (w_db w) (w_db w)); [exact HI|exact Er|exists id; by destruct (w_db w)
      |apply posts_imported_refl|done|exact Hc'|lia| |exact Hins].
    intros Hd. apply posts_exact_unresolved; [unfold resolved_id; by rewrite Er|by apply HI].
Qed.

Lemma persist_import_records_spec env run_id rs (w : W) :
  yields env (persist_import_records run_id rs)
    (λ c w', Imported run_id rs c (w_db w) (w_db w')) w.
Proof.
  apply (yields_fold_m env (persist_import_record run_id)
    (λ visited c w', Imported run_id visited c (w_db w) (w_db w'))).
  - split; [done|done|apply posts_imported_refl|done|by intros ? ?%elem_of_nil..|by split|].
    intros Hd. split; [done| |done..]. intros pid. unfold post_after. by destruct (posts (w_db w) !! pid).
  - intros visited r rest c w' _ HI. by apply persist_import_record_spec.
Qed.

(** *** The transaction *)

(** The account is the owner's, connected, and the provider identity is the verified one. *)
Definition account_admits (approval : OwnershipApproval) (verified : string) (d : Db) : Prop :=
  account_identity (oa_account_id approval) d = Some (oa_internal_owner_id approval, verified, "connected"%string).

(** What the run's row says once it is complete. *)
Record run_states (batch : PreflightBatch) (approval : OwnershipApproval) (c : ImportCounts) (row : ImportRun) :
    Prop := {
  rs_account : lr_account_id row = oa_account_id approval;
  rs_digest : lr_source_digest row = source_digest batch;
  rs_approval : lr_ownership_approval_digest row = oa_approval_digest approval;
  rs_status : lr_status row = "completed"%string;
  rs_inserted : lr_inserted_count row = ic_inserted c;
  rs_matched : lr_matched_count row = ic_matched c;
  rs_updated : lr_updated_count row = ic_updated c;
  rs_conflicted : lr_conflicted_count row = ic_conflicted c;
  rs_rejected : lr_rejected_count row = ic_rejected c;
  rs_unmapped : lr_unmapped_count row = ic_unmapped c;
}.

(** A completed run for the batch: one run row, one item per record, the posts, and the counts. *)
Record ImportEffect (batch : PreflightBatch) (approval : OwnershipApproval) (outcome : ImportOutcome)
    (d d' : Db) : Prop := {
  ie_source : ∃ kind version now, source_database_identity batch = Ok (kind, version) ∧
    existing_run (oa_account_id approval) kind version (source_digest batch) d = None ∧
    legacy_import_runs d' = <[io_run_id outcome := completed_import (io_counts outcome) now
      (running_import approval kind version (source_digest batch))]> (legacy_import_runs d);
  ie_run : ∃ row, legacy_import_runs d' !! io_run_id outcome = Some row ∧
    run_states batch approval (io_counts outcome) row;
  ie_fresh : legacy_import_runs d !! io_run_id outcome = None;
  ie_not_reused : io_reused outcome = false;
  ie_outside : outside_import d' = outside_import d;
  ie_posts : posts_imported (ic_inserted (io_counts outcome)) (posts d) (posts d');
  ie_items k : k.1 ≠ io_run_id outcome ∨ k.2 ∉ source_record_key <$> records batch →
    legacy_import_items d' !! k = legacy_import_items d !! k;
  ie_new r : r ∈ records batch →
    legacy_import_items d !! (io_run_id outcome, source_record_key r) = None;
  ie_evidence r : r ∈ records batch → evidence (io_run_id outcome) r d';
  ie_counts : counts_of (records batch) (io_counts outcome);
  ie_bounded : Z.of_nat (length (records batch)) ≤ 6 * i32_max;
  ie_exact : ids_distinct (posts d) → posts_exact (records batch) (io_counts outcome) (posts d) (posts d');
}.

(** An earlier completed run of the same source answers the import. *)
Definition Reused (batch : PreflightBatch) (approval : OwnershipApproval) (run_id : Z) (row : ImportRun)
    (d : Db) : Prop :=
  ∃ kind version, source_database_identity batch = Ok (kind, version) ∧
    existing_run (oa_account_id approval) kind version (source_digest batch) d = Some (run_id, row) ∧
    lr_status row = "completed"%string.

Lemma insert_import_run_Some id row d run_id d' :
  insert_import_run id row d = Some (run_id, d') →
  run_id = id ∧ legacy_import_runs d !! id = None ∧
  d' = on_legacy_import_runs (λ _, <[id := row]> (legacy_import_runs d)) d.
Proof.
  unfold insert_import_run, insert_new. destruct (_ && _); [|done].
  destruct (legacy_import_runs d !! id); [done|]. by intros [= <- <-].
Qed.

Lemma bounded_count_Ok z y : bounded_count z = Ok y → y = z ∧ i32_min ≤ z ≤ i32_max.
Proof. unfold bounded_count, i32_try_from. by intros H%ok_or_Ok%int4_Some. Qed.

Lemma bounded_counts_Ok c b : bounded_counts c = Ok b → b = c ∧ total c ≤ 6 * i32_max.
Proof.
  unfold bounded_counts, total. intros H. opens. destruct c; simpl in *.
  repeat match goal with E : bounded_count _ = Ok _ |- _ => apply bounded_count_Ok in E as (-> & ?) end.
  simplify_eq. split; [done|]. lia.
Qed.

Lemma import_body_spec env batch approval verified (w : W) :
  yields env (import_body batch approval verified) (λ e w', match e with
    | Commit (ReusedRun run_id row) =>
        account_admits approval verified (w_db w) ∧ w_db w' = w_db w ∧
        Reused batch approval run_id row (w_db w)
    | Commit (FreshRun outcome) =>
        account_admits approval verified (w_db w) ∧ ImportEffect batch approval outcome (w_db w) (w_db w')
    | _ => False
    end) w.
Proof.
  unfold import_body, validate_locked_import_account. yields_steps.
  destruct (account_identity (oa_account_id approval) (w_db w)) as [[[owner user] state]|] eqn:Ea;
    [|by yields_steps].
  destruct (Z.eqb_spec owner (oa_internal_owner_id approval)) as [->|]; [|by yields_steps].
  destruct (String.eqb_spec state "connected") as [->|]; [|by yields_steps].
  destruct (String.eqb_spec user verified) as [->|]; [|by yields_steps].
  cbn [negb]. yields_steps. intros [kind version] Hs. yields_steps.
  destruct (existing_run _ _ _ _ _) as [[run_id row]|] eqn:Ex.
  - destruct (String.eqb_spec (lr_status row) "completed"); [|by yields_steps].
    yields_steps. split_and!; [done|done|]. by exists kind, version.
  - yields_steps. intros run_id d1 (-> & Hnone & ->)%insert_import_run_Some. yields_steps.
    eapply yields_mono; [apply persist_import_records_spec|]. intros c w1 [Ho Hr Hp Hi Hf He Hc Hx].
    yields_steps. intros b [-> Hb]%bounded_counts_Ok. yields_steps. split; [done|].
    cbn [w_db set_db tick] in *. split; cbn [io_run_id io_counts io_reused]; try done.
    + exists kind, version. eexists. split_and!; [done|done|]. cbn. rewrite Hr. cbn.
      by rewrite alter_insert_eq.
    + eexists. cbn. rewrite Hr. cbn. rewrite alter_insert_eq, lookup_insert_eq. by repeat split.
    + rewrite <-(cn_total _ _ Hc). exact Hb.
Qed.

(** *** What others can rely on *)

(** All an import may do to the database: add a run and its items, and import posts. *)
Record LegacyFrame (d d' : Db) : Prop := {
  lf_outside : outside_import d' = outside_import d;
  lf_posts : ∃ n, 0 ≤ n ∧ posts_imported n (posts d) (posts d');
  lf_runs id row : legacy_import_runs d !! id = Some row → legacy_import_runs d' !! id = Some row;
  lf_items k item : legacy_import_items d !! k = Some item → legacy_import_items d' !! k = Some item;
}.

Lemma effect_frame batch approval outcome d d' :
  ImportEffect batch approval outcome d d' → LegacyFrame d d'.
Proof.
  intros [(kind & version & now & _ & _ & Hruns) _ Hfresh _ Ho Hp Hi Hn _ Hc _ _]. split; [done| | |].
  - eexists. split; [apply (cn_inserted _ _ Hc)|exact Hp].
  - intros id row Hrow. rewrite Hruns, lookup_insert_ne; [done|congruence].
  - intros [run key] item Hk. destruct (decide (run = io_run_id outcome)) as [->|];
      [|by rewrite Hi by auto].
    destruct (decide (key ∈ source_record_key <$> records batch)) as [Hin|]; [|by rewrite Hi by auto].
    apply list_elem_of_fmap in Hin as (r & -> & Hin). rewrite Hn in Hk by done. done.
Qed.

Lemma legacy_frame_refl d : LegacyFrame d d.
Proof. split; [done| |done|done]. exists 0. split; [lia|apply posts_imported_refl]. Qed.

(** Whatever the other connections do, whatever fails, and even when a commit is lost, an import
    respects every relation that allows adding a run with its items and importing posts: nothing else
    of the database changes, in particular no bookmark, folder, snapshot or authority; stored runs
    and items are immutable; and a post normalized from the official provider keeps its content. *)
Theorem imports_stay_in_their_tables `{ReadOnlyIdentity} env (R : relation Db) `{!PreOrder R} batch approval :
  (∀ d d', LegacyFrame d d' → R d d') → rely (Ev:=Event) env (on_db R) →
  guar env (on_db R) (import_batch batch approval).
Proof.
  intros HR Hr. unfold import_batch, persist_import.
  assert (Hbody : ∀ a u, guar env (on_db R) (transaction DatabaseFailed (import_body batch a u))).
  { intros a u. apply guar_atomic; [done..|]. intros w. eapply yields_mono; [apply import_body_spec|].
    intros [[run_id row|outcome]|?|?] w'; [|by intros (_ & ?%effect_frame); apply HR|done..].
    intros (_ & -> & _). apply HR, legacy_frame_refl. }
  repeat first [apply Hbody | by apply identity_reads | guar_step].
Qed.

(** *** What an import records *)

(** The owner's approval names the batch, its digests have their form, and the account is connected
    and the owner's. *)
Definition import_approved (batch : PreflightBatch) (approval : OwnershipApproval) (d : Db) : Prop :=
  oa_source_digest approval = source_digest batch ∧ valid_sha256 (oa_approval_digest approval) = true ∧
  ∃ user, account_admits approval user d.

Definition import_recorded (batch : PreflightBatch) (approval : OwnershipApproval) (outcome : ImportOutcome)
    (d d' : Db) : Prop :=
  import_approved batch approval d ∧
  ((io_reused outcome = true ∧ d' = d ∧ ∃ row, Reused batch approval (io_run_id outcome) row d ∧
      stored_counts row = Ok (io_counts outcome)) ∨
   ImportEffect batch approval outcome d d').

Lemma persist_import_spec env batch approval user (w : W) :
  (∀ n d, e_other env n d = d) →
  wp env (persist_import batch approval user) (λ r w', match r with
    | Ok outcome => account_admits approval user (w_db w) ∧
        ((io_reused outcome = true ∧ w_db w' = w_db w ∧ ∃ row, Reused batch approval (io_run_id outcome) row (w_db w) ∧
           stored_counts row = Ok (io_counts outcome)) ∨
         ImportEffect batch approval outcome (w_db w) (w_db w'))
    | Err _ => w_db w' = w_db w ∨ ∃ outcome, account_admits approval user (w_db w) ∧
        ImportEffect batch approval outcome (w_db w) (w_db w')
    end) w.
Proof.
  intros Ho. unfold persist_import. apply wp_bind.
  eapply wp_mono; [apply (wp_atomic env DatabaseFailed _ (λ ended d', match ended with
    | ReusedRun run_id row => account_admits approval user (w_db w) ∧ d' = w_db w ∧
        Reused batch approval run_id row (w_db w)
    | FreshRun outcome => account_admits approval user (w_db w) ∧
        ImportEffect batch approval outcome (w_db w) d'
    end) w Ho)|].
  - eapply yields_mono; [apply import_body_spec|]. by intros [[]|?|?] w'.
  - intros [[run_id row|outcome]|e] w'.
    + intros (Ha & Hd & Hre). wp_steps. destruct (stored_counts row) as [c|e] eqn:Ec; wp_steps; [|by left].
      split; [done|]. left. split_and!; [done|done|]. by exists row.
    + intros [Ha He]. wp_steps. auto.
    + intros [E|[[run_id row|outcome] He]]; [by left| |right; by exists outcome].
      left. by destruct He as (_ & E & _).
Qed.

Lemma import_batch_spec `{ReadOnlyIdentity} env batch approval (w : W) :
  (∀ n d, e_other env n d = d) →
  wp env (import_batch batch approval) (λ r w', match r with
    | Ok outcome => ∃ a, approval = Some a ∧ import_recorded batch a outcome (w_db w) (w_db w')
    | Err _ => w_db w' = w_db w ∨ ∃ a outcome, approval = Some a ∧
        import_recorded batch a outcome (w_db w) (w_db w')
    end) w.
Proof.
  intros Ho. unfold import_batch, approved_batch. wp_steps.
  destruct approval as [a|]; [simpl|by left].
  destruct (String.eqb_spec (oa_source_digest a) (source_digest batch)) as [Hs|]; [simpl|by left].
  destruct (valid_sha256 (oa_approval_digest a)) eqn:Hv; [simpl|by left].
  wp_steps; [|left; cbn; by rewrite Ho].
  cbn [w_db set_db tick]. rewrite Ho.
  destruct (account_identity (oa_account_id a) (w_db w)) as [[[owner user] state]|]; [|wp_steps; by left].
  destruct (Z.eqb_spec owner (oa_internal_owner_id a)); [cbn [negb]|wp_steps; by left].
  destruct (String.eqb_spec state "connected"); [cbn [negb]|wp_steps; by left].
  apply wp_bind. set (w1 := tick _). assert (Hw1 : w_db w1 = w_db w) by done.
  assert (Hre : rely (Ev:=Event) env (on_db (@eq Db))) by (intros n w0; unfold on_db; cbn; by rewrite Ho).
  pose proof (identity_reads env (@eq Db) (oa_account_id a) _ Hre) as Hg.
  eapply wp_mono; [exact (wp_of_guar env _ _ w1 Hg)|]. unfold on_db.
  intros [current|failed] w2 Hw2; [|left; congruence].
  destruct (String.eqb_spec current user); [cbn [negb]|cbn [negb]; wp_steps; left; congruence].
  eapply wp_mono; [by apply persist_import_spec|]. rewrite <-Hw2, Hw1.
  intros [outcome|e'] w3; unfold import_recorded, import_approved.
  - intros [Ha Hdone]. exists a. split; [done|]. split; [|exact Hdone]. split_and!; [done|done|by exists user].
  - intros [E|(outcome & Ha & He)]; [by left|]. right. exists a, outcome. split; [done|].
    split; [|by right]. split_and!; [done|done|by exists user].
Qed.

(** C19. An import without other connections either answers with what it recorded or leaves no trace. Its
    approval named exactly this batch and the connected account of its owner. A reused run is an
    earlier completed run of the same source, and nothing is written. A new run stores one item per
    record, with the record's digests, times and resolution and the row of the post it resolved to.
    Every post is as the last record naming it says: a new post holds that record's text and time and
    nothing else; one left by an earlier import is rewritten with them when some record differed from
    it, its other members kept; every other post is untouched. Each count is exact on its own: inserted,
    matched and updated count the records that made their post new, found it as they say it, and
    changed it, in the order of the batch; conflicts and unmapped rows are counted as such, and the
    run's row carries these counts. (Row ids of stored posts are distinct, as the primary key demands.)
    A failure changed nothing, unless the commit itself was lost, which then did all of it. *)
Theorem import_records_exactly_the_batch `{ReadOnlyIdentity} env batch approval (w : W) :
  (∀ n d, e_other env n d = d) →
  wp env (import_batch batch approval) (λ r w', match r with
    | Ok outcome => ∃ a, approval = Some a ∧ import_recorded batch a outcome (w_db w) (w_db w')
    | Err _ => w_db w' = w_db w ∨ ∃ a outcome, approval = Some a ∧
        import_recorded batch a outcome (w_db w) (w_db w')
    end) w.
Proof. apply import_batch_spec. Qed.

(** *** Repeating an import *)

Lemma existing_run_inserted account kind version digest id row d d' :
  existing_run account kind version digest d = None → legacy_import_runs d' = <[id := row]> (legacy_import_runs d) →
  is_run_of account kind version digest row = true →
  existing_run account kind version digest d' = Some (id, row).
Proof.
  unfold existing_run. intros Hn Hd Hrow. destruct (find_row _ (legacy_import_runs d')) as [[k v]|] eqn:E.
  - apply find_row_Some in E as [Hk Hv]. rewrite Hd in Hk.
    apply lookup_insert_Some in Hk as [[<- <-]|[_ Hk]]; [done|].
    by rewrite (find_row_None _ _ _ _ Hn Hk) in Hv.
  - rewrite (find_row_None _ _ id row E) in Hrow; [done|]. by rewrite Hd, lookup_insert_eq.
Qed.

Lemma stored_completed_counts rs c now row :
  counts_of rs c → stored_counts (completed_import c now row) = Ok c.
Proof.
  intros [H1 H2 H3 H4 H5 H6 _]. unfold stored_counts, completed_import, nonnegative_count. simpl.
  repeat (rewrite (proj2 (Z.ltb_ge _ _)) by lia; simpl). by destruct c.
Qed.

Lemma recorded_twice batch a outcome again d d1 d2 :
  import_recorded batch a outcome d d1 → import_recorded batch a again d1 d2 →
  io_run_id again = io_run_id outcome ∧ io_counts again = io_counts outcome ∧ io_reused again = true ∧
  d2 = d1.
Proof.
  intros [_ Hfirst] [_ Hsecond].
  assert (Hrun : ∃ row, Reused batch a (io_run_id outcome) row d1 ∧ stored_counts row = Ok (io_counts outcome)).
  { destruct Hfirst as [(_ & -> & H)|He]; [exact H|].
    destruct (ie_source _ _ _ _ _ He) as (kind & version & now & Hs & Hn & Hruns).
    eexists. split; [|by eapply stored_completed_counts, ie_counts]. exists kind, version.
    split_and!; [done| |done]. eapply existing_run_inserted; [done..|].
    unfold is_run_of. simpl. by rewrite !Z.eqb_refl, !String.eqb_refl. }
  destruct Hrun as (row & (kind & version & Hs & Hx & Hst) & Hc).
  destruct Hsecond as [(Hre & -> & row' & (kind' & version' & Hs' & Hx' & _) & Hc')|He].
  - rewrite Hs in Hs'. injection Hs' as <- <-. rewrite Hx in Hx'. injection Hx' as <- <-.
    rewrite Hc in Hc'. injection Hc' as <-. done.
  - destruct (ie_source _ _ _ _ _ He) as (kind' & version' & now & Hs' & Hn & _).
    rewrite Hs in Hs'. injection Hs' as <- <-. congruence.
Qed.

(** Importing the same batch again, with the same approval, finds the first run: it answers with that
    run and its counts, or fails, and in either case writes nothing. *)
Theorem repeated_imports_are_idempotent `{ReadOnlyIdentity} env env' batch approval outcome (w w2 : W) :
  (∀ n d, e_other env n d = d) → (∀ n d, e_other env' n d = d) →
  (import_batch batch approval env w).1 = Ok outcome →
  w_db w2 = w_db (import_batch batch approval env w).2 →
  wp env' (import_batch batch approval) (λ r w', w_db w' = w_db w2 ∧ match r with
    | Ok again => io_run_id again = io_run_id outcome ∧ io_counts again = io_counts outcome ∧
        io_reused again = true
    | Err _ => True
    end) w2.
Proof.
  intros Ho Ho' Hfirst Hw2. pose proof (import_batch_spec env batch approval w Ho) as H1.
  unfold wp in H1. rewrite Hfirst, <-Hw2 in H1. destruct H1 as (a & Ha & Hrec).
  eapply wp_mono; [by apply import_batch_spec|]. intros [again|e] w' H2.
  - destruct H2 as (a' & Ha' & Hrec'). assert (a' = a) as -> by congruence.
    destruct (recorded_twice _ _ _ _ _ _ _ Hrec Hrec') as (? & ? & ? & ?). done.
  - destruct H2 as [E|(a' & again & Ha' & Hrec')]; [done|]. assert (a' = a) as -> by congruence.
    destruct (recorded_twice _ _ _ _ _ _ _ Hrec Hrec') as (_ & _ & _ & ?). done.
Qed.
End ImportEffects.

(** ** The official identity *)

Section OfficialIdentity.
Context {cr : Crypto} {http : IdentityHttp}.

#[export] Instance official_identity_reads identity : @ReadOnlyIdentity (official_identity identity).
Proof.
  split. intros env R account HR Hr. simpl. unfold current_provider_user_id.
  guar_steps; try done. apply guar_call; [typeclasses eauto|]. intros w. unfold on_db. reflexivity.
Qed.

Lemma identity_body_Ok body chunks broken full :
  identity_body body chunks broken = Ok full → Z.of_nat (String.length body) ≤ IDENTITY_BODY_LIMIT →
  full = body +:+ str_join "" chunks ∧ Z.of_nat (String.length full) ≤ IDENTITY_BODY_LIMIT ∧ broken = false.
Proof.
  revert body. induction chunks as [|chunk chunks IH]; intros body; simpl.
  - destruct broken; [done|]. intros [= <-] Hl. by rewrite str_app_nil_r.
  - destruct (Z.ltb_spec IDENTITY_BODY_LIMIT (Z.of_nat (String.length body) + Z.of_nat (String.length chunk)));
      [done|]. intros Hb Hl. apply IH in Hb as (-> & Hlen & Hbr); [|rewrite str_length_app; lia].
    split_and!; [|done|done]. rewrite str_app_assoc. f_equal.
    destruct chunks; simpl; [by rewrite str_app_nil_r|done].
Qed.

(** What the adapter takes for an answer: a success, short, complete, with a non-empty id. *)
Definition identity_stated (response : IdentityResponse) (id : string) : Prop :=
  is_success (ir_status response) = true ∧ ir_broken response = false ∧ id ≠ ""%string ∧
  ∃ value, json_from_slice (str_join "" (ir_chunks response)) = Some value ∧ data_id value = Some id ∧
    Z.of_nat (String.length (str_join "" (ir_chunks response))) ≤ IDENTITY_BODY_LIMIT.

Lemma identity_of_response_Ok response id :
  identity_of_response response = Ok id → identity_stated response id.
Proof.
  unfold identity_of_response. destruct (_ || _) eqn:E; [done|]. apply orb_false_iff in E as [E _].
  apply negb_false_iff in E. intros (body & Hb & H%ok_or_Ok)%result_bind_Ok.
  apply identity_body_Ok in Hb as (-> & Hl & Hbr); [|done].
  destruct (json_from_slice _) as [value|] eqn:Ev; [|done]. simpl in H.
  destruct (data_id value) as [i|] eqn:Ei; [|done]. simpl in H. unfold nonempty in H.
  destruct (String.eqb_spec i ""); [done|]. injection H as <-.
  split_and!; [done..|]. by exists value.
Qed.

Lemma identity_body_Err body chunks broken e :
  identity_body body chunks broken = Err e → e = CurrentIdentityUnavailable.
Proof.
  revert body. induction chunks as [|chunk chunks IH]; intros body; simpl; [|destruct (_ <? _)].
  - destruct broken; congruence.
  - congruence.
  - apply IH.
Qed.

Lemma identity_of_response_Err response e :
  identity_of_response response = Err e → e = CurrentIdentityUnavailable.
Proof.
  unfold identity_of_response. destruct (_ || _); [congruence|].
  destruct (identity_body _ _ _) as [body|e'] eqn:Eb; simpl; [|apply identity_body_Err in Eb; congruence].
  unfold ok_or. case_match; congruence.
Qed.

(** A provider identity is only ever reported for a connected account whose newest active credential
    carries [users.read] and opens for that very account; exactly one request is made, to [/2/users/me]
    and with that credential, and its short successful answer states the id. Every failure is the same
    refusal, made before or after that one request, and nothing is written. *)
Theorem identity_is_the_credentials_own identity account env (w : W) :
  let d := e_other env (w_tick w) (w_db w) in
  wp env (current_provider_user_id identity account) (λ r w', w_db w' = d ∧
    match r with
    | Ok id => ∃ encrypted scopes plaintext credential response,
        identity_credential account d = Some (encrypted, scopes) ∧ "users.read"%string ∈ scopes ∧
        open (oi_cipher identity) account Credential encrypted = Ok plaintext ∧
        payload_decode plaintext = Some credential ∧
        w_log w' = w_log w ++ [GetBearer (oi_base_url identity +:+ "/2/users/me") (access_token credential)] ∧
        (∃ n, identity_answer_at n = Some response) ∧ identity_stated response id
    | Err e => e = CurrentIdentityUnavailable ∧ (w_log w' = w_log w ∨ ∃ ev, w_log w' = w_log w ++ [ev])
    end) w.
Proof.
  cbv zeta. unfold current_provider_user_id. wp_steps; [|split; [done|]; by auto].
  cbn [w_db set_db tick]. destruct (identity_credential account _) as [[encrypted scopes]|] eqn:Ec;
    [|wp_steps; split; [done|]; by auto].
  unfold opened_identity. cbn [ok_or result_bind].
  destruct (existsb _ scopes) eqn:Es; cbn [negb]; [|wp_steps; split; [done|]; by auto].
  destruct (open (oi_cipher identity) account Credential encrypted) as [plaintext|e] eqn:Eo;
    cbn [result_map_err result_bind]; [|wp_steps; split; [done|]; by auto].
  destruct (payload_decode plaintext) as [credential|] eqn:Ep; cbn [ok_or];
    [|wp_steps; split; [done|]; by auto].
  wp_steps. destruct (oi_http_ready identity); cbn [negb]; [|wp_steps; split; [done|]; by auto].
  wp_steps. destruct (identity_answer_at _) as [response|] eqn:Ea; cbn [ok_or];
    [|wp_steps; split; [done|]; eauto].
  wp_steps.
  destruct (identity_of_response response) as [id|e] eqn:Er; wp_steps; (split; [done|]).
  - apply existsb_exists in Es as (scope & Hin & Hscope). apply String.eqb_eq in Hscope as <-.
    exists encrypted, scopes, plaintext, credential, response. split_and!; try done.
    + by apply list_elem_of_In.
    + by eexists.
    + by apply identity_of_response_Ok.
  - split; [by eapply identity_of_response_Err|eauto].
Qed.
End OfficialIdentity.

(** ** A concrete import *)
Module LegacySamples.
Import SampleChrono SampleCrypto SampleContracts.

#[export] Instance sample_identity : CurrentAccountIdentity := {| provider_user_id _ := ret "u1"%string |}.
#[export] Instance sample_identity_reads : ReadOnlyIdentity.
Proof. split. intros env R account HR Hr. simpl. guar_steps. Qed.

Definition sample_legacy (key : string) (explicit from_url : option string) (body : string) : LegacyRecord :=
  mkLegacyRecord key explicit from_url None body (Some 5) None 6 ["go"%string] [] [] (sha256_hex key).

(** A new post, a post known by its URL, a conflict, and a row without identity. *)
Definition sample_batch : PreflightBatch :=
  mkPreflightBatch FieldTheoryJsonl FieldTheoryJsonl1 (sha256_hex "source") 4
    [sample_legacy "a" (Some "41") None "fresh"; sample_legacy "b" None (Some "42") "changed";
     sample_legacy "c" (Some "43") (Some "44") "conflict"; sample_legacy "d" None None "unmapped"]%string.

Definition sample_approval : OwnershipApproval :=
  mkOwnershipApproval 1 5 (sha256_hex "source") (sha256_hex "owner").

(** Post 42 was imported before. *)
Definition sample_account : Db :=
  on_posts (insert "42" (imported_post 70 (sample_legacy "b" (Some "42"%string) None "old")))
    (on_accounts (insert 1 (mkAccount 5 "u1" "connected" 0)) empty_db).

Abbreviation sample_import := (import_batch sample_batch (Some sample_approval)).
Definition sample_world : W := mkWorld sample_account 0 [].

Example sample_counts :
  (sample_import (calm 3) sample_world).1 = Ok (mkImportOutcome 1006 (mkImportCounts 1 0 1 1 0 1) false).
Proof. vm_compute. reflexivity. Qed.

Example sample_repeated :
  (sample_import (calm 9) (sample_import (calm 3) sample_world).2).1 =
    Ok (mkImportOutcome 1006 (mkImportCounts 1 0 1 1 0 1) true).
Proof. vm_compute. reflexivity. Qed.

(** A post that was imported and later normalized from the official provider still counts as imported:
    the upsert of [persist_posts] leaves [normalization_provenance] alone, so the next import replaces
    the official text and marks the post's availability unknown. *)
Definition official_42 : NormalizedPost :=
  mkNormalizedPost 1 "42" "9" "official" None None (Some 8) None Active None None None None None None None
    [] [] [].
Definition after_official_sync : option (Z * Db) := upsert_post 99 20 official_42 sample_account.

Example official_text_is_overwritten :
  match after_official_sync with
  | Some (id, d) =>
      let row := posts d !! "42"%string in
      let w' := (upsert_imported_post "42" (sample_legacy "b" (Some "42"%string) None "legacy") (calm 3)
                   (mkWorld d 0 [])).2 in
      let row' := posts (w_db w') !! "42"%string in
      (pst_text <$> row, pst_availability <$> row, pst_text <$> row', pst_availability <$> row')
  | None => (None, None, None, None)
  end = (Some "official", Some "active", Some "legacy", Some "unknown")%string.
Proof. vm_compute. reflexivity. Qed.

(** A refused identity writes nothing. *)
Example other_identity_is_refused :
  let id : CurrentAccountIdentity := {| provider_user_id _ := ret "u2"%string |} in
  let '(r, w') := @import_batch _ id sample_batch (Some sample_approval) (calm 3) sample_world in
  r = Err CurrentIdentityMismatch ∧ w_db w' = sample_account.
Proof. vm_compute. done. Qed.

Lemma imports_stay_in_their_tables_witness :
  guar (calm 3) (on_db (keeps AuthorityJustified)) (import_batch sample_batch (Some sample_approval)).
Proof.
  apply (imports_stay_in_their_tables (calm 3) (keeps AuthorityJustified) sample_batch (Some sample_approval)).
  - intros d d' H.
    assert (E : (bookmark_snapshot_authority d', snapshots d', sync_runs d', bookmarks d') =
                (bookmark_snapshot_authority d, snapshots d, sync_runs d, bookmarks d)).
    { change ((λ o, (bookmark_snapshot_authority o, snapshots o, sync_runs o, bookmarks o)) (outside_import d') =
              (λ o, (bookmark_snapshot_authority o, snapshots o, sync_runs o, bookmarks o)) (outside_import d)).
      by rewrite (lf_outside _ _ H). }
    injection E as E1 E2 E3 E4. intros [Ha Hr].
    split; unfold complete_for, bookmarks_of; rewrite ?E1, ?E2, ?E3, ?E4; [exact Ha|exact Hr].
  - apply calm_rely. typeclasses eauto.
Defined.

Lemma import_records_exactly_the_batch_witness :
  let '(r, w') := sample_import (calm 3) sample_world in
  r = Ok (mkImportOutcome 1006 (mkImportCounts 1 0 1 1 0 1) false) ∧
  import_recorded sample_batch sample_approval (mkImportOutcome 1006 (mkImportCounts 1 0 1 1 0 1) false)
    sample_account (w_db w') ∧
  posts_exact (records sample_batch) (mkImportCounts 1 0 1 1 0 1) (posts sample_account) (posts (w_db w')).
Proof.
  pose proof (import_records_exactly_the_batch (calm 3) sample_batch (Some sample_approval) sample_world
    (λ _ _, eq_refl)) as H. unfold wp in H. pose proof sample_counts as Hr.
  destruct (sample_import (calm 3) sample_world) as [r w']. cbn [fst snd] in *. subst r.
  destruct H as (a & [= <-] & H). split_and!; [done|done|]. destruct H as [_ [(Hreused & _)|He]]; [done|].
  apply (ie_exact _ _ _ _ _ He). intros x y row row'. change (posts (w_db sample_world)) with
    ({[ "42"%string := imported_post 70 (sample_legacy "b" (Some "42"%string) None "old") ]} : gmap string PostRow).
  by intros [<- _]%lookup_singleton_Some [<- _]%lookup_singleton_Some.
Defined.

Lemma repeated_imports_are_idempotent_witness :
  wp (calm 9) sample_import (λ r w', w_db w' = w_db (sample_import (calm 3) sample_world).2 ∧ match r with
    | Ok again => io_run_id again = 1006 ∧ io_counts again = mkImportCounts 1 0 1 1 0 1 ∧ io_reused again = true
    | Err _ => True
    end) (sample_import (calm 3) sample_world).2.
Proof.
  apply (repeated_imports_are_idempotent (calm 3) (calm 9) sample_batch (Some sample_approval)
    (mkImportOutcome 1006 (mkImportCounts 1 0 1 1 0 1) false) sample_world
    (sample_import (calm 3) sample_world).2).
  - done.
  - done.
  - vm_compute. reflexivity.
  - reflexivity.
Defined.
End LegacySamples.
