(* ===== verification/LegacyReview.v ===== *)
(** * Shadow reports, checklists and owner decisions
      ([crates/x-sync/src/legacy_transition/{service,shadow}.rs])

    The review half of the legacy transition: a report compares one completed import with the
    account's authoritative snapshot, a checklist is generated from a persisted report, and an owner
    decision is recorded for exactly one checklist. Each is one transaction; a decision generates its
    checklist first, in a transaction of its own. *)
From S2P Require Export LegacyTransition.

Section Review.
Context {ct : Contracts} {cr : Crypto}.

(** ** The snapshot with absence authority *)

Definition authoritative_snapshot (account snapshot_id : Z) (d : Db) : option Z :=
  authority ← bookmark_snapshot_authority d !! account;
  snapshot ← snapshots d !! auth_snapshot_id authority;
  run ← sync_runs d !! snap_sync_run_id snapshot;
  if (auth_snapshot_id authority =? snapshot_id) && (run_account_id run =? account) &&
     String.eqb (run_run_type run) "full" && String.eqb (run_state run) "completed" &&
     bool_decide (is_Some (run_finished_at run)) && bool_decide (run_checkpoint run = None) &&
     snap_complete snapshot && bool_decide (is_Some (snap_completed_at snapshot)) &&
     (snap_page_count snapshot =? run_pages_fetched run)
  then Some (auth_snapshot_id authority) else None.

(** [require_current_authoritative_snapshot]. *)
Definition require_current_authoritative_snapshot (account snapshot_id : Z) :
    Prog LegacyTransitionError unit :=
  let! snapshot := select DatabaseFailed (authoritative_snapshot account snapshot_id) in
  match snapshot with Some _ => ret tt | None => throw SnapshotNotAuthoritative end.

(** ** Reports *)

Definition import_available (account run_id : Z) (d : Db) : bool :=
  match legacy_import_runs d !! run_id with
  | Some row => (lr_account_id row =? account) && String.eqb (lr_status row) "completed"
  | None => false
  end.

(** The two queries of [load_shadow_rows]. *)
Definition shadow_row_of (item : ImportItem) : ShadowLegacyRow :=
  mkShadowLegacyRow (li_source_row_digest item) (li_provider_post_id item) (li_content_digest item)
    (li_legacy_category_metadata item) (li_legacy_folder_metadata item) (li_resolution item).
Definition items_of_run (run_id : Z) (d : Db) : list ImportItem :=
  omap (λ kv : Z * string * ImportItem, if kv.1.1 =? run_id then Some kv.2 else None)
    (map_to_list (legacy_import_items d)).
Definition shadow_rows (run_id : Z) (d : Db) : list ShadowLegacyRow :=
  sort (λ a b, str_leb (row_digest a) (row_digest b)) (shadow_row_of <$> items_of_run run_id d).

Definition staged_post (snapshot_id : Z) (d : Db) (kv : string * PostRow) : option (string * string) :=
  if bool_decide (is_Some (staged snapshot_id d !! pst_id kv.2)) then Some (kv.1, pst_text kv.2) else None.
Definition official_rows (snapshot_id : Z) (d : Db) : list (string * string) :=
  sort (λ a b, str_leb a.1 b.1) (omap (staged_post snapshot_id d) (map_to_list (posts d))).

Definition load_shadow_rows (run_id snapshot_id : Z) :
    Prog LegacyTransitionError (list ShadowLegacyRow * list (string * string)) :=
  let! legacy := select DatabaseFailed (shadow_rows run_id) in
  let! official := select DatabaseFailed (official_rows snapshot_id) in
  ret (legacy, official).

Definition OWNER_REVIEW_REQUIRED : string := "owner_review_required".
Definition REVIEWABLE : string := "reviewable".

Definition report_row (report : ShadowReport) : ShadowReportRow :=
  mkShadowReportRow (rp_account_id report) (rp_import_run_id report) (rp_snapshot_id report)
    (rp_import_digest report) (rp_snapshot_digest report) (report_value report)
    (report_digest_of report) OWNER_REVIEW_REQUIRED.

(** The conflict target of the insert, and the key the second query reads. *)
Definition same_comparison (report : ShadowReport) (row : ShadowReportRow) : bool :=
  (lsr_account_id row =? rp_account_id report) && (lsr_import_run_id row =? rp_import_run_id report) &&
  (lsr_snapshot_id row =? rp_snapshot_id report) &&
  String.eqb (lsr_import_digest row) (rp_import_digest report) &&
  String.eqb (lsr_snapshot_digest row) (rp_snapshot_digest report).
Definition existing_report (report : ShadowReport) (d : Db) : option (Z * ShadowReportRow) :=
  find_row (λ _ row, same_comparison report row) (legacy_shadow_reports d).

(** Another report of the account with the same digest violates the table's second unique key. *)
Definition digest_taken (report : ShadowReport) (d : Db) : bool :=
  bool_decide (is_Some (find_row (λ _ row, (lsr_account_id row =? rp_account_id report) &&
                                   String.eqb (lsr_report_digest row) (report_digest_of report))
                          (legacy_shadow_reports d))).

Definition insert_report (id : Z) (report : ShadowReport) (d : Db) : option (option Z * Db) :=
  match existing_report report d with
  | Some _ => Some (None, d)
  | None =>
      if digest_taken report d then None
      else
        table ← insert_new id (report_row report) (legacy_shadow_reports d);
        Some (Some id, on_legacy_shadow_reports (λ _, table) d)
  end.

(** [persist_shadow_report]. *)
Definition persist_shadow_report (report : ShadowReport) :
    Prog LegacyTransitionError (Z * string * bool) :=
  let! fresh := new_uuid in
  let! inserted := stmt DatabaseFailed (insert_report fresh report) in
  match inserted with
  | Some report_id => ret (report_id, report_digest_of report, false)
  | None =>
      let! existing := stmt DatabaseFailed (λ d, row ← existing_report report d; Some (row, d)) in
      if negb (String.eqb (lsr_report_digest existing.2) (report_digest_of report))
      then throw DatabaseFailed
      else ret (existing.1, report_digest_of report, true)
  end.

Definition shadow_report_body (account run_id snapshot_id : Z) :
    Prog LegacyTransitionError (ending ShadowReportOutcome) :=
  let! available := select DatabaseFailed (import_available account run_id) in
  if negb available then throw ImportRunUnavailable
  else
    do! require_current_authoritative_snapshot account snapshot_id in
    let! (legacy, official) := load_shadow_rows run_id snapshot_id in
    let! report := of_result (build_shadow_report account run_id snapshot_id legacy official) in
    let! (report_id, report_digest, reused) := persist_shadow_report report in
    ret (Commit (mkShadowReportOutcome report_id report_digest report reused)).

(** [shadow_report_for]. *)
Definition shadow_report_for (account run_id snapshot_id : Z) :
    Prog LegacyTransitionError ShadowReportOutcome :=
  transaction DatabaseFailed (shadow_report_body account run_id snapshot_id).

(** ** Checklists *)

Definition is_current (row : ApprovalRow) : bool := bool_decide (la_superseded_at row = None).

Definition superseded (at_ : Z) (row : ApprovalRow) : ApprovalRow :=
  mkApprovalRow (la_account_id row) (la_internal_owner_id row) (la_shadow_report_id row)
    (la_checklist_digest row) (la_owner_evidence_digest row) (la_decision row) (la_decided_at row)
    (Some at_).

Definition with_review_state (state : string) (row : ShadowReportRow) : ShadowReportRow :=
  mkShadowReportRow (lsr_account_id row) (lsr_import_run_id row) (lsr_snapshot_id row)
    (lsr_import_digest row) (lsr_snapshot_digest row) (lsr_report_payload row) (lsr_report_digest row)
    state.

(** The current approvals of the account that satisfy [stale]. *)
Definition stale_approval (account : Z) (stale : ApprovalRow → bool) (row : ApprovalRow) : bool :=
  (la_account_id row =? account) && is_current row && stale row.
Definition stale_reports (account : Z) (stale : ApprovalRow → bool) (d : Db) : list Z :=
  omap (λ kv : Z * ApprovalRow, if stale_approval account stale kv.2 then Some (la_shadow_report_id kv.2) else None)
    (map_to_list (legacy_transition_approvals d)).
Definition supersede (account at_ : Z) (stale : ApprovalRow → bool) (d : Db) : Db :=
  on_legacy_transition_approvals
    (fmap (λ row, if stale_approval account stale row then superseded at_ row else row)) d.

(** [reset_report_reviewability]. *)
Definition reset_reports (account : Z) (ids : list Z) (d : Db) : Db :=
  on_legacy_shadow_reports
    (map_imap (λ id row, Some (if (lsr_account_id row =? account) && bool_decide (id ∈ ids)
                               then with_review_state OWNER_REVIEW_REQUIRED row else row))) d.
Definition reset_report_reviewability (account : Z) (ids : list Z) : Prog LegacyTransitionError unit :=
  execute DatabaseFailed (reset_reports account ids).

(** [supersede_approvals_for_new_report]. *)
Definition supersede_approvals_for_new_report (account report_id : Z) :
    Prog LegacyTransitionError unit :=
  let other row := negb (la_shadow_report_id row =? report_id) in
  let! stale := select DatabaseFailed (stale_reports account other) in
  if bool_decide (stale = []) then ret tt
  else
    let! now := pg_now in
    do! execute DatabaseFailed (supersede account now other) in
    reset_report_reviewability account stale.

(** The report and its import run, joined. *)
Definition checklist_source (account report_id : Z) (d : Db) : option (ShadowReportRow * ImportRun) :=
  report ← legacy_shadow_reports d !! report_id;
  run ← legacy_import_runs d !! lsr_import_run_id report;
  if (lsr_account_id report =? account) && (lr_account_id run =? account) then Some (report, run) else None.

(** [i32]'s and [u64]'s [Display]. *)
Definition int_text (z : Z) : string := if z <? 0 then "-" +:+ decimal (- z) else decimal z.
Definition tick_quoted (s : string) : string := "`" +:+ s +:+ "`".

Definition checklist_lines (account report_id : Z) (report : ShadowReportRow) (run : ImportRun)
    (summary : ShadowSummary) : list string :=
  ["# Field Theory cutover checklist"; "";
   "Account: " +:+ tick_quoted (uuid_text account) +:+ "  ";
   "Import run: " +:+ tick_quoted (uuid_text (lsr_import_run_id report)) +:+ "  ";
   "Shadow report: " +:+ tick_quoted (uuid_text report_id) +:+ "  ";
   "Complete snapshot: " +:+ tick_quoted (uuid_text (lsr_snapshot_id report)); "";
   "## Backup"; "";
   "- [ ] Confirm the read-only legacy archive backup and PostgreSQL backup are retained."; "";
   "## Import counts"; "";
   "- Inserted: " +:+ int_text (lr_inserted_count run);
   "- Matched: " +:+ int_text (lr_matched_count run);
   "- Updated: " +:+ int_text (lr_updated_count run);
   "- Conflicted: " +:+ int_text (lr_conflicted_count run);
   "- Rejected: " +:+ int_text (lr_rejected_count run);
   "- Unmapped: " +:+ int_text (lr_unmapped_count run);
   "- Import digest: " +:+ tick_quoted (lsr_import_digest report); "";
   "## Complete official snapshot"; "";
   "- [ ] Confirm snapshot " +:+ tick_quoted (uuid_text (lsr_snapshot_id report)) +:+
     " remains the current complete successful full snapshot.";
   "- Snapshot digest: " +:+ tick_quoted (lsr_snapshot_digest report); "";
   "## Shadow findings"; "";
   "- Provider-ID matched: " +:+ int_text (su_matched summary);
   "- URL matched: " +:+ int_text (su_url_matched summary);
   "- Legacy only: " +:+ int_text (su_legacy_only summary);
   "- Official only: " +:+ int_text (su_official_only summary);
   "- Identity conflicts: " +:+ int_text (su_identity_conflicts summary);
   "- Unmapped: " +:+ int_text (su_unmapped summary);
   "- Report digest: " +:+ tick_quoted (lsr_report_digest report); "";
   "## Privacy and cost review"; "";
   "- [ ] Confirm no cookies, tokens, sessions, source paths, post bodies, URLs, or handles entered evidence records.";
   "- [ ] Confirm the official full snapshot cost and rate-limit evidence are accepted."; "";
   "## Workspace changeset"; "";
   "- [ ] Approve a separate `ratatoskr-workspace` changeset before any external routing change."; "";
   "## Stability window"; "";
   "- [ ] Record the owner-approved shadow stability window and monitoring owner."; "";
   "## Rollback"; "";
   "1. Stop the external routing rollout in the workspace changeset.";
   "2. Restore the previous routing revision; do not delete imported, report, or approval evidence.";
   "3. Re-run `shadow-report` against the current complete official snapshot before another approval."; "";
   "## Evidence retention"; "";
   "- [ ] Retain the legacy source unchanged, import run, shadow JSON, this checklist, owner decision evidence, and rollback record.";
   ""]%string.

(** [report_payload.get("summary")] and its six counts, in the order of the format arguments. *)
Definition summary_members_of (payload : Value) : Checked Members :=
  match payload with
  | Object members =>
      match obj_get "summary" members with Some (Object summary) => Ok summary | _ => Err DatabaseFailed end
  | _ => Err DatabaseFailed
  end.
Definition summary_counts (payload : Value) : Checked ShadowSummary :=
  let? summary := summary_members_of payload in
  let? matched := report_summary_count summary "matched" in
  let? url_matched := report_summary_count summary "url_matched" in
  let? legacy_only := report_summary_count summary "legacy_only" in
  let? official_only := report_summary_count summary "official_only" in
  let? identity_conflicts := report_summary_count summary "identity_conflicts" in
  let? unmapped := report_summary_count summary "unmapped" in
  Ok (mkShadowSummary matched url_matched legacy_only official_only identity_conflicts unmapped).

Definition checklist_of (account report_id : Z) (report : ShadowReportRow) (run : ImportRun) :
    Checked ChecklistOutcome :=
  let? summary := summary_counts (lsr_report_payload report) in
  let markdown := str_join (String LF "") (checklist_lines account report_id report run summary) in
  Ok (mkChecklistOutcome markdown (sha256_hex markdown) report_id).

Definition checklist_body (account report_id : Z) :
    Prog LegacyTransitionError (ending ChecklistOutcome) :=
  let! source := select DatabaseFailed (checklist_source account report_id) in
  let! (report, run) := of_result (ok_or source ShadowReportUnavailable) in
  do! require_current_authoritative_snapshot account (lsr_snapshot_id report) in
  do! supersede_approvals_for_new_report account report_id in
  let! checklist := of_result (checklist_of account report_id report run) in
  ret (Commit checklist).

(** [checklist_for]. *)
Definition checklist_for (account report_id : Z) : Prog LegacyTransitionError ChecklistOutcome :=
  transaction DatabaseFailed (checklist_body account report_id).

(** ** Decisions *)

Definition decision_name (decision : ApprovalDecision) : string :=
  match decision with Approved => "approved" | Rejected => "rejected" end.
Definition review_state_of (decision : ApprovalDecision) : string :=
  match decision with Approved => REVIEWABLE | Rejected => OWNER_REVIEW_REQUIRED end.

Definition same_decision (request : TransitionApprovalRequest) (row : ApprovalRow) : bool :=
  (la_account_id row =? tr_account_id request) && (la_shadow_report_id row =? tr_shadow_report_id request) &&
  String.eqb (la_checklist_digest row) (tr_checklist_digest request) &&
  String.eqb (la_owner_evidence_digest row) (tr_owner_evidence_digest request) &&
  String.eqb (la_decision row) (decision_name (tr_decision request)).
Definition existing_decision (request : TransitionApprovalRequest) (d : Db) : option (Z * ApprovalRow) :=
  find_row (λ _ row, same_decision request row) (legacy_transition_approvals d).

Definition report_snapshot (account report_id : Z) (d : Db) : option Z :=
  report ← legacy_shadow_reports d !! report_id;
  if lsr_account_id report =? account then Some (lsr_snapshot_id report) else None.

(** [validate_approval_target]. *)
Definition validate_approval_target (request : TransitionApprovalRequest) :
    Prog LegacyTransitionError (option Z) :=
  let! owner := select DatabaseFailed (λ d, acc_internal_user_id <$> accounts d !! tr_account_id request) in
  if negb (bool_decide (owner = Some (tr_internal_owner_id request))) then throw InvalidOwnershipApproval
  else
    let! snapshot := select DatabaseFailed
                       (report_snapshot (tr_account_id request) (tr_shadow_report_id request)) in
    let! snapshot_id := of_result (ok_or snapshot ShadowReportUnavailable) in
    do! require_current_authoritative_snapshot (tr_account_id request) snapshot_id in
    let! existing := select DatabaseFailed (existing_decision request) in
    match existing with
    | Some (approval_id, row) =>
        if is_current row then ret (Some approval_id) else throw ChecklistDigestMismatch
    | None => ret None
    end.

(** [supersede_current_approvals]. *)
Definition supersede_current_approvals (account decided_at : Z) : Prog LegacyTransitionError unit :=
  let! stale := select DatabaseFailed (stale_reports account (λ _, true)) in
  if bool_decide (stale = []) then ret tt
  else
    do! execute DatabaseFailed (supersede account decided_at (λ _, true)) in
    reset_report_reviewability account stale.

Definition approval_row (request : TransitionApprovalRequest) : ApprovalRow :=
  mkApprovalRow (tr_account_id request) (tr_internal_owner_id request) (tr_shadow_report_id request)
    (tr_checklist_digest request) (tr_owner_evidence_digest request) (decision_name (tr_decision request))
    (tr_decided_at request) None.

(** One decision per evidence, and one current decision per account. *)
Definition insert_approval (id : Z) (request : TransitionApprovalRequest) (d : Db) : option (Z * Db) :=
  if valid_sha256 (tr_checklist_digest request) && valid_sha256 (tr_owner_evidence_digest request) &&
     bool_decide (existing_decision request d = None) &&
     bool_decide (stale_reports (tr_account_id request) (λ _, true) d = [])
  then
    table ← insert_new id (approval_row request) (legacy_transition_approvals d);
    Some (id, on_legacy_transition_approvals (λ _, table) d)
  else None.

Definition reviewed (account report_id : Z) (state : string) (d : Db) : Db :=
  on_legacy_shadow_reports
    (alter (λ row, if lsr_account_id row =? account then with_review_state state row else row) report_id) d.

Definition approval_body (request : TransitionApprovalRequest) :
    Prog LegacyTransitionError (ending TransitionApprovalOutcome) :=
  let! existing := validate_approval_target request in
  match existing with
  | Some approval_id => ret (Commit (mkTransitionApprovalOutcome approval_id true))
  | None =>
      do! supersede_current_approvals (tr_account_id request) (tr_decided_at request) in
      let! fresh := new_uuid in
      let! approval_id := stmt DatabaseFailed (insert_approval fresh request) in
      do! execute DatabaseFailed (reviewed (tr_account_id request) (tr_shadow_report_id request)
            (review_state_of (tr_decision request))) in
      ret (Commit (mkTransitionApprovalOutcome approval_id false))
  end.

(** [record_transition_approval]. *)
Definition record_transition_approval (request : TransitionApprovalRequest) :
    Prog LegacyTransitionError TransitionApprovalOutcome :=
  if negb (valid_sha256 (tr_owner_evidence_digest request)) ||
     negb (valid_sha256 (tr_checklist_digest request))
  then throw ChecklistDigestMismatch
  else
    let! checklist := checklist_for (tr_account_id request) (tr_shadow_report_id request) in
    if negb (String.eqb (co_checklist_digest checklist) (tr_checklist_digest request))
    then throw ChecklistDigestMismatch
    else transaction DatabaseFailed (approval_body request).
End Review.

(** ** Reviews stay justified *)

(** Every decision is about a report of its account; an account has at most one current decision; and
    a report is reviewable exactly while the current decision on it is an approval. *)
Record ReviewsJustified (d : Db) : Prop := {
  rj_report id row : legacy_transition_approvals d !! id = Some row →
    ∃ report, legacy_shadow_reports d !! la_shadow_report_id row = Some report ∧
      lsr_account_id report = la_account_id row;
  rj_current id id' row row' : legacy_transition_approvals d !! id = Some row →
    legacy_transition_approvals d !! id' = Some row' → is_current row = true → is_current row' = true →
    la_account_id row = la_account_id row' → id = id';
  rj_reviewable id report : legacy_shadow_reports d !! id = Some report →
    lsr_review_state report = REVIEWABLE ↔
      ∃ aid row, legacy_transition_approvals d !! aid = Some row ∧ is_current row = true ∧
        la_shadow_report_id row = id ∧ la_decision row = "approved"%string;
}.

Section ReviewTheorems.
Context {ct : Contracts} {cr : Crypto}.

(** What a statement leaves of the approvals and reports; nothing else matters to reviews. *)
Lemma justified_ext d d' :
  legacy_transition_approvals d' = legacy_transition_approvals d →
  legacy_shadow_reports d' = legacy_shadow_reports d → ReviewsJustified d → ReviewsJustified d'.
Proof. intros Ha Hr [H1 H2 H3]. split; rewrite Ha, ?Hr; [exact H1|exact H2|exact H3]. Qed.

Lemma elem_of_stale_reports account stale d id :
  id ∈ stale_reports account stale d ↔
    ∃ aid row, legacy_transition_approvals d !! aid = Some row ∧
      stale_approval account stale row = true ∧ la_shadow_report_id row = id.
Proof.
  unfold stale_reports. rewrite list_elem_of_omap. split.
  - intros ([aid row] & Hin%elem_of_map_to_list & H). exists aid, row. simpl in H.
    destruct (stale_approval account stale row); [|done]. by injection H.
  - intros (aid & row & Hl & Hs & <-). exists (aid, row). rewrite elem_of_map_to_list. simpl.
    by rewrite Hs.
Qed.

Lemma stale_approval_spec account stale row :
  stale_approval account stale row = true ↔
    la_account_id row = account ∧ is_current row = true ∧ stale row = true.
Proof. unfold stale_approval. rewrite !andb_true_iff, Z.eqb_eq. tauto. Qed.

(** The approvals after a supersession, and the reports after the reset that follows it. *)
Definition settle (account at_ : Z) (stale : ApprovalRow → bool) (d : Db) : Db :=
  reset_reports account (stale_reports account stale d) (supersede account at_ stale d).

Lemma lookup_settled_approval account at_ stale d id :
  legacy_transition_approvals (settle account at_ stale d) !! id =
    (λ row, if stale_approval account stale row then superseded at_ row else row)
      <$> legacy_transition_approvals d !! id.
Proof. unfold settle, reset_reports, supersede. cbn. by rewrite lookup_fmap. Qed.

Lemma lookup_settled_report account at_ stale d id :
  legacy_shadow_reports (settle account at_ stale d) !! id =
    (λ row, if (lsr_account_id row =? account) && bool_decide (id ∈ stale_reports account stale d)
            then with_review_state OWNER_REVIEW_REQUIRED row else row)
      <$> legacy_shadow_reports d !! id.
Proof.
  unfold settle, reset_reports, supersede. cbn. rewrite map_lookup_imap.
  by destruct (legacy_shadow_reports d !! id).
Qed.

(** A decision that is current after a supersession was current before it and is not stale. *)
Lemma settled_current account at_ stale d id row' :
  legacy_transition_approvals (settle account at_ stale d) !! id = Some row' → is_current row' = true →
  legacy_transition_approvals d !! id = Some row' ∧ stale_approval account stale row' = false.
Proof.
  rewrite lookup_settled_approval. destruct (legacy_transition_approvals d !! id) as [row|]; [|done].
  simpl. destruct (stale_approval account stale row) eqn:E; intros [= <-] Hc; done.
Qed.

Lemma settle_justified account at_ stale d :
  ReviewsJustified d → ReviewsJustified (settle account at_ stale d).
Proof.
  intros [H1 H2 H3]. split.
  - intros id row'. rewrite lookup_settled_approval.
    destruct (legacy_transition_approvals d !! id) as [row|] eqn:E; [|done]. intros [= <-].
    destruct (H1 id row E) as (report & Hr & Ha).
    assert (Hid : la_shadow_report_id (if stale_approval account stale row then superseded at_ row else row)
              = la_shadow_report_id row) by by destruct (stale_approval _ _ _).
    rewrite Hid, lookup_settled_report, Hr. eexists. split; [done|].
    by destruct (_ && _), (stale_approval _ _ _).
  - intros id id' row row' Hl Hl' Hc Hc' Ha. apply settled_current in Hl as [Hl _]; [|done].
    apply settled_current in Hl' as [Hl' _]; [|done]. by eapply H2.
  - intros id report'. rewrite lookup_settled_report.
    destruct (legacy_shadow_reports d !! id) as [report|] eqn:Er; [|done]. intros [= <-]. split.
    + intros Hstate. destruct (_ && _) eqn:E; [done|].
      apply (H3 id report Er) in Hstate as (aid & row & Hl & Hc & Hid & Hd).
      destruct (stale_approval account stale row) eqn:Es.
      * apply andb_false_iff in E as [E|E].
        -- apply Z.eqb_neq in E. apply stale_approval_spec in Es as (Ha & _ & _).
           destruct (H1 aid row Hl) as (report2 & Hr2 & Ha2). subst id. congruence.
        -- apply bool_decide_eq_false in E. destruct E. apply elem_of_stale_reports. eauto.
      * exists aid, row. rewrite lookup_settled_approval, Hl. simpl. by rewrite Es.
    + intros (aid & row & Hl & Hc & Hid & Hd). apply settled_current in Hl as [Hl Hs]; [|done].
      rewrite bool_decide_eq_false_2; [rewrite andb_false_r; apply (H3 id report Er); eauto 6|].
      intros (aid2 & row2 & Hl2 & Hs2 & Hid2)%elem_of_stale_reports.
      pose proof (proj1 (stale_approval_spec _ _ _) Hs2) as (Ha2 & Hc2 & _).
      destruct (H1 _ _ Hl) as (r1 & Hr1 & Hra1), (H1 _ _ Hl2) as (r2 & Hr2 & Hra2).
      assert (aid = aid2) as <- by (eapply H2; [exact Hl|exact Hl2|done|done|congruence]). congruence.
Qed.

(** Without current decisions on the account, a new decision about one of its reports, with the review
    state it calls for, keeps reviews justified. *)
Lemma insert_approval_Some id request d aid d' :
  insert_approval id request d = Some (aid, d') →
  aid = id ∧ legacy_transition_approvals d !! id = None ∧
  stale_reports (tr_account_id request) (λ _, true) d = [] ∧
  valid_sha256 (tr_checklist_digest request) = true ∧
  d' = on_legacy_transition_approvals (λ _, <[id := approval_row request]> (legacy_transition_approvals d)) d.
Proof.
  unfold insert_approval, insert_new. destruct (_ && _) eqn:E; [|done].
  rewrite !andb_true_iff, !bool_decide_eq_true in E. destruct E as [[[Hv _] _] Hs].
  destruct (legacy_transition_approvals d !! id); [done|]. by intros [= <- <-].
Qed.

Lemma no_current account d aid row :
  stale_reports account (λ _, true) d = [] → legacy_transition_approvals d !! aid = Some row →
  la_account_id row = account → is_current row = false.
Proof.
  intros Hs Hl Ha. destruct (is_current row) eqn:Hc; [|done].
  assert (Hin : la_shadow_report_id row ∈ stale_reports account (λ _, true) d).
  { apply elem_of_stale_reports. exists aid, row. split_and!; [done| |done]. by apply stale_approval_spec. }
  rewrite Hs in Hin. by apply elem_of_nil in Hin.
Qed.

Lemma decision_justified request report id d :
  ReviewsJustified d → legacy_transition_approvals d !! id = None →
  stale_reports (tr_account_id request) (λ _, true) d = [] →
  legacy_shadow_reports d !! tr_shadow_report_id request = Some report →
  lsr_account_id report = tr_account_id request →
  ReviewsJustified (reviewed (tr_account_id request) (tr_shadow_report_id request)
    (review_state_of (tr_decision request))
    (on_legacy_transition_approvals (λ _, <[id := approval_row request]> (legacy_transition_approvals d)) d)).
Proof.
  intros [H1 H2 H3] Hn Hs Hr Ha.
  assert (Hrep : ∀ rid, legacy_shadow_reports (reviewed (tr_account_id request) (tr_shadow_report_id request)
      (review_state_of (tr_decision request)) d) !! rid =
    if decide (rid = tr_shadow_report_id request)
    then Some (with_review_state (review_state_of (tr_decision request)) report)
    else legacy_shadow_reports d !! rid).
  { intros rid. unfold reviewed. cbn [legacy_shadow_reports on_legacy_shadow_reports].
    destruct (decide (rid = tr_shadow_report_id request)) as [E|E].
    - rewrite E, lookup_alter_eq, Hr. simpl. by rewrite Ha, Z.eqb_refl.
    - by rewrite lookup_alter_ne. }
  unfold reviewed in *. split; cbn in *.
  - intros aid row [[<- <-]|[_ Hl]]%lookup_insert_Some; rewrite ?Hrep.
    + simpl. rewrite decide_True by done. by eexists.
    + destruct (H1 aid row Hl) as (r & Hlr & Har). destruct (decide _) as [E|]; [|eauto].
      rewrite E, Hr in Hlr. injection Hlr as <-. by eexists.
  - intros a1 a2 r1 r2 [[<- <-]|[_ Hl1]]%lookup_insert_Some [[<- <-]|[_ Hl2]]%lookup_insert_Some Hc1 Hc2 Hacc;
      [done| | |by eapply H2]; simpl in Hacc.
    + by rewrite (no_current _ _ _ _ Hs Hl2) in Hc2.
    + by rewrite (no_current _ _ _ _ Hs Hl1) in Hc1.
  - intros rid r. rewrite Hrep. destruct (decide _) as [->|Hne].
    + intros [= <-]. simpl. split.
      * intros Hstate. exists id, (approval_row request). rewrite lookup_insert_eq.
        unfold approval_row. by destruct (tr_decision request).
      * intros (aid & row & [[<- <-]|[_ Hl]]%lookup_insert_Some & Hc & Hid & Hd);
          [unfold approval_row in Hd; by destruct (tr_decision request)|].
        destruct (H1 aid row Hl) as (r' & Hlr & Har). rewrite Hid, Hr in Hlr. injection Hlr as <-.
        rewrite (no_current _ _ _ _ Hs Hl) in Hc; [done|congruence].
    + intros Hl. rewrite (H3 rid r Hl). split.
      * intros (aid & row & Hla & Hrest). exists aid, row. rewrite lookup_insert_ne by congruence. done.
      * intros (aid & row & [[<- <-]|[_ Hla]]%lookup_insert_Some & Hc & Hid & Hd); [done|]. by exists aid, row.
Qed.

Lemma insert_report_Some id report d r d' :
  insert_report id report d = Some (r, d') →
  (r = None ∧ d' = d ∧ is_Some (existing_report report d)) ∨
  (r = Some id ∧ existing_report report d = None ∧ legacy_shadow_reports d !! id = None ∧
   d' = on_legacy_shadow_reports (λ _, <[id := report_row report]> (legacy_shadow_reports d)) d).
Proof.
  unfold insert_report, insert_new. destruct (existing_report report d) as [e|] eqn:Ex;
    [intros [= <- <-]; left; eauto|]. destruct (digest_taken report d); [done|].
  destruct (legacy_shadow_reports d !! id) eqn:El; [done|]. intros [= <- <-]. by right.
Qed.

Lemma insert_report_justified id report d :
  ReviewsJustified d → legacy_shadow_reports d !! id = None →
  ReviewsJustified (on_legacy_shadow_reports (λ _, <[id := report_row report]> (legacy_shadow_reports d)) d).
Proof.
  intros [H1 H2 H3] Hn. split; cbn; [|exact H2|].
  - intros aid row Hl. destruct (H1 aid row Hl) as (r & Hr & Ha). exists r.
    by rewrite lookup_insert_ne by congruence.
  - intros rid r [[<- <-]|[_ Hl]]%lookup_insert_Some; [|by apply H3]. simpl. split; [done|].
    intros (aid & row & Hl & _ & Hid & _). destruct (H1 aid row Hl) as (r & Hr & _). congruence.
Qed.

(** *** Programs *)

(** What a supersession leaves: nothing was stale and nothing changed, or the account is settled. *)
Definition settled (account : Z) (stale : ApprovalRow → bool) (d d' : Db) : Prop :=
  (stale_reports account stale d = [] ∧ d' = d) ∨ ∃ at_, d' = settle account at_ stale d.

Lemma settled_keeps account stale d d' :
  settled account stale d d' → ReviewsJustified d → ReviewsJustified d'.
Proof. intros [[_ ->]|[at_ ->]] H; [done|by apply settle_justified]. Qed.

Lemma settled_report account stale d d' id report :
  settled account stale d d' → legacy_shadow_reports d !! id = Some report →
  ∃ state, legacy_shadow_reports d' !! id = Some (with_review_state state report).
Proof.
  intros [[_ ->]|[at_ ->]] H; [exists (lsr_review_state report); by destruct report|].
  rewrite lookup_settled_report, H. simpl. destruct (_ && _); eexists; [done|].
  by instantiate (1 := lsr_review_state report); destruct report.
Qed.

(** Superseding every current decision of an account leaves none. *)
Lemma settled_no_current account d d' :
  settled account (λ _, true) d d' → stale_reports account (λ _, true) d' = [].
Proof.
  intros [[H ->]|[at_ ->]]; [done|]. destruct (stale_reports _ _ _) as [|id ids] eqn:E; [done|].
  assert (Hin : id ∈ stale_reports account (λ _, true) (settle account at_ (λ _, true) d))
    by (rewrite E; by left).
  apply elem_of_stale_reports in Hin as (aid & row & Hl & Hs & _).
  pose proof (proj1 (stale_approval_spec _ _ _) Hs) as (_ & Hc & _).
  apply settled_current in Hl as [_ Hl]; [congruence|done].
Qed.

Lemma settled_elsewhere account stale d d' :
  settled account stale d d' →
  accounts d' = accounts d ∧ legacy_import_runs d' = legacy_import_runs d ∧
  ∀ a id, authoritative_snapshot a id d' = authoritative_snapshot a id d.
Proof. by intros [[_ ->]|[at_ ->]]. Qed.

Lemma supersede_approvals_for_new_report_settles env account report_id (w : W) :
  yields env (supersede_approvals_for_new_report account report_id)
    (λ _ w', settled account (λ row, negb (la_shadow_report_id row =? report_id)) (w_db w) (w_db w')) w.
Proof.
  unfold supersede_approvals_for_new_report, reset_report_reviewability. yields_steps.
  case_bool_decide as E; yields_steps; [by left|]. right. by eexists.
Qed.

Lemma supersede_current_approvals_settles env account at_ (w : W) :
  yields env (supersede_current_approvals account at_)
    (λ _ w', settled account (λ _, true) (w_db w) (w_db w')) w.
Proof.
  unfold supersede_current_approvals, reset_report_reviewability. yields_steps.
  case_bool_decide as E; yields_steps; [by left|]. right. by eexists.
Qed.

Lemma require_authority env account snapshot_id (w : W) :
  yields env (require_current_authoritative_snapshot account snapshot_id)
    (λ _ w', w_db w' = w_db w ∧ is_Some (authoritative_snapshot account snapshot_id (w_db w))) w.
Proof.
  unfold require_current_authoritative_snapshot. yields_steps.
  destruct (authoritative_snapshot _ _ _) eqn:E; yields_steps. by split.
Qed.

(** What a checklist certifies, and the digest a decision must repeat. *)
Definition checklist_certified (account report_id : Z) (checklist : ChecklistOutcome) (d : Db) : Prop :=
  ∃ report run, checklist_source account report_id d = Some (report, run) ∧
    is_Some (authoritative_snapshot account (lsr_snapshot_id report) d) ∧
    checklist_of account report_id report run = Ok checklist.

Lemma checklist_body_yields env account report_id (w : W) :
  yields env (checklist_body account report_id) (λ e w', match e with
    | Commit checklist => checklist_certified account report_id checklist (w_db w) ∧
        settled account (λ row, negb (la_shadow_report_id row =? report_id)) (w_db w) (w_db w')
    | _ => False
    end) w.
Proof.
  unfold checklist_body. yields_steps. intros [report run] Hs.
  destruct (checklist_source _ _ _) as [source|] eqn:E; [|done]. injection Hs as ->. yields_steps.
  eapply yields_mono; [apply require_authority|]. intros _ w1 [H1 Ha]. cbn [w_db tick] in *. yields_steps.
  eapply yields_mono; [apply supersede_approvals_for_new_report_settles|]. rewrite H1. intros _ w2 H2.
  yields_steps. intros checklist Hc. split; [|exact H2]. by exists report, run.
Qed.

Lemma checklist_source_Some account report_id d report run :
  checklist_source account report_id d = Some (report, run) →
  legacy_shadow_reports d !! report_id = Some report ∧ lsr_account_id report = account.
Proof.
  unfold checklist_source. destruct (legacy_shadow_reports d !! report_id) as [r|]; [|done]. simpl.
  destruct (_ !! _); [|done]. simpl. destruct (_ && _) eqn:E; [|done]. intros [= <- <-].
  apply andb_true_iff in E as [E%Z.eqb_eq _]. by split.
Qed.

(** The target of a decision: the account's owner, a report of the account on the authoritative
    snapshot, and whether this decision is the current one already. *)
Record decision_target (request : TransitionApprovalRequest) (existing : option Z) (d : Db) : Prop := {
  dt_owner : acc_internal_user_id <$> accounts d !! tr_account_id request = Some (tr_internal_owner_id request);
  dt_report : ∃ report, legacy_shadow_reports d !! tr_shadow_report_id request = Some report ∧
    lsr_account_id report = tr_account_id request ∧
    is_Some (authoritative_snapshot (tr_account_id request) (lsr_snapshot_id report) d);
  dt_existing : match existing with
    | Some id => ∃ row, legacy_transition_approvals d !! id = Some row ∧
        same_decision request row = true ∧ is_current row = true
    | None => existing_decision request d = None
    end;
}.

Lemma validate_approval_target_yields env request (w : W) :
  yields env (validate_approval_target request)
    (λ existing w', w_db w' = w_db w ∧ decision_target request existing (w_db w)) w.
Proof.
  unfold validate_approval_target. yields_steps. case_bool_decide as Ho; cbn [negb]; yields_steps.
  intros snapshot Hs. destruct (report_snapshot _ _ _) as [id|] eqn:E; [|done]. injection Hs as ->.
  yields_steps. eapply yields_mono; [apply require_authority|]. intros _ w1 [H1 Ha].
  cbn [w_db tick] in *. yields_steps. rewrite H1.
  assert (Hr : ∃ report, legacy_shadow_reports (w_db w) !! tr_shadow_report_id request = Some report ∧
    lsr_account_id report = tr_account_id request ∧
    is_Some (authoritative_snapshot (tr_account_id request) (lsr_snapshot_id report) (w_db w))).
  { unfold report_snapshot in E. destruct (legacy_shadow_reports (w_db w) !! _) as [report|] eqn:El; [|done].
    simpl in E. destruct (_ =? _) eqn:Ea; [|done]. injection E as <-. exists report. split_and!; [done|lia|done]. }
  destruct (existing_decision request (w_db w)) as [[aid row]|] eqn:Ex; [destruct (is_current row) eqn:Hc|];
    yields_steps; split; try done; split; try done.
  apply find_row_Some in Ex as [Hl Hs]. by exists row.
Qed.

(** What recording a decision leaves, once nothing else of the account is current. *)
Record decided (request : TransitionApprovalRequest) (id : Z) (d1 d' : Db) : Prop := {
  dc_fresh : legacy_transition_approvals d1 !! id = None;
  dc_settled : stale_reports (tr_account_id request) (λ _, true) d1 = [];
  dc_after : d' = reviewed (tr_account_id request) (tr_shadow_report_id request)
    (review_state_of (tr_decision request))
    (on_legacy_transition_approvals (λ _, <[id := approval_row request]> (legacy_transition_approvals d1)) d1);
}.

Definition decision_outcome (request : TransitionApprovalRequest) (outcome : TransitionApprovalOutcome)
    (d d' : Db) : Prop :=
  if ao_reused outcome
  then decision_target request (Some (ao_approval_id outcome)) d ∧ d' = d
  else decision_target request None d ∧
    ∃ d1, settled (tr_account_id request) (λ _, true) d d1 ∧ decided request (ao_approval_id outcome) d1 d'.

Lemma approval_body_yields env request (w : W) :
  yields env (approval_body request) (λ e w', match e with
    | Commit outcome => decision_outcome request outcome (w_db w) (w_db w')
    | _ => False
    end) w.
Proof.
  unfold approval_body. apply yields_bind. eapply yields_mono; [apply validate_approval_target_yields|].
  intros [id|] w1 [H1 Ht]; yields_steps; [by split|].
  eapply yields_mono; [apply supersede_current_approvals_settles|]. rewrite H1. intros _ w2 H2. yields_steps.
  intros aid d' (-> & Hn & Hs & _ & ->)%insert_approval_Some. cbn [w_db set_db tick] in *. yields_steps.
  split; [done|]. exists (w_db w2). by repeat split.
Qed.

Lemma decision_outcome_keeps request outcome d d' :
  decision_outcome request outcome d d' → ReviewsJustified d → ReviewsJustified d'.
Proof.
  unfold decision_outcome. destruct (ao_reused outcome); [by intros [_ ->]|].
  intros (Ht & d1 & Hs & [Hn Hz ->]) HI. destruct (dt_report _ _ _ Ht) as (report & Hr & Ha & _).
  destruct (settled_report _ _ _ _ _ _ Hs Hr) as [state Hr1].
  eapply decision_justified; [by eapply settled_keeps|done|done|exact Hr1|exact Ha].
Qed.

(** A transaction whose body's commits keep the invariant keeps it. *)
Lemma guar_commits {A} env (body : Prog LegacyTransitionError (ending A)) (R : Db → Db → Prop) :
  rely (Ev:=Event) env (on_db (keeps ReviewsJustified)) →
  (∀ w : W, yields env body (λ e w', match e with Commit _ => R (w_db w) (w_db w') | _ => False end) w) →
  (∀ d d', R d d' → ReviewsJustified d → ReviewsJustified d') →
  guar env (on_db (keeps ReviewsJustified)) (transaction DatabaseFailed body).
Proof.
  intros Hr Hb HR. apply guar_transaction_keeps; [done|]. intros w HI.
  change (yields env body (λ _ w', ReviewsJustified (w_db w')) w).
  eapply yields_mono; [apply Hb|]. intros [a|?|?] w' H; [|done..]. by eapply HR.
Qed.

Lemma checklist_for_keeps env account report_id :
  rely (Ev:=Event) env (on_db (keeps ReviewsJustified)) →
  guar env (on_db (keeps ReviewsJustified)) (checklist_for account report_id).
Proof.
  intros Hr. apply (guar_commits env _ (settled account (λ row, negb (la_shadow_report_id row =? report_id))));
    [done| |intros; by eapply settled_keeps].
  intros w. eapply yields_mono; [apply checklist_body_yields|]. by intros [c|?|?] w' H; [apply H|..].
Qed.

Lemma record_transition_approval_keeps env request :
  rely (Ev:=Event) env (on_db (keeps ReviewsJustified)) →
  guar env (on_db (keeps ReviewsJustified)) (record_transition_approval request).
Proof.
  intros Hr. unfold record_transition_approval. destruct (_ || _); [guar_steps|].
  apply guar_bind; [typeclasses eauto|by apply checklist_for_keeps|]. intros checklist.
  destruct (negb _); [guar_steps|].
  apply (guar_commits env _ (λ d d', ∃ outcome, decision_outcome request outcome d d')); [done| |].
  - intros w. eapply yields_mono; [apply approval_body_yields|]. intros [o|?|?] w' H; [by exists o|done..].
  - intros d d' [outcome H]. by eapply decision_outcome_keeps.
Qed.

Lemma shadow_report_for_keeps env account run_id snapshot_id :
  rely (Ev:=Event) env (on_db (keeps ReviewsJustified)) →
  guar env (on_db (keeps ReviewsJustified)) (shadow_report_for account run_id snapshot_id).
Proof.
  intros Hr. unfold shadow_report_for, shadow_report_body, require_current_authoritative_snapshot,
    load_shadow_rows, persist_shadow_report. apply guar_transaction_keeps; [done|]. keeps_steps.
  - pose proof (insert_report_Some _ _ _ _ _ H0) as [(_ & -> & _)|(_ & _ & Hn & ->)]; [done|].
    by apply insert_report_justified.
  - destruct (existing_report _ _); [|done]. simpl in *. by injection H0 as _ ->.
Qed.

(** *** What a report records *)

Record shadow_recorded (account run_id snapshot_id : Z) (outcome : ShadowReportOutcome) (d d' : Db) : Prop := {
  sr_available : import_available account run_id d = true;
  sr_authority : is_Some (authoritative_snapshot account snapshot_id d);
  sr_report : build_shadow_report account run_id snapshot_id (shadow_rows run_id d)
    (official_rows snapshot_id d) = Ok (so_report outcome);
  sr_digest : so_report_digest outcome = report_digest_of (so_report outcome);
  sr_row : ∃ row, existing_report (so_report outcome) d' = Some (so_report_id outcome, row) ∧
    lsr_report_digest row = so_report_digest outcome;
  sr_after : if so_reused outcome then d' = d
    else legacy_shadow_reports d !! so_report_id outcome = None ∧
      existing_report (so_report outcome) d = None ∧
      d' = on_legacy_shadow_reports
        (λ _, <[so_report_id outcome := report_row (so_report outcome)]> (legacy_shadow_reports d)) d;
}.

(** The report a comparison inserted is the one the comparison finds. *)
Lemma existing_report_inserted id report d :
  existing_report report d = None → legacy_shadow_reports d !! id = None →
  existing_report report (on_legacy_shadow_reports (λ _, <[id := report_row report]> (legacy_shadow_reports d)) d) =
    Some (id, report_row report).
Proof.
  intros He Hn. unfold existing_report in *. cbn [legacy_shadow_reports on_legacy_shadow_reports].
  assert (Hself : same_comparison report (report_row report) = true)
    by (unfold same_comparison; simpl; by rewrite !Z.eqb_refl, !String.eqb_refl).
  destruct (find_row _ (<[id:=_]> _)) as [[k v]|] eqn:E.
  - apply find_row_Some in E as [[[<- <-]|[Hk Hl]]%lookup_insert_Some HP]; [done|].
    by rewrite (find_row_None _ _ _ _ He Hl) in HP.
  - eapply find_row_None in E; [|apply lookup_insert_eq]. congruence.
Qed.

Lemma persist_shadow_report_yields env report (w : W) :
  yields env (persist_shadow_report report) (λ '(id, digest, reused) w',
    digest = report_digest_of report ∧
    (∃ row, existing_report report (w_db w') = Some (id, row) ∧ lsr_report_digest row = digest) ∧
    if reused : bool then w_db w' = w_db w
    else legacy_shadow_reports (w_db w) !! id = None ∧ existing_report report (w_db w) = None ∧
      w_db w' = on_legacy_shadow_reports
        (λ _, <[id := report_row report]> (legacy_shadow_reports (w_db w))) (w_db w)) w.
Proof.
  unfold persist_shadow_report. yields_steps. intros inserted d H. cbn [w_db tick] in H.
  pose proof (insert_report_Some _ _ _ _ _ H) as [(-> & -> & _)|(-> & He & Hn & ->)]; yields_steps.
  - intros [id row] d2 Hd2. cbn [w_db tick set_db] in Hd2.
    destruct (existing_report report (w_db w)) as [found|] eqn:E; [|done].
    simpl in Hd2. injection Hd2 as -> <-. cbn [fst snd].
    destruct (String.eqb_spec (lsr_report_digest row) (report_digest_of report)) as [Hd|];
      cbn [negb]; yields_steps. split_and!; [done| |done]. by exists row.
  - split_and!; [done| |done..]. exists (report_row report). split; [|done].
    by apply existing_report_inserted.
Qed.

Lemma shadow_report_body_yields env account run_id snapshot_id (w : W) :
  yields env (shadow_report_body account run_id snapshot_id) (λ e w', match e with
    | Commit outcome => shadow_recorded account run_id snapshot_id outcome (w_db w) (w_db w')
    | _ => False
    end) w.
Proof.
  unfold shadow_report_body. yields_steps. destruct (import_available _ _ _) eqn:Hi; cbn [negb]; yields_steps.
  eapply yields_mono; [apply require_authority|]. intros _ w1 [H1 Ha]. cbn [w_db tick] in *.
  unfold load_shadow_rows. yields_steps. rewrite H1. intros report Hr. apply yields_bind.
  eapply yields_mono; [apply persist_shadow_report_yields|].
  intros [[id digest] reused] w2 (Hd & Hrow & Hafter). cbn [w_db tick] in *. rewrite H1 in Hafter.
  yields_steps. split; simpl; try done.
Qed.

Lemma shadow_report_spec env account run_id snapshot_id (w : W) :
  (∀ n d, e_other env n d = d) →
  wp env (shadow_report_for account run_id snapshot_id) (λ r w', match r with
    | Ok outcome => shadow_recorded account run_id snapshot_id outcome (w_db w) (w_db w')
    | Err _ => w_db w' = w_db w ∨ ∃ outcome, shadow_recorded account run_id snapshot_id outcome (w_db w) (w_db w')
    end) w.
Proof.
  intros Ho. apply (wp_atomic env DatabaseFailed (shadow_report_body account run_id snapshot_id)
    (λ outcome, shadow_recorded account run_id snapshot_id outcome (w_db w))); [done|]. eapply yields_mono; [apply shadow_report_body_yields|].
  by intros [outcome|?|?] w' H.
Qed.

(** A comparison made again on what it left finds its own report. *)
Lemma shadow_recorded_twice account run_id snapshot_id first again d d' d2 :
  shadow_recorded account run_id snapshot_id first d d' →
  shadow_recorded account run_id snapshot_id again d' d2 →
  d2 = d' ∧ so_report again = so_report first ∧ so_report_id again = so_report_id first ∧
  so_report_digest again = so_report_digest first ∧ so_reused again = true.
Proof.
  intros [_ _ Hr Hd (row & He & Hx) Ha] [_ _ Hr' Hd' (row' & He' & Hx') Ha'].
  assert (Hsame : shadow_rows run_id d' = shadow_rows run_id d ∧ official_rows snapshot_id d' = official_rows snapshot_id d).
  { destruct (so_reused first); [by rewrite Ha|]. destruct Ha as (_ & _ & ->). done. }
  destruct Hsame as [Hs1 Hs2]. rewrite Hs1, Hs2, Hr in Hr'. injection Hr' as Hrep.
  destruct (so_reused again); [|destruct Ha' as (_ & Hnone & _); rewrite <-Hrep, He in Hnone; done].
  rewrite Ha', <-Hrep, He in He'. injection He' as Hid _.
  split_and!; [done|done|done|by rewrite Hd', <-Hrep|done].
Qed.

(** ** Properties *)

(** C18. Under other connections that keep reviews justified, comparing, generating a checklist and deciding
    all keep them justified, whatever fails on the way: a decision is about a report of its account, at
    most one decision per account is current, and a report is reviewable exactly while its current
    decision approves it. *)
Theorem reviews_stay_justified env :
  rely (Ev:=Event) env (on_db (keeps ReviewsJustified)) →
  (∀ account run_id snapshot_id,
     guar env (on_db (keeps ReviewsJustified)) (shadow_report_for account run_id snapshot_id)) ∧
  (∀ account report_id, guar env (on_db (keeps ReviewsJustified)) (checklist_for account report_id)) ∧
  (∀ request, guar env (on_db (keeps ReviewsJustified)) (record_transition_approval request)).
Proof.
  intros Hr. split_and!; intros;
    [by apply shadow_report_for_keeps|by apply checklist_for_keeps|by apply record_transition_approval_keeps].
Qed.

(** A shadow report compares a completed import with the snapshot that has absence authority, and it is
    stored once: the same comparison made again answers with the stored report, or fails, and in either
    case writes nothing. *)
Theorem shadow_reports_are_reused env env' account run_id snapshot_id outcome (w w2 : W) :
  (∀ n d, e_other env n d = d) → (∀ n d, e_other env' n d = d) →
  (shadow_report_for account run_id snapshot_id env w).1 = Ok outcome →
  w_db w2 = w_db (shadow_report_for account run_id snapshot_id env w).2 →
  shadow_recorded account run_id snapshot_id outcome (w_db w) (w_db w2) ∧
  wp env' (shadow_report_for account run_id snapshot_id) (λ r w', w_db w' = w_db w2 ∧ match r with
    | Ok again => so_report again = so_report outcome ∧ so_report_id again = so_report_id outcome ∧
        so_report_digest again = so_report_digest outcome ∧ so_reused again = true
    | Err _ => True
    end) w2.
Proof.
  intros Ho Ho' Hfirst Hw2. pose proof (shadow_report_spec env account run_id snapshot_id w Ho) as H1.
  unfold wp in H1. rewrite Hfirst, <-Hw2 in H1. split; [exact H1|].
  eapply wp_mono; [by apply shadow_report_spec|]. intros [again|e] w' H2.
  - by apply (shadow_recorded_twice _ _ _ _ _ _ _ _ H1 H2).
  - destruct H2 as [E|[again H2]]; [done|].
    by destruct (shadow_recorded_twice _ _ _ _ _ _ _ _ H1 H2) as [-> _].
Qed.

(** C21. A decision that is recorded is the owner's, about a report of the account that is on its
    authoritative snapshot, and repeats the digest of the checklist generated from exactly that report;
    afterwards it is the current decision of the account, and a fresh one leaves the report in the
    review state it calls for. *)
Theorem decisions_confirm_their_checklist env request (w : W) :
  (∀ n d, e_other env n d = d) →
  yields env (record_transition_approval request) (λ outcome w',
    acc_internal_user_id <$> accounts (w_db w) !! tr_account_id request = Some (tr_internal_owner_id request) ∧
    (∃ checklist, checklist_certified (tr_account_id request) (tr_shadow_report_id request) checklist (w_db w) ∧
       co_checklist_digest checklist = tr_checklist_digest request) ∧
    (∃ row, legacy_transition_approvals (w_db w') !! ao_approval_id outcome = Some row ∧
       same_decision request row = true ∧ is_current row = true) ∧
    (ao_reused outcome = false →
       ∃ report, legacy_shadow_reports (w_db w') !! tr_shadow_report_id request = Some report ∧
         lsr_review_state report = review_state_of (tr_decision request))) w.
Proof.
  intros Ho. unfold record_transition_approval. destruct (_ || _); [apply yields_throw|].
  unfold checklist_for. yields_steps. rewrite Ho. eapply yields_mono; [apply checklist_body_yields|].
  intros [checklist|?|?] w1; [|done..]. intros [Hcert Hs]. cbn [w_db set_db tick] in *.
  destruct (String.eqb_spec (co_checklist_digest checklist) (tr_checklist_digest request)) as [Hd|];
    cbn [negb]; yields_steps.
  rewrite Ho. eapply yields_mono; [apply approval_body_yields|].
  intros [outcome|?|?] w2; [|done..]. cbn [w_db set_db tick]. unfold decision_outcome.
  destruct (settled_elsewhere _ _ _ _ Hs) as (Hacc & _).
  destruct (ao_reused outcome).
  - intros [[Ho1 _ Hrow] ->]. rewrite Hacc in Ho1. split_and!; [done|by exists checklist| |done].
    destruct Hrow as (row & Hl & Hrow). by exists row.
  - intros ([Ho1 (report & Hr & Ha & _) _] & d1 & Hs1 & [Hn _ ->]). rewrite Hacc in Ho1.
    destruct (settled_report _ _ _ _ _ _ Hs1 Hr) as [state Hr1].
    split_and!; [done|by exists checklist| |intros _].
    + exists (approval_row request). unfold reviewed.
      cbn [legacy_transition_approvals on_legacy_transition_approvals on_legacy_shadow_reports].
      rewrite lookup_insert_eq. split; [done|]. split; [|done].
      unfold same_decision. simpl. by rewrite !Z.eqb_refl, !String.eqb_refl.
    + unfold reviewed. cbn [legacy_shadow_reports on_legacy_transition_approvals on_legacy_shadow_reports].
      eexists. rewrite lookup_alter_eq, Hr1. simpl. by rewrite Ha, Z.eqb_refl.
Qed.
End ReviewTheorems.

(** ** A concrete review *)
Module ReviewSamples.
Import SampleCrypto SampleContracts LegacySamples.

(** Checklists are long: here a digest counts what it digests. *)
#[export] Instance counting_crypto : Crypto := {|
  sha256 s := be_bytes 32 (Z.of_nat (String.length s));
  gcm_encrypt := gcm_encrypt;
  gcm_decrypt := gcm_decrypt;
  url_safe_no_pad_encode := url_safe_no_pad_encode;
|}.

(** The sample import, and a complete snapshot with absence authority that holds post 42. *)
Definition sample_reviewable : Db :=
  on_bookmark_snapshot_authority (insert 1 (mkAuthority 3 7))
    (on_snapshots (insert 3 (mkSnapshot 4 None true (Some 7) 1))
      (on_sync_runs (insert 4 (mkSyncRun 1 "full" "completed" None 1 1 0 1 0 (Some 7)))
        (on_snapshot_bookmark_items (insert 3 {[70 := 0]})
          (w_db (sample_import (calm 3) sample_world).2)))).

Abbreviation sample_comparison := (shadow_report_for 1 1006 3).
Definition sample_compared : W := (sample_comparison (calm 3) (mkWorld sample_reviewable 0 [])).2.
Definition sample_outcome : option ShadowReportOutcome :=
  match (sample_comparison (calm 3) (mkWorld sample_reviewable 0 [])).1 with Ok o => Some o | Err _ => None end.

Example sample_is_stored : so_report_id <$> sample_outcome = Some 1006.
Proof. vm_compute. reflexivity. Qed.

Definition sample_digest_of_checklist : string :=
  match (checklist_for 1 1006 (calm 5) sample_compared).1 with
  | Ok checklist => co_checklist_digest checklist
  | Err _ => ""
  end.
Definition sample_request (decision : ApprovalDecision) : TransitionApprovalRequest :=
  mkTransitionApprovalRequest 1 5 1006 sample_digest_of_checklist (sha256_hex "evidence") decision 9.

Definition review_state_in (d : Db) : option string := lsr_review_state <$> legacy_shadow_reports d !! 1006.

(** Approving makes the report reviewable, approving again reuses the decision, and rejecting it
    afterwards supersedes the approval. *)
Example sample_decisions :
  let '(r1, w1) := record_transition_approval (sample_request Approved) (calm 9) sample_compared in
  let '(r2, w2) := record_transition_approval (sample_request Approved) (calm 9) w1 in
  let '(r3, w3) := record_transition_approval (sample_request Rejected) (calm 9) w2 in
  (review_state_in (w_db w1), review_state_in (w_db w3)) = (Some REVIEWABLE, Some OWNER_REVIEW_REQUIRED) ∧
  (ao_reused <$> match r1 with Ok o => Some o | Err _ => None end,
   ao_reused <$> match r2 with Ok o => Some o | Err _ => None end,
   ao_reused <$> match r3 with Ok o => Some o | Err _ => None end) = (Some false, Some true, Some false).
Proof. vm_compute. done. Qed.

(** A stale checklist is refused. *)
Example other_digest_is_refused :
  (record_transition_approval (mkTransitionApprovalRequest 1 5 1006 (sha256_hex "other") (sha256_hex "evidence")
     Approved 9) (calm 9) sample_compared).1 = Err ChecklistDigestMismatch.
Proof. vm_compute. reflexivity. Qed.

Lemma reviews_stay_justified_witness :
  guar (calm 3) (on_db (keeps ReviewsJustified)) sample_comparison.
Proof.
  destruct (reviews_stay_justified (calm 3)) as [H _]; [apply calm_rely; typeclasses eauto|]. apply H.
Defined.

Lemma shadow_reports_are_reused_witness :
  ∃ outcome, shadow_recorded 1 1006 3 outcome sample_reviewable (w_db sample_compared).
Proof.
  destruct (sample_comparison (calm 3) (mkWorld sample_reviewable 0 [])).1 as [outcome|e] eqn:E.
  - exists outcome.
    assert (H0 : ∀ now n d, e_other (calm (D:=Db) now) n d = d) by done.
    assert (H1 : w_db sample_compared = w_db (sample_comparison (calm 3) (mkWorld sample_reviewable 0 [])).2)
      by reflexivity.
    exact (proj1 (shadow_reports_are_reused (calm 3) (calm 4) 1 1006 3 outcome (mkWorld sample_reviewable 0 [])
      sample_compared (H0 3) (H0 4) E H1)).
  - exfalso. revert E. vm_compute. discriminate.
Defined.

Lemma decisions_confirm_their_checklist_witness :
  yields (calm 9) (record_transition_approval (sample_request Approved)) (λ _ w',
    ∃ checklist, checklist_certified 1 1006 checklist (w_db sample_compared)) sample_compared.
Proof.
  eapply yields_mono; [apply (decisions_confirm_their_checklist (calm 9) (sample_request Approved) sample_compared)|].
  - done.
  - intros outcome w' (_ & (checklist & H & _) & _). exists checklist. exact H.
Defined.
End ReviewSamples.
