(* ===== verification/Config.v ===== *)
(** * Typed finite configuration ([crates/x-core/src/{config,error}.rs])

    The declared tree with its defaults, and the validation that collects every violation before the
    process starts anything else. Reading the environment into the tree belongs to [figment]: what it
    extracts is an argument here. The instance's base64 and PEM decoders and the files it reads are the
    members of [ConfigInputs]; [SocketAddr]'s parser is the standard library's and is written out. *)
From S2P Require Export Outbox Oauth.

(** ** The tree *)

Record AdminConfig := mkAdminConfig { listen_addr : string }.
Record DatabaseConfig := mkDatabaseConfig { db_url : string; max_connections : Z }.
Inductive LogFormat := JsonLog | PrettyLog.
Record TelemetryConfig := mkTelemetryConfig { log_format : LogFormat; log_filter : string }.
Record SecurityConfig := mkSecurityConfig { token_encryption_key : option string }.
Record BudgetsConfig := mkBudgetsConfig { request_cap_per_window : Z; bc_window_seconds : Z }.
Record BusConfig := mkBusConfig {
  bus_url : string;
  nkey_seed_path : string;
  stream_name : string;
  consumer_name : string;
  events_stream_name : string;
}.
Record PublicCaptureConfig := mkPublicCaptureConfig {
  api_base_url : string;
  bearer_token_path : option string;
  pc_max_attempts : Z;
  pc_batch_size : Z;
  poll_interval_seconds : Z;
  extra_ca_file : option string;
}.
Record TombstoneConfig := mkTombstoneConfig { resend_after_seconds : Z; resend_cap_seconds : Z }.

Record XConfig := mkXConfig {
  admin_ : AdminConfig;
  database : DatabaseConfig;
  telemetry : TelemetryConfig;
  security : SecurityConfig;
  oauth : OauthConfig;
  budgets : BudgetsConfig;
  bus_ : BusConfig;
  public_capture : PublicCaptureConfig;
  tombstone : TombstoneConfig;
}.

Definition default_config : XConfig := {|
  admin_ := mkAdminConfig "127.0.0.1:9087";
  database := mkDatabaseConfig "postgres://x:x@127.0.0.1:5432/x" 5;
  telemetry := mkTelemetryConfig JsonLog "info";
  security := mkSecurityConfig None;
  oauth := mkOauthConfig "https://x.com/i/oauth2/authorize" "https://api.x.com/2/oauth2/token"
    "https://api.x.com/2/oauth2/token" None None None
    ["users.read"; "tweet.read"; "bookmark.read"; "offline.access"] 600;
  budgets := mkBudgetsConfig 1000 900;
  bus_ := mkBusConfig "nats://127.0.0.1:4222" "/run/secrets/ratatoskr-x-nats.nkey" "ratatoskr_commands"
    "ratatoskr_x_browser_capture" "ratatoskr_events";
  public_capture := mkPublicCaptureConfig "https://api.x.com" None 5 8 2 None;
  tombstone := mkTombstoneConfig 600 21600;
|}%string.

(** ** Errors *)

Abbreviation Violations := (list string).

Inductive ConfigError :=
  | SourceError (text : string)      (* [figment::Error], by its [Display] *)
  | Invalid (violations : Violations).

Definition violations_text (violations : Violations) : string :=
  str_join "" ((λ message, "- " +:+ message +:+ String LF "") <$> violations).
Definition config_error_text (e : ConfigError) : string :=
  match e with
  | SourceError source => "the configuration could not be read: " +:+ source
  | Invalid violations => "the configuration was rejected:" +:+ String LF "" +:+ violations_text violations
  end.
Definition config_error_report (e : ConfigError) : string :=
  match e with
  | SourceError source => "configuration could not be read: " +:+ source
  | Invalid violations => "configuration rejected:" +:+ String LF "" +:+ violations_text violations
  end.
Definition config_exit_code (e : ConfigError) : Z := 78.

(** ** [SocketAddr]'s parser *)

Abbreviation Parsed A := (option (A * string)).

Definition given_char (c : ascii) (s : string) : Parsed unit :=
  match s with
  | String a rest => if Ascii.eqb a c then Some (tt, rest) else None
  | EmptyString => None
  end.

(** The digits of [radix] at the start, at most [max] of them when bounded: one more is a failure. *)
Definition radix_digit (radix : Z) (c : ascii) : bool :=
  match hex_val c with Some d => d <? radix | None => false end.
Definition read_number (radix limit : Z) (max_digits : option nat) (allow_zero_prefix : bool)
    (s : string) : Parsed Z :=
  let '(digits, rest) := break_at (λ c, negb (radix_digit radix c)) s in
  let count := String.length digits in
  if match max_digits with Some max => (max <? count)%nat | None => false end then None
  else if (count =? 0)%nat then None
  else if negb allow_zero_prefix && starts_with "0" digits && (1 <? count)%nat then None
  else z ← digits_in radix 0 digits; if z <=? limit then Some (z, rest) else None.

(** [read_separator]: every group but the first is preceded by the separator. *)
Definition after_separator {A} (c : ascii) (first : bool) (parse : string → Parsed A) (s : string) :
    Parsed A :=
  if first then parse s else '(_, rest) ← given_char c s; parse rest.

Definition read_octet (first : bool) : string → Parsed Z :=
  after_separator "." first (read_number 10 255 (Some 3%nat) false).
Definition read_ipv4_addr (s : string) : Parsed unit :=
  '(_, s) ← read_octet true s; '(_, s) ← read_octet false s;
  '(_, s) ← read_octet false s; '(_, s) ← read_octet false s; Some (tt, s).

Definition read_port (s : string) : Parsed Z :=
  '(_, s) ← given_char ":" s; read_number 10 65535 None true s.

(** [read_groups] over [limit] remaining groups: how many were read, whether they end in an embedded
    IPv4 address, and the rest. *)
Fixpoint read_groups (limit : nat) (first : bool) (s : string) : nat * bool * string :=
  match limit with
  | O => (0%nat, false, s)
  | S remaining =>
      match if (remaining =? 0)%nat then None else after_separator ":" first read_ipv4_addr s with
      | Some (_, rest) => (2%nat, true, rest)
      | None =>
          match after_separator ":" first (read_number 16 65535 (Some 4%nat) true) s with
          | Some (_, rest) =>
              let '(size, ipv4, rest) := read_groups remaining false rest in (S size, ipv4, rest)
          | None => (0%nat, false, s)
          end
      end
  end.

Definition read_ipv6_addr (s : string) : Parsed unit :=
  let '(head_size, head_ipv4, rest) := read_groups 8 true s in
  if (head_size =? 8)%nat then Some (tt, rest)
  else if head_ipv4 then None
  else
    '(_, rest) ← given_char ":" rest;
    '(_, rest) ← given_char ":" rest;
    let '(_, _, rest) := read_groups (8 - (head_size + 1)) true rest in Some (tt, rest).

(** The optional scope: a malformed one is not consumed. *)
Definition read_scope_id (s : string) : string :=
  match '(_, rest) ← given_char "%" s; read_number 10 u32_max None true rest with
  | Some (_, rest) => rest
  | None => s
  end.

Definition read_socket_addr_v4 (s : string) : Parsed Z := '(_, s) ← read_ipv4_addr s; read_port s.
Definition read_socket_addr_v6 (s : string) : Parsed Z :=
  '(_, s) ← given_char "[" s; '(_, s) ← read_ipv6_addr s;
  '(_, s) ← given_char "]" (read_scope_id s); read_port s.

(** [parse::<SocketAddr>().is_ok()]. *)
Definition is_socket_addr (s : string) : bool :=
  match match read_socket_addr_v4 s with Some r => Some r | None => read_socket_addr_v6 s end with
  | Some (_, rest) => String.eqb rest ""
  | None => false
  end.

Example socket_addresses :
  filter (λ s, is_socket_addr s = true)
    ["127.0.0.1:9087"; "[::1]:80"; "[fe80::1%3]:0"; "[::ffff:10.0.0.1]:65535"; "[1:2:3:4:5:6:7:8]:1";
     "127.0.0.1"; "127.0.0.01:80"; "256.0.0.1:80"; "localhost:80"; "127.0.0.1:65536"; "[::1]"; "::1:80";
     "[1:2:3:4:5:6:7::8]:1"; "[1:2:3:4:5:6:7:8:9]:1"; "127.0.0.1:80 "]%string =
    ["127.0.0.1:9087"; "[::1]:80"; "[fe80::1%3]:0"; "[::ffff:10.0.0.1]:65535"; "[1:2:3:4:5:6:7:8]:1"]%string.
Proof. vm_compute. reflexivity. Qed.

(** ** Validation *)

Class ConfigInputs := {
  base64_url_no_pad : string → option string;    (* [URL_SAFE_NO_PAD.decode] *)
  base64_url : string → option string;           (* [URL_SAFE.decode] *)
  read_file : string → option string;            (* [std::fs::read] *)
  holds_certificate : string → bool;             (* some item of [CertificateDer::pem_slice_iter] is valid *)
}.

Definition is_blank (s : string) : bool := String.eqb (trim s) "".
Definition set_and_empty (s : option string) : bool := bool_decide (s = Some ""%string).
Definition set_and (p : string → bool) (s : option string) : bool :=
  match s with Some s => p s | None => false end.
Definition violation (b : bool) (message : string) : Violations := if b then [message] else [].

Section Validation.
Context {inp : ConfigInputs}.

(** [SecretKey::decoded_key]. *)
Definition decoded_key (secret : string) : option string :=
  let raw := trim secret in
  decoded ← match base64_url_no_pad raw with Some decoded => Some decoded | None => base64_url raw end;
  if (String.length decoded =? KEY_LEN)%nat then Some decoded else None.

(** [TokenCipher::from_secret_key]. *)
Definition from_secret_key (secret : string) : result TokenCipher CipherError :=
  let? decoded := ok_or (decoded_key secret) Key in Ok (mkTokenCipher decoded).

Definition validate_extra_ca_file (path : string) : Violations :=
  if negb (starts_with "/" path) then ["public_capture.extra_ca_file must be an absolute path"%string]
  else
    match read_file path with
    | None => ["public_capture.extra_ca_file must be a readable file"%string]
    | Some bytes => violation (negb (holds_certificate bytes))
                      "public_capture.extra_ca_file must hold at least one PEM certificate"
    end.

Definition validate_public_capture (config : PublicCaptureConfig) : Violations :=
  violation (negb (starts_with "https://" (api_base_url config)))
    "public_capture.api_base_url must be an https URL" ++
  violation (set_and (λ path, negb (starts_with "/" path)) (bearer_token_path config))
    "public_capture.bearer_token_path must be an absolute path" ++
  violation (pc_max_attempts config =? 0) "public_capture.max_attempts must be at least 1" ++
  violation (pc_batch_size config =? 0) "public_capture.batch_size must be at least 1" ++
  violation (poll_interval_seconds config =? 0) "public_capture.poll_interval_seconds must be at least 1" ++
  match extra_ca_file config with Some path => validate_extra_ca_file path | None => [] end.

Definition validate_tombstone (config : TombstoneConfig) : Violations :=
  violation (negb (in_range 30 86400 (resend_after_seconds config)))
    "tombstone.resend_after_seconds must be between 30 and 86400" ++
  violation ((resend_cap_seconds config <? resend_after_seconds config) ||
             (604800 <? resend_cap_seconds config))
    "tombstone.resend_cap_seconds must be at least tombstone.resend_after_seconds and at most 604800".

Definition validate (config : XConfig) : Violations :=
  violation (negb (is_socket_addr (listen_addr (admin_ config))))
    "admin.listen_addr must be a socket address such as 127.0.0.1:9087" ++
  violation (String.eqb (db_url (database config)) "") "database.url must not be empty" ++
  violation (max_connections (database config) =? 0) "database.max_connections must be at least 1" ++
  violation (is_blank (log_filter (telemetry config))) "telemetry.log_filter must not be empty" ++
  violation (set_and (λ key, negb (bool_decide (is_Some (decoded_key key))))
               (token_encryption_key (security config)))
    "security.token_encryption_key must be 32 raw bytes base64url-encoded" ++
  violation (is_blank (authorize_url (oauth config))) "oauth.authorize_url must not be empty" ++
  violation (is_blank (token_url (oauth config))) "oauth.token_url must not be empty" ++
  violation (is_blank (revocation_url (oauth config))) "oauth.revocation_url must not be empty" ++
  violation (set_and_empty (client_id (oauth config))) "oauth.client_id must not be empty when set" ++
  violation (set_and_empty (redirect_uri (oauth config)))
    "oauth.redirect_uri must not be empty when set" ++
  violation (intent_ttl_seconds (oauth config) =? 0) "oauth.intent_ttl_seconds must be at least 1" ++
  violation (bool_decide (read_scopes (oauth config) = [])) "oauth.read_scopes must list at least one scope" ++
  violation (request_cap_per_window (budgets config) =? 0)
    "budgets.request_cap_per_window must be at least 1" ++
  violation (bc_window_seconds (budgets config) =? 0) "budgets.window_seconds must be at least 1" ++
  violation (negb (starts_with "nats://" (bus_url (bus_ config)) || starts_with "tls://" (bus_url (bus_ config))))
    "bus.url must start with nats:// or tls://" ++
  violation (negb (starts_with "/" (nkey_seed_path (bus_ config))))
    "bus.nkey_seed_path must be an absolute path" ++
  violation (is_blank (stream_name (bus_ config))) "bus.stream_name must not be empty" ++
  violation (is_blank (consumer_name (bus_ config))) "bus.consumer_name must not be empty" ++
  violation (is_blank (events_stream_name (bus_ config))) "bus.events_stream_name must not be empty" ++
  validate_public_capture (public_capture config) ++
  validate_tombstone (tombstone config).

(** [XConfig::extract_from]: [extracted] is what the figment made of its providers. *)
Definition extract_from (extracted : result XConfig string) : result XConfig ConfigError :=
  match extracted with
  | Err source => Err (SourceError source)
  | Ok config =>
      let violations := validate config in
      if bool_decide (violations = []) then Ok config else Err (Invalid violations)
  end.

(** [require_public_capture_token_path]. *)
Definition require_public_capture_token_path (config : XConfig) : result string ConfigError :=
  ok_or (bearer_token_path (public_capture config))
    (Invalid ["public_capture.bearer_token_path is required when the bus is configured: explicit captures cannot be resolved without the app-only credential"%string]).
End Validation.

(** The policies the service builds of its configuration. *)
Definition resend_policy (config : XConfig) : ResendPolicy :=
  mkResendPolicy (resend_after_seconds (tombstone config)) (resend_cap_seconds (tombstone config)).

(** ** What an accepted configuration promises *)

Section ConfigTheorems.
Context {inp : ConfigInputs}.

(** The rules, as facts about the values. *)
Record Sound (c : XConfig) : Prop := {
  so_listen : is_socket_addr (listen_addr (admin_ c)) = true;
  so_database : db_url (database c) ≠ ""%string ∧ max_connections (database c) ≠ 0;
  so_filter : trim (log_filter (telemetry c)) ≠ ""%string;
  so_key : ∀ secret, token_encryption_key (security c) = Some secret →
    ∃ cipher, from_secret_key secret = Ok cipher ∧ String.length (key cipher) = KEY_LEN;
  so_oauth_urls : Forall (λ url, trim url ≠ ""%string)
    [authorize_url (oauth c); token_url (oauth c); revocation_url (oauth c)];
  so_oauth : client_id (oauth c) ≠ Some ""%string ∧ redirect_uri (oauth c) ≠ Some ""%string ∧
    intent_ttl_seconds (oauth c) ≠ 0 ∧ read_scopes (oauth c) ≠ [];
  so_budgets : request_cap_per_window (budgets c) ≠ 0 ∧ bc_window_seconds (budgets c) ≠ 0;
  so_bus_url : starts_with "nats://" (bus_url (bus_ c)) = true ∨ starts_with "tls://" (bus_url (bus_ c)) = true;
  so_bus_names : starts_with "/" (nkey_seed_path (bus_ c)) = true ∧
    Forall (λ name, trim name ≠ ""%string)
      [stream_name (bus_ c); consumer_name (bus_ c); events_stream_name (bus_ c)];
  so_capture : starts_with "https://" (api_base_url (public_capture c)) = true ∧
    (∀ path, bearer_token_path (public_capture c) = Some path → starts_with "/" path = true) ∧
    pc_max_attempts (public_capture c) ≠ 0 ∧ pc_batch_size (public_capture c) ≠ 0 ∧
    poll_interval_seconds (public_capture c) ≠ 0;
  so_extra_ca : ∀ path, extra_ca_file (public_capture c) = Some path →
    starts_with "/" path = true ∧ ∃ bytes, read_file path = Some bytes ∧ holds_certificate bytes = true;
  so_tombstone : 30 ≤ resend_after_seconds (tombstone c) ≤ 86400 ∧
    resend_after_seconds (tombstone c) ≤ resend_cap_seconds (tombstone c) ≤ 604800;
}.

Lemma violation_nil b message rest : violation b message ++ rest = [] ↔ b = false ∧ rest = [].
Proof. destruct b; simpl; split; [done|by intros []|done|by intros []]. Qed.

Lemma violation_nil' b message : violation b message = [] ↔ b = false.
Proof. by destruct b. Qed.

Lemma set_and_false p s : set_and p s = false ↔ ∀ v, s = Some v → p v = false.
Proof.
  destruct s as [v|]; simpl; [|done]. split; [by intros H ? [= <-]|intros H; by apply H].
Qed.

Lemma is_blank_false s : is_blank s = false ↔ trim s ≠ ""%string.
Proof. unfold is_blank. apply String.eqb_neq. Qed.

Lemma from_secret_key_Ok secret :
  (∃ cipher, from_secret_key secret = Ok cipher ∧ String.length (key cipher) = KEY_LEN) ↔
  is_Some (decoded_key secret).
Proof.
  unfold from_secret_key. destruct (decoded_key secret) as [decoded|] eqn:E; simpl.
  - split; [by eexists|intros _]. exists (mkTokenCipher decoded). split; [done|]. simpl.
    unfold decoded_key in E. destruct (match base64_url_no_pad _ with Some _ => _ | None => _ end); [|done].
    simpl in E. destruct (Nat.eqb_spec (String.length s) KEY_LEN); [|done]. by injection E as <-.
  - split; [by intros (? & ? & _)|by intros []].
Qed.

Lemma validate_extra_ca_file_nil path :
  validate_extra_ca_file path = [] ↔
    starts_with "/" path = true ∧ ∃ bytes, read_file path = Some bytes ∧ holds_certificate bytes = true.
Proof.
  unfold validate_extra_ca_file. destruct (starts_with "/" path); simpl; [|by split; [|intros []]].
  destruct (read_file path) as [bytes|]; [|by split; [|intros (_ & ? & ? & _)]].
  rewrite violation_nil', negb_false_iff. split; [by eauto|]. by intros (_ & ? & [= <-] & ?).
Qed.

Lemma validate_tombstone_nil c :
  validate_tombstone c = [] ↔
    30 ≤ resend_after_seconds c ≤ 86400 ∧ resend_after_seconds c ≤ resend_cap_seconds c ≤ 604800.
Proof.
  unfold validate_tombstone. rewrite violation_nil, violation_nil', negb_false_iff, in_range_spec, orb_false_iff.
  rewrite !Z.ltb_ge. lia.
Qed.

Lemma validate_public_capture_nil c :
  validate_public_capture c = [] ↔
    (starts_with "https://" (api_base_url c) = true ∧
     (∀ path, bearer_token_path c = Some path → starts_with "/" path = true) ∧
     pc_max_attempts c ≠ 0 ∧ pc_batch_size c ≠ 0 ∧ poll_interval_seconds c ≠ 0) ∧
    (∀ path, extra_ca_file c = Some path → starts_with "/" path = true ∧
       ∃ bytes, read_file path = Some bytes ∧ holds_certificate bytes = true).
Proof.
  unfold validate_public_capture. rewrite !violation_nil, set_and_false, negb_false_iff, !Z.eqb_neq.
  setoid_rewrite negb_false_iff.
  assert (He : match extra_ca_file c with Some path => validate_extra_ca_file path | None => [] end = [] ↔
    (∀ path, extra_ca_file c = Some path → starts_with "/" path = true ∧
       ∃ bytes, read_file path = Some bytes ∧ holds_certificate bytes = true)).
  { destruct (extra_ca_file c) as [path|]; [|by split]. rewrite validate_extra_ca_file_nil.
    split; [by intros H ? [= <-]|intros H; by apply H]. }
  rewrite He. tauto.
Qed.

Lemma set_key_false secret :
  set_and (λ key, negb (bool_decide (is_Some (decoded_key key)))) secret = false ↔
    ∀ s, secret = Some s → ∃ cipher, from_secret_key s = Ok cipher ∧ String.length (key cipher) = KEY_LEN.
Proof.
  rewrite set_and_false. setoid_rewrite from_secret_key_Ok.
  split; intros H s Hs; apply H in Hs; by rewrite negb_false_iff, bool_decide_eq_true in *.
Qed.

Lemma validate_nil c : validate c = [] ↔ Sound c.
Proof.
  unfold validate. rewrite !violation_nil, app_nil, validate_public_capture_nil, validate_tombstone_nil.
  rewrite !is_blank_false, set_key_false, !negb_false_iff, orb_true_iff, !Z.eqb_neq, String.eqb_neq.
  unfold set_and_empty. rewrite !bool_decide_eq_false.
  split.
  - intros H. split; rewrite ?Forall_cons, ?Forall_nil; tauto.
  - intros [? [? ?] ? ? Hu (? & ? & ? & ?) [? ?] ? [? Hn] ? ? [? ?]].
    rewrite !Forall_cons in Hu, Hn. destruct Hu as (? & ? & ? & _), Hn as (? & ? & ? & _). tauto.
Qed.

Lemma extract_from_Ok extracted config :
  extract_from extracted = Ok config → extracted = Ok config ∧ Sound config.
Proof.
  unfold extract_from. destruct extracted as [c|]; [|done]. case_bool_decide as E; [|done].
  intros [= <-]. split; [done|]. by apply validate_nil.
Qed.

(** *** The list of violations *)

(** Every rule in the order of [validate]: what breaks it, and the message that says so. *)
Definition rules (c : XConfig) : list (Prop * string) :=
  [(is_socket_addr (listen_addr (admin_ c)) = false,
      "admin.listen_addr must be a socket address such as 127.0.0.1:9087");
   (db_url (database c) = "", "database.url must not be empty");
   (max_connections (database c) = 0, "database.max_connections must be at least 1");
   (trim (log_filter (telemetry c)) = "", "telemetry.log_filter must not be empty");
   (∃ secret, token_encryption_key (security c) = Some secret ∧
      ¬ ∃ cipher, from_secret_key secret = Ok cipher ∧ String.length (key cipher) = KEY_LEN,
      "security.token_encryption_key must be 32 raw bytes base64url-encoded");
   (trim (authorize_url (oauth c)) = "", "oauth.authorize_url must not be empty");
   (trim (token_url (oauth c)) = "", "oauth.token_url must not be empty");
   (trim (revocation_url (oauth c)) = "", "oauth.revocation_url must not be empty");
   (client_id (oauth c) = Some "", "oauth.client_id must not be empty when set");
   (redirect_uri (oauth c) = Some "", "oauth.redirect_uri must not be empty when set");
   (intent_ttl_seconds (oauth c) = 0, "oauth.intent_ttl_seconds must be at least 1");
   (read_scopes (oauth c) = [], "oauth.read_scopes must list at least one scope");
   (request_cap_per_window (budgets c) = 0, "budgets.request_cap_per_window must be at least 1");
   (bc_window_seconds (budgets c) = 0, "budgets.window_seconds must be at least 1");
   (starts_with "nats://" (bus_url (bus_ c)) = false ∧ starts_with "tls://" (bus_url (bus_ c)) = false,
      "bus.url must start with nats:// or tls://");
   (starts_with "/" (nkey_seed_path (bus_ c)) = false, "bus.nkey_seed_path must be an absolute path");
   (trim (stream_name (bus_ c)) = "", "bus.stream_name must not be empty");
   (trim (consumer_name (bus_ c)) = "", "bus.consumer_name must not be empty");
   (trim (events_stream_name (bus_ c)) = "", "bus.events_stream_name must not be empty");
   (starts_with "https://" (api_base_url (public_capture c)) = false, "public_capture.api_base_url must be an https URL");
   (∃ path, bearer_token_path (public_capture c) = Some path ∧ starts_with "/" path = false,
      "public_capture.bearer_token_path must be an absolute path");
   (pc_max_attempts (public_capture c) = 0, "public_capture.max_attempts must be at least 1");
   (pc_batch_size (public_capture c) = 0, "public_capture.batch_size must be at least 1");
   (poll_interval_seconds (public_capture c) = 0, "public_capture.poll_interval_seconds must be at least 1");
   (∃ path, extra_ca_file (public_capture c) = Some path ∧ starts_with "/" path = false,
      "public_capture.extra_ca_file must be an absolute path");
   (∃ path, extra_ca_file (public_capture c) = Some path ∧ starts_with "/" path = true ∧ read_file path = None,
      "public_capture.extra_ca_file must be a readable file");
   (∃ path bytes, extra_ca_file (public_capture c) = Some path ∧ starts_with "/" path = true ∧
      read_file path = Some bytes ∧ holds_certificate bytes = false,
      "public_capture.extra_ca_file must hold at least one PEM certificate");
   ((¬ 30 ≤ resend_after_seconds (tombstone c) ≤ 86400)%Z, "tombstone.resend_after_seconds must be between 30 and 86400");
   ((¬ resend_after_seconds (tombstone c) ≤ resend_cap_seconds (tombstone c) ≤ 604800)%Z,
      "tombstone.resend_cap_seconds must be at least tombstone.resend_after_seconds and at most 604800")]%string.

(** The messages of the broken rules, one for each, in the order of the rules, and no other. *)
Inductive listed : list (Prop * string) → list string → Prop :=
  | listed_nil : listed [] []
  | listed_broken (P : Prop) message rest messages :
      P → listed rest messages → listed ((P, message) :: rest) (message :: messages)
  | listed_kept (P : Prop) message rest messages :
      ¬ P → listed rest messages → listed ((P, message) :: rest) messages.

Lemma listed_violation (P : Prop) b message rest messages :
  (b = true ↔ P) → listed rest messages → listed ((P, message) :: rest) (violation b message ++ messages).
Proof. intros H Hr. destruct b; constructor; try done; [by apply H|by intros ?%H]. Qed.

Lemma listed_violation_last (P : Prop) b message :
  (b = true ↔ P) → listed [(P, message)] (violation b message).
Proof. intros H. rewrite <-(app_nil_r (violation b message)). apply listed_violation; [done|constructor]. Qed.

Lemma set_and_true p s : set_and p s = true ↔ ∃ v, s = Some v ∧ p v = true.
Proof. destruct s as [v|]; simpl; naive_solver. Qed.

Lemma is_blank_true s : is_blank s = true ↔ trim s = ""%string.
Proof. unfold is_blank. apply String.eqb_eq. Qed.

(** The three rules of the extra certificate file. *)
Lemma listed_extra_ca file rest messages :
  listed rest messages →
  listed
    ((∃ path, file = Some path ∧ starts_with "/" path = false,
        "public_capture.extra_ca_file must be an absolute path"%string) ::
     (∃ path, file = Some path ∧ starts_with "/" path = true ∧ read_file path = None,
        "public_capture.extra_ca_file must be a readable file"%string) ::
     (∃ path bytes, file = Some path ∧ starts_with "/" path = true ∧ read_file path = Some bytes ∧
        holds_certificate bytes = false, "public_capture.extra_ca_file must hold at least one PEM certificate"%string) ::
     rest)
    (match file with Some path => validate_extra_ca_file path | None => [] end ++ messages).
Proof.
  intros Hr. destruct file as [path|]; [|].
  2: { do 2 (apply listed_kept; [by intros (? & ? & _)|]). by apply listed_kept; [intros (? & ? & ? & _)|]. }
  unfold validate_extra_ca_file. destruct (starts_with "/" path) eqn:Es; simpl.
  2: { apply listed_broken; [by exists path|].
       apply listed_kept; [intros (? & ? & ? & _); congruence|].
       apply listed_kept; [intros (? & ? & ? & ? & _); congruence|done]. }
  apply listed_kept; [intros (? & ? & ?); congruence|]. destruct (read_file path) as [bytes|] eqn:Ef; simpl.
  2: { apply listed_broken; [by exists path|]. apply listed_kept; [intros (? & ? & ? & _ & ? & _); congruence|done]. }
  apply listed_kept; [intros (? & ? & _ & ?); congruence|]. apply listed_violation; [|done].
  rewrite negb_true_iff. split; [by exists path, bytes|]. intros (? & ? & ? & _ & ? & ?). congruence.
Qed.

Lemma validate_listed c : listed (rules c) (validate c).
Proof.
  unfold validate, rules, validate_public_capture, validate_tombstone. rewrite <-!app_assoc.
  repeat first [apply listed_extra_ca|apply listed_violation|apply listed_violation_last].
  all: rewrite ?negb_true_iff, ?is_blank_true, ?String.eqb_eq, ?Z.eqb_eq, ?orb_true_iff, ?orb_false_iff, ?set_and_true,
    ?bool_decide_eq_true, ?Z.ltb_lt; try done; try (unfold set_and_empty; apply bool_decide_eq_true).
  - setoid_rewrite from_secret_key_Ok. setoid_rewrite negb_true_iff. by setoid_rewrite bool_decide_eq_false.
  - by setoid_rewrite negb_true_iff.
  - rewrite <-in_range_spec. by destruct (in_range _ _ _).
  - lia.
Qed.

(** ** Properties *)

(** C40. Loading either yields what was extracted, and then every rule holds, or refuses. A refusal of what
    was extracted lists the message of every rule that is broken, one for each and in the order of the
    rules, and no other message; it is never empty. *)
Theorem loading_accepts_exactly_sound_configurations extracted :
  match extract_from extracted with
  | Ok config => extracted = Ok config ∧ Sound config
  | Err (SourceError source) => extracted = Err source
  | Err (Invalid violations) => ∃ config, extracted = Ok config ∧ ¬ Sound config ∧
      listed (rules config) violations ∧ violations ≠ []
  end.
Proof.
  unfold extract_from. destruct extracted as [config|source]; [|done].
  case_bool_decide as E; [by rewrite <-validate_nil|]. exists config. rewrite <-validate_nil. auto using validate_listed.
Qed.

(** Under an accepted configuration a removal is sent again no sooner than thirty seconds and no later
    than a week after the last time, at every count: sooner than that the broker would collapse it, and
    the schedule never overflows. *)
Theorem accepted_policies_bound_every_resend extracted config count :
  extract_from extracted = Ok config → 0 ≤ count →
  30 ≤ resend_delay (resend_policy config) count ≤ 604800 ∧
  resend_delay (resend_policy config) count ≤ resend_delay (resend_policy config) (count + 1).
Proof.
  unfold extract_from. destruct extracted as [c|]; [|done]. case_bool_decide as E; [|done].
  intros [= <-] Hc. apply validate_nil, so_tombstone in E as [Ha Hcap].
  unfold resend_delay, resend_policy. cbn [rp_after rp_cap].
  assert (H1 : 1 ≤ 2 ^ Z.min count 30) by (apply (Z.pow_le_mono_r 2 0); lia).
  assert (H2 : 2 ^ Z.min count 30 ≤ 2 ^ Z.min (count + 1) 30) by (apply Z.pow_le_mono_r; lia).
  nia.
Qed.
End ConfigTheorems.

(** ** Concrete configurations *)
Module ConfigSamples.

#[export] Instance sample_inputs : ConfigInputs := {|
  base64_url_no_pad s := if (String.length s =? 43)%nat then Some (str_take 32 s) else None;
  base64_url s := if ends_with "=" s then Some (str_take 32 s) else None;
  read_file path := if String.eqb path "/etc/ca.pem" then Some "certificate"%string else None;
  holds_certificate bytes := String.eqb bytes "certificate";
|}.

(** The defaults pass; everything that is wrong is reported together, in the order of the rules. *)
Example defaults_are_accepted : extract_from (Ok default_config) = Ok default_config.
Proof. vm_compute. reflexivity. Qed.

Definition sample_broken : XConfig :=
  mkXConfig (mkAdminConfig "localhost:9087") (mkDatabaseConfig "" 0) (telemetry default_config)
    (mkSecurityConfig (Some "short"%string)) (oauth default_config) (mkBudgetsConfig 0 900)
    (bus_ default_config)
    (mkPublicCaptureConfig "http://api.x.com" (Some "token"%string) 5 8 2 (Some "/missing"%string))
    (mkTombstoneConfig 600 500).

Example every_violation_is_reported :
  extract_from (Ok sample_broken) = Err (Invalid
    ["admin.listen_addr must be a socket address such as 127.0.0.1:9087"; "database.url must not be empty";
     "database.max_connections must be at least 1";
     "security.token_encryption_key must be 32 raw bytes base64url-encoded";
     "budgets.request_cap_per_window must be at least 1"; "public_capture.api_base_url must be an https URL";
     "public_capture.bearer_token_path must be an absolute path";
     "public_capture.extra_ca_file must be a readable file";
     "tombstone.resend_cap_seconds must be at least tombstone.resend_after_seconds and at most 604800"]%string).
Proof. vm_compute. reflexivity. Qed.

(** Nine rules are broken, and their nine messages are the list. *)
Lemma loading_accepts_exactly_sound_configurations_witness :
  ∃ violations, extract_from (Ok sample_broken) = Err (Invalid violations) ∧ length violations = 9%nat ∧
    ¬ Sound sample_broken ∧ listed (rules sample_broken) violations.
Proof.
  pose proof (loading_accepts_exactly_sound_configurations (Ok sample_broken)) as H.
  rewrite every_violation_is_reported in H. destruct H as (config & [= <-] & Hs & Hl & _).
  eexists. split; [exact every_violation_is_reported|]. split; [reflexivity|]. split; [exact Hs|exact Hl].
Defined.

Lemma accepted_policies_bound_every_resend_witness :
  30 ≤ resend_delay (resend_policy default_config) 7 ≤ 604800.
Proof.
  destruct (accepted_policies_bound_every_resend (Ok default_config) default_config 7) as [H _].
  - vm_compute. reflexivity.
  - lia.
  - exact H.
Defined.
End ConfigSamples.
