(* ===== verification/Service.v ===== *)
(** * The service process ([services/x/src/{main,bootstrap,bus}.rs], [crates/x-http/src/admin.rs])

    The admin endpoints over the shared runtime state, the bootstrap sequence with its exit codes, and
    the life of the process once it serves: bus tasks that run, report and stop, the shutdown future
    that watches them, and the drain. The life is a step relation, since the tasks, the signal and the
    timers interleave freely; what the tasks do is modelled in their own files. *)
From stdpp Require Import relations.
From S2P Require Export Config.

(** ** The runtime state *)

Definition BUS_UNCONFIGURED : Z := 0.
Definition BUS_UP : Z := 1.
Definition BUS_DOWN : Z := 2.
Definition READY : Z := 1.
Definition DRAINING : Z := 2.

Record RuntimeState := mkRuntimeState { lifecycle : Z; database_ready : bool; bus : Z }.

Definition new_runtime : RuntimeState := mkRuntimeState 0 false BUS_UNCONFIGURED.
Definition mark_database_ready (s : RuntimeState) : RuntimeState := mkRuntimeState (lifecycle s) true (bus s).
Definition set_bus_ready (up : bool) (s : RuntimeState) : RuntimeState :=
  mkRuntimeState (lifecycle s) (database_ready s) (if up then BUS_UP else BUS_DOWN).
Definition set_ready (s : RuntimeState) : RuntimeState := mkRuntimeState READY (database_ready s) (bus s).
Definition begin_drain (s : RuntimeState) : RuntimeState := mkRuntimeState DRAINING (database_ready s) (bus s).
Definition is_draining (s : RuntimeState) : bool := lifecycle s =? DRAINING.

Record CheckStatus := mkCheckStatus { check_name : string; check_ready : bool }.

Definition readiness (s : RuntimeState) : bool * list CheckStatus :=
  let database := database_ready s in
  let checks := [mkCheckStatus "database" database] in
  let '(ready, checks) :=
    if bus s =? BUS_UNCONFIGURED then (database, checks)
    else
      let up := bus s =? BUS_UP in (database && up, checks ++ [mkCheckStatus "bus" up]) in
  (negb (is_draining s) && ready, checks).

(** ** The admin router *)

Inductive Body := JsonBody (v : Value) | TextBody (content_type text : string).
Record Response := mkResponse { status : Z; cache_control : option string; body_ : Body }.

Definition PROMETHEUS_CONTENT_TYPE : string := "text/plain; version=0.0.4; charset=utf-8".
Definition SERVICE_NAME : string := "ratatoskr-x".

(** What the build and the metrics recorder provide. *)
Record BuildIdentity := mkBuildIdentity { version_ : string; git_sha : option string; rust_version : string }.

Definition no_store (r : Response) : Response := mkResponse (status r) (Some "no-store"%string) (body_ r).

Definition live : Response := mkResponse 200 None (JsonBody (Object [("state", Str "live")]%string)).
Definition check_value (c : CheckStatus) : Value :=
  Object [("name", Str (check_name c)); ("ready", Bool (check_ready c))]%string.
Definition ready (s : RuntimeState) : Response :=
  let '(is_ready, checks) := readiness s in
  mkResponse (if is_ready then 200 else 503) None
    (JsonBody (Object [("state", Str (if is_ready then "ready" else "not_ready"));
                       ("checks", Arr (check_value <$> checks))]%string)).
Definition metrics (exposition : string) : Response :=
  mkResponse 200 None (TextBody PROMETHEUS_CONTENT_TYPE exposition).
Definition version (b : BuildIdentity) : Response :=
  mkResponse 200 None (JsonBody (Object
    [("service", Str SERVICE_NAME); ("version", Str (version_ b));
     ("git_sha", Str (default "unknown" (git_sha b))); ("rust_version", Str (rust_version b))]%string)).

(** [admin_router]: the routes that answer [GET]. *)
Definition admin_router (b : BuildIdentity) (exposition : string) (s : RuntimeState) (path : string) :
    option Response :=
  no_store <$>
    (if String.eqb path "/health/live" then Some live
     else if String.eqb path "/health/ready" then Some (ready s)
     else if String.eqb path "/metrics" then Some (metrics exposition)
     else if String.eqb path "/version" then Some (version b)
     else None).

(** ** Failures of the bootstrap *)

(** A subsystem's own error by its [Display]. *)
Inductive BootstrapError :=
  | ConfigFailed (e : ConfigError)
  | Telemetry (text : string)
  | PersistenceFailed (text : string)
  | NatsSeed
  | Nats (text : string)
  | BearerToken
  | BearerTokenEmpty
  | ExtraCa
  | PublicCaptureFailed (text : string)
  | BusTask (reason : string)
  | Listener.

Definition exit_code (e : BootstrapError) : Z :=
  match e with
  | ConfigFailed _ | BearerToken | BearerTokenEmpty | ExtraCa => 78
  | Telemetry _ | PersistenceFailed _ | NatsSeed | Nats _ | PublicCaptureFailed _ | BusTask _ | Listener => 1
  end.

(** [BootstrapError::report]. *)
Definition report (e : BootstrapError) : string :=
  match e with
  | ConfigFailed e => "configuration was rejected: " +:+ config_error_text e
  | Telemetry text => "telemetry could not start: " +:+ text
  | PersistenceFailed text => "database could not start: " +:+ text
  | NatsSeed => "the NATS credential could not be read"
  | Nats text => "the NATS command consumer could not start: " +:+ text
  | BearerToken => "the public-capture bearer token could not be read"
  | BearerTokenEmpty => "the public-capture bearer token file is empty"
  | ExtraCa => "the public-capture extra CA file could not be read"
  | PublicCaptureFailed text => "the public post resolver could not start: " +:+ text
  | BusTask reason => "a bus task stopped: " +:+ reason
  | Listener => "the admin listener could not bind"
  end.

(** ** The bootstrap sequence *)

(** What the subsystems answer while the process starts; an error by its text. *)
Record StartupAnswers := mkStartupAnswers {
  sa_extracted : result XConfig string;               (* the figment of defaults and environment *)
  sa_read_to_string : string → option string;         (* UTF-8 files: the token and the seed *)
  sa_telemetry : result unit string;
  sa_database : string → Z → result unit string;      (* [Database::connect] *)
  sa_schema : result unit string;
  sa_broker : string → string → result unit string;   (* by seed and endpoint *)
  sa_browser_durable : string → string → result unit string;
  sa_reports_durable : string → result unit string;
  sa_acks_durable : string → result unit string;
  sa_resolver : string → string → option string → result unit string;
  sa_bind : string → bool;
}.

Section Startup.
Context {inp : ConfigInputs} (answers : StartupAnswers).

Definition read_bearer_token (path : string) : result string BootstrapError :=
  let? text := ok_or (sa_read_to_string answers path) BearerToken in
  let token := trim text in
  if String.eqb token "" then Err BearerTokenEmpty else Ok token.

Definition connect_bus (config : BusConfig) : result unit BootstrapError :=
  let? seed := ok_or (sa_read_to_string answers (nkey_seed_path config)) NatsSeed in
  result_map_err Nats (sa_broker answers (trim seed) (bus_url config)).

Definition verify_durables (config : XConfig) : result unit BootstrapError :=
  do? result_map_err Nats
    (sa_browser_durable answers (stream_name (bus_ config)) (consumer_name (bus_ config))) in
  do? result_map_err Nats (sa_reports_durable answers (events_stream_name (bus_ config))) in
  result_map_err Nats (sa_acks_durable answers (events_stream_name (bus_ config))).

Definition TASKS : list string :=
  ["browser_capture_consumer"; "extractor_report_consumer"; "deletion_ack_consumer";
   "public_capture_worker"; "outbox_relay"]%string.

(** [spawn_bus_tasks], up to the tasks it starts. *)
Definition spawn_bus_tasks (config : XConfig) (bearer_token : string) : result (list string) BootstrapError :=
  let? extra_ca :=
    match extra_ca_file (public_capture config) with
    | None => Ok None
    | Some path => let? bytes := ok_or (read_file path) ExtraCa in Ok (Some bytes)
    end in
  do? result_map_err PublicCaptureFailed
    (sa_resolver answers (api_base_url (public_capture config)) bearer_token extra_ca) in
  Ok TASKS.

(** [run], up to the bound listener: the runtime state and the running tasks it serves with. *)
Definition start : result (RuntimeState * list string) BootstrapError :=
  let? config := result_map_err ConfigFailed (extract_from (sa_extracted answers)) in
  let? path := result_map_err ConfigFailed (require_public_capture_token_path config) in
  let? bearer_token := read_bearer_token path in
  do? result_map_err Telemetry (sa_telemetry answers) in
  do? result_map_err PersistenceFailed
    (sa_database answers (db_url (database config)) (max_connections (database config))) in
  do? result_map_err PersistenceFailed (sa_schema answers) in
  do? connect_bus (bus_ config) in
  do? verify_durables config in
  let state := set_bus_ready true (mark_database_ready new_runtime) in
  let? tasks := spawn_bus_tasks config bearer_token in
  if negb (sa_bind answers (listen_addr (admin_ config))) then Err Listener
  else Ok (set_ready state, tasks).
End Startup.

(** ** The life of the process *)

(** What [join_next] yields for a finished task. *)
Inductive TaskExit := Returned (name : string) | Failed (name error : string) | Panicked (error : string).

Definition describe_exit (e : TaskExit) : string :=
  match e with
  | Returned name => name +:+ " returned"
  | Failed name error => name +:+ " failed: " +:+ error
  | Panicked error => "a bus task panicked or was cancelled: " +:+ error
  end.

(** Where the shutdown future is: waiting for a signal or a task, in [FAILURE_GRACE], past
    [begin_drain]; or the process has left with the outcome of [run]. *)
Inductive Phase := Serving | Grace | Draining | Exited (outcome : result unit BootstrapError).

Record Process := mkProcess {
  runtime : RuntimeState;
  running : list string;           (* tasks that have not finished *)
  exits : list TaskExit;           (* finished tasks that were not joined yet *)
  phase : Phase;
  failure : option string;
}.

Definition serve (started : RuntimeState * list string) : Process :=
  mkProcess started.1 started.2 [] Serving None.

Definition alive (p : Process) : Prop := match phase p with Exited _ => False | _ => True end.
Definition without (name : string) (names : list string) : list string := filter (λ n, n ≠ name) names.
Definition how_exit (name : string) (e : TaskExit) : Prop :=
  match e with Returned n => n = name | Failed n _ => n = name | Panicked _ => True end.

(** The end of [run]: what the failure slot holds decides. *)
Definition run_outcome (p : Process) : result unit BootstrapError :=
  match failure p with None => Ok tt | Some reason => Err (BusTask reason) end.

Inductive step : Process → Process → Prop :=
  (** The relay calls [on_health] after every pass. *)
  | StepRelay p healthy :
      alive p → "outbox_relay"%string ∈ running p →
      step p (mkProcess (set_bus_ready healthy (runtime p)) (running p) (exits p) (phase p) (failure p))
  (** A task finishes, however. *)
  | StepFinish p name e :
      alive p → name ∈ running p → how_exit name e →
      step p (mkProcess (runtime p) (without name (running p)) (e :: exits p) (phase p) (failure p))
  (** SIGINT or SIGTERM. *)
  | StepSignal p :
      phase p = Serving →
      step p (mkProcess (begin_drain (runtime p)) (running p) (exits p) Draining (failure p))
  (** [next_exit] joins a finished task. *)
  | StepJoin p e rest :
      phase p = Serving → exits p ≡ₚ e :: rest →
      step p (mkProcess (set_bus_ready false (runtime p)) (running p) rest Grace (Some (describe_exit e)))
  (** [FAILURE_GRACE] is over. *)
  | StepGrace p :
      phase p = Grace →
      step p (mkProcess (begin_drain (runtime p)) (running p) (exits p) Draining (failure p))
  (** The server stopped; [drain_tasks] waits for the tasks, or aborts them. *)
  | StepDrained p :
      phase p = Draining →
      step p (mkProcess (runtime p) [] [] (Exited (run_outcome p)) (failure p))
  (** [axum::serve] fails. *)
  | StepServeFails p :
      alive p →
      step p (mkProcess (runtime p) [] [] (Exited (Err Listener)) (failure p)).

(** [main], once the runtime was built: the exit status of the process. *)
Definition main_status (outcome : result unit BootstrapError) : Z :=
  match outcome with Ok _ => 0 | Err e => exit_code e end.

(** ** What holds throughout *)

Record Consistent (p : Process) : Prop := {
  cs_database : database_ready (runtime p) = true;
  cs_lifecycle : match phase p with
    | Serving | Grace => lifecycle (runtime p) = READY
    | Draining => lifecycle (runtime p) = DRAINING
    | Exited _ => lifecycle (runtime p) = READY ∨ lifecycle (runtime p) = DRAINING
    end;
  cs_bus : bus (runtime p) = BUS_UP ∨ bus (runtime p) = BUS_DOWN;
  cs_failure : match phase p with
    | Serving => failure p = None
    | Grace => is_Some (failure p)
    | Draining => True
    | Exited outcome => outcome = run_outcome p ∨ outcome = Err Listener
    end;
}.

Section ServiceTheorems.

Lemma readiness_spec (s : RuntimeState) :
  bus s ≠ BUS_UNCONFIGURED →
  (readiness s).1 = negb (is_draining s) && (database_ready s && (bus s =? BUS_UP)).
Proof. intros H. unfold readiness. by rewrite (proj2 (Z.eqb_neq _ _) H). Qed.

Lemma step_consistent p p' : step p p' → Consistent p → Consistent p'.
Proof.
  intros Hs [Hd Hl Hb Hf]. destruct Hs as [p healthy Ha _|p name e Ha _ _|p Hp|p e rest Hp _|p Hp|p Hp|p Ha];
    split; simpl; try done; rewrite ?Hp in *; try done; try (by right).
  - destruct healthy; auto.
  - by left.
  - unfold alive in Ha. destruct (phase p); auto; done.
Qed.

Lemma reachable_consistent p p' : rtc step p p' → Consistent p → Consistent p'.
Proof. induction 1 as [|p q r Hs _ IH]; intros H; [done|]. by eapply IH, step_consistent. Qed.

(** Everything the process needs before it serves. *)
Record Provisioned {inp : ConfigInputs} (answers : StartupAnswers) (config : XConfig) : Prop := {
  pv_config : sa_extracted answers = Ok config ∧ Sound config;
  pv_token : ∃ path text, bearer_token_path (public_capture config) = Some path ∧
    sa_read_to_string answers path = Some text ∧ trim text ≠ ""%string ∧
    ∃ extra_ca, sa_resolver answers (api_base_url (public_capture config)) (trim text) extra_ca = Ok tt;
  pv_database : sa_database answers (db_url (database config)) (max_connections (database config)) = Ok tt ∧
    sa_schema answers = Ok tt;
  pv_broker : ∃ seed, sa_read_to_string answers (nkey_seed_path (bus_ config)) = Some seed ∧
    sa_broker answers (trim seed) (bus_url (bus_ config)) = Ok tt;
  pv_durables : sa_browser_durable answers (stream_name (bus_ config)) (consumer_name (bus_ config)) = Ok tt ∧
    sa_reports_durable answers (events_stream_name (bus_ config)) = Ok tt ∧
    sa_acks_durable answers (events_stream_name (bus_ config)) = Ok tt;
  pv_listener : sa_bind answers (listen_addr (admin_ config)) = true;
}.

Lemma read_bearer_token_Ok answers path token :
  read_bearer_token answers path = Ok token →
  ∃ text, sa_read_to_string answers path = Some text ∧ token = trim text ∧ token ≠ ""%string.
Proof.
  unfold read_bearer_token. intros (text & Ht%ok_or_Ok & H)%result_bind_Ok. simpl in H.
  destruct (String.eqb_spec (trim text) ""); [done|]. injection H as <-. by exists text.
Qed.

Lemma spawn_bus_tasks_Ok {inp : ConfigInputs} answers config token tasks :
  spawn_bus_tasks answers config token = Ok tasks →
  tasks = TASKS ∧ ∃ extra_ca, sa_resolver answers (api_base_url (public_capture config)) token extra_ca = Ok tt.
Proof.
  unfold spawn_bus_tasks. intros H. opens. injection H as <-. split; [done|].
  exists x. by destruct x0; apply result_map_err_Ok in H1.
Qed.

Lemma start_Ok {inp : ConfigInputs} answers started :
  start answers = Ok started →
  (∃ config, Provisioned answers config) ∧ started = (mkRuntimeState READY true BUS_UP, TASKS).
Proof.
  unfold start. intros H. opens.
  repeat match goal with
  | H : result_map_err _ _ = Ok _ |- _ => apply result_map_err_Ok in H
  | u : () |- _ => destruct u
  | H : spawn_bus_tasks _ _ _ = Ok _ |- _ => apply spawn_bus_tasks_Ok in H as [-> ?]
  | H : read_bearer_token _ _ = Ok _ |- _ => apply read_bearer_token_Ok in H as (? & ? & -> & ?)
  | H : extract_from _ = Ok _ |- _ => apply extract_from_Ok in H
  | H : negb _ = false |- _ => apply negb_false_iff in H
  | H : connect_bus _ _ = Ok _ |- _ => unfold connect_bus in H; opens
  | H : verify_durables _ _ = Ok _ |- _ => unfold verify_durables in H; opens
  | H : ok_or _ _ = Ok _ |- _ => apply ok_or_Ok in H
  | H : require_public_capture_token_path _ = Ok _ |- _ => apply ok_or_Ok in H
  end.
  split; [|done]. exists x. split; eauto 8.
Qed.

Lemma served_consistent : Consistent (serve (mkRuntimeState READY true BUS_UP, TASKS)).
Proof. split; simpl; auto. Qed.

(** What a probe of [/health/ready] sees. *)
Definition is_ready (p : Process) : bool := (readiness (runtime p)).1.

Lemma ready_status (s : RuntimeState) : status (ready s) = if (readiness s).1 then 200 else 503.
Proof. unfold ready. by destruct (readiness s) as [[] checks]. Qed.

Lemma consistent_ready p :
  Consistent p → is_ready p = negb (lifecycle (runtime p) =? DRAINING) && (bus (runtime p) =? BUS_UP).
Proof.
  intros [Hd _ Hb _]. unfold is_ready. rewrite readiness_spec by (destruct Hb as [-> | ->]; done).
  unfold is_draining. by rewrite Hd.
Qed.

(** A recorded failure stays recorded. *)
Lemma step_failure p p' reason : step p p' → Consistent p → failure p = Some reason → failure p' = Some reason.
Proof.
  intros Hs [_ _ _ Hf] Hr. destruct Hs as [| | |p e rest Hp _| | |]; try exact Hr.
  rewrite Hp in Hf. congruence.
Qed.

Lemma reachable_failure p p' reason :
  rtc step p p' → Consistent p → failure p = Some reason → failure p' = Some reason ∧ Consistent p'.
Proof.
  induction 1 as [|p q r Hs _ IH]; intros Hc Hf; [done|].
  apply IH; [by eapply step_consistent|by eapply step_failure].
Qed.

(** Once the relay has finished, nothing raises the bus check again. *)
Lemma step_bus_down p p' :
  step p p' → "outbox_relay"%string ∉ running p → bus (runtime p) = BUS_DOWN →
  "outbox_relay"%string ∉ running p' ∧ bus (runtime p') = BUS_DOWN.
Proof.
  intros Hs Hr Hb. destruct Hs; simpl; try done; (split; [|done]); try apply not_elem_of_nil.
  intros Hin. apply Hr. unfold without in Hin. by apply list_elem_of_filter in Hin as [_ ?].
Qed.

(** *** Properties *)

(** The process serves only when its configuration is sound, the app-only credential is there, and the
    database, the broker, the durables and the listener all answered; then it is ready and every task
    runs. A rejected configuration or a missing credential is found before anything else is touched and
    always ends the process with [EX_CONFIG]. *)
Theorem startup_requires_everything {inp : ConfigInputs} answers :
  (∀ state tasks, start answers = Ok (state, tasks) →
     (∃ config, Provisioned answers config) ∧ status (ready state) = 200 ∧ tasks = TASKS) ∧
  ((∀ config path text, extract_from (sa_extracted answers) = Ok config →
      bearer_token_path (public_capture config) = Some path →
      sa_read_to_string answers path = Some text → trim text = ""%string) →
   ∃ e, start answers = Err e ∧ exit_code e = 78).
Proof.
  split; [intros state tasks E; by apply start_Ok in E as [Hp [= -> ->]]|].
  intros Hno. unfold start. destruct (extract_from _) as [config|ce];
    cbn [result_map_err result_bind]; [|by eexists].
  unfold require_public_capture_token_path.
  destruct (bearer_token_path _) as [path|] eqn:Ep; cbn [ok_or result_map_err result_bind]; [|by eexists].
  unfold read_bearer_token.
  destruct (sa_read_to_string answers path) as [text|] eqn:Et; cbn [ok_or result_bind]; [|by eexists].
  rewrite (Hno config path text) by done. by eexists.
Qed.

(** A signal that arrives while the process serves ends it with status zero, also when a task has
    finished and was not joined yet. *)
Lemma signalled_exit p :
  phase p = Serving → failure p = None → ∃ p', rtc step p p' ∧ phase p' = Exited (Ok tt).
Proof.
  intros Hp Hf. eexists. split.
  - eapply rtc_l; [by apply StepSignal|]. apply rtc_once, StepDrained. done.
  - simpl. unfold run_outcome. simpl. by rewrite Hf.
Qed.

(** C20. From a served process on, however tasks, reports, signals and timers interleave: readiness is only
    answered while the shutdown has not begun and the bus check is up, never once the drain started. The
    process leaves with status zero or one: zero exactly when no stopped task was joined and the
    listener did not fail, one otherwise. Joining a stopped task takes the bus check down and is
    remembered: from then on the process can only leave with status one. A task that stopped but was not
    joined is not remembered: while the process serves, a signal can still win that race, and the
    process then leaves with status zero. *)
Theorem served_processes_stay_consistent p :
  rtc step (serve (mkRuntimeState READY true BUS_UP, TASKS)) p →
  (status (ready (runtime p)) = 200 →
     phase p ≠ Draining ∧ bus (runtime p) = BUS_UP ∧ is_draining (runtime p) = false) ∧
  (phase p = Draining → status (ready (runtime p)) = 503) ∧
  (∀ outcome, phase p = Exited outcome →
     main_status outcome = match outcome with Ok _ => 0 | Err _ => 1 end ∧
     (main_status outcome = 0 ↔ failure p = None ∧ outcome ≠ Err Listener)) ∧
  (∀ e rest, phase p = Serving → exits p ≡ₚ e :: rest → ∃ joined, step p joined ∧ phase joined = Grace ∧
     failure joined = Some (describe_exit e) ∧ status (ready (runtime joined)) = 503) ∧
  (phase p = Grace → ∀ p' outcome, rtc step p p' → phase p' = Exited outcome → main_status outcome = 1) ∧
  (phase p = Serving → ∃ p', rtc step p p' ∧ phase p' = Exited (Ok tt)).
Proof.
  intros Hr. pose proof (reachable_consistent _ _ Hr served_consistent) as Hc.
  pose proof (consistent_ready p Hc) as Hready. unfold is_ready in Hready. rewrite ready_status, Hready.
  destruct Hc as [Hd Hl Hb Hf] eqn:Ec. clear Ec. split_and!.
  - destruct (_ =? DRAINING) eqn:E1, (_ =? BUS_UP) eqn:E2; simpl; try done. intros _.
    apply Z.eqb_eq in E2. split_and!; [|done|exact E1]. intros Hp. rewrite Hp in Hl. by rewrite Hl in E1.
  - intros Hp. rewrite Hp in Hl. by rewrite Hl.
  - intros outcome Hp. rewrite Hp in Hf. unfold run_outcome in Hf.
    destruct Hf as [-> | ->], (failure p); simpl; (split; [done|]); split; try done; by intros [].
  - intros e rest Hp He. eexists. split; [by apply StepJoin|]. split_and!; [done..|].
    cbn [runtime]. rewrite ready_status, readiness_spec by done. simpl. by rewrite !andb_false_r.
  - intros Hp p' outcome Hr' Hp'. rewrite Hp in Hf. destruct Hf as [reason Hf].
    destruct (reachable_failure _ _ _ Hr' Hc Hf) as [Hf' [_ _ _ Ho]]. rewrite Hp' in Ho.
    unfold run_outcome in Ho. rewrite Hf' in Ho. by destruct Ho as [-> | ->].
  - intros Hp. rewrite Hp in Hf. by apply signalled_exit.
Qed.

(** When a stopped task is joined and the relay is not running any more, the process is never ready
    again. (While the relay still runs, its next report decides: see below.) *)
Theorem a_stopped_task_ends_readiness p p1 p2 e rest :
  phase p = Serving → exits p ≡ₚ e :: rest → "outbox_relay"%string ∉ running p →
  p1 = mkProcess (set_bus_ready false (runtime p)) (running p) rest Grace (Some (describe_exit e)) →
  rtc step p1 p2 →
  step p p1 ∧ status (ready (runtime p2)) = 503.
Proof.
  intros Hp He Hr -> Hs. split; [by apply StepJoin|].
  assert (H : "outbox_relay"%string ∉ running p2 ∧ bus (runtime p2) = BUS_DOWN).
  { remember (mkProcess _ _ _ _ _) as p1 eqn:E1. assert (H1 : "outbox_relay"%string ∉ running p1 ∧ bus (runtime p1) = BUS_DOWN)
      by (subst p1; done). clear E1 Hp He Hr. induction Hs as [|q q' r Hstep _ IH]; [done|].
    apply IH. destruct H1. by eapply step_bus_down. }
  destruct H as [_ Hb]. rewrite ready_status, readiness_spec by (by rewrite Hb). by rewrite Hb, !andb_false_r.
Qed.
End ServiceTheorems.

(** ** A concrete process *)
Module ServiceSamples.
Import ConfigSamples.

Definition sample_config : XConfig :=
  mkXConfig (admin_ default_config) (database default_config) (telemetry default_config)
    (security default_config) (oauth default_config) (budgets default_config) (bus_ default_config)
    (mkPublicCaptureConfig "https://api.x.com" (Some "/run/secrets/token"%string) 5 8 2 (Some "/etc/ca.pem"%string))
    (tombstone default_config).

Definition sample_answers (token : option string) (bind : bool) : StartupAnswers := {|
  sa_extracted := Ok sample_config;
  sa_read_to_string path := if String.eqb path "/run/secrets/token" then token else Some "SEED"%string;
  sa_telemetry := Ok tt;
  sa_database _ _ := Ok tt;
  sa_schema := Ok tt;
  sa_broker _ _ := Ok tt;
  sa_browser_durable _ _ := Ok tt;
  sa_reports_durable _ := Ok tt;
  sa_acks_durable _ := Ok tt;
  sa_resolver _ _ _ := Ok tt;
  sa_bind _ := bind;
|}.

Example sample_starts :
  start (sample_answers (Some " token "%string) true) = Ok (mkRuntimeState READY true BUS_UP, TASKS).
Proof. vm_compute. reflexivity. Qed.
Example blank_token_is_a_configuration_error :
  start (sample_answers (Some "  "%string) true) = Err BearerTokenEmpty.
Proof. vm_compute. reflexivity. Qed.
Example taken_port : start (sample_answers (Some "token"%string) false) = Err Listener.
Proof. vm_compute. reflexivity. Qed.

(** A router without a configured bus has one check only. *)
Example bare_router :
  status (ready (set_ready (mark_database_ready new_runtime))) = 200 ∧
  status (ready new_runtime) = 503.
Proof. done. Qed.

(** The browser-capture consumer stops and is joined; the relay's next pass reports itself healthy, and
    the process answers ready again although one of its tasks is gone. *)
Definition sample_served : Process := serve (mkRuntimeState READY true BUS_UP, TASKS).
Definition sample_finished : Process :=
  mkProcess (runtime sample_served) (without "browser_capture_consumer" TASKS)
    [Failed "browser_capture_consumer" "gone"] Serving None.
Definition sample_joined : Process :=
  mkProcess (mkRuntimeState READY true BUS_DOWN) (running sample_finished) [] Grace
    (Some "browser_capture_consumer failed: gone"%string).
Definition sample_ready_again : Process :=
  mkProcess (mkRuntimeState READY true BUS_UP) (running sample_joined) [] Grace (failure sample_joined).

Lemma sample_joins : rtc step sample_served sample_joined.
Proof.
  eapply rtc_l; [apply (StepFinish sample_served "browser_capture_consumer"
                          (Failed "browser_capture_consumer" "gone"))|].
  - done.
  - by left.
  - done.
  - apply rtc_once. apply (StepJoin sample_finished (Failed "browser_capture_consumer" "gone") []); done.
Qed.

Lemma readiness_returns_after_a_stopped_task :
  rtc step sample_served sample_joined ∧ status (ready (runtime sample_joined)) = 503 ∧
  step sample_joined sample_ready_again ∧ phase sample_ready_again = Grace ∧
  status (ready (runtime sample_ready_again)) = 200.
Proof.
  split; [exact sample_joins|]. split; [done|]. split; [|done].
  apply (StepRelay sample_joined true); [done|]. apply list_elem_of_In. simpl. tauto.
Qed.

Lemma startup_requires_everything_witness :
  (∃ config, Provisioned (sample_answers (Some " token "%string) true) config) ∧
  ∃ e, start (sample_answers (Some "  "%string) true) = Err e ∧ exit_code e = 78.
Proof.
  split.
  - apply (proj1 (startup_requires_everything (sample_answers (Some " token "%string) true)) _ _ sample_starts).
  - apply (proj2 (startup_requires_everything (sample_answers (Some "  "%string) true))).
    intros config path text [= <-] [= <-] [= <-]. reflexivity.
Defined.

Lemma sample_finishes : rtc step sample_served sample_finished.
Proof.
  apply rtc_once. apply (StepFinish sample_served "browser_capture_consumer"
    (Failed "browser_capture_consumer" "gone")); [done|by left|done].
Qed.

(** The same stopped task, joined and not joined: status one, or zero when a signal comes first. *)
Lemma served_processes_stay_consistent_witness :
  (∀ p' outcome, rtc step sample_joined p' → phase p' = Exited outcome → main_status outcome = 1) ∧
  exits sample_finished ≠ [] ∧ ∃ p', rtc step sample_finished p' ∧ phase p' = Exited (Ok tt).
Proof.
  split; [|split; [done|]].
  - pose proof (served_processes_stay_consistent sample_joined sample_joins) as (_ & _ & _ & _ & H & _).
    exact (H eq_refl).
  - pose proof (served_processes_stay_consistent sample_finished sample_finishes) as (_ & _ & _ & _ & _ & H).
    exact (H eq_refl).
Defined.

Definition sample_relay_finished : Process :=
  mkProcess (mkRuntimeState READY true BUS_UP) (without "outbox_relay" TASKS) [Returned "outbox_relay"] Serving None.
Lemma a_stopped_task_ends_readiness_witness :
  step sample_relay_finished (mkProcess (mkRuntimeState READY true BUS_DOWN)
    (without "outbox_relay" TASKS) [] Grace (Some "outbox_relay returned"%string)) ∧
  status (ready (mkRuntimeState READY true BUS_DOWN)) = 503.
Proof.
  apply (a_stopped_task_ends_readiness sample_relay_finished _
    (mkProcess (mkRuntimeState READY true BUS_DOWN) (without "outbox_relay" TASKS) [] Grace
      (Some "outbox_relay returned"%string)) (Returned "outbox_relay") []).
  - reflexivity.
  - reflexivity.
  - intros Hin. apply list_elem_of_In in Hin. simpl in Hin. intuition discriminate.
  - reflexivity.
  - apply rtc_refl.
Defined.
End ServiceSamples.
