(* ===== verification/TransitionCli.v ===== *)
(** * The operator binary of the legacy transition
      ([services/x/src/{transition_cli,transition_main}.rs])

    A closed, credential-free command line, and the dispatch of one parsed invocation to the service.
    An [OsString] is its bytes; [to_str] is the check that they are UTF-8. *)
From S2P Require Export LegacyReview Config.

(** ** The vocabulary *)

Inductive TransitionCommand := PreflightCommand | ImportCommand | ShadowReportCommand | ChecklistCommand | RecordApprovalCommand.
Inductive SourceArgumentKind := MonolithCsvKind | FieldTheoryJsonlKind | FieldTheorySqliteKind.

Inductive TransitionInvocation :=
  | Preflight (source_kind : SourceArgumentKind) (source_path : string)
  | Import (source_kind : SourceArgumentKind) (source_path : string) (account_id internal_owner_id : Z)
      (ownership_approval_digest : string)
  | ShadowReportOf (account_id import_run_id snapshot_id : Z) (output : option string)
  | Checklist (account_id shadow_report_id : Z) (output : option string)
  | RecordApproval (account_id internal_owner_id shadow_report_id : Z)
      (checklist_digest owner_evidence_digest decision : string).

Inductive TransitionCliError :=
  | MissingCommand
  | UnsupportedCommand
  | ForbiddenArgument (name : string)
  | MissingArgument (name : string)
  | InvalidArgument (name : string)
  | UnsupportedArgument.

(** [uuid::Uuid]'s [FromStr]. *)
Class UuidParser := { parse_uuid : string → option Z }.

(** ** Arguments *)

Definition to_str (argument : string) : option string :=
  if utf8_valid argument then Some argument else None.

(** The words are the ones a legacy record may not name either ([LegacySource.forbidden_words]). *)
Definition forbidden_argument_name (name : string) : bool :=
  let normalized := to_ascii_lowercase (filter_chars is_ascii_alphanumeric name) in
  existsb (λ forbidden, str_contains forbidden normalized) forbidden_words.

(** [to_str().filter(|value| value.starts_with("--"))]. *)
Definition option_name (argument : string) : option string :=
  name ← to_str argument; if starts_with "--" name then Some name else None.

Definition forbidden_argument (argument : string) : option string :=
  name ← option_name argument; if forbidden_argument_name name then Some name else None.

(** [parse_command]. *)
Definition parse_command (command : string) : result TransitionCommand TransitionCliError :=
  if String.eqb command "" then Err MissingCommand
  else if String.eqb command "preflight" then Ok PreflightCommand
  else if String.eqb command "import" then Ok ImportCommand
  else if String.eqb command "shadow-report" then Ok ShadowReportCommand
  else if String.eqb command "checklist" then Ok ChecklistCommand
  else if String.eqb command "record-approval" then Ok RecordApprovalCommand
  else Err UnsupportedCommand.

(** [parse_fields]: name and value in turns, no name twice. *)
Fixpoint parse_fields (fields : gmap string string) (arguments : list string) :
    result (gmap string string) TransitionCliError :=
  match arguments with
  | [] => Ok fields
  | name :: rest =>
      match option_name name, rest with
      | Some name, value :: rest =>
          if bool_decide (is_Some (fields !! name)) then Err UnsupportedArgument
          else parse_fields (<[name := value]> fields) rest
      | _, _ => Err UnsupportedArgument
      end
  end.

(** ** Taking fields

    The fields that are left, threaded through the calls of one struct expression. *)
Definition Take (A : Type) : Type := gmap string string → result (A * gmap string string) TransitionCliError.
Definition take_ret {A} (a : A) : Take A := λ fields, Ok (a, fields).
Definition take_bind {A B} (m : Take A) (k : A → Take B) : Take B :=
  λ fields, let? taken := m fields in k taken.1 taken.2.
Definition take_result {A} (r : result A TransitionCliError) : Take A :=
  λ fields, let? a := r in Ok (a, fields).

Declare Scope take_scope.
Delimit Scope take_scope with take.
Notation "x <~ m ; k" := (take_bind m (λ x, k%take)) (at level 200, m at level 100, k at level 200) : take_scope.
#[local] Open Scope take_scope.

Definition take_optional_path (name : string) : Take (option string) :=
  λ fields, Ok (fields !! name, delete name fields).
Definition take_path (name : string) : Take string :=
  path <~ take_optional_path name; take_result (ok_or path (MissingArgument name)).
Definition take_string (name : string) : Take string :=
  value <~ take_path name; take_result (ok_or (to_str value) (InvalidArgument name)).

Definition source_kind_of (value : string) : option SourceArgumentKind :=
  if String.eqb value "monolith-csv" then Some MonolithCsvKind
  else if String.eqb value "field-theory-jsonl" then Some FieldTheoryJsonlKind
  else if String.eqb value "field-theory-sqlite" then Some FieldTheorySqliteKind
  else None.
Definition take_source_kind : Take SourceArgumentKind :=
  value <~ take_string "--source-kind";
  take_result (ok_or (source_kind_of value) (InvalidArgument "--source-kind")).

(** [is_ascii_hexdigit() && !is_ascii_uppercase()], by [LegacySource.lower_hex_char]. *)
Definition take_digest (name : string) : Take string :=
  value <~ take_string name;
  take_result (if valid_sha256 value then Ok value else Err (InvalidArgument name)).
Definition take_decision : Take string :=
  decision <~ take_string "--decision";
  take_result (if String.eqb decision "approved" || String.eqb decision "rejected" then Ok decision
               else Err (InvalidArgument "--decision")).

Section Cli.
Context {up : UuidParser}.

Definition take_uuid (name : string) : Take Z :=
  value <~ take_string name; take_result (ok_or (parse_uuid value) (InvalidArgument name)).

Definition take_invocation (command : TransitionCommand) : Take TransitionInvocation :=
  match command with
  | PreflightCommand =>
      source_kind <~ take_source_kind; source_path <~ take_path "--source";
      take_ret (Preflight source_kind source_path)
  | ImportCommand =>
      source_kind <~ take_source_kind; source_path <~ take_path "--source";
      account_id <~ take_uuid "--account-id"; internal_owner_id <~ take_uuid "--internal-owner-id";
      ownership_approval_digest <~ take_digest "--ownership-approval-digest";
      take_ret (Import source_kind source_path account_id internal_owner_id ownership_approval_digest)
  | ShadowReportCommand =>
      account_id <~ take_uuid "--account-id"; import_run_id <~ take_uuid "--import-run-id";
      snapshot_id <~ take_uuid "--snapshot-id"; output <~ take_optional_path "--output";
      take_ret (ShadowReportOf account_id import_run_id snapshot_id output)
  | ChecklistCommand =>
      account_id <~ take_uuid "--account-id"; shadow_report_id <~ take_uuid "--shadow-report-id";
      output <~ take_optional_path "--output";
      take_ret (Checklist account_id shadow_report_id output)
  | RecordApprovalCommand =>
      account_id <~ take_uuid "--account-id"; internal_owner_id <~ take_uuid "--internal-owner-id";
      shadow_report_id <~ take_uuid "--shadow-report-id"; checklist_digest <~ take_digest "--checklist-digest";
      owner_evidence_digest <~ take_digest "--owner-evidence-digest"; decision <~ take_decision;
      take_ret (RecordApproval account_id internal_owner_id shadow_report_id checklist_digest
                  owner_evidence_digest decision)
  end.

(** [parse_arguments]. *)
Definition parse_arguments (arguments : list string) : result TransitionInvocation TransitionCliError :=
  match omap forbidden_argument arguments with
  | name :: _ => Err (ForbiddenArgument name)
  | [] =>
      match arguments with
      | [] => Err MissingCommand
      | command :: remaining =>
          let? command := parse_command command in
          let? fields := parse_fields ∅ remaining in
          let? taken := take_invocation command fields in
          if bool_decide (taken.2 = ∅) then Ok taken.1 else Err UnsupportedArgument
      end
  end.
End Cli.

(** ** Writing a command line *)

Definition source_kind_argument (kind : SourceArgumentKind) : string :=
  match kind with
  | MonolithCsvKind => "monolith-csv"
  | FieldTheoryJsonlKind => "field-theory-jsonl"
  | FieldTheorySqliteKind => "field-theory-sqlite"
  end.
Definition command_name (invocation : TransitionInvocation) : string :=
  match invocation with
  | Preflight _ _ => "preflight"
  | Import _ _ _ _ _ => "import"
  | ShadowReportOf _ _ _ _ => "shadow-report"
  | Checklist _ _ _ => "checklist"
  | RecordApproval _ _ _ _ _ _ => "record-approval"
  end.
Definition output_field (output : option string) : list (string * string) :=
  match output with Some path => [("--output", path)]%string | None => [] end.

Section Write.
Context {ct : Contracts}.

(** The fields of an invocation, as the usage text spells them. *)
Definition fields_of (invocation : TransitionInvocation) : list (string * string) :=
  match invocation with
  | Preflight kind path => [("--source-kind", source_kind_argument kind); ("--source", path)]%string
  | Import kind path account owner digest =>
      [("--source-kind", source_kind_argument kind); ("--source", path);
       ("--account-id", uuid_text account); ("--internal-owner-id", uuid_text owner);
       ("--ownership-approval-digest", digest)]%string
  | ShadowReportOf account run snapshot output =>
      [("--account-id", uuid_text account); ("--import-run-id", uuid_text run);
       ("--snapshot-id", uuid_text snapshot)]%string ++ output_field output
  | Checklist account report output =>
      [("--account-id", uuid_text account); ("--shadow-report-id", uuid_text report)]%string ++ output_field output
  | RecordApproval account owner report checklist evidence decision =>
      [("--account-id", uuid_text account); ("--internal-owner-id", uuid_text owner);
       ("--shadow-report-id", uuid_text report); ("--checklist-digest", checklist);
       ("--owner-evidence-digest", evidence); ("--decision", decision)]%string
  end.
End Write.

Definition arguments_of_fields (fields : list (string * string)) : list string :=
  flat_map (λ field, [field.1; field.2]) fields.

(** What the types do not say: identifiers are UUIDs, digests and the decision are in their syntax. *)
Definition closed_decision (decision : string) : Prop := decision = "approved"%string ∨ decision = "rejected"%string.
Definition bounded (invocation : TransitionInvocation) : Prop :=
  match invocation with
  | Preflight _ _ => True
  | Import _ _ _ _ digest => valid_sha256 digest = true
  | ShadowReportOf _ _ _ _ | Checklist _ _ _ => True
  | RecordApproval _ _ _ checklist evidence decision =>
      valid_sha256 checklist = true ∧ valid_sha256 evidence = true ∧ closed_decision decision
  end.
Definition uuids_of (invocation : TransitionInvocation) : list Z :=
  match invocation with
  | Preflight _ _ => []
  | Import _ _ account owner _ => [account; owner]
  | ShadowReportOf account run snapshot _ => [account; run; snapshot]
  | Checklist account report _ => [account; report]
  | RecordApproval account owner report _ _ _ => [account; owner; report]
  end.
Definition paths_of (invocation : TransitionInvocation) : list string :=
  match invocation with
  | Preflight _ path | Import _ path _ _ _ => [path]
  | ShadowReportOf _ _ _ output | Checklist _ _ output => option_list output
  | RecordApproval _ _ _ _ _ _ => []
  end.

(** A value no rule looks into: hexadecimal digits and hyphens, a digit first. *)
Definition plain_argument (s : string) : Prop :=
  ∃ c rest, s = String c rest ∧ lower_hex_char c = true ∧
    all_chars (λ a, lower_hex_char a || Ascii.eqb a "-") s = true.

(** Documented behaviour of [uuid]: the hyphenated form reads back. *)
Class UuidLaws {ct : Contracts} {up : UuidParser} : Prop := {
  uuid_reads z : is_uuid z → parse_uuid (uuid_text z) = Some z;
  uuid_plain z : is_uuid z → plain_argument (uuid_text z);
}.

(** ** Lemmas *)

(** ASCII text is UTF-8. *)
Lemma ascii_utf8 s : all_chars (byte_in 0 127) s = true → utf8_valid s = true.
Proof.
  unfold utf8_valid. induction s as [|c s IH]; [done|]. cbn [all_chars String.length utf8_walk].
  intros [Hc Hs]%andb_true_iff. unfold utf8_head. rewrite Hc. cbn [str_drop]. by apply IH.
Qed.

Lemma plain_char_ascii c : lower_hex_char c || Ascii.eqb c "-" = true → byte_in 0 127 c = true.
Proof.
  unfold lower_hex_char, is_ascii_digit, byte_in. rewrite !orb_true_iff, !in_range_spec.
  intros [[H|H]|H%Ascii.eqb_eq]; [lia|lia|]. subst c. vm_compute. split; discriminate.
Qed.

Lemma plain_read s : plain_argument s → to_str s = Some s ∧ forbidden_argument s = None.
Proof.
  intros (c & rest & -> & Hc & Hall).
  assert (Hu : utf8_valid (String c rest) = true)
    by (apply ascii_utf8; eapply all_chars_impl; [apply plain_char_ascii|exact Hall]).
  unfold forbidden_argument, option_name, to_str. rewrite Hu. cbn [mbind option_bind]. split; [done|].
  unfold starts_with. cbn [str_strip_prefix]. destruct (Ascii.eqb c "-") eqn:E.
  - apply Ascii.eqb_eq in E. subst c. done.
  - destruct (Ascii.eqb "-" c) eqn:E2; [apply Ascii.eqb_eq in E2; subst c; done|done].
Qed.

Lemma digest_plain s : valid_sha256 s = true → plain_argument s.
Proof.
  unfold valid_sha256. rewrite andb_true_iff, Nat.eqb_eq. intros [Hl Hc]. destruct s as [|c rest]; [done|].
  exists c, rest. split; [done|]. split.
  - simpl in Hc. by apply andb_true_iff in Hc as [? _].
  - eapply all_chars_impl; [|exact Hc]. intros a ->. done.
Qed.

(** Taking the first of the fields that are left leaves the others. *)
Lemma take_first {A} name value rest (k : string → Take A) :
  name ∉ rest.*1 →
  take_bind (take_path name) k (list_to_map ((name, value) :: rest)) = k value (list_to_map rest).
Proof.
  intros Hn. unfold take_bind, take_path, take_optional_path, take_bind, take_result. cbn [result_bind].
  cbn [list_to_map foldr fst snd uncurry]. rewrite lookup_insert_eq. cbn [ok_or result_bind fst snd].
  by rewrite delete_insert_id by by apply not_elem_of_list_to_map.
Qed.

Section Parsing.
Context {ct : Contracts} {up : UuidParser}.

Lemma take_string_first {A} name value rest (k : string → Take A) :
  name ∉ rest.*1 → to_str value = Some value →
  take_bind (take_string name) k (list_to_map ((name, value) :: rest)) = k value (list_to_map rest).
Proof.
  intros Hn Hu. pose proof (take_first name value rest (λ v, take_result (ok_or (to_str v) (InvalidArgument name))) Hn) as H.
  unfold take_string. unfold take_bind at 1. rewrite H. unfold take_result. rewrite Hu. done.
Qed.

Lemma take_digest_first {A} name value rest (k : string → Take A) :
  name ∉ rest.*1 → valid_sha256 value = true →
  take_bind (take_digest name) k (list_to_map ((name, value) :: rest)) = k value (list_to_map rest).
Proof.
  intros Hn Hv. unfold take_digest. unfold take_bind at 1.
  rewrite take_string_first by (try exact Hn; by apply plain_read, digest_plain).
  unfold take_result. by rewrite Hv.
Qed.

Lemma take_uuid_first {ul : UuidLaws} {A} name z rest (k : Z → Take A) :
  name ∉ rest.*1 → is_uuid z →
  take_bind (take_uuid name) k (list_to_map ((name, uuid_text z) :: rest)) = k z (list_to_map rest).
Proof.
  intros Hn Hz. unfold take_uuid. unfold take_bind at 1.
  rewrite take_string_first by (try exact Hn; by apply plain_read, uuid_plain).
  unfold take_result. by rewrite uuid_reads.
Qed.

Lemma take_source_kind_first {A} kind rest (k : SourceArgumentKind → Take A) :
  "--source-kind"%string ∉ rest.*1 →
  take_bind take_source_kind k (list_to_map (("--source-kind"%string, source_kind_argument kind) :: rest)) =
    k kind (list_to_map rest).
Proof.
  intros Hn. unfold take_source_kind. unfold take_bind at 1.
  rewrite take_string_first by (try exact Hn; by destruct kind). by destruct kind.
Qed.

Lemma take_decision_only {A} decision (k : string → Take A) :
  closed_decision decision →
  take_bind take_decision k (list_to_map [("--decision"%string, decision)]) = k decision ∅.
Proof.
  intros Hd. unfold take_decision. unfold take_bind at 1.
  rewrite take_string_first by (first [apply not_elem_of_nil|by destruct Hd as [-> | ->]]).
  by destruct Hd as [-> | ->].
Qed.

Lemma take_output_last {A} output (k : option string → Take A) :
  take_bind (take_optional_path "--output") k (list_to_map (output_field output)) = k output ∅.
Proof. by destruct output. Qed.

(** The names of a command's fields are different, options, and no credentials. *)
Lemma fields_distinct invocation : NoDup (fields_of invocation).*1.
Proof.
  apply NoDup_ListNoDup.
  destruct invocation as [| |? ? ? []|? ? []|]; simpl; repeat constructor; simpl; intuition discriminate.
Qed.

Lemma fields_named invocation field :
  field ∈ fields_of invocation →
  option_name field.1 = Some field.1 ∧ forbidden_argument field.1 = None.
Proof.
  intros Hin%(list_elem_of_fmap_2 fst). revert Hin. generalize field.1. intros name.
  destruct invocation as [| |? ? ? []|? ? []|]; simpl; rewrite !elem_of_cons, elem_of_nil; intros H;
    repeat destruct H as [->|H]; done.
Qed.

Lemma fields_values {ul : UuidLaws} invocation field :
  bounded invocation → Forall is_uuid (uuids_of invocation) →
  Forall (λ path, forbidden_argument path = None) (paths_of invocation) →
  field ∈ fields_of invocation → forbidden_argument field.2 = None.
Proof.
  intros Hb Hu Hp.
  assert (Huuid : ∀ z, is_uuid z → forbidden_argument (uuid_text z) = None)
    by (intros z Hz; by apply plain_read, uuid_plain).
  assert (Hdig : ∀ s, valid_sha256 s = true → forbidden_argument s = None)
    by (intros s Hs; by apply plain_read, digest_plain).
  intros Hin%(list_elem_of_fmap_2 snd). revert Hin. generalize field.2. intros value.
  destruct invocation as [kind ?|kind ? ? ? ?|? ? ? []|? ? []|]; simpl in *;
    rewrite ?Forall_cons in *; rewrite !elem_of_cons, elem_of_nil; intros H;
    repeat destruct H as [->|H]; 
    first [done | tauto | by destruct kind | apply Huuid; tauto | apply Hdig; tauto
          | by destruct Hb as (_ & _ & [-> | ->])].
Qed.

(** Fields with different option names parse to exactly their map, in any order. *)
Lemma parse_fields_pairs pairs fields :
  NoDup pairs.*1 → (∀ field, field ∈ pairs → option_name field.1 = Some field.1) →
  (∀ field, field ∈ pairs → fields !! field.1 = None) →
  parse_fields fields (arguments_of_fields pairs) = Ok (list_to_map pairs ∪ fields).
Proof.
  revert fields. induction pairs as [|[name value] pairs IH]; intros fields Hd Hn Hf; simpl.
  - by rewrite (left_id_L ∅ (∪)).
  - rewrite fmap_cons in Hd. apply NoDup_cons in Hd as [Hnin Hd]. simpl in Hnin.
    pose proof (Hn (name, value) ltac:(by left)) as H1. pose proof (Hf (name, value) ltac:(by left)) as H2.
    cbn [fst snd] in H1, H2. rewrite H1, H2. cbn.
    rewrite IH; [|done|by intros field Hin; apply Hn; right|].
    + rewrite <-insert_union_r by by apply not_elem_of_list_to_map.
      by rewrite insert_union_l.
    + intros field Hin. rewrite lookup_insert_ne; [by apply Hf; right|].
      intros ->. apply Hnin. by apply list_elem_of_fmap_2.
Qed.

Definition command_of (invocation : TransitionInvocation) : TransitionCommand :=
  match invocation with
  | Preflight _ _ => PreflightCommand
  | Import _ _ _ _ _ => ImportCommand
  | ShadowReportOf _ _ _ _ => ShadowReportCommand
  | Checklist _ _ _ => ChecklistCommand
  | RecordApproval _ _ _ _ _ _ => RecordApprovalCommand
  end.

Lemma parse_command_name invocation : parse_command (command_name invocation) = Ok (command_of invocation).
Proof. by destruct invocation. Qed.

Ltac not_a_name := rewrite ?fmap_app; simpl; rewrite ?elem_of_cons, ?elem_of_app, ?elem_of_nil;
  repeat match goal with o : option string |- _ => destruct o end; simpl;
  rewrite ?elem_of_cons, ?elem_of_nil; intuition discriminate.

Lemma take_written {ul : UuidLaws} invocation :
  bounded invocation → Forall is_uuid (uuids_of invocation) →
  take_invocation (command_of invocation) (list_to_map (fields_of invocation)) = Ok (invocation, ∅).
Proof.
  intros Hb Hu. destruct invocation as [kind path|kind path account owner digest|account run snapshot output
    |account report output|account owner report checklist evidence decision];
    cbn [command_of take_invocation fields_of app uuids_of bounded] in *; rewrite ?Forall_cons in Hu;
    repeat first
      [ rewrite take_source_kind_first; [|not_a_name]
      | rewrite take_uuid_first; [|not_a_name|tauto]
      | rewrite take_digest_first; [|not_a_name|tauto]
      | rewrite take_decision_only; [|tauto]
      | rewrite take_output_last
      | rewrite take_first; [|not_a_name] ]; done.
Qed.

Lemma forbidden_none (arguments : list string) :
  omap forbidden_argument arguments = [] ↔ Forall (λ a, forbidden_argument a = None) arguments.
Proof.
  induction arguments as [|a arguments IH]; [by split; [constructor|]|]. rewrite Forall_cons, <-IH. simpl.
  destruct (forbidden_argument a); simpl; [|tauto]. split; [done|]. by intros [? _].
Qed.

(** *** Properties *)

(** C38. A command line that spells an invocation the way the usage text does, with its fields in any order,
    parses to exactly that invocation. *)
Theorem command_lines_parse_to_their_invocation {ul : UuidLaws} invocation pairs :
  bounded invocation → Forall is_uuid (uuids_of invocation) →
  Forall (λ path, forbidden_argument path = None) (paths_of invocation) →
  pairs ≡ₚ fields_of invocation →
  parse_arguments (command_name invocation :: arguments_of_fields pairs) = Ok invocation.
Proof.
  intros Hb Hu Hp Hperm. unfold parse_arguments.
  assert (Hfields : ∀ field, field ∈ pairs → field ∈ fields_of invocation) by (intros ?; by rewrite Hperm).
  rewrite (proj2 (forbidden_none _)).
  - rewrite parse_command_name. cbn [result_bind].
    rewrite parse_fields_pairs; [|by rewrite Hperm; apply fields_distinct
      |by intros field Hin; apply (fields_named invocation), Hfields|by intros; apply lookup_empty].
    rewrite (right_id_L ∅ (∪)). cbn [result_bind].
    rewrite (list_to_map_proper pairs (fields_of invocation)), take_written by
      (done || by rewrite Hperm; apply fields_distinct).
    cbn [result_bind fst snd]. by rewrite bool_decide_eq_true_2.
  - constructor; [by destruct invocation|]. apply Forall_forall. intros a Ha.
    apply list_elem_of_In, in_flat_map in Ha as (field & Hin%list_elem_of_In & Ha). apply Hfields in Hin.
    destruct Ha as [<-|[<-|[]]]; [by apply (fields_named invocation)|by eapply fields_values].
Qed.

Lemma take_bind_Ok {A B} (m : Take A) (k : A → Take B) fields b fields' :
  take_bind m k fields = Ok (b, fields') → ∃ a rest, m fields = Ok (a, rest) ∧ k a rest = Ok (b, fields').
Proof. unfold take_bind. intros ([a rest] & Hm & Hk)%result_bind_Ok. eauto. Qed.

Lemma take_digest_Ok name fields digest rest :
  take_digest name fields = Ok (digest, rest) → valid_sha256 digest = true.
Proof.
  intros (value & rest' & _ & H)%take_bind_Ok. unfold take_result in H.
  destruct (valid_sha256 value) eqn:E; simpl in H; [|done]. by injection H as <- _.
Qed.

Lemma take_decision_Ok fields decision rest :
  take_decision fields = Ok (decision, rest) → closed_decision decision.
Proof.
  intros (value & rest' & _ & H)%take_bind_Ok. unfold take_result in H.
  destruct (String.eqb_spec value "approved") as [->|]; simpl in H; [left; by injection H|].
  destruct (String.eqb_spec value "rejected") as [->|]; simpl in H; [right; by injection H|done].
Qed.

Lemma take_invocation_bounded command fields invocation rest :
  take_invocation command fields = Ok (invocation, rest) → bounded invocation.
Proof.
  destruct command; cbn [take_invocation]; intros H;
    repeat match goal with
    | H : take_bind _ _ _ = Ok _ |- _ => apply take_bind_Ok in H as (? & ? & ? & H)
    end; unfold take_ret in H; injection H as <- _; cbn [bounded];
    split_and?; eauto using take_digest_Ok, take_decision_Ok.
Qed.

(** The names an error can carry besides a forbidden argument: the program's own. *)
Definition OPTIONS : list string :=
  ["--source-kind"; "--source"; "--account-id"; "--internal-owner-id"; "--ownership-approval-digest";
   "--import-run-id"; "--snapshot-id"; "--shadow-report-id"; "--checklist-digest";
   "--owner-evidence-digest"; "--decision"]%string.
Definition own_error (e : TransitionCliError) : Prop :=
  match e with
  | MissingArgument name | InvalidArgument name => name ∈ OPTIONS
  | ForbiddenArgument _ => False
  | _ => True
  end.

Lemma take_bind_Err {A B} (m : Take A) (k : A → Take B) fields e :
  take_bind m k fields = Err e → m fields = Err e ∨ ∃ a rest, k a rest = Err e.
Proof. unfold take_bind. destruct (m fields) as [[a rest]|]; simpl; [eauto|]. intros [= ->]. by left. Qed.

Lemma take_result_Err {A} (r : result A TransitionCliError) fields e :
  take_result r fields = Err e → r = Err e.
Proof. unfold take_result. destruct r; simpl; [done|congruence]. Qed.

Lemma ok_or_Err {A E} (o : option A) (e e' : E) : ok_or o e = Err e' → e' = e.
Proof. destruct o; simpl; congruence. Qed.

Lemma take_path_Err name fields e : take_path name fields = Err e → e = MissingArgument name.
Proof. by intros [H|(a & rest & H%take_result_Err%ok_or_Err)]%take_bind_Err. Qed.

Lemma take_string_Err name fields e :
  take_string name fields = Err e → e = MissingArgument name ∨ e = InvalidArgument name.
Proof. intros [H%take_path_Err|(a & rest & H%take_result_Err%ok_or_Err)]%take_bind_Err; auto. Qed.

(** Every field taken from a string fails under its own name. *)
Lemma take_checked_Err {A} name (check : string → result A TransitionCliError) fields e :
  (∀ value e, check value = Err e → e = InvalidArgument name) →
  take_bind (take_string name) (λ value, take_result (check value)) fields = Err e →
  e = MissingArgument name ∨ e = InvalidArgument name.
Proof. intros Hc [H%take_string_Err|(a & rest & H%take_result_Err%Hc)]%take_bind_Err; auto. Qed.

Lemma take_uuid_Err name fields e :
  take_uuid name fields = Err e → e = MissingArgument name ∨ e = InvalidArgument name.
Proof. apply take_checked_Err. by intros value e' H%ok_or_Err. Qed.
Lemma take_source_kind_Err fields e :
  take_source_kind fields = Err e → e = MissingArgument "--source-kind" ∨ e = InvalidArgument "--source-kind".
Proof. apply take_checked_Err. by intros value e' H%ok_or_Err. Qed.
Lemma take_digest_Err name fields e :
  take_digest name fields = Err e → e = MissingArgument name ∨ e = InvalidArgument name.
Proof. apply take_checked_Err. intros value e'. destruct (valid_sha256 value); congruence. Qed.
Lemma take_decision_Err fields e :
  take_decision fields = Err e → e = MissingArgument "--decision" ∨ e = InvalidArgument "--decision".
Proof. apply take_checked_Err. intros value e'. destruct (_ || _); congruence. Qed.

Lemma option_known name : bool_decide (name ∈ OPTIONS) = true → name ∈ OPTIONS.
Proof. apply bool_decide_eq_true. Qed.

Lemma take_invocation_Err command fields e : take_invocation command fields = Err e → own_error e.
Proof.
  destruct command; cbn [take_invocation]; intros H;
    repeat match type of H with
    | take_bind _ _ _ = Err _ => apply take_bind_Err in H as [H|(? & ? & H)]
    end; try done;
    first [ apply take_uuid_Err in H | apply take_source_kind_Err in H | apply take_digest_Err in H
          | apply take_decision_Err in H | apply take_path_Err, or_introl with (B := False) in H ];
    destruct H as [H|H]; try done; subst e; by apply option_known.
Qed.

Lemma parse_fields_Err fields arguments e : parse_fields fields arguments = Err e → e = UnsupportedArgument.
Proof.
  remember (length arguments) as n eqn:En. revert fields arguments En.
  induction n as [n IH] using lt_wf_ind. intros fields [|name [|value rest]] ->; simpl; [done| |].
  - destruct (option_name name); congruence.
  - destruct (option_name name); [|congruence]. case_bool_decide; [congruence|].
    apply (IH (length rest)); simpl; [lia|done].
Qed.

(** An option that names a credential is refused before the command is even looked at, wherever it
    stands; no other error quotes what the operator typed; and an accepted invocation carries only
    SHA-256 digests and a closed decision. *)
Theorem credential_options_are_refused_first arguments :
  match omap forbidden_argument arguments with
  | name :: _ => parse_arguments arguments = Err (ForbiddenArgument name) ∧
      name ∈ arguments ∧ starts_with "--" name = true ∧ forbidden_argument_name name = true
  | [] => match parse_arguments arguments with Ok invocation => bounded invocation | Err e => own_error e end
  end.
Proof.
  unfold parse_arguments. destruct (omap forbidden_argument arguments) as [|name names] eqn:E.
  - destruct arguments as [|command remaining]; [done|].
    assert (Hcmd : ∀ e, parse_command command = Err e → own_error e).
    { unfold parse_command. intros e. repeat case_match; by intros [= <-]. }
    destruct (parse_command command) as [c|e] eqn:Ec; cbn [result_bind]; [|by apply Hcmd].
    destruct (parse_fields ∅ remaining) as [fields|e] eqn:Ef; cbn [result_bind];
      [|apply parse_fields_Err in Ef; by subst e].
    destruct (take_invocation c fields) as [[invocation rest]|e] eqn:Et; cbn [result_bind];
      [|by eapply take_invocation_Err]. case_bool_decide; [|done]. by eapply take_invocation_bounded.
  - split; [done|].
    assert (Hin : name ∈ omap forbidden_argument arguments) by (rewrite E; by left).
    apply list_elem_of_omap in Hin as (argument & Hin & H). unfold forbidden_argument, option_name, to_str in H.
    destruct (utf8_valid argument); [|done]. simpl in H. destruct (starts_with "--" argument) eqn:Es; [|done].
    simpl in H. destruct (forbidden_argument_name argument) eqn:En; [|done]. by injection H as <-.
Qed.
End Parsing.

(** ** Concrete command lines *)
Module CliSamples.
Import SampleContracts.

#[export] Instance sample_uuid_parser : UuidParser := {| parse_uuid := from_str_radix 10 (2 ^ 128 - 1) |}.

#[export] Instance sample_uuid_laws : UuidLaws.
Proof.
  assert (Hd : ∀ z, is_uuid z → uuid_text z = decimal z)
    by (intros z [Hz _]; simpl; unfold sample_uuid; by rewrite (proj2 (Z.ltb_ge _ _) Hz)).
  split; intros z Hz; rewrite Hd by done; destruct Hz as [H0 H1].
  - apply from_str_radix_decimal. lia.
  - pose proof (decimal_chars z H0) as Hc.
    assert (Hall : all_chars lower_hex_char (decimal z) = true)
      by (eapply all_chars_impl; [|exact Hc]; intros c Hdig; unfold lower_hex_char; by rewrite Hdig).
    destruct (decimal z) as [|c rest] eqn:E.
    + apply (f_equal (from_str_radix 10 z)) in E. by rewrite from_str_radix_decimal in E by lia.
    + exists c, rest. split; [done|]. split; [simpl in Hall; by apply andb_true_iff in Hall as [? _]|].
      eapply all_chars_impl; [|exact Hall]. intros a ->. done.
Qed.

Definition sample_digest : string := "0123456789abcdef0123456789abcdef0123456789abcdef0123456789abcdef".
Definition sample_invocation : TransitionInvocation := RecordApproval 7 8 9 sample_digest sample_digest "approved".

Example sample_line :
  parse_arguments ["import"; "--source"; "in.csv"; "--source-kind"; "monolith-csv"; "--internal-owner-id"; "5";
    "--account-id"; "1"; "--ownership-approval-digest"; sample_digest]%string =
    Ok (Import MonolithCsvKind "in.csv" 1 5 sample_digest).
Proof. vm_compute. reflexivity. Qed.

(** What is refused, and how. *)
Example refused_lines :
  parse_arguments <$>
    [[]; [""]; ["export"]; ["preflight"]; ["preflight"; "--source-kind"; "csv"];
     ["preflight"; "--source-kind"; "monolith-csv"; "--source"];
     ["checklist"; "--account-id"; "1"; "--account-id"; "1"];
     ["checklist"; "--account-id"; "1"; "--shadow-report-id"; "2"; "--decision"; "approved"];
     ["import"; "--Session-Cookie"; "x"]]%string =
    [Err MissingCommand; Err MissingCommand; Err UnsupportedCommand; Err (MissingArgument "--source-kind");
     Err (InvalidArgument "--source-kind"); Err UnsupportedArgument; Err UnsupportedArgument;
     Err UnsupportedArgument; Err (ForbiddenArgument "--Session-Cookie")]%string.
Proof. vm_compute. reflexivity. Qed.

(** An option joined to its value by an equals sign is one argument: the refusal quotes all of it. *)
Example joined_value_is_quoted :
  parse_arguments ["import"; "--token=hunter2"]%string = Err (ForbiddenArgument "--token=hunter2").
Proof. vm_compute. reflexivity. Qed.

Lemma command_lines_parse_to_their_invocation_witness :
  parse_arguments ("record-approval"%string :: arguments_of_fields (reverse (fields_of sample_invocation))) =
    Ok sample_invocation.
Proof.
  apply (command_lines_parse_to_their_invocation sample_invocation (reverse (fields_of sample_invocation))).
  - split; [vm_compute; reflexivity|]. split; [vm_compute; reflexivity|by left].
  - repeat constructor; vm_compute; congruence.
  - constructor.
  - apply reverse_Permutation.
Defined.
End CliSamples.
