(* ===== verification/Operator.v ===== *)
(** * The operator's run ([services/x/src/transition_main.rs])

    From the command line to the one output a run writes: help, the credential-free parse, the database
    the command needs, the service call, and its JSON or Markdown. Files, standard output and the
    connection are the members of [OperatorInputs]. *)
From S2P Require Export TransitionCli.

Definition OFFICIAL_API_BASE_URL : string := "https://api.x.com".

Definition USAGE : string := str_join (String LF "")
  ["ratatoskr-x-transition <command> [arguments]"; "";
   "Commands:";
   "preflight       --source-kind <monolith-csv|field-theory-jsonl|field-theory-sqlite> --source <path>";
   "import          --source-kind <kind> --source <path> --account-id <uuid> --internal-owner-id <uuid> --ownership-approval-digest <sha256>";
   "shadow-report   --account-id <uuid> --import-run-id <uuid> --snapshot-id <uuid> [--output <path>]";
   "checklist       --account-id <uuid> --shadow-report-id <uuid> [--output <path>]";
   "record-approval --account-id <uuid> --internal-owner-id <uuid> --shadow-report-id <uuid> --checklist-digest <sha256> --owner-evidence-digest <sha256> --decision <approved|rejected>";
   ""; "No command accepts cookies, tokens, credentials, or session material."; ""]%string.

Inductive TransitionRunError :=
  | Cli (e : TransitionCliError)
  | Configuration
  | DatabaseUnavailable
  | CipherUnavailable
  | TransitionFailed (e : LegacyTransitionError)
  | Output
  | Encoding.

Class OperatorInputs := {
  figment_extract : result XConfig string;               (* defaults and environment *)
  connects : string → Z → bool;                          (* [Database::connect] *)
  identity_client_ready : bool;                          (* the identity adapter's HTTP client *)
  json_pretty : Value → option string;                   (* [serde_json::to_vec_pretty] *)
  create_new : string → string → bool;                   (* create, write and sync a file that is not there *)
  stdout_accepts : string → bool;
}.

(** What a run wrote: where ([None] is standard output) and which bytes. *)
Definition Written : Type := option string * string.

Section Operator.
Context {ch : Chrono} {ct : Contracts} {cr : Crypto} {inp : LegacyInputs} {http : IdentityHttp}
  {ci : ConfigInputs} {up : UuidParser} {op : OperatorInputs}.

Definition is_help (argument : string) : bool := String.eqb argument "--help" || String.eqb argument "-h".
Definition is_help_request (arguments : list string) : bool :=
  match arguments with
  | [help] => is_help help
  | [command; help] =>
      is_help help && match parse_command command with Ok _ => true | Err _ => false end
  | _ => false
  end.

Definition write_stdout (bytes : string) : Prog TransitionRunError Written :=
  let bytes := bytes +:+ String LF "" in
  if stdout_accepts bytes then ret (None, bytes) else throw Output.
Definition write_output (path : option string) (bytes : string) : Prog TransitionRunError Written :=
  match path with
  | Some path => if create_new path bytes then ret (Some path, bytes) else throw Output
  | None => write_stdout bytes
  end.
Definition encoded (value : Value) : Prog TransitionRunError string :=
  of_result (ok_or (json_pretty value) Encoding).

(** [load_database] and [load_secure_database]. *)
Definition load_config : result XConfig TransitionRunError :=
  result_map_err (λ _, Configuration) (extract_from figment_extract).
Definition connect (config : XConfig) : result unit TransitionRunError :=
  if connects (db_url (database config)) (max_connections (database config)) then Ok tt
  else Err DatabaseUnavailable.
Definition load_database : result unit TransitionRunError := let? config := load_config in connect config.
Definition load_secure_database : result TokenCipher TransitionRunError :=
  let? config := load_config in
  let? key := ok_or (token_encryption_key (security config)) CipherUnavailable in
  let? cipher := result_map_err (λ _, CipherUnavailable) (from_secret_key key) in
  do? connect config in Ok cipher.

Definition source_selection (kind : SourceArgumentKind) (path : string) : LegacySourceSelection :=
  match kind with
  | MonolithCsvKind => MonolithCsv path
  | FieldTheoryJsonlKind => FieldTheory (Some path) None
  | FieldTheorySqliteKind => FieldTheory None (Some path)
  end.
Definition source_kind_name (kind : LegacySourceKind) : string :=
  match kind with
  | MonolithBookmarkMetadataCsv => "monolith_csv"
  | FieldTheoryJsonl => "field_theory_jsonl"
  | FieldTheorySqlite => "field_theory_sqlite"
  end.
Definition source_version_number (version : LegacySourceVersion) : Z :=
  match version with MonolithBookmarkMetadata | FieldTheoryJsonl1 => 1 | FieldTheorySqlite6 => 6 end.

(** The service's calls, in the run's error type. *)
Definition preflight_artifact (kind : SourceArgumentKind) (path : string) :
    result PreflightBatch TransitionRunError :=
  result_map_err TransitionFailed (preflight_source (source_selection kind path) default_limits).

Definition handle_preflight (kind : SourceArgumentKind) (path : string) : Prog TransitionRunError Written :=
  let! batch := of_result (preflight_artifact kind path) in
  let! output := encoded (obj
    [("source_kind", Str (source_kind_name (source_kind batch)));
     ("source_version", Number (source_version_number (source_version batch)));
     ("source_digest", Str (source_digest batch)); ("row_count", Number (row_count batch));
     ("importer_parser_version", Number IMPORTER_PARSER_VERSION)]%string) in
  write_stdout output.

Definition approval_of (account owner : Z) (digest : string) (batch : PreflightBatch) : OwnershipApproval :=
  mkOwnershipApproval account owner (source_digest batch) digest.
Definition handle_import (kind : SourceArgumentKind) (path : string) (account owner : Z) (digest : string) :
    Prog TransitionRunError Written :=
  let! batch := of_result (preflight_artifact kind path) in
  let! cipher := of_result load_secure_database in
  let identity := official_identity
                    (new_official_identity cipher OFFICIAL_API_BASE_URL identity_client_ready) in
  let! outcome := map_err TransitionFailed
                    (@import_batch cr identity batch (Some (approval_of account owner digest batch))) in
  let counts := io_counts outcome in
  let! output := encoded (obj
    [("run_id", Str (uuid_text (io_run_id outcome))); ("reused", Bool (io_reused outcome));
     ("inserted", Number (ic_inserted counts)); ("matched", Number (ic_matched counts));
     ("updated", Number (ic_updated counts)); ("conflicted", Number (ic_conflicted counts));
     ("rejected", Number (ic_rejected counts)); ("unmapped", Number (ic_unmapped counts))]%string) in
  write_stdout output.

Definition handle_shadow_report (account run snapshot : Z) (output : option string) :
    Prog TransitionRunError Written :=
  do! of_result load_database in
  let! outcome := map_err TransitionFailed (shadow_report_for account run snapshot) in
  let! text := encoded (Object (report_members Object (so_report outcome))) in
  write_output output text.

Definition handle_checklist (account report : Z) (output : option string) : Prog TransitionRunError Written :=
  do! of_result load_database in
  let! outcome := map_err TransitionFailed (checklist_for account report) in
  write_output output (co_markdown outcome).

Definition decision_of (decision : string) : result ApprovalDecision TransitionRunError :=
  if String.eqb decision "approved" then Ok Approved
  else if String.eqb decision "rejected" then Ok Rejected
  else Err (Cli (InvalidArgument "--decision")).
Definition handle_approval (account owner report : Z) (checklist evidence decision : string) :
    Prog TransitionRunError Written :=
  do! of_result load_database in
  let! decision := of_result (decision_of decision) in
  let! decided_at := clock_now in
  let! outcome := map_err TransitionFailed (record_transition_approval
    (mkTransitionApprovalRequest account owner report checklist evidence decision decided_at)) in
  let! output := encoded (obj
    [("approval_id", Str (uuid_text (ao_approval_id outcome))); ("reused", Bool (ao_reused outcome));
     ("decision", Str (decision_name decision))]%string) in
  write_stdout output.

(** [run]. *)
Definition handle (invocation : TransitionInvocation) : Prog TransitionRunError Written :=
  match invocation with
  | Preflight kind path => handle_preflight kind path
  | Import kind path account owner digest => handle_import kind path account owner digest
  | ShadowReportOf account run snapshot output => handle_shadow_report account run snapshot output
  | Checklist account report output => handle_checklist account report output
  | RecordApproval account owner report checklist evidence decision =>
      handle_approval account owner report checklist evidence decision
  end.
Definition run (arguments : list string) : Prog TransitionRunError Written :=
  if is_help_request arguments then write_stdout USAGE
  else let! invocation := of_result (result_map_err Cli (parse_arguments arguments)) in handle invocation.

(** [main]'s exit status. *)
Definition run_status (r : result Written TransitionRunError) : Z :=
  match r with Ok _ => 0 | Err (Cli _) => 2 | Err _ => 1 end.
End Operator.

(** ** What a run does *)

Section OperatorTheorems.
Context {ch : Chrono} {ct : Contracts} {cr : Crypto} {inp : LegacyInputs} {http : IdentityHttp}
  {ci : ConfigInputs} {up : UuidParser} {op : OperatorInputs}.

(** A step of a run that never blames the command line. *)
Definition is_cli {A} (r : result A TransitionRunError) : bool :=
  match r with Err (Cli _) => true | _ => false end.
Definition never_cli {A} (env : Env Db) (m : Prog TransitionRunError A) : Prop :=
  ∀ w : W, is_cli (m env w).1 = false.

Lemma never_cli_bind {A B} env (m : Prog TransitionRunError A) (k : A → Prog TransitionRunError B) :
  never_cli env m → (∀ a, never_cli env (k a)) → never_cli env (bind m k).
Proof.
  intros Hm Hk w. unfold bind. specialize (Hm w). destruct (m env w) as [[a|e] w']; [apply Hk|exact Hm].
Qed.
Lemma never_cli_of_result {A} env (r : result A TransitionRunError) :
  is_cli r = false → never_cli env (of_result r).
Proof. intros H w. by destruct r. Qed.
Lemma never_cli_service {A} env (m : Prog LegacyTransitionError A) : never_cli env (map_err TransitionFailed m).
Proof. intros w. unfold map_err. by destruct (m env w) as [[]]. Qed.
Lemma never_cli_clock_now env : never_cli env clock_now.
Proof. done. Qed.
Lemma never_cli_encoded env value : never_cli env (encoded value).
Proof. unfold encoded. apply never_cli_of_result. by destruct (json_pretty value). Qed.
Lemma never_cli_write_output env path bytes : never_cli env (write_output path bytes).
Proof. unfold write_output, write_stdout. destruct path; [destruct (create_new _ _)|destruct (stdout_accepts _)]; done. Qed.
Lemma never_cli_write_stdout env bytes : never_cli env (write_stdout bytes).
Proof. apply (never_cli_write_output env None). Qed.
Lemma load_config_not_cli : is_cli load_config = false.
Proof. unfold load_config. by destruct (extract_from _). Qed.
Lemma load_database_not_cli : is_cli load_database = false.
Proof.
  unfold load_database, connect. pose proof load_config_not_cli. destruct load_config; simpl; [|done].
  by destruct (connects _ _).
Qed.
Lemma load_secure_database_not_cli : is_cli load_secure_database = false.
Proof.
  unfold load_secure_database, connect. pose proof load_config_not_cli. destruct load_config; simpl; [|done].
  destruct (token_encryption_key _); simpl; [|done]. destruct (from_secret_key _); simpl; [|done].
  by destruct (connects _ _).
Qed.
Lemma preflight_artifact_not_cli kind path : is_cli (preflight_artifact kind path) = false.
Proof. unfold preflight_artifact. by destruct (preflight_source _ _). Qed.
Lemma decision_of_closed decision : closed_decision decision → is_cli (decision_of decision) = false.
Proof. by intros [-> | ->]. Qed.

Create HintDb operator.
#[local] Hint Resolve never_cli_service never_cli_clock_now never_cli_encoded never_cli_write_output
  never_cli_write_stdout load_database_not_cli load_secure_database_not_cli preflight_artifact_not_cli
  decision_of_closed : operator.

Lemma handle_never_cli env invocation : bounded invocation → never_cli env (handle invocation).
Proof.
  intros Hb. destruct invocation; simpl; unfold handle_preflight, handle_import, handle_shadow_report,
    handle_checklist, handle_approval;
    simpl in Hb; repeat first [apply never_cli_bind; [|intros ?]|solve [eauto with operator]|apply never_cli_of_result].
  apply decision_of_closed. apply Hb.
Qed.

(** A request for help is not a command line. *)
Lemma help_is_refused arguments : is_help_request arguments = true → ∃ e, parse_arguments arguments = Err e.
Proof.
  destruct arguments as [|a [|b [|]]]; try done.
  - simpl. unfold is_help. intros [H%String.eqb_eq|H%String.eqb_eq]%orb_true_iff; subst a; by eexists.
  - simpl. intros [[H%String.eqb_eq|H%String.eqb_eq]%orb_true_iff _]%andb_true_iff; subst b;
      unfold parse_arguments; destruct (omap forbidden_argument _); try (by eexists);
      destruct (parse_command a); by eexists.
Qed.

Lemma parse_bounded arguments invocation : parse_arguments arguments = Ok invocation → bounded invocation.
Proof.
  unfold parse_arguments. destruct (omap _ _); [|done]. destruct arguments as [|command remaining]; [done|].
  intros (c & _ & (fields & _ & ([inv rest] & Ht & H)%result_bind_Ok)%result_bind_Ok)%result_bind_Ok.
  cbn [fst snd] in H. case_bool_decide; [|done]. injection H as <-. by eapply take_invocation_bounded.
Qed.

(** *** Properties *)

(** A run blames its command line exactly when the command line is refused: then it exits with status
    two, before configuration, database, provider or any file is touched. Help and a preflight do not
    touch the database or the provider either. *)
Theorem refused_command_lines_touch_nothing env arguments (w : W) e :
  ((run arguments env w).1 = Err (Cli e) ↔
     is_help_request arguments = false ∧ parse_arguments arguments = Err e) ∧
  (run_status (run arguments env w).1 = 2 ↔
     is_help_request arguments = false ∧ ∃ e, parse_arguments arguments = Err e) ∧
  (match parse_arguments arguments with Err _ | Ok (Preflight _ _) => True | _ => False end →
     (run arguments env w).2 = w).
Proof.
  assert (Hrun : run arguments env w =
    if is_help_request arguments then write_stdout USAGE env w
    else match parse_arguments arguments with Ok inv => handle inv env w | Err e => (Err (Cli e), w) end).
  { unfold run. destruct (is_help_request arguments); [done|]. by destruct (parse_arguments arguments). }
  rewrite Hrun. clear Hrun. destruct (is_help_request arguments) eqn:Eh.
  - unfold write_stdout. destruct (stdout_accepts _); (split; [|split]); try done; (split; [done|by intros [? _]]).
  - destruct (parse_arguments arguments) as [inv|e'] eqn:Ep.
    + pose proof (handle_never_cli env inv (parse_bounded _ _ Ep) w) as Hn. split; [|split].
      * split; [intros H; by rewrite H in Hn|by intros [_ ?]].
      * split; [|by intros [_ [? ?]]]. by destruct (handle inv env w).1 as [?|[]].
      * destruct inv; try done. intros _. simpl. unfold handle_preflight, bind, of_result, encoded, write_stdout.
        destruct (preflight_artifact _ _); [|done]. destruct (json_pretty _); [|done]. simpl.
        by destruct (stdout_accepts _).
    + simpl. split; [|split]; [|split; eauto|done]. split; [intros [= ->]; done|by intros [_ [= ->]]].
Qed.

Lemma yields_service {A} env (m : Prog LegacyTransitionError A) (P : A → W → Prop) w :
  yields env m P w → yields env (map_err TransitionFailed m) P w.
Proof. apply yields_map_err. Qed.

Lemma written_leaves env path bytes (P : Written → W → Prop) w :
  (∀ written, P written w) → yields env (write_output path bytes) P w.
Proof.
  intros H. unfold write_output, write_stdout. destruct path; [destruct (create_new _ _)|destruct (stdout_accepts _)];
    [apply yields_ret, H|apply yields_throw|apply yields_ret, H|apply yields_throw].
Qed.

(** What a successful import prints. *)
Definition printed_outcome (outcome : ImportOutcome) : Value :=
  obj [("run_id", Str (uuid_text (io_run_id outcome))); ("reused", Bool (io_reused outcome));
       ("inserted", Number (ic_inserted (io_counts outcome))); ("matched", Number (ic_matched (io_counts outcome)));
       ("updated", Number (ic_updated (io_counts outcome)));
       ("conflicted", Number (ic_conflicted (io_counts outcome)));
       ("rejected", Number (ic_rejected (io_counts outcome)));
       ("unmapped", Number (ic_unmapped (io_counts outcome)))]%string.

(** C39. An import run that succeeds took one artifact through its preflight and recorded exactly that batch
    in the database: the run row, one item per row, and the posts, for the account, the owner and the
    evidence digest of the command line. It ran under a sound configuration whose credential key is
    usable and whose database answers, and what it printed is the outcome that was recorded. *)
Theorem operator_imports_record_their_artifact env arguments kind path account owner digest (w : W) :
  (∀ n d, e_other env n d = d) →
  parse_arguments arguments = Ok (Import kind path account owner digest) →
  yields env (run arguments) (λ written w',
    valid_sha256 digest = true ∧
    ∃ batch outcome config secret cipher text,
      preflight_source (source_selection kind path) default_limits = Ok batch ∧
      figment_extract = Ok config ∧ Sound config ∧ token_encryption_key (security config) = Some secret ∧
      from_secret_key secret = Ok cipher ∧
      connects (db_url (database config)) (max_connections (database config)) = true ∧
      import_recorded batch (approval_of account owner digest batch) outcome (w_db w) (w_db w') ∧
      json_pretty (printed_outcome outcome) = Some text ∧ written = (None, text +:+ String LF "")) w.
Proof.
  intros Ho Hp. pose proof (parse_bounded _ _ Hp) as Hb. simpl in Hb. unfold run.
  destruct (is_help_request arguments) eqn:Eh; [apply help_is_refused in Eh as [e He]; congruence|].
  rewrite Hp. yields_steps. intros inv [= <-]. simpl. unfold handle_import, preflight_artifact.
  yields_steps. intros batch Hbatch. apply result_map_err_Ok in Hbatch. yields_steps.
  intros cipher Hcipher. unfold load_secure_database, load_config in Hcipher.
  apply result_bind_Ok in Hcipher as (config & Hconfig & (secret & Hsecret &
    (key & Hkey & ([] & Hconn & [= <-])%result_bind_Ok)%result_bind_Ok)%result_bind_Ok).
  apply result_map_err_Ok, extract_from_Ok in Hconfig as [Hconfig Hsound]. apply ok_or_Ok in Hsecret.
  apply result_map_err_Ok in Hkey. unfold connect in Hconn. destruct (connects _ _) eqn:Econn; [|done].
  yields_steps.
  set (identity := official_identity _).
  eapply yields_mono with (P := λ outcome w', import_recorded batch (approval_of account owner digest batch) outcome
    (w_db w) (w_db w')).
  { pose proof (@import_batch_spec cr identity (official_identity_reads _) env batch
      (Some (approval_of account owner digest batch)) w Ho) as H. unfold yields. eapply wp_mono; [exact H|].
    intros [outcome|e] w'; [|done]. by intros (a & [= <-] & Hr). }
  intros outcome w3 Hrec. unfold encoded. yields_steps. intros text Htext%ok_or_Ok. unfold write_stdout.
  destruct (stdout_accepts _); [|apply yields_throw]. apply yields_ret. split; [exact Hb|].
  by exists batch, outcome, config, secret, key, text.
Qed.
End OperatorTheorems.

(** ** Concrete runs *)
Module OperatorSamples.
Import SampleChrono SampleCrypto SampleContracts OauthSamples LegacySourceSamples ConfigSamples CliSamples.

#[export] Instance sample_http : IdentityHttp := {|
  identity_answer_at _ := Some (mkIdentityResponse 200 None ["the owner's profile"%string] false);
  json_from_slice _ := Some (obj [("data", obj [("id", Str "u1")])])%string;
|}.

(** A document as its members, one after the other. *)
Definition member_text (member : string * Value) : string :=
  member.1 +:+ "=" +:+ match member.2 with
    | Number n => decimal n | Str text => text | Bool true => "true" | Bool false => "false" | _ => "..."
    end.
Definition sample_secret : string := "0123456789012345678901234567890123456789012".
#[export] Instance sample_operator : OperatorInputs := {|
  figment_extract := Ok (mkXConfig (admin_ default_config) (database default_config) (telemetry default_config)
    (mkSecurityConfig (Some sample_secret)) (oauth default_config) (budgets default_config)
    (bus_ default_config) (public_capture default_config) (tombstone default_config));
  connects _ _ := true;
  identity_client_ready := true;
  json_pretty v := match v with Object members => Some (str_join " " (member_text <$> members)) | _ => None end;
  create_new _ _ := false;
  stdout_accepts _ := true;
|}.

Definition empty_world : W := mkWorld empty_db 0 [].

(** A preflight prints; a report for an unknown import is an error of the service; a taken output file
    and a refused command line have their own. *)
Example sample_runs :
  (λ arguments, (run arguments (calm 3) empty_world).1) <$>
    [["preflight"; "--source"; "lf.csv"; "--source-kind"; "monolith-csv"];
     ["shadow-report"; "--account-id"; "1"; "--import-run-id"; "2"; "--snapshot-id"; "3"];
     ["preflight"; "--cookie"; "x"]]%string =
    [Ok (None, String.append "importer_parser_version=1 row_count=2 source_digest=616d706c652e636f6d2f2c2c323032342d30312d30315430303a30303a30305a source_kind=monolith_csv source_version=1"
       (String LF "")); Err (TransitionFailed ImportRunUnavailable);
     Err (Cli (ForbiddenArgument "--cookie"))]%string.
Proof. vm_compute. reflexivity. Qed.

Example sample_statuses :
  (run_status ∘ (λ arguments, (run arguments (calm 3) empty_world).1)) <$> [["--help"]; ["import"; "-h"]; []]%string =
    [0; 0; 2].
Proof. vm_compute. reflexivity. Qed.

Abbreviation import_line := ["import"; "--source"; "lf.csv"; "--source-kind"; "monolith-csv"; "--account-id"; "1";
  "--internal-owner-id"; "5"; "--ownership-approval-digest"; sample_digest]%string.

Lemma refused_command_lines_touch_nothing_witness :
  (run ["preflight"; "--cookie"; "x"]%string (calm 3) empty_world).2 = empty_world.
Proof.
  apply (refused_command_lines_touch_nothing (calm 3) ["preflight"; "--cookie"; "x"]%string empty_world MissingCommand).
  vm_compute. exact I.
Defined.

(** The account is connected, and its credential opens under the configured key. *)
Definition connected_account : Db :=
  on_credentials (insert 9 (mkCredentialRow 1
      (seal_with (mkTokenCipher (str_take 32 sample_secret)) sample_nonce 1 Credential
         (payload_encode (mkCredentialPayload "a1" "r1"))) ["users.read"] "active" "accepted" None None 0))
    (on_accounts (insert 1 (mkAccount 5 "u1" "connected" 0)) empty_db)%string.
Definition connected_world : W := mkWorld connected_account 0 [].
Definition sample_run : result Written TransitionRunError * W := run import_line (calm 3) connected_world.

(** The run of two rows, one with a post and one without, prints the outcome it recorded. *)
Example sample_run_prints :
  sample_run.1 = Ok (None, String.append
    "conflicted=0 inserted=1 matched=0 rejected=0 reused=false run_id=1009 unmapped=1 updated=0"
    (String LF "")) ∧
  w_log sample_run.2 = [GetBearer "https://api.x.com/2/users/me" "a1"].
Proof. vm_compute. done. Qed.

Lemma operator_imports_record_their_artifact_witness :
  (∃ written, sample_run.1 = Ok written) ∧
  (∃ batch outcome, preflight_source (MonolithCsv "lf.csv") default_limits = Ok batch ∧
    import_recorded batch (approval_of 1 5 sample_digest batch) outcome connected_account (w_db sample_run.2)) ∧
  (pst_text <$> posts (w_db sample_run.2) !! "42"%string) = Some (String dquote "a, b") ∧
  (λ kv, (kv.1.2, li_resolution kv.2)) <$> map_to_list (legacy_import_items (w_db sample_run.2)) =
    [("k1", "unmapped"); ("k2", "provider_post")]%string.
Proof.
  split; [|split; [|vm_compute; done]].
  - exists (None, String.append "conflicted=0 inserted=1 matched=0 rejected=0 reused=false run_id=1009 unmapped=1 updated=0"
      (String LF ""))%string. vm_compute. reflexivity.
  - assert (Hline : parse_arguments import_line = Ok (Import MonolithCsvKind "lf.csv" 1 5 sample_digest))
      by (vm_compute; reflexivity).
    pose proof (operator_imports_record_their_artifact (calm 3) import_line MonolithCsvKind "lf.csv" 1 5 sample_digest
      connected_world (λ _ _, eq_refl) Hline) as H.
    pose proof sample_run_prints as [Hok _]. unfold sample_run in *. unfold yields, wp in H.
    destruct (run import_line (calm 3) connected_world) as [r w']. cbn [fst snd] in *. subst r.
    destruct H as (_ & batch & outcome & config & secret & cipher & text & Hb & _ & _ & _ & _ & _ & Hr & _).
    exists batch, outcome. split; [exact Hb|exact Hr].
Defined.
End OperatorSamples.
