(* ===== verification/Footprints.v ===== *)
(** * Who writes what

    The program is one database and two dozen operations. Here its tables are grouped into parts, one
    for each invariant of the other files, and [Within] says that a step stays inside some parts and
    queues only some kinds of event. Every operation is walked once, under any relation that tolerates
    its footprint; which relations tolerate which footprints is a question about parts alone. *)
From S2P Require Export Archive Compliance PublicCaptureSafety Consumers Relay LegacyReview Knowledge.

(** ** Parts *)

Inductive Part :=
  | ArchivePart      (* bookmarks, folders, snapshots, runs, and whose word is taken *)
  | WritesPart       (* write operations, consents and their audit *)
  | TakedownsPart    (* removals, tombstones and the revalidation ledger *)
  | ArticlesPart     (* article captures *)
  | CapturesPart     (* explicit captures *)
  | WindowsPart      (* budget windows *)
  | ReviewsPart      (* shadow reports and owner decisions *)
  | LinksPart.       (* analysis links *)

#[export] Instance part_eq_dec : EqDecision Part.
Proof. solve_decision. Defined.

(** The removal of a source: whose it was, and when it was taken down. *)
Definition removal_of (row : SocialSource) : option (Z * Z) :=
  at_ ← ss_removed_at row; Some (ss_account_id row, at_).
Definition removals (d : Db) : gmap Z (Z * Z) := omap removal_of (social_sources d).

Definition part_same (p : Part) (d d' : Db) : Prop :=
  match p with
  | ArchivePart =>
      (bookmark_snapshot_authority d', bookmarks d', snapshots d', sync_runs d', folder_claims d') =
      (bookmark_snapshot_authority d, bookmarks d, snapshots d, sync_runs d, folder_claims d)
  | WritesPart =>
      (bookmark_write_operations d', bookmark_write_consents d', bookmark_write_audit_events d') =
      (bookmark_write_operations d, bookmark_write_consents d, bookmark_write_audit_events d)
  | TakedownsPart =>
      (removals d', tombstones d', compliance_revalidation_ledger d') =
      (removals d, tombstones d, compliance_revalidation_ledger d)
  | ArticlesPart => article_captures d' = article_captures d
  | CapturesPart => explicit_captures d' = explicit_captures d
  | WindowsPart => api_budget_windows d' = api_budget_windows d
  | ReviewsPart =>
      (legacy_transition_approvals d', legacy_shadow_reports d') =
      (legacy_transition_approvals d, legacy_shadow_reports d)
  | LinksPart => knowledge_analysis_links d' = knowledge_analysis_links d
  end.

#[export] Instance part_same_preorder p : PreOrder (part_same p).
Proof. split; [by intros d; destruct p|]. intros d1 d2 d3. destruct p; simpl; congruence. Qed.

(** Rows of the outbox only advance, and a new row is an event the step may queue and the schema
    allows. *)
Definition outbox_grows (queues : string → Prop) (d d' : Db) : Prop :=
  outbox_advances d d' ∧
  ∀ id row, outbox_events d' !! id = Some row →
    is_Some (outbox_events d !! id) ∨ (queues (ob_event_type row) ∧ ob_event_type row ∈ event_types).

#[export] Instance outbox_grows_preorder queues : PreOrder (outbox_grows queues).
Proof.
  split; [intros d; split; [reflexivity|eauto]|]. intros d1 d2 d3 [A1 Q1] [A2 Q2]. split; [by etrans|].
  intros id row H. destruct (Q2 id row H) as [[row2 H2]|]; [|by right].
  destruct (Q1 id row2 H2) as [|Hq]; [by left|right].
  destruct (A2 id row2 H2) as (row' & Hr & _ & Ht & _).
  assert (E : ob_event_type row = ob_event_type row2) by congruence. by rewrite E.
Qed.

Record Within (touched : list Part) (queues : string → Prop) (d d' : Db) : Prop := {
  wi_same p : p ∉ touched → part_same p d d';
  wi_inbox : inbox_events d ⊆ inbox_events d';
  wi_revisions : social_source_revisions d ⊆ social_source_revisions d';
  wi_outbox : outbox_grows queues d d';
}.

#[export] Instance within_preorder touched queues : PreOrder (Within touched queues).
Proof.
  split; [intros d; by split|]. intros d1 d2 d3 [S1 I1 R1 O1] [S2 I2 R2 O2].
  split; [intros p Hp; etrans; [by apply S1|by apply S2]|by etrans..].
Qed.

Lemma within_mono (touched touched' : list Part) (queues queues' : string → Prop) d d' :
  touched ⊆ touched' → (∀ t, queues t → queues' t) →
  Within touched queues d d' → Within touched' queues' d d'.
Proof.
  intros Ht Hq [S I R [A Q]]. split; [|done|done|].
  - intros p Hp. apply S. auto.
  - split; [done|]. intros id row H. destruct (Q id row H) as [?|[? ?]]; auto.
Qed.

(** ** Which relations tolerate which footprints *)

Lemma within_archive touched queues d d' :
  ArchivePart ∉ touched → Within touched queues d d' → keeps ArchiveJustified d d'.
Proof.
  intros Hp [S _ _ _]. specialize (S _ Hp). simpl in S. injection S as Ha Hb Hs Hr Hc.
  apply no_new_claim. split; [| |done| |unfold folder_claims; congruence].
  - intros account snap. apply complete_for_mono; [intros *; by rewrite Hs|]. intros id r. rewrite Hr. eauto.
  - intros folder snap. apply complete_folder_mono. intros *. by rewrite Hs.
  - intros account post b' snap. unfold bookmarks_of. rewrite Hb. eauto.
Qed.

Lemma within_writes touched queues d d' :
  WritesPart ∉ touched → Within touched queues d d' → WriteSteps d d'.
Proof.
  intros Hp [S _ _ _]. specialize (S _ Hp). simpl in S. injection S as Ho Hc Ha.
  by apply write_steps_frame.
Qed.

Lemma within_reviews touched queues d d' :
  ReviewsPart ∉ touched → Within touched queues d d' → keeps ReviewsJustified d d'.
Proof.
  intros Hp [S _ _ _]. specialize (S _ Hp). simpl in S. injection S as Ha Hr. unfold keeps. by eapply justified_ext.
Qed.

Lemma within_windows caps touched queues d d' :
  WindowsPart ∉ touched → Within touched queues d d' → keeps (windows_within caps) d d'.
Proof.
  intros Hp [S _ _ _]. specialize (S _ Hp). simpl in S. unfold keeps, windows_within. by rewrite S.
Qed.

Lemma within_links touched queues d d' :
  LinksPart ∉ touched → Within touched queues d d' → keeps LinksJustified d d'.
Proof.
  intros Hp [S Hi Hr _] [H1 H2 H3]. specialize (S _ Hp). simpl in S. split; rewrite S; [| |done].
  - intros key link Hl. destruct (H1 key link Hl) as [x Hx]. exists x. by eapply lookup_weaken.
  - intros key link Hl. destruct (H2 key link Hl) as [x Hx]. exists x. by eapply lookup_weaken.
Qed.

(** The row of an event that may not be queued: it was there, and its document is unchanged. *)
Lemma grows_back (queues : string → Prop) d d' id row :
  outbox_grows queues d d' → outbox_events d' !! id = Some row → ¬ queues (ob_event_type row) →
  ∃ row0, outbox_events d !! id = Some row0 ∧ row_advances row0 row.
Proof.
  intros [A Q] H Hn. destruct (Q id row H) as [[row0 H0]|[? _]]; [|done]. exists row0. split; [done|].
  destruct (A id row0 H0) as (row' & Hr & Ha). congruence.
Qed.

Lemma within_takedowns `{Contracts} touched queues d d' :
  TakedownsPart ∉ touched → Within touched queues d d' → keeps TakedownsJustified d d'.
Proof.
  intros Hp [S _ _ [A _]] [H1 H2]. specialize (S _ Hp). simpl in S. injection S as Hr Ht Hl.
  assert (Hback : ∀ e e' source row, removals e = removals e' → social_sources e' !! source = Some row →
    is_Some (ss_removed_at row) → ∃ row0, social_sources e !! source = Some row0 ∧
      ss_account_id row0 = ss_account_id row ∧ ss_removed_at row0 = ss_removed_at row).
  { intros e e' source row E Hs [t Hrem]. assert (Hx : removals e !! source = Some (ss_account_id row, t)).
    { rewrite E. unfold removals. rewrite lookup_omap, Hs. simpl. unfold removal_of. by rewrite Hrem. }
    unfold removals in Hx. rewrite lookup_omap in Hx. destruct (social_sources e !! source) as [row0|]; [|done].
    simpl in Hx. unfold removal_of in Hx. destruct (ss_removed_at row0) as [t0|] eqn:E0; [|done].
    exists row0. simpl in Hx. simplify_eq. split_and!; congruence. }
  split.
  - intros source row Hs Hrem. destruct (Hback d d' source row (eq_sym Hr) Hs Hrem) as (row0 & Hs0 & Ea & Er).
    destruct (H1 source row0 Hs0) as ((id & o & Ho & Hrm & Hagg) & t & e & Htb & He & Hj); [by rewrite Er|].
    split.
    + destruct (A id o Ho) as (o' & Ho' & Hag & Hty & _). exists id, o'. unfold is_removal in *.
      split_and!; congruence.
    + exists t, e. rewrite Ht, Hl. split_and!; [done..|]. unfold justified_by in *. by rewrite <-Ea, <-Er.
  - intros source t Htb. rewrite Ht in Htb. destruct (H2 source t Htb) as (row & Hs & Hrem).
    destruct (Hback d' d source row Hr Hs Hrem) as (row' & Hs' & _ & Er). exists row'. split; [done|].
    by rewrite Er.
Qed.

Lemma within_types touched queues d d' : Within touched queues d d' → keeps types_allowed d d'.
Proof.
  intros [_ _ _ [A Q]] Ht id row Hr. destruct (Q id row Hr) as [[row0 H0]|[_ ?]]; [|done].
  destruct (A id row0 H0) as (row' & Hr' & _ & Hty & _). rewrite Hr in Hr'. injection Hr' as <-.
  rewrite Hty. by eapply Ht.
Qed.

Section Tolerance.
Context {ct : Contracts} {ec : EnvelopeCodec} {cr : Crypto} {ac : ArticleContracts} {cc : CaptureContracts}.

(** A report that may not be queued is the same before and after. *)
Lemma report_documents_grow queues capture_id d d' :
  outbox_grows queues d d' → ¬ queues OPERATION_REPORTED →
  report_documents capture_id d' = report_documents capture_id d.
Proof.
  intros Hg Hn. pose (document := λ row : OutboxRow, env_payload (ob_payload row)).
  assert (Hd : ∀ e, report_documents capture_id e =
    (map_to_list (document <$> filter (λ kv, is_report_of capture_id kv.2) (outbox_events e))).*2).
  { intros e. unfold report_documents. rewrite map_to_list_fmap, <-list_fmap_compose. done. }
  rewrite !Hd. f_equal. f_equal. apply map_eq. intros id. rewrite !lookup_fmap. apply option_eq. intros v.
  rewrite !fmap_Some. split; intros (row & [Hr Hrep]%map_lookup_filter_Some & ->).
  - destruct (grows_back _ _ _ _ _ Hg Hr) as (row0 & H0 & Hag & Hty & Hpl & _).
    { destruct Hrep as [Ht _]. simpl in Ht. by rewrite Ht. }
    exists row0. unfold document. rewrite Hpl. split; [|done]. apply map_lookup_filter_Some.
    split; [done|]. unfold is_report_of in *. simpl in *. by rewrite <-Hag, <-Hty.
  - destruct Hg as [A _]. destruct (A id row Hr) as (row' & H' & Hag & Hty & Hpl & _).
    exists row'. unfold document. rewrite Hpl. split; [|done]. apply map_lookup_filter_Some.
    split; [done|]. unfold is_report_of in *. simpl in *. by rewrite Hag, Hty.
Qed.

Lemma within_captures touched queues d d' :
  CapturesPart ∉ touched → ¬ queues OPERATION_REPORTED → Within touched queues d d' → captures_follow d d'.
Proof.
  intros Hp Hq [S _ _ O]. specialize (S _ Hp). simpl in S. split; [by apply captures_kept_same|].
  apply captures_reported_iff; [done|]. intros id. by rewrite (report_documents_grow queues id d d').
Qed.

Lemma within_articles touched queues d d' :
  ArticlesPart ∉ touched → ¬ queues CONTENT_CAPTURE_REQUESTED → Within touched queues d d' →
  keeps ArticlesMatched d d'.
Proof.
  intros Hp Hq [S _ _ O]. specialize (S _ Hp). simpl in S. intros [H1 H2 H3 H4].
  assert (Hback : ∀ id row, capture_command d' id row →
    ∃ row0, capture_command d id row0 ∧ ob_correlation_id row0 = ob_correlation_id row).
  { intros id row [Hr Ht]. destruct (grows_back _ _ _ _ _ O Hr) as (row0 & H0 & _ & Hty & _ & Hco & _);
      [by rewrite Ht|]. exists row0. split; [|done]. split; [done|congruence]. }
  split.
  - intros id row Hr. rewrite S in Hr. destruct (H1 id row Hr) as (oid & o & [Ho Ht] & Hc).
    destruct O as [A _]. destruct (A oid o Ho) as (o' & Ho' & _ & Hty & _ & Hco & _).
    exists oid, o'. split; [split; [done|congruence]|congruence].
  - intros oid o (o0 & H0 & E)%Hback. rewrite S, <-E. by eapply H2.
  - intros i o j o' (x & Hx & Ex)%Hback (y & Hy & Ey)%Hback E. eapply H3; [done..|congruence].
  - rewrite S. exact H4.
Qed.
End Tolerance.

(** ** Statements *)

(** A step that writes tables of the touched parts, or of none. *)
Lemma within_tables touched queues d d' :
  (∀ p, p ∉ touched → part_same p d d') →
  (inbox_events d', social_source_revisions d', outbox_events d') =
    (inbox_events d, social_source_revisions d, outbox_events d) →
  Within touched queues d d'.
Proof.
  intros Hs [= Hi Hr Ho]. split; [done|by rewrite Hi|by rewrite Hr|].
  assert (E : ∀ e, outbox_events e = outbox_events d → outbox_grows queues d e); [|by apply E].
  intros e E. split; [|rewrite E; eauto]. intros id row Hrow. exists row. by rewrite E.
Qed.

(** A new event. *)
Lemma within_event touched (queues : string → Prop) e now d :
  outbox_events d !! env_id e = None → env_type e ∈ event_types → queues (env_type e) →
  Within touched queues d (on_outbox_events (λ _, <[env_id e := fresh_row e now]> (outbox_events d)) d).
Proof.
  intros Hn Ht Hq. split; [intros p _; by destruct p|done|done|]. split; cbn [outbox_events on_outbox_events].
  - intros id row Hr. exists row. cbn. rewrite lookup_insert_ne by congruence. split; [done|reflexivity].
  - intros id row [[<- <-]|[_ Hr]]%lookup_insert_Some; [by right|left; eauto].
Qed.

(** A row of the outbox that advances. *)
Lemma within_advance touched queues id guard change d b d' :
  (∀ row dl, guard row = true → change row = Some dl → row_advances row (with_delivery row dl)) →
  update_row id guard change d = Some (b, d') → Within touched queues d d'.
Proof.
  intros Hadv Hu. pose proof (update_row_advances id guard change d b d' Hadv Hu) as A.
  unfold update_row in Hu. destruct (outbox_events d !! id) as [row|] eqn:E; [|by injection Hu as _ <-].
  destruct (guard row); [|by injection Hu as _ <-]. destruct (change row) as [dl|]; [|done].
  injection Hu as _ <-. split; [intros p _; by destruct p|done|done|]. split; [done|].
  cbn [outbox_events on_outbox_events]. intros i r [[<- _]|[_ Hr]]%lookup_insert_Some; left; eauto.
Qed.

(** A delivery consumed from the inbox. *)
Lemma within_inbox touched queues event_id row d b d' :
  claim_inbox_row event_id row d = Some (b, d') → Within touched queues d d'.
Proof.
  unfold claim_inbox_row. destruct (inbox_events d !! event_id) eqn:E; intros [= _ <-]; [done|].
  split; [intros p _; by destruct p|by apply insert_subseteq|done|].
  split; [intros i r Hr; by exists r|eauto].
Qed.

(** No event at all, and every event but one. *)
Definition nothing (event_type : string) : Prop := False.
Definition all_but (excluded event_type : string) : Prop := event_type ≠ excluded.

(** A statement that touches only tables of the named parts, once it is spelled out. *)
Ltac tables :=
  apply within_tables;
  [let p := fresh "p" in let Hp := fresh "Hp" in intros p Hp; destruct p;
   first [reflexivity | exfalso; apply Hp; apply (bool_decide_unpack _); vm_compute; exact I]
  |reflexivity].

(** ** Walks

    Each operation under any relation [S] that tolerates its footprint, next to others that respect
    [S]. *)

Section Walk.
Context (env : Env Db) (S : relation Db) `{!PreOrder S} (Hr : rely (Ev:=Event) env (on_db S)).

(** What one statement leaves, as a footprint. *)
Ltac stays Hsub :=
  unfold on_db in *; cbn [w_db set_db tick] in *;
  first [reflexivity | apply Hsub; simplify_eq/=; first [reflexivity | tables]].

Lemma guar_call_db {E A} (ev : Event) (answer : nat → A) : guar env (on_db S) (call (E:=E) ev answer).
Proof. apply guar_call; [typeclasses eauto|]. intros w. unfold on_db. simpl. reflexivity. Qed.

Section Queueing.
Context {ct : Contracts} {ec : EnvelopeCodec}.
Context (touched : list Part) (queues : string → Prop)
  (Hsub : ∀ d d', Within touched queues d d' → S d d').

Lemma enqueue_within e : queues (env_type e) → guar env (on_db S) (enqueue e).
Proof.
  intros Hq. unfold enqueue. guar_steps. unfold on_db. cbn [w_db set_db]. apply Hsub.
  match goal with H : insert_outbox _ _ _ = _ |- _ => apply insert_outbox_Some in H as (Ht & Hn & ->) end.
  by apply within_event.
Qed.

Lemma queue_envelope_within event_type facts payload :
  queues event_type → guar env (on_db S) (queue_envelope event_type facts payload).
Proof.
  intros Hq. apply guar_wp. intros w. eapply wp_mono; [apply queue_envelope_effect|].
  intros r w' [E|(e & now & Hb & Ht & Hn & E)]; unfold on_db; rewrite E; [reflexivity|].
  apply build_envelope_fields in Hb as (_ & Hty & _). apply Hsub, within_event; by rewrite ?Hty.
Qed.
End Queueing.

(** *** The connection *)

Section ConnectionWalk.
Context {cr : Crypto} {ch : Chrono} {pr : Provider}.
Context (Hsub : ∀ d d', Within [] nothing d d' → S d d').

Lemma insert_intent_within intent : guar env (on_db S) (insert_intent intent).
Proof.
  unfold insert_intent. guar_steps. destruct (_ && _); [|done].
  destruct (insert_new _ _ _); simpl in *; [|done]. stays Hsub.
Qed.

Lemma resolve_callback_within cipher state : guar env (on_db S) (resolve_callback cipher state).
Proof.
  unfold resolve_callback, find_intent_by_state_hash, consume_intent, consume_update. guar_steps.
  destruct (oauth_intents _ !! _) as [row|]; [destruct (int_consumed_at row)|]; stays Hsub.
Qed.

Lemma exchange_within {A} event (k : Z * string → result A FlowError) :
  guar env (on_db S) (exchange event k).
Proof. unfold exchange. guar_steps. apply guar_call_db. Qed.

Lemma insert_credential_within id row d a d' : insert_credential id row d = Some (a, d') → S d d'.
Proof.
  unfold insert_credential. destruct (account_exists _ _); [|done].
  destruct (insert_new _ _ _); [|done]. intros [= _ <-]. stays Hsub.
Qed.

Lemma exchange_code_within service account accepted code :
  guar env (on_db S) (exchange_code service account accepted code).
Proof.
  unfold exchange_code, client_exchange_code, post_token_form, post_form_raw, seal_fresh,
    insert_with_status, set_account_state.
  guar_steps; try apply exchange_within; try (by eapply insert_credential_within); stays Hsub.
Qed.

Lemma exchange_write_code_within service accepted code :
  guar env (on_db S) (exchange_bookmark_write_code service accepted code).
Proof.
  unfold exchange_bookmark_write_code, client_exchange_code, post_token_form, post_form_raw, seal_fresh,
    authenticated_user_id, insert_rejected_write_grant, activate.
  guar_steps; try apply exchange_within; try (by eapply insert_credential_within); try stays Hsub.
  unfold upsert_authorization in *. destruct (_ && _); [|done]. stays Hsub.
Qed.

Lemma refresh_within service account presented : guar env (on_db S) (refresh service account presented).
Proof.
  unfold refresh, client_refresh_token, post_token_form, post_form_raw, seal_fresh,
    lock_active_for_account, scrub_revoke_tx, mark_expired_tx, set_account_state_tx, rotate_guarded_tx.
  guar_steps; try apply exchange_within; try stays Hsub.
  unfold rotate_update in *. destruct (credentials _ !! _); [destruct (_ && _)|]; stays Hsub.
Qed.

Lemma revoke_within service account : guar env (on_db S) (revoke service account).
Proof.
  unfold revoke, client_revoke, post_form_raw, lock_active_for_account, scrub_revoke_tx, set_account_state_tx.
  guar_steps; try apply exchange_within; stays Hsub.
Qed.
End ConnectionWalk.

(** *** The legacy transition *)

Section LegacyWalk.
Context {ct : Contracts} {cr : Crypto}.

Lemma legacy_frame_within d d' : LegacyFrame d d' → Within [] nothing d d'.
Proof.
  intros [E _ _ _].
  assert (Hp : ∀ {A} (f : Db → A), (∀ e, f e = f (outside_import e)) → f d' = f d).
  { intros A f Hf. by rewrite (Hf d'), E, <-Hf. }
  apply within_tables; [intros p _; destruct p|]; simpl;
    match goal with |- ?l = _ =>
      let f := eval pattern d' in l in match f with ?g _ => exact (Hp _ g (λ _, eq_refl)) end
    end.
Qed.

Lemma import_batch_within `{ReadOnlyIdentity} batch approval :
  (∀ d d', Within [] nothing d d' → S d d') → guar env (on_db S) (import_batch batch approval).
Proof.
  intros Hsub. apply imports_stay_in_their_tables; [typeclasses eauto| |done].
  intros d d' HF. by apply Hsub, legacy_frame_within.
Qed.

Context (Hsub : ∀ d d', Within [ReviewsPart] nothing d d' → S d d').

Lemma require_current_within account snapshot_id :
  guar env (on_db S) (require_current_authoritative_snapshot account snapshot_id).
Proof. unfold require_current_authoritative_snapshot. guar_steps; stays Hsub. Qed.

Lemma shadow_report_within account run_id snapshot_id :
  guar env (on_db S) (shadow_report_for account run_id snapshot_id).
Proof.
  unfold shadow_report_for, shadow_report_body, load_shadow_rows, persist_shadow_report.
  guar_steps; try apply require_current_within; unfold on_db; cbn [w_db set_db].
  - match goal with H : insert_report _ _ _ = _ |- _ =>
      pose proof (insert_report_Some _ _ _ _ _ H) as [(_ & -> & _)|(_ & _ & _ & ->)] end; stays Hsub.
  - destruct (existing_report _ _); simpl in *; [|done]. by simplify_eq.
Qed.

Lemma checklist_within account report_id : guar env (on_db S) (checklist_for account report_id).
Proof.
  unfold checklist_for, checklist_body, supersede_approvals_for_new_report, reset_report_reviewability.
  guar_steps; try apply require_current_within; stays Hsub.
Qed.

Lemma record_approval_within request : guar env (on_db S) (record_transition_approval request).
Proof.
  unfold record_transition_approval, approval_body, validate_approval_target, supersede_current_approvals,
    reset_report_reviewability.
  guar_steps; try apply require_current_within; try apply checklist_within; try stays Hsub.
  unfold insert_approval in *. destruct (_ && _); [|done]. destruct (insert_new _ _ _); simpl in *; [|done].
  stays Hsub.
Qed.
End LegacyWalk.

(** *** The bus *)

Section BusWalk.
Context {ct : Contracts} {ec : EnvelopeCodec} {cr : Crypto} {ac : ArticleContracts} {cc : CaptureContracts}
  {cl : CaptureContractsLaws} {kc : AckContracts} {kn : KnowledgeContracts}.

Lemma completion_within serialized_event :
  (∀ d d', Within [LinksPart] nothing d d' → S d d') → guar env (on_db S) (consume_completion serialized_event).
Proof.
  intros Hsub. unfold consume_completion, link_body. guar_steps; unfold on_db; cbn [w_db set_db].
  - apply Hsub. by eapply within_inbox.
  - unfold link_analysis in *. destruct (knowledge_analysis_links _ !! _); [stays Hsub|].
    case_bool_decide; [done|]. destruct (social_source_revisions _ !! _); [|done]. stays Hsub.
Qed.

Lemma deletion_acks_within durable_name lookup items :
  (∀ d d', Within [] nothing d d' → S d d') →
  guar env (on_db S) (consume_deletion_acks durable_name lookup items).
Proof.
  intros Hsub. unfold consume_deletion_acks. apply guar_bind; [typeclasses eauto|guar_steps|]. intros _.
  apply consume_guar; [typeclasses eauto|]. intros payload s.
  unfold handle_ack, apply_ack, acknowledge. guar_steps. unfold on_db. cbn [w_db set_db]. apply Hsub.
  eapply within_advance; [|eassumption]. intros row dl Hg [= <-]. by eapply acknowledged_advances.
Qed.

Lemma extractor_reports_within durable_name lookup items :
  (∀ d d', Within [ArticlesPart] nothing d d' → S d d') →
  guar env (on_db S) (consume_extractor_reports durable_name lookup items).
Proof.
  intros Hsub. unfold consume_extractor_reports. apply guar_bind; [typeclasses eauto|guar_steps|]. intros _.
  apply consume_guar; [typeclasses eauto|]. intros payload s.
  unfold handle_report, consume_extractor_operation_report, claim_outcome_inbox, complete_capture.
  guar_steps; unfold on_db; cbn [w_db set_db].
  - apply Hsub. by eapply within_inbox.
  - unfold complete_capture_update in *. destruct (article_captures _ !! _); [|stays Hsub].
    destruct (String.eqb _ _); stays Hsub.
Qed.

Lemma browser_commands_within durable_name lookup items :
  (∀ d d', Within [CapturesPart] (eq OPERATION_REPORTED) d d' → S d d') →
  guar env (on_db S) (consume_browser_commands durable_name lookup items).
Proof.
  intros Hsub. unfold consume_browser_commands. apply guar_bind; [typeclasses eauto|guar_steps|]. intros _.
  apply consume_guar; [typeclasses eauto|]. intros payload s.
  unfold handle_command, accept_delivery, persist_browser_capture, accept_capture, claim_inbox, queue_capture_report.
  guar_steps; unfold on_db; cbn [w_db set_db].
  - apply Hsub. by eapply within_inbox.
  - match goal with H : insert_capture _ _ _ = _ |- _ => apply insert_capture_Some in H as (_ & _ & ->) end.
    stays Hsub.
  - match goal with H : report_envelope _ _ _ _ _ _ _ = _ |- _ =>
      apply report_envelope_fields in H as (_ & Ht & _) end.
    by eapply (enqueue_within _ _ Hsub).
Qed.
End BusWalk.

(** *** The relay *)

Section RelayWalk.
Context {ec : EnvelopeCodec} {publisher : OutboxPublisher} {laws : PublisherLaws}.
Context (Hsub : ∀ d d', Within [] nothing d d' → S d d').

Lemma publish_within subject id payload : guar env (on_db S) (publish subject id payload).
Proof.
  split. intros w. pose proof (publish_effect env subject id payload w) as He.
  destruct (publish subject id payload env w) as [r w']. destruct He as [Hd _]. unfold on_db. simpl.
  by rewrite Hd.
Qed.

Ltac advances :=
  unfold on_db; cbn [w_db set_db]; apply Hsub; eapply within_advance; [|eassumption];
  intros row dl Hg Hc; cbv beta in Hc.

Lemma mark_published_within id policy : guar env (on_db S) (mark_published id policy).
Proof.
  unfold mark_published. guar_steps. advances. injection Hc as <-.
  apply mark_published_advances. by apply negb_true_iff in Hg.
Qed.

Lemma record_resend_within id policy : guar env (on_db S) (record_resend id policy).
Proof. unfold record_resend. guar_steps. advances. by eapply resent_advances. Qed.

Lemma record_undeliverable_within id failure : guar env (on_db S) (record_undeliverable id failure).
Proof.
  unfold record_undeliverable. guar_steps. advances. unfold undeliverable_delivery in Hc.
  destruct (int4 _); [|done]. injection Hc as <-. unfold row_advances. by split_and!.
Qed.

Lemma record_failure_within id failure republish : guar env (on_db S) (record_failure id failure republish).
Proof.
  unfold record_failure. guar_steps. advances. unfold failed_delivery in Hc.
  destruct (int4 _); [|done]. injection Hc as <-. unfold row_advances. by split_and!.
Qed.

Lemma relay_within relay passes : guar env (on_db S) (run relay passes).
Proof.
  assert (Hfresh : ∀ rows report, guar env (on_db S) (publish_fresh relay rows report)).
  { induction rows as [|[id row] rows IH]; intros report; cbn [publish_fresh]; guar_steps;
      auto using publish_within, mark_published_within, record_undeliverable_within, record_failure_within. }
  assert (Hresend : ∀ rows report, guar env (on_db S) (resend_rows relay rows report)).
  { induction rows as [|[id row] rows IH]; intros report; cbn [resend_rows]; guar_steps;
      auto using publish_within, record_resend_within, record_failure_within. }
  induction passes as [|passes IH]; cbn [run]; unfold run_once, resend_unacknowledged, refresh_health,
    unacknowledged_removals; guar_steps; auto using guar_call_db.
Qed.
End RelayWalk.

(** *** The capture worker *)

Section WorkerWalk.
Context {ct : Contracts} {ec : EnvelopeCodec} {cr : Crypto} {ac : ArticleContracts}
  {sc : SocialContracts} {cc : CaptureContracts} {cl : CaptureContractsLaws} {rc : RemovalContracts}
  {resolver : PublicPostResolver}.
Context (Hsub : ∀ d d', Within [CapturesPart] (all_but CONTENT_CAPTURE_REQUESTED) d d' → S d d').

Lemma update_waiting_within id change d b d' : update_waiting id change d = Some (b, d') → S d d'.
Proof. intros [(_ & ->)|(_ & row & n & _ & _ & _ & ->)]%update_waiting_Some; stays Hsub. Qed.

Lemma terminal_report_within capture report : guar env (on_db S) (queue_terminal_report capture report).
Proof.
  unfold queue_terminal_report. guar_steps.
  match goal with H : report_envelope _ _ _ _ _ _ _ = _ |- _ =>
    apply report_envelope_fields in H as (_ & Ht & _) end.
  apply (enqueue_within _ _ Hsub). by rewrite Ht.
Qed.

Lemma terminate_within capture failure : guar env (on_db S) (terminate capture failure).
Proof.
  unfold terminate, terminate_body, remove_owner_source.
  guar_steps; try apply terminal_report_within; unfold on_db; cbn [w_db set_db];
    try (by eapply update_waiting_within); try (by apply (queue_envelope_within _ _ Hsub)); try reflexivity.
  all: match goal with H : delete_explicit _ _ _ = _ |- _ => injection H as _ <- end; stays Hsub.
Qed.

Lemma preserve_within capture post : guar env (on_db S) (preserve capture post).
Proof.
  unfold preserve, preserve_body, upsert_owner_source, publish_owner_source, queue_source_event.
  guar_steps; try apply terminal_report_within; unfold on_db; cbn [w_db set_db];
    try (by eapply update_waiting_within); try (by apply (queue_envelope_within _ _ Hsub)); try reflexivity.
  all: match goal with H : upsert_explicit _ _ _ _ _ _ _ = _ |- _ => unfold upsert_explicit in H; rename H into Hu end;
    destruct (explicit_sources _ !! _); [|destruct (_ || _); [done|]]; injection Hu as _ <-; stays Hsub.
Qed.

Lemma worker_within locked policy : guar env (on_db S) (run_due_once locked policy).
Proof.
  unfold run_due_once, claim_due, process_capture, end_unavailable, defer, resolve.
  guar_steps; try apply terminate_within; try apply preserve_within; try apply guar_call_db;
    unfold on_db; cbn [w_db set_db]; try (by eapply update_waiting_within).
  - split. intros w. unfold on_db. simpl. reflexivity.
  - match goal with H : Some (claim_statement _ _ _ _) = _ |- _ => injection H as _ <- end. stays Hsub.
Qed.
End WorkerWalk.

(** *** Compliance *)

Section ComplianceWalk.
Context {ch : Chrono} {ct : Contracts} {ec : EnvelopeCodec} {rc : RemovalContracts}.
Context (revalidation : string → nat → result ComplianceObservation ComplianceSourceError).
Context (Hsub : ∀ d d', Within [TakedownsPart] (eq REMOVAL_EVENT_TYPE) d d' → S d d').

Lemma record_result_within account candidate evidence checked_at :
  guar env (on_db S) (record_result account candidate evidence checked_at).
Proof.
  unfold record_result, record_body, remove_source.
  guar_steps; try (by apply (queue_envelope_within _ _ Hsub)); unfold on_db; cbn [w_db set_db].
  - match goal with H : insert_ledger _ _ _ = _ |- _ => apply insert_ledger_Some in H as [_ ->] end. stays Hsub.
  - stays Hsub.
  - match goal with H : mark_removed _ _ _ _ = _ |- _ =>
      apply mark_removed_Some in H as [(_ & ->)|(_ & row & _ & _ & _ & ->)] end; stays Hsub.
  - match goal with H : insert_tombstone _ _ _ = _ |- _ => apply insert_tombstone_Some in H as [_ ->] end.
    stays Hsub.
Qed.

Lemma compliance_within gate account due max_items :
  guar env (on_db S) (reserve gate account 1) →
  guar env (on_db S) (run_due revalidation gate account due max_items).
Proof.
  intros Hreserve. unfold run_due. apply guar_bind; [typeclasses eauto|guar_steps|]. intros candidates.
  generalize (mkComplianceRunSummary 0 0 false). induction candidates as [|c candidates IH]; intros summary;
    cbn [revalidate_all]; guar_steps; first [done | apply guar_call_db | apply record_result_within | apply IH].
Qed.
End ComplianceWalk.

(** *** The archive and its write-backs *)

Section ArchiveWalk.
Context {ch : Chrono} {ct : Contracts} {ec : EnvelopeCodec} {cr : Crypto} {ac : ArticleContracts}
  {sc : SocialContracts} {ho : HashOrder}.
Context (Hsub : ∀ d d', Within [ArchivePart] nothing d d' → S d d').

Lemma mark_failed_within run_id : guar env (on_db S) (mark_failed run_id).
Proof. unfold mark_failed. guar_steps. stays Hsub. Qed.

Lemma insert_run_within id account run_type d u d' : insert_run id account run_type d = Some (u, d') → S d d'.
Proof.
  unfold insert_run. case_bool_decide; [|done]. destruct (insert_new _ _ _); simpl; [|done].
  intros [= _ <-]. stays Hsub.
Qed.

Lemma insert_snapshot_within id run_id folder d u d' :
  insert_snapshot id run_id folder d = Some (u, d') → S d d'.
Proof.
  unfold insert_snapshot. destruct (insert_new _ _ _); simpl; [|done]. intros [= _ <-]. stays Hsub.
Qed.

Lemma load_run_within account resume : guar env (on_db S) (load_or_create_run account resume).
Proof.
  unfold load_or_create_run, resume_run, create_run. guar_steps; unfold on_db; cbn [w_db set_db].
  - stays Hsub.
  - by eapply insert_run_within.
  - by eapply insert_snapshot_within.
Qed.

Lemma checkpoint_within run_id next_token count d u d' :
  checkpoint_run run_id next_token count d = Some (u, d') → S d d'.
Proof.
  unfold checkpoint_run. destruct (sync_runs d !! run_id) as [run|]; [|intros [= _ <-]; reflexivity].
  destruct (String.eqb _ _); [|intros [= _ <-]; reflexivity].
  destruct (int4 (run_pages_fetched run + 1)); simpl; [|done].
  destruct (int4 (run_items_observed run + count)); simpl; [|done]. intros [= _ <-]. stays Hsub.
Qed.

Lemma count_page_within run_id count d u d' : count_page run_id count d = Some (u, d') → S d d'.
Proof.
  unfold count_page. destruct (sync_runs d !! run_id) as [run|]; [|intros [= _ <-]; reflexivity].
  destruct (int4 (run_pages_fetched run + 1)); simpl; [|done].
  destruct (int4 (run_items_observed run + count)); simpl; [|done]. intros [= _ <-]. stays Hsub.
Qed.

Lemma scan_within service source account :
  guar env (on_db S) (reserve (is_budget service) account 1) →
  (∀ run_id page newest, guar env (on_db S) (observe_page account run_id page newest)) →
  guar env (on_db S) (run_scan service source account).
Proof.
  intros Hreserve Hobserve. apply run_scan_parts; try done.
  - unfold create_scan_run. guar_steps. by eapply insert_run_within.
  - intros. unfold complete_scan. guar_steps; [|stays Hsub]. unfold finish_run in *.
    destruct (sync_runs _ !! _); simpl in *; [|done]. stays Hsub.
  - intros. unfold mark_gap. guar_steps; stays Hsub.
  - intros. unfold stop_run. guar_steps; stays Hsub.
  - apply mark_failed_within.
Qed.

Lemma records_within : IgnoresRecords S.
Proof. split; intros f d; stays Hsub. Qed.

Lemma stage_folder_within run page : guar env (on_db S) (stage_folder_page run page).
Proof.
  unfold stage_folder_page, stage_folder_body.
  guar_steps; [apply (persist_page_ignored _ _), records_within|stays Hsub|].
  unfold checkpoint_folder_run in *. destruct (sync_runs _ !! _); [|stays Hsub].
  destruct (int4 (run_pages_fetched _ + 1)); simpl in *; [|done].
  destruct (int4 (run_items_observed _ + _)); simpl in *; [|done]. stays Hsub.
Qed.

Lemma complete_folder_within run : guar env (on_db S) (complete_folder_run run).
Proof.
  unfold complete_folder_run, folder_completion, lock_folder_finalization, reconcile_memberships, count_added,
    count_retained, record_added_observations, record_absent_memberships, record_folder_completion,
    replace_folder_authority.
  guar_steps; unfold on_db; cbn [w_db set_db tick]; try (stays Hsub).
  - match goal with H : remove_absent_members _ _ _ = _ |- _ => injection H as _ <- end. stays Hsub.
  - unfold complete_folder_snapshot in *. destruct (snapshots _ !! _); [|stays Hsub].
    destruct (sync_runs _ !! _); simpl in *; [|done]. stays Hsub.
Qed.

Lemma mark_limited_within run_id capability : guar env (on_db S) (mark_capability_limited run_id capability).
Proof.
  unfold mark_capability_limited. guar_steps; [|stays Hsub]. unfold fail_run in *.
  destruct (sync_runs _ !! _); simpl in *; [|done]. stays Hsub.
Qed.

Lemma record_limit_within account capability : guar env (on_db S) (record_capability_limit account capability).
Proof.
  unfold record_capability_limit. guar_steps; [by eapply insert_run_within|apply mark_limited_within].
Qed.

Lemma load_folder_within account folder resume :
  guar env (on_db S) (load_or_create_folder_run account folder resume).
Proof.
  unfold load_or_create_folder_run, resume_folder_run, create_folder_run.
  guar_steps; unfold on_db; cbn [w_db set_db]; try (by eapply insert_run_within);
    try (by eapply insert_snapshot_within); try (stays Hsub).
  unfold upsert_folder in *. destruct (bookmark_folders _ !! _) as [[known name]|]; [stays Hsub|].
  case_bool_decide; [|done]. destruct (find_row _ _); [done|]. stays Hsub.
Qed.

Lemma folder_within fuel gate source account folder resume :
  guar env (on_db S) (reserve gate account 1) →
  guar env (on_db S) (run_folder fuel gate source account folder resume).
Proof.
  intros Hreserve. unfold run_folder. apply guar_bind; [typeclasses eauto|apply load_folder_within|].
  induction fuel as [|fuel IH]; intros run; cbn [run_folder_pages]; guar_steps;
    first [done | apply guar_call_db | apply mark_failed_within | apply mark_limited_within
          | apply stage_folder_within | apply complete_folder_within | apply IH].
Qed.

End ArchiveWalk.

(** Completing a bookmark snapshot also settles the uncertain writes it observed. *)
Section WritesWalk.
Context {ch : Chrono} {ct : Contracts} {ec : EnvelopeCodec} {cr : Crypto} {ac : ArticleContracts}
  {sc : SocialContracts} {ho : HashOrder} {rf : Rfc3339}.
Context (Hsub : ∀ d d', Within [ArchivePart; WritesPart] nothing d d' → S d d').

Lemma archive_alone d d' : Within [ArchivePart] nothing d d' → S d d'.
Proof. intros HW. apply Hsub. eapply within_mono; [| |exact HW]; [set_solver|done]. Qed.

Lemma complete_run_within account run : guar env (on_db S) (complete_run account run).
Proof.
  unfold complete_run, completion, lock_finalization, reconcile_bookmarks, record_absent_bookmarks,
    repair_removed, reconcile_uncertain_bookmark_writes, reconcile_operation, record_completion, replace_authority.
  guar_steps; unfold on_db; cbn [w_db set_db tick]; try (stays Hsub).
  - match goal with H : remove_absent _ _ _ _ = _ |- _ => injection H as _ <- end. stays Hsub.
  - unfold audit_reconciliation. destruct (bookmark_write_operations _ !! _) as [o|]; [|reflexivity].
    destruct (wo_consent_id o ≫= _); stays Hsub.
  - unfold complete_snapshot_row in *. destruct (snapshots _ !! _); [|stays Hsub].
    destruct (sync_runs _ !! _); simpl in *; [|done]. stays Hsub.
Qed.

Lemma snapshot_within fuel gate source account resume :
  guar env (on_db S) (reserve gate account 1) →
  (∀ run page observed_at, guar env (on_db S) (stage_page run page observed_at)) →
  guar env (on_db S) (run_snapshot fuel gate source account resume).
Proof.
  intros Hreserve Hstage. apply run_snapshot_parts; try done;
    [by apply load_run_within, archive_alone|by apply mark_failed_within, archive_alone|apply complete_run_within].
Qed.

Lemma writes_within : ToleratesWrites S.
Proof.
  split; [intros f d; stays Hsub..|]. intros id account post action now d b d'. unfold project_write.
  destruct action; intros [= _ <-]; stays Hsub.
Qed.
End WritesWalk.

(** *** Publishing sources and their articles *)

Section ArticleWalk.
Context {ct : Contracts} {ec : EnvelopeCodec} {cr : Crypto} {ac : ArticleContracts}.
Context (Hsub : ∀ d d', Within [ArticlesPart] (eq CONTENT_CAPTURE_REQUESTED) d d' → S d d').

Lemma capture_links_within account source urls :
  guar env (on_db S) (capture_expanded_links_in_transaction account source urls).
Proof.
  unfold capture_expanded_links_in_transaction, capture_link, queue_article_command.
  guar_steps; try (by apply (queue_envelope_within _ _ Hsub)); unfold on_db; cbn [w_db set_db].
  - unfold source_owner in *. destruct (social_sources _ !! _); simpl in *; [|done].
    case_bool_decide; [|done]. destruct (accounts _ !! _); simpl in *; [|done]. by simplify_eq.
  - unfold find_or_insert_capture in *. destruct (find_row _ _) as [[existing row]|]; [by simplify_eq|].
    destruct (insert_new _ _ _); simpl in *; [|done]. stays Hsub.
  - stays Hsub.
Qed.

End ArticleWalk.

Section PublishWalk.
Context {ch : Chrono} {ct : Contracts} {ec : EnvelopeCodec} {cr : Crypto} {ac : ArticleContracts}
  {sc : SocialContracts} {ho : HashOrder}.
Context (Hsub : ∀ d d', Within [ArchivePart; ArticlesPart] (all_but OPERATION_REPORTED) d d' → S d d').

(** A source that is new or revised in place is removed exactly if it was. *)
Lemma sources_within d f :
  removals (on_social_sources f d) = removals d → S d (on_social_sources f d).
Proof.
  intros E. apply Hsub, within_tables; [|done]. intros p _. destruct p; try reflexivity. simpl. by rewrite E.
Qed.

Lemma update_source_within source_id digest captured_at provenance d :
  S d (update_source source_id digest captured_at provenance d).
Proof.
  apply sources_within. unfold removals. cbn. apply map_eq. intros id.
  rewrite !lookup_omap, lookup_alter. case_decide as E; [subst|done]. by destruct (social_sources d !! id).
Qed.

Lemma insert_source_within source_id account post_id digest captured_at provenance d u d' :
  insert_source source_id account post_id digest captured_at provenance d = Some (u, d') → S d d'.
Proof.
  unfold insert_source, insert_new. destruct (source_of _ _ _); [done|].
  destruct (social_sources d !! source_id) eqn:E; simpl; [done|]. intros [= _ <-].
  apply sources_within. unfold removals. cbn. rewrite omap_insert_None by done. apply delete_id.
  by rewrite lookup_omap, E.
Qed.

Lemma insert_revision_within source_id digest captured_at provenance d u d' :
  insert_revision source_id digest captured_at provenance d = Some (u, d') → S d d'.
Proof.
  unfold insert_revision, insert_new.
  destruct (social_source_revisions d !! _) eqn:E; simpl; [done|]. intros [= _ <-]. apply Hsub.
  split; [intros p _; by destruct p|done|by apply insert_subseteq|].
  split; [intros i r H; by exists r|eauto].
Qed.

Lemma articles_part d d' : Within [ArticlesPart] (eq CONTENT_CAPTURE_REQUESTED) d d' → S d d'.
Proof. intros HW. apply Hsub. eapply within_mono; [| |exact HW]; [set_solver|by intros t <-]. Qed.

Lemma queue_source_event_within touched queues owner fact source_id snapshot captured_at :
  (∀ d d', Within touched queues d d' → S d d') → queues SOURCE_CAPTURED → queues SOURCE_UPDATED →
  guar env (on_db S) (queue_source_event owner fact source_id snapshot captured_at).
Proof.
  intros HW Hcap Hupd. unfold queue_source_event. guar_steps. apply (queue_envelope_within _ _ HW).
  by destruct fact.
Qed.

Lemma publish_sources_within account post_ids captured_at :
  guar env (on_db S) (publish_bookmark_sources account post_ids captured_at).
Proof.
  unfold publish_bookmark_sources, publish_source, publish_revision, record_revision.
  guar_steps; try (apply capture_links_within, articles_part); try by apply (queue_source_event_within _ _ _ _ _ _ _ Hsub).
  all: unfold on_db; cbn [w_db set_db]; try reflexivity;
    try apply update_source_within; try (by eapply insert_source_within); try (by eapply insert_revision_within).
  destruct (load_source _ _ _); simpl in *; [|done]. by simplify_eq.
Qed.

Lemma archive_part d d' : Within [ArchivePart] nothing d d' → S d d'.
Proof. intros HW. apply Hsub. eapply within_mono; [| |exact HW]; [set_solver|done]. Qed.

Lemma stage_page_within run page observed_at : guar env (on_db S) (stage_page run page observed_at).
Proof.
  unfold stage_page. guar_steps; try apply publish_sources_within; [|stays Hsub|].
  - apply (persist_page_ignored _ _). split; intros f d; stays Hsub.
  - by eapply (checkpoint_within archive_part).
Qed.

Lemma observe_page_within account run_id page newest :
  guar env (on_db S) (observe_page account run_id page newest).
Proof.
  unfold observe_page, load_state, observe_body, upsert_observed_bookmarks.
  guar_steps; try apply publish_sources_within; [|stays Hsub|].
  - apply (persist_page_ignored _ _). split; intros f d; stays Hsub.
  - by eapply (count_page_within archive_part).
Qed.
End PublishWalk.

End Walk.

(** Inside a transaction that requests articles, requests and commands part for a moment: there the
    correspondence is kept by the body as a whole. *)
Section ArticlesWalk.
Context {ch : Chrono} {ct : Contracts} {ec : EnvelopeCodec} {cr : Crypto} {ac : ArticleContracts}
  {sc : SocialContracts} {ho : HashOrder} {Huuid : Inj (=) (=) uuid_text}.
Context (env : Env Db) (Hr : rely (Ev:=Event) env (on_db (keeps ArticlesMatched))).

Lemma articles_apart d d' :
  Within [ArchivePart; TakedownsPart] (all_but CONTENT_CAPTURE_REQUESTED) d d' →
  keeps ArticlesMatched d d'.
Proof. apply within_articles; [set_solver|by intros H; apply H]. Qed.

(** A statement that leaves captures and commands alone. *)
Ltac matched := eapply articles_matched_frame; [..|eassumption]; done.

Lemma articles_apart_archive d d' :
  Within [ArchivePart] nothing d d' → keeps ArticlesMatched d d'.
Proof. intros HW. apply articles_apart. eapply within_mono; [| |exact HW]; [set_solver|done]. Qed.

Lemma insert_revision_matched source_id digest captured_at provenance d u d' :
  ArticlesMatched d → insert_revision source_id digest captured_at provenance d = Some (u, d') →
  ArticlesMatched d'.
Proof.
  unfold insert_revision. intros HI H. destruct (insert_new _ _ _); simpl in *; [|done]. simplify_eq.
  matched.
Qed.

Lemma publish_sources_matched account post_ids captured_at :
  keeps_ok (Ev:=Event) env ArticlesMatched (publish_bookmark_sources account post_ids captured_at).
Proof.
  unfold publish_bookmark_sources, publish_source, publish_revision, record_revision.
  keeps_steps; try apply capture_in_transaction_keeps;
    try by apply guar_keeps_ok, (queue_source_event_within _ _ _ _ _ _ _ _ _ articles_apart).
  all: try done; try by eapply insert_revision_matched.
  - destruct (load_source _ _ _); simpl in *; [|done]. by simplify_eq.
  - matched.
  - unfold insert_source in *. destruct (source_of _ _ _); [done|].
    destruct (insert_new _ _ _); simpl in *; [|done]. simplify_eq. matched.
Qed.

Lemma persist_page_matched normalized : keeps_ok (Ev:=Event) env ArticlesMatched (persist_page normalized).
Proof. apply guar_keeps_ok, persist_page_ignored; [typeclasses eauto|]. split; intros f d HI; matched. Qed.

Lemma stage_page_matched run page observed_at :
  guar env (on_db (keeps ArticlesMatched)) (stage_page run page observed_at).
Proof.
  unfold stage_page. apply guar_bind; [typeclasses eauto|guar_steps|]. intros normalized.
  apply guar_bind; [typeclasses eauto|guar_steps|]. intros count.
  apply guar_transaction_keeps; [done|].
  keeps_steps; try apply persist_page_matched; try apply publish_sources_matched.
  - matched.
  - by eapply (checkpoint_within (keeps ArticlesMatched) articles_apart_archive).
Qed.

Lemma observe_page_matched account run_id page newest :
  guar env (on_db (keeps ArticlesMatched)) (observe_page account run_id page newest).
Proof.
  unfold observe_page, load_state.
  do 3 (apply guar_bind; [typeclasses eauto|guar_steps|intros ?]).
  apply guar_bind; [typeclasses eauto| |guar_steps]. apply guar_transaction_keeps; [done|].
  unfold observe_body, upsert_observed_bookmarks.
  keeps_steps; try apply persist_page_matched; try apply publish_sources_matched; [matched|].
  by eapply (count_page_within (keeps ArticlesMatched) articles_apart_archive).
Qed.
End ArticlesWalk.
