(* ===== verification/System.v ===== *)
(** * The whole program

    Every operation of the program over the one database, and the invariants of all its parts at once.
    Each operation is shown to respect all of them while everybody else does: its own invariant by the
    theorems of its file, the others by its footprint. From there the invariants hold of every database
    the program can leave behind, the empty one first.

    The operations are the five tasks the service spawns ([services/x/src/main.rs]), the operator's
    commands ([services/x/src/transition_main.rs]) and the services the crates offer. *)
From S2P Require Export Service Footprints SnapshotStaging WritebackSamples.

(** ** What the program promises *)

(** The steps of the database every operation stays within. *)
Record SystemSteps `{Contracts, EnvelopeCodec, Crypto, ArticleContracts, CaptureContracts}
    (caps : string → Z) (d d' : Db) : Prop := {
  sys_archive : keeps ArchiveJustified d d';
  sys_writes : WriteSteps d d';
  sys_takedowns : keeps TakedownsJustified d d';
  sys_articles : keeps ArticlesMatched d d';
  sys_captures : captures_follow d d';
  sys_windows : keeps (windows_within caps) d d';
  sys_reviews : keeps ReviewsJustified d d';
  sys_links : keeps LinksJustified d d';
  sys_outbox : outbox_advances d d';
  sys_types : keeps types_allowed d d';
}.

(** The databases it leaves behind. *)
Record Sound `{Contracts, EnvelopeCodec, Crypto, ArticleContracts, CaptureContracts}
    (caps : string → Z) (d : Db) : Prop := {
  snd_archive : ArchiveJustified d;
  snd_takedowns : TakedownsJustified d;
  snd_articles : ArticlesMatched d;
  snd_captures : CapturesReported d;
  snd_windows : windows_within caps d;
  snd_reviews : ReviewsJustified d;
  snd_links : LinksJustified d;
  snd_types : types_allowed d;
}.

Section Promise.
Context {ct : Contracts} {ec : EnvelopeCodec} {cr : Crypto} {ac : ArticleContracts} {cc : CaptureContracts}.
Context (caps : string → Z).

#[export] Instance system_steps_preorder : PreOrder (SystemSteps caps).
Proof.
  split; [intros d; split; reflexivity|].
  intros d1 d2 d3 [] []. split; (etrans; [eassumption|assumption]).
Qed.

Lemma sound_steps d d' : SystemSteps caps d d' → Sound caps d → Sound caps d'.
Proof. intros [A _ T R [_ C] W V L _ E] []. split; auto. Qed.

(** Nothing is claimed of an empty database. *)
Lemma sound_empty : Sound caps empty_db.
Proof.
  split.
  - split; split; intros *; cbn; rewrite ?lookup_empty; done.
  - split; intros *; cbn; rewrite ?lookup_empty; done.
  - split; unfold capture_command; intros *; cbn; rewrite lookup_empty; try done; by intros [? _].
  - split; intros *; cbn; rewrite ?lookup_empty; try done.
  - intros *; cbn; rewrite ?lookup_empty; done.
  - split; intros *; cbn; rewrite ?lookup_empty; done.
  - split; intros *; cbn; rewrite ?lookup_empty; done.
  - intros *; cbn; rewrite ?lookup_empty; done.
Qed.
End Promise.

(** ** The operations *)

(** What the bus, the provider and the clock bring to a task of the service while it runs. *)
Inductive BusTask :=
  | BrowserCaptureConsumer (lookup : result ConsumerConfig string) (items : list StreamItem)
  | ExtractorReportConsumer (lookup : result ConsumerConfig string) (items : list StreamItem)
  | DeletionAckConsumer (lookup : result ConsumerConfig string) (items : list StreamItem)
  | PublicCaptureWorker (locked : nat → gset Z) (passes : nat)
  | OutboxRelayTask (passes : nat).

Definition task_name (task : BusTask) : string :=
  match task with
  | BrowserCaptureConsumer _ _ => "browser_capture_consumer"
  | ExtractorReportConsumer _ _ => "extractor_report_consumer"
  | DeletionAckConsumer _ _ => "deletion_ack_consumer"
  | PublicCaptureWorker _ _ => "public_capture_worker"
  | OutboxRelayTask _ => "outbox_relay"
  end.

(** The service runs exactly these tasks, under these names. *)
Lemma tasks_are_named name : name ∈ TASKS ↔ ∃ task, task_name task = name.
Proof.
  split.
  - unfold TASKS. rewrite !elem_of_cons, elem_of_nil.
    intros [->|[->|[->|[->|[->|[]]]]]];
      [by exists (BrowserCaptureConsumer (Err "") [])|by exists (ExtractorReportConsumer (Err "") [])
      |by exists (DeletionAckConsumer (Err "") [])|by exists (PublicCaptureWorker (λ _, ∅) 0)
      |by exists (OutboxRelayTask 0)].
  - intros [[] <-]; apply (bool_decide_unpack _); vm_compute; exact I.
Qed.

(** The operator's commands and the services of the crates, with what their callers and providers
    bring. *)
Inductive Operation :=
  | RunTask (config : XConfig) (task : BusTask)
  | TakeSnapshot (fuel : nat) (gate : BudgetGate) (source : BookmarkPageSource) (account : Z) (resume : option Z)
  | TakeFolder (fuel : nat) (gate : BudgetGate) (source : FolderMembershipPageSource) (account : Z)
      (folder : NativeFolder) (resume : option Z)
  | RecordCapability (account : Z) (capability : FolderCapability)
  | ScanHead (service : IncrementalScanService) (source : BookmarkPageSource) (account : Z)
  | Consent (service : BookmarkWritebackService) (user account : Z) (action : BookmarkAction) (post : string)
      (approved_at : Z) (surface : string)
  | ExecuteWrite (service : BookmarkWritebackService) (request : BookmarkWriteRequest) (action : BookmarkAction)
  | DryRun (service : BookmarkWritebackService) (request : BookmarkWriteRequest) (action : BookmarkAction)
  | Revalidate (revalidation : string → nat → result ComplianceObservation ComplianceSourceError)
      (gate : BudgetGate) (account due max_items : Z)
  | ConsumeCompletion (serialized_event : string)
  | CaptureLinks (account source : Z) (urls : list string)
  | BeginConnection (intent : NewIntent)
  | ResolveCallback (cipher : TokenCipher) (state : string)
  | ExchangeCode (service : ConnectionService) (account : Z) (accepted : AcceptedCallback) (code : string)
  | ExchangeWriteCode (service : ConnectionService) (accepted : AcceptedCallback) (code : string)
  | Refresh (service : ConnectionService) (account : Z) (presented : option string)
  | Revoke (service : ConnectionService) (account : Z)
  | ImportBatch (batch : PreflightBatch) (approval : option OwnershipApproval)
  | CompareShadow (account run_id snapshot_id : Z)
  | DeriveChecklist (account report_id : Z)
  | RecordDecision (request : TransitionApprovalRequest).

(** An operation as its caller sees it fail or not; its answer is its own file's business. *)
Definition outcome_of {E A} (m : Prog E A) : Prog unit unit :=
  map_err (λ _, tt) (do! m in ret tt).

Section Operations.
Context {ch : Chrono} {ct : Contracts} {ec : EnvelopeCodec} {cr : Crypto} {ac : ArticleContracts}
  {sc : SocialContracts} {cc : CaptureContracts} {rc : RemovalContracts} {ho : HashOrder} {rf : Rfc3339}
  {mp : BookmarkMutationProvider} {pr : Provider} {resolver : PublicPostResolver} {op : OutboxPublisher}
  {kc : AckContracts} {kn : KnowledgeContracts} {id : CurrentAccountIdentity}.

(** The loop of the [public_capture_worker] task: a pass, then the poll interval, until the stop
    signal comes after [passes] more of them; a pass that fails ends the task. *)
Fixpoint worker_loop (locked : nat → gset Z) (policy : CapturePolicy) (passes : nat) :
    Prog PublicCaptureError unit :=
  do! run_due_once locked policy in
  match passes with
  | O => ret tt
  | S passes => worker_loop locked policy passes
  end.

(** [spawn_deletion_acks]. *)
Definition deletion_ack_task (lookup : result ConsumerConfig string) (items : list StreamItem) :
    Prog unit unit :=
  outcome_of (consume_deletion_acks ACKS_DURABLE lookup items).

(** What [spawn_bus_tasks] starts, wired from the configuration. *)
Definition run_task (config : XConfig) (task : BusTask) : Prog unit unit :=
  match task with
  | BrowserCaptureConsumer lookup items =>
      outcome_of (consume_browser_commands (consumer_name (bus_ config)) lookup items)
  | ExtractorReportConsumer lookup items =>
      outcome_of (consume_extractor_reports REPORTS_DURABLE lookup items)
  | DeletionAckConsumer lookup items => deletion_ack_task lookup items
  | PublicCaptureWorker locked passes =>
      outcome_of (worker_loop locked
        (mkCapturePolicy (pc_max_attempts (public_capture config)) (pc_batch_size (public_capture config))) passes)
  | OutboxRelayTask passes => outcome_of (Relay.run (mkOutboxRelay (resend_policy config)) passes)
  end.

Definition perform (operation : Operation) : Prog unit unit :=
  match operation with
  | RunTask config task => run_task config task
  | TakeSnapshot fuel gate source account resume => outcome_of (run_snapshot fuel gate source account resume)
  | TakeFolder fuel gate source account folder resume =>
      outcome_of (run_folder fuel gate source account folder resume)
  | RecordCapability account capability => outcome_of (record_capability_limit account capability)
  | ScanHead service source account => outcome_of (run_scan service source account)
  | Consent service user account action post approved_at surface =>
      outcome_of (record_consent service user account action post approved_at surface)
  | ExecuteWrite service request action => outcome_of (execute_write service request action)
  | DryRun service request action => outcome_of (dry_run service request action)
  | Revalidate revalidation gate account due max_items =>
      outcome_of (run_due revalidation gate account due max_items)
  | ConsumeCompletion serialized_event => outcome_of (consume_completion serialized_event)
  | CaptureLinks account source urls => outcome_of (capture_expanded_links account source urls)
  | BeginConnection intent => outcome_of (insert_intent intent)
  | ResolveCallback cipher state => outcome_of (resolve_callback cipher state)
  | ExchangeCode service account accepted code => outcome_of (exchange_code service account accepted code)
  | ExchangeWriteCode service accepted code => outcome_of (exchange_bookmark_write_code service accepted code)
  | Refresh service account presented => outcome_of (refresh service account presented)
  | Revoke service account => outcome_of (revoke service account)
  | ImportBatch batch approval => outcome_of (import_batch batch approval)
  | CompareShadow account run_id snapshot_id => outcome_of (shadow_report_for account run_id snapshot_id)
  | DeriveChecklist account report_id => outcome_of (checklist_for account report_id)
  | RecordDecision request => outcome_of (record_transition_approval request)
  end.
End Operations.

(** The gates of the operations, which are to charge under the cap of their class. *)
Definition gates (operation : Operation) : list BudgetGate :=
  match operation with
  | TakeSnapshot _ gate _ _ _ | TakeFolder _ gate _ _ _ _ | Revalidate _ gate _ _ _ => [gate]
  | ScanHead service _ _ => [is_budget service]
  | ExecuteWrite service _ _ => [ws_budget service]
  | _ => []
  end.
Definition within_caps (caps : string → Z) (operation : Operation) : Prop :=
  ∀ gate, gate ∈ gates operation → request_cap_per_window gate ≤ caps (as_str (budget_class gate)).

(** ** Every operation respects the whole *)

(** A step that touches no part any promise is about. *)
Lemma within_system `{Contracts, EnvelopeCodec, Crypto, ArticleContracts, CaptureContracts} caps d d' :
  Within [] nothing d d' → SystemSteps caps d d'.
Proof.
  intros HW. split;
    [eapply within_archive|eapply within_writes|eapply within_takedowns|eapply within_articles
    |eapply within_captures|eapply within_windows|eapply within_reviews|eapply within_links|apply HW
    |eapply within_types]; eauto;
    first [apply not_elem_of_nil|by intros []].
Qed.

(** Outside its own parts an operation is tolerated by what the footprints say. *)
Ltac untouched := first [by apply (bool_decide_unpack _) | by intros [] | by intros [=] | by intros H; apply H].
Ltac tolerated :=
  intros ? ?;
  lazymatch goal with
  | |- _ → keeps ArchiveJustified _ _ => apply within_archive; untouched
  | |- _ → WriteSteps _ _ => apply within_writes; untouched
  | |- _ → keeps TakedownsJustified _ _ => apply within_takedowns; untouched
  | |- _ → keeps ArticlesMatched _ _ => apply within_articles; untouched
  | |- _ → captures_follow _ _ => apply within_captures; untouched
  | |- _ → keeps (windows_within _) _ _ => apply within_windows; untouched
  | |- _ → keeps ReviewsJustified _ _ => apply within_reviews; untouched
  | |- _ → keeps LinksJustified _ _ => apply within_links; untouched
  | |- _ → outbox_advances _ _ => by intros [_ _ _ [? _]]
  | |- _ → keeps types_allowed _ _ => apply within_types
  end.

(** The budget of a gate, under any relation that does not look at the windows. *)
Section Budgeted.
Context (env : Env Db) (S : relation Db) `{!PreOrder S} (Hr : rely (Ev:=Event) env (on_db S)).
Context (touched : list Part) (queues : string → Prop) (Hw : WindowsPart ∈ touched)
  (Hsub : ∀ d d', Within touched queues d d' → S d d').

Lemma windows_tolerated f d : S d (on_api_budget_windows f d).
Proof. apply Hsub, within_tables; [|done]. intros p Hp. by destruct p. Qed.

Lemma reserve_within `{Chrono} gate account request : guar env (on_db S) (reserve gate account request).
Proof. exact (reserve_frame _ _ _ _ _ windows_tolerated Hr). Qed.

Lemma refund_within gate account start request : guar env (on_db S) (refund gate account start request).
Proof. exact (refund_frame _ _ _ _ _ _ windows_tolerated Hr). Qed.
End Budgeted.

Section Respect.
Context {ch : Chrono} {ct : Contracts} {ec : EnvelopeCodec} {cr : Crypto} {ac : ArticleContracts}
  {sc : SocialContracts} {cc : CaptureContracts} {cl : CaptureContractsLaws} {rc : RemovalContracts}
  {ho : HashOrder} {rf : Rfc3339} {mp : BookmarkMutationProvider} {mpl : MutationProviderLaws} {pr : Provider}
  {resolver : PublicPostResolver} {op : OutboxPublisher} {laws : PublisherLaws} {kc : AckContracts}
  {kn : KnowledgeContracts} {id : CurrentAccountIdentity} {reads : ReadOnlyIdentity}
  {Huuid : Inj (=) (=) uuid_text}.
Context (caps : string → Z) (env : Env Db) (Hr : rely (Ev:=Event) env (on_db (SystemSteps caps))).

Lemma rely_part (S : relation Db) :
  (∀ d d', SystemSteps caps d d' → S d d') → rely (Ev:=Event) env (on_db S).
Proof. intros Hsub n w. apply Hsub, (Hr n w). Qed.
Ltac relied := apply rely_part; by intros ?? [].
Ltac apart := first [by intros ?? [] | relied | tolerated | typeclasses eauto].

Notation respects m := (guar env (on_db (SystemSteps caps)) m).

Lemma guar_system {E A} (m : Prog E A) :
  guar env (on_db (keeps ArchiveJustified)) m → guar env (on_db WriteSteps) m →
  guar env (on_db (keeps TakedownsJustified)) m → guar env (on_db (keeps ArticlesMatched)) m →
  guar env (on_db captures_follow) m → guar env (on_db (keeps (windows_within caps))) m →
  guar env (on_db (keeps ReviewsJustified)) m → guar env (on_db (keeps LinksJustified)) m →
  guar env (on_db outbox_advances) m → guar env (on_db (keeps types_allowed)) m → respects m.
Proof. intros [] [] [] [] [] [] [] [] [] []. split. intros w. unfold on_db in *. by split. Qed.

Lemma guar_outcome {E A} (m : Prog E A) : respects m → respects (outcome_of m).
Proof. intros Hm. unfold outcome_of. guar_steps. Qed.

(** *** The tasks of the service *)

Lemma commands_respect durable_name lookup items :
  respects (consume_browser_commands durable_name lookup items).
Proof.
  apply guar_system; try (apply browser_commands_within; apart).
  apply consume_browser_commands_follows. relied.
Qed.

Lemma worker_respects locked policy passes : respects (worker_loop locked policy passes).
Proof.
  assert (Hpass : respects (run_due_once locked policy)).
  { apply guar_system; try (apply worker_within; apart).
    apply run_due_once_follows. relied. }
  induction passes as [|passes IH]; cbn [worker_loop]; guar_steps; done.
Qed.

Lemma extractor_reports_respect durable_name lookup items :
  respects (consume_extractor_reports durable_name lookup items).
Proof.
  apply guar_system; try (apply extractor_reports_within; apart).
  unfold consume_extractor_reports. apply guar_bind; [typeclasses eauto|guar_steps|]. intros _.
  apply consume_guar; [typeclasses eauto|]. intros payload s. unfold handle_report.
  guar_steps. apply extractor_report_matched. relied.
Qed.
Lemma untouched_respects {E A} (m : Prog E A) :
  (∀ S : relation Db, PreOrder S → rely (Ev:=Event) env (on_db S) →
     (∀ d d', Within [] nothing d d' → S d d') → guar env (on_db S) m) →
  respects m.
Proof. intros Hm. apply Hm; [typeclasses eauto|done|apply within_system]. Qed.

Lemma task_respects config task : respects (run_task config task).
Proof.
  destruct task; apply guar_outcome;
    [apply commands_respect|apply extractor_reports_respect| |apply worker_respects|];
    apply untouched_respects; intros; [by apply deletion_acks_within|by apply relay_within].
Qed.

(** *** The archive *)

Definition folder_parts : list Part := [ArchivePart; WindowsPart].
Definition scan_parts : list Part := [ArchivePart; ArticlesPart; WindowsPart].
Definition snapshot_parts : list Part := [ArchivePart; WritesPart; ArticlesPart; WindowsPart].
Definition write_parts : list Part := [ArchivePart; WritesPart; WindowsPart].

Section Archive.
Context (S : relation Db) `{!PreOrder S} (HS : ∀ d d', SystemSteps caps d d' → S d d').

Lemma widen touched queues touched' queues' :
  (∀ d d', Within touched' queues' d d' → S d d') → touched ⊆ touched' → (∀ t, queues t → queues' t) →
  ∀ d d', Within touched queues d d' → S d d'.
Proof. intros H Ht Hq d d' HW. apply H. by eapply within_mono. Qed.

Lemma snapshot_apart fuel gate source account resume :
  (∀ d d', Within snapshot_parts (all_but OPERATION_REPORTED) d d' → S d d') →
  guar env (on_db S) (run_snapshot fuel gate source account resume).
Proof.
  intros Hsub. apply snapshot_within;
    [typeclasses eauto|by apply rely_part|eapply widen; [exact Hsub|by apply (bool_decide_unpack _)|done]| |].
  - eapply reserve_within; [typeclasses eauto|by apply rely_part| |exact Hsub]. by apply (bool_decide_unpack _).
  - intros. apply stage_page_within; [typeclasses eauto|by apply rely_part|].
    eapply widen; [exact Hsub|by apply (bool_decide_unpack _)|done].
Qed.

Lemma scan_apart service source account :
  (∀ d d', Within scan_parts (all_but OPERATION_REPORTED) d d' → S d d') →
  guar env (on_db S) (run_scan service source account).
Proof.
  intros Hsub. apply scan_within;
    [typeclasses eauto|by apply rely_part|eapply widen; [exact Hsub|by apply (bool_decide_unpack _)|done]| |].
  - eapply reserve_within; [typeclasses eauto|by apply rely_part| |exact Hsub]. by apply (bool_decide_unpack _).
  - intros. apply observe_page_within; [typeclasses eauto|by apply rely_part|].
    eapply widen; [exact Hsub|by apply (bool_decide_unpack _)|done].
Qed.

Lemma folder_apart fuel gate source account folder resume :
  (∀ d d', Within folder_parts nothing d d' → S d d') →
  guar env (on_db S) (run_folder fuel gate source account folder resume).
Proof.
  intros Hsub. apply folder_within;
    [typeclasses eauto|by apply rely_part|eapply widen; [exact Hsub|by apply (bool_decide_unpack _)|done]|].
  eapply reserve_within; [typeclasses eauto|by apply rely_part| |exact Hsub]. by apply (bool_decide_unpack _).
Qed.

Lemma writes_apart :
  (∀ d d', Within write_parts nothing d d' → S d d') → ToleratesWrites S.
Proof.
  intros Hsub. apply writes_within. eapply widen; [exact Hsub|by apply (bool_decide_unpack _)|done].
Qed.

Lemma execute_apart service request action :
  (∀ d d', Within write_parts nothing d d' → S d d') →
  guar env (on_db S) (execute_write service request action).
Proof.
  intros Hsub. apply execute_write_footprint; [typeclasses eauto|by apply writes_apart|by apply rely_part|].
  split; intros.
  - eapply reserve_within; [typeclasses eauto|by apply rely_part| |exact Hsub]. by apply (bool_decide_unpack _).
  - eapply refund_within; [typeclasses eauto|by apply rely_part| |exact Hsub]. by apply (bool_decide_unpack _).
Qed.
End Archive.

(** A reservation requests no article. *)
Lemma reserve_matched gate account : guar env (on_db (keeps ArticlesMatched)) (reserve gate account 1).
Proof.
  apply (reserve_within env (keeps ArticlesMatched) ltac:(relied) [WindowsPart] nothing); [|tolerated].
  by apply (bool_decide_unpack _).
Qed.

(** The gates charge under the caps. *)
Lemma reserve_capped gate account :
  request_cap_per_window gate ≤ caps (as_str (budget_class gate)) →
  guar env (on_db (keeps (windows_within caps))) (reserve gate account 1).
Proof. intros Hgate. apply reserve_keeps_bounds; [relied|done|lia]. Qed.

Lemma snapshot_respects fuel gate source account resume :
  request_cap_per_window gate ≤ caps (as_str (budget_class gate)) →
  respects (run_snapshot fuel gate source account resume).
Proof.
  intros Hgate. apply guar_system; try (apply snapshot_apart; apart).
  - apply run_snapshot_archive. relied.
  - apply run_snapshot_steps. relied.
  - apply snapshot_within; [apart..|apply reserve_matched|].
    intros. apply stage_page_matched. relied.
  - apply snapshot_within; [apart..|by apply reserve_capped|].
    intros. apply stage_page_within; apart.
Qed.

Lemma scan_respects service source account :
  request_cap_per_window (is_budget service) ≤ caps (as_str (budget_class (is_budget service))) →
  respects (run_scan service source account).
Proof.
  intros Hgate. apply guar_system; try (apply scan_apart; apart).
  - apply run_scan_archive. relied.
  - apply scan_within; [apart..|apply reserve_matched|]. intros. apply observe_page_matched. relied.
  - apply scan_within; [apart..|by apply reserve_capped|]. intros. apply observe_page_within; apart.
Qed.

Lemma folder_respects fuel gate source account folder resume :
  request_cap_per_window gate ≤ caps (as_str (budget_class gate)) →
  respects (run_folder fuel gate source account folder resume).
Proof.
  intros Hgate. apply guar_system; try (apply folder_apart; apart).
  - apply run_folder_archive. relied.
  - apply folder_within; [apart..|by apply reserve_capped].
Qed.

Lemma record_limit_respects account capability : respects (record_capability_limit account capability).
Proof.
  apply guar_system; try (apply record_limit_within; apart). apply record_limit_archive. relied.
Qed.

Lemma consent_respects service user account action post approved_at surface :
  respects (record_consent service user account action post approved_at surface).
Proof.
  apply guar_system; try (apply record_consent_footprint; [typeclasses eauto|apply writes_within; apart|relied]).
  - apply record_consent_footprint; [typeclasses eauto|apply archive_tolerates_writes|relied].
  - apply record_consent_guar. relied.
Qed.

Lemma dry_run_respects service request action : respects (dry_run service request action).
Proof.
  apply guar_system; try (apply dry_run_footprint; [typeclasses eauto|apply writes_within; apart|relied]).
  - apply dry_run_footprint; [typeclasses eauto|apply archive_tolerates_writes|relied].
  - apply dry_run_guar. relied.
Qed.

Lemma execute_respects service request action :
  request_cap_per_window (ws_budget service) ≤ caps (as_str (budget_class (ws_budget service))) →
  respects (execute_write service request action).
Proof.
  intros Hgate. apply guar_system; try (apply execute_apart; apart).
  - apply execute_write_archive. relied.
  - apply execute_write_guar. relied.
  - apply execute_write_footprint; [typeclasses eauto|apply writes_within; apart|relied|].
    split; intros; [by apply reserve_capped|by apply refund_keeps_bounds; [relied|]].
Qed.

(** *** Sources, reviews, the bus and the connection *)

Lemma compliance_apart (S : relation Db) `{!PreOrder S} revalidation gate account due max_items :
  (∀ d d', SystemSteps caps d d' → S d d') →
  (∀ d d', Within [TakedownsPart; WindowsPart] (eq REMOVAL_EVENT_TYPE) d d' → S d d') →
  guar env (on_db S) (run_due revalidation gate account due max_items).
Proof.
  intros HS Hsub. apply compliance_within;
    [typeclasses eauto|by apply rely_part|eapply widen; [exact Hsub|by apply (bool_decide_unpack _)|done]|].
  eapply reserve_within; [typeclasses eauto|by apply rely_part| |exact Hsub]. by apply (bool_decide_unpack _).
Qed.

Lemma compliance_respects revalidation gate account due max_items :
  request_cap_per_window gate ≤ caps (as_str (budget_class gate)) →
  respects (run_due revalidation gate account due max_items).
Proof.
  intros Hgate. apply guar_system; try (apply compliance_apart; apart).
  - apply run_due_justified. relied.
  - apply compliance_within; [apart..|by apply reserve_capped].
Qed.

Lemma completion_respects serialized_event : respects (consume_completion serialized_event).
Proof.
  apply guar_system; try (apply completion_within; apart). apply consume_completion_keeps. relied.
Qed.

Lemma capture_links_respects account source (urls : list string) :
  respects (capture_expanded_links account source urls).
Proof.
  apply guar_system;
    try (unfold capture_expanded_links; apply guar_transaction;
         [typeclasses eauto|relied|guar_steps; apply capture_links_within; apart]).
  apply capture_expanded_links_matched; apart.
Qed.

Lemma reviews_respect :
  (∀ account run_id snapshot_id, respects (shadow_report_for account run_id snapshot_id)) ∧
  (∀ account report_id, respects (checklist_for account report_id)) ∧
  (∀ request, respects (record_transition_approval request)).
Proof.
  split_and!; intros; apply guar_system;
    try (first [apply shadow_report_within|apply checklist_within|apply record_approval_within]; apart).
  - apply shadow_report_for_keeps. relied.
  - apply checklist_for_keeps. relied.
  - apply record_transition_approval_keeps. relied.
Qed.

Lemma perform_respects operation : within_caps caps operation → respects (perform operation).
Proof.
  unfold within_caps.
  destruct operation; cbn [perform gates]; intros Hcaps; try apply guar_outcome;
    try (assert (Hgate := Hcaps _ (list_elem_of_here _ _)); clear Hcaps).
  - apply task_respects.
  - by apply snapshot_respects.
  - by apply folder_respects.
  - apply record_limit_respects.
  - by apply scan_respects.
  - apply consent_respects.
  - by apply execute_respects.
  - apply dry_run_respects.
  - by apply compliance_respects.
  - apply completion_respects.
  - apply capture_links_respects.
  - apply untouched_respects; intros. by apply insert_intent_within.
  - apply untouched_respects; intros. by apply resolve_callback_within.
  - apply untouched_respects; intros. by apply exchange_code_within.
  - apply untouched_respects; intros. by apply exchange_write_code_within.
  - apply untouched_respects; intros. by apply refresh_within.
  - apply untouched_respects; intros. by apply revoke_within.
  - apply untouched_respects; intros. by apply import_batch_within.
  - apply reviews_respect.
  - apply reviews_respect.
  - apply reviews_respect.
Qed.
End Respect.

(** ** The program as a whole *)

Section Whole.
Context {ch : Chrono} {ct : Contracts} {ec : EnvelopeCodec} {cr : Crypto} {ac : ArticleContracts}
  {sc : SocialContracts} {cc : CaptureContracts} {cl : CaptureContractsLaws} {rc : RemovalContracts}
  {ho : HashOrder} {rf : Rfc3339} {mp : BookmarkMutationProvider} {mpl : MutationProviderLaws} {pr : Provider}
  {resolver : PublicPostResolver} {op : OutboxPublisher} {laws : PublisherLaws} {kc : AckContracts}
  {kn : KnowledgeContracts} {id : CurrentAccountIdentity} {reads : ReadOnlyIdentity}
  {Huuid : Inj (=) (=) uuid_text}.
Context (caps : string → Z).

(** The databases the program can leave behind, from one it finds: operations follow each other, each
    with its own faults, clock and answers, and before any of their statements the other connections
    may have run operations of their own, to their end or to the fault that stopped them. Other programs
    write their own tables meanwhile; the accounts are such a table, nothing here enrols one. *)
Inductive system_run : relation Db :=
  | run_nothing d : system_run d d
  | run_elsewhere d d1 d' : Within [] nothing d d1 → system_run d1 d' → system_run d d'
  | run_operation operation (env : Env Db) (w : W) d' :
      within_caps caps operation → (∀ n d, system_run d (e_other env n d)) →
      system_run (w_db (perform operation env w).2) d' → system_run (w_db w) d'.

Lemma system_run_steps d d' : system_run d d' → SystemSteps caps d d'.
Proof.
  induction 1 as [d|d d1 d' HW _ IH|operation env w d' Hcaps _ Hothers _ IH]; [reflexivity| |].
  { etrans; [by apply within_system|exact IH]. }
  etrans; [|exact IH]. apply (guar_elim (perform_respects caps env (λ n w0, Hothers n (w_db w0)) _ Hcaps) w).
Qed.

(** C3. Every operation respects the whole: under faults anywhere, and next to whatever others do
    within [SystemSteps], it keeps the invariant of every component, its own by the theorems of its
    file and all others by its footprint, and it only moves outbox rows, writes and captures forward. *)
Theorem operations_respect_the_whole env operation :
  rely (Ev:=Event) env (on_db (SystemSteps caps)) → within_caps caps operation →
  guar env (on_db (SystemSteps caps)) (perform operation).
Proof. intros Hr Hcaps. by apply perform_respects. Qed.

(** C2. The program stays sound: whatever operations run, fail and interfere, from the empty database
    on, what is left is justified in every component (the archive's claims by complete snapshots,
    removals by evidence, article requests by their commands, captures by their reports, budgets by
    their caps, decisions by their reports, analysis links by what they link), and between any two
    points of a history write operations, captures and outbox rows only moved forward. *)
Theorem program_stays_sound d d' :
  system_run empty_db d → system_run d d' →
  Sound caps d' ∧ WriteSteps d d' ∧ captures_kept d d' ∧ outbox_advances d d'.
Proof.
  intros H1%system_run_steps H2%system_run_steps. split.
  - eapply sound_steps; [exact H2|]. eapply sound_steps; [exact H1|apply sound_empty].
  - destruct H2 as [_ HW _ _ [HC _] _ _ _ HO _]. done.
Qed.
End Whole.

(** ** What is reported arrives *)

Section Delivery.
Context {ch : Chrono} {ct : Contracts} {ec : EnvelopeCodec} {cr : Crypto} {ac : ArticleContracts}
  {sc : SocialContracts} {cc : CaptureContracts} {cl : CaptureContractsLaws} {rc : RemovalContracts}
  {ho : HashOrder} {rf : Rfc3339} {mp : BookmarkMutationProvider} {mpl : MutationProviderLaws} {pr : Provider}
  {resolver : PublicPostResolver} {op : OutboxPublisher} {laws : PublisherLaws} {kc : AckContracts}
  {kn : KnowledgeContracts} {identity : CurrentAccountIdentity} {reads : ReadOnlyIdentity}
  {Huuid : Inj (=) (=) uuid_text}.

(** The reports about a capture the broker has acknowledged. *)
Definition published_documents (capture_id : Z) (d : Db) : list Value :=
  (λ kv, env_payload (ob_payload kv.2)) <$>
    map_to_list (filter (λ kv, is_report_of capture_id kv.2 ∧ is_published kv.2 = true) (outbox_events d)).

(** An unpublished row the relay leaves alone at [now]: the broker refused it for good, or a failed
    attempt put off the next one. *)
Definition held_back (now : Z) (row : OutboxRow) : Prop :=
  is_published row = false ∧ (ob_undeliverable_at row ≠ None ∨ now < ob_next_attempt_at row).

Lemma due_unless_held_back now row :
  is_published row = true ∨ fresh_due now row = true ∨ held_back now row.
Proof.
  unfold fresh_due, held_back. destruct (is_published row); [by left|right].
  destruct (decide (ob_undeliverable_at row = None)) as [->|]; [|by right; split; [|left]].
  destruct (decide (ob_next_attempt_at row ≤ now)); [left; by rewrite !bool_decide_eq_true_2|].
  right. split; [done|right; lia].
Qed.

(** After a drained backlog a row is published, or it is a row that was held back and has not changed. *)
Lemma drained_or_held_back n now d d' id row :
  settles n d d' → outbox_advances d d' → backlog now d' = [] → outbox_events d !! id = Some row →
  ∃ row', outbox_events d' !! id = Some row' ∧ row_advances row row' ∧
    (is_published row' = true ∨ row' = row ∧ held_back now row).
Proof.
  intros Hs Ha Hnone Hr. destruct (due_unless_held_back now row) as [Hp|[Hf|Hh]].
  - destruct (Ha id row Hr) as (row' & Hr' & Hadv). exists row'. split_and!; [done..|left].
    destruct (Hs id row' Hr') as (row0 & Hr0 & [->|?] & _); [congruence|done].
  - destruct (drained_published n now d d' id row Hs Ha Hnone Hr Hf) as (row' & ? & ? & ?). exists row'. tauto.
  - destruct (Ha id row Hr) as (row' & Hr' & Hadv). exists row'. split_and!; [done..|].
    destruct (Hs id row' Hr') as (row0 & Hr0 & [->|?] & _); [|by left].
    right. split; [congruence|done].
Qed.

(** C7. What the program queued arrives. Take any database the program can have left behind, a broker
    that acknowledges, a quiet environment (no fault, no other writer) and a clock that stands at [now];
    let every row have room for one more resend per pass in its 32-bit counter, and let the waiting rows
    fit into the batches of the passes. Then the relay's passes end well, and every queued row ends up
    published with its payload, unless it was unpublished and held back to begin with (refused for good
    by the broker, or with its next attempt later than [now]), in which case it is unchanged. So every
    capture none of whose reports was held back has been reported on the bus exactly as far as it got,
    its terminal report included once it ended. *)
Theorem reports_reach_the_bus caps env relay passes now (w : W) :
  system_run caps empty_db (w_db w) → quiet env → always_acknowledged → (∀ n, e_pgnow env n = now) →
  resends_fit (λ _, Z.of_nat (S passes)) (w_db w) →
  (length (backlog now (w_db w)) ≤ S passes * BATCH_SIZE)%nat →
  let '(r, w') := Relay.run relay passes env w in
  r = Ok tt ∧
  (∀ id row, outbox_events (w_db w) !! id = Some row →
     ∃ row', outbox_events (w_db w') !! id = Some row' ∧ ob_payload row' = ob_payload row ∧
       (is_published row' = true ∨ row' = row ∧ held_back now row)) ∧
  ∀ capture_id capture, explicit_captures (w_db w') !! capture_id = Some capture →
    (∀ id row, outbox_events (w_db w) !! id = Some row → is_report_of capture_id row → ¬ held_back now row) →
    reported_so_far capture (published_documents capture_id (w_db w')).
Proof.
  intros Hrun%system_run_steps Hq Hack Hn Hf Hlen.
  assert (HS : Sound caps (w_db w)) by (eapply sound_steps; [exact Hrun|apply sound_empty]).
  pose proof (run_drains env relay now passes w Hq Hack Hn (snd_types _ _ HS) Hf Hlen) as Hdrain.
  pose proof (guar_elim (relay_within env (Within [] nothing) (quiet_rely env Hq _) (λ d d' H, H) relay passes) w)
    as HW.
  destruct (Relay.run relay passes env w) as [r w']. destruct Hdrain as (-> & Hs & Ha & Hnone).
  pose proof (λ id row, drained_or_held_back _ now _ _ id row Hs Ha Hnone) as Hall.
  split; [done|]. split.
  { intros id row Hr. destruct (Hall id row Hr) as (row' & Hr' & Hadv & Hend). exists row'.
    split_and!; [done|apply Hadv|done]. }
  unfold on_db in HW. cbn [snd] in HW. intros capture_id capture Hc Hfree.
  assert (E : published_documents capture_id (w_db w') = report_documents capture_id (w_db w)).
  { rewrite <-(report_documents_grow nothing capture_id (w_db w) (w_db w')); [|apply HW|by intros []].
    unfold published_documents, report_documents. do 2 f_equal. apply map_filter_ext.
    intros i row' Hr'. cbn. destruct (Hs i row' Hr') as (row & Hr & _).
    destruct (Hall i row Hr) as (row2 & Hr2 & Hadv & Hend). rewrite Hr' in Hr2. injection Hr2 as <-.
    split; [tauto|]. intros Hrep. split; [done|]. destruct Hend as [|[-> Hheld]]; [done|].
    by destruct (Hfree i row Hr Hrep). }
  rewrite E. apply (cp_reported _ (snd_captures _ _ HS)).
  destruct HW as [Hsame _ _ _]. specialize (Hsame CapturesPart (not_elem_of_nil _)). simpl in Hsame. by rewrite <-Hsame.
Qed.
End Delivery.

(** ** A concrete history *)

Module SystemSamples.
Import SampleChrono SampleContracts ArticleSamples SocialSamples SnapshotSamples WritebackSamples
  BrowserSamples PublicCaptureSamples ConsumerSamples KnowledgeSamples ConnectionSamples LegacySamples
  RelaySamples.

Definition sample_caps : string → Z := λ _, 10.
Definition sample_lookup : result ConsumerConfig string :=
  Ok (mkConsumerConfig (Some "ratatoskr_x_browser_capture"%string) COMMAND_SUBJECT true 0 None).

(** An account is enrolled, its bookmarks are taken, browser commands arrive, the worker resolves them
    and the relay publishes what was queued. *)
Definition enrolled : Db := on_accounts (insert 1 (mkAccount 7 "u1" "connected" 0)) empty_db.
Definition sample_history : list Operation :=
  [TakeSnapshot 12 SnapshotSamples.sample_gate SnapshotSamples.sample_source 1 None;
   RunTask default_config (BrowserCaptureConsumer sample_lookup sample_commands);
   RunTask default_config (PublicCaptureWorker (λ _, ∅) 1);
   RunTask default_config (OutboxRelayTask 1)].
Definition after (operation : Operation) (w : W) : W := (perform operation (calm 5) w).2.
Definition sample_end : W := fold_left (λ w operation, after operation w) sample_history (mkWorld enrolled 0 []).

(** The snapshot has the authority over the account's bookmarks, one capture is preserved and one
    unavailable, and whatever was queued is published. *)
Example sample_history_happened :
  size (bookmark_snapshot_authority (w_db sample_end)) = 1%nat ∧
  (xc_status <$> (map_to_list (explicit_captures (w_db sample_end))).*2) = ["resolved"; "unavailable"]%string ∧
  forallb is_published (map_to_list (outbox_events (w_db sample_end))).*2 = true ∧
  outbox_events (w_db sample_end) ≠ ∅.
Proof. vm_compute. done. Qed.

Lemma runs_of operations (w : W) :
  (∀ operation, operation ∈ operations → within_caps sample_caps operation) →
  system_run sample_caps (w_db w) (w_db (fold_left (λ w operation, after operation w) operations w)).
Proof.
  revert w. induction operations as [|operation operations IH]; intros w Hcaps; [apply run_nothing|].
  apply (run_operation sample_caps operation (calm 5) w); [apply Hcaps; by left|intros; apply run_nothing|].
  apply IH. intros o Ho. apply Hcaps. by right.
Qed.

Lemma sample_capped operation : operation ∈ sample_history → within_caps sample_caps operation.
Proof.
  intros Hin gate Hgate.
  assert (Hall : Forall (λ o, Forall (λ g, request_cap_per_window g ≤ 10) (gates o)) sample_history)
    by (repeat constructor; done).
  rewrite Forall_forall in Hall. specialize (Hall _ Hin). rewrite Forall_forall in Hall. by apply Hall.
Qed.

Lemma enrolled_within : Within [] nothing empty_db enrolled.
Proof. tables. Qed.

Lemma operations_respect_the_whole_witness :
  guar (calm 5) (on_db (SystemSteps sample_caps))
    (perform (TakeSnapshot 12 SnapshotSamples.sample_gate SnapshotSamples.sample_source 1 None)).
Proof.
  pose proof sample_uuid_inj.
  apply (operations_respect_the_whole sample_caps (calm 5)).
  - apply calm_rely. typeclasses eauto.
  - by intros gate ->%list_elem_of_singleton.
Defined.

(** The history from nothing, and within it the part after the enrolment. *)
Lemma program_stays_sound_witness :
  system_run sample_caps empty_db enrolled ∧ system_run sample_caps enrolled (w_db sample_end) ∧
  Sound sample_caps (w_db sample_end) ∧ WriteSteps enrolled (w_db sample_end) ∧
  captures_kept enrolled (w_db sample_end) ∧ outbox_advances enrolled (w_db sample_end).
Proof.
  pose proof sample_uuid_inj.
  assert (H1 : system_run sample_caps empty_db enrolled).
  { eapply run_elsewhere; [apply enrolled_within|apply run_nothing]. }
  assert (H2 : system_run sample_caps enrolled (w_db sample_end)).
  { apply (runs_of sample_history (mkWorld enrolled 0 [])), sample_capped. }
  split; [exact H1|]. split; [exact H2|]. exact (program_stays_sound sample_caps enrolled _ H1 H2).
Defined.

(** Before the relay runs: every row waits. *)
Definition sample_queued : W :=
  fold_left (λ w operation, after operation w) (take 3 sample_history) (mkWorld enrolled 0 []).

Lemma reports_reach_the_bus_witness :
  let '(r, w') := Relay.run RelaySamples.sample_relay 0 (calm 5) sample_queued in
  r = Ok tt ∧
  (∀ id row, outbox_events (w_db sample_queued) !! id = Some row →
     ∃ row', outbox_events (w_db w') !! id = Some row' ∧ ob_payload row' = ob_payload row ∧
       (is_published row' = true ∨ row' = row ∧ held_back 5 row)) ∧
  ∀ capture_id capture, explicit_captures (w_db w') !! capture_id = Some capture →
    (∀ id row, outbox_events (w_db sample_queued) !! id = Some row → is_report_of capture_id row →
       ¬ held_back 5 row) →
    reported_so_far capture (published_documents capture_id (w_db w')).
Proof.
  pose proof sample_uuid_inj.
  apply (reports_reach_the_bus sample_caps (calm 5) RelaySamples.sample_relay 0 5 sample_queued).
  - eapply run_elsewhere; [apply enrolled_within|].
    apply (runs_of (take 3 sample_history) (mkWorld enrolled 0 [])). intros o Ho.
    by apply sample_capped, (elem_of_sublist _ _ _ Ho), sublist_take.
  - apply calm_quiet.
  - intros subject id payload e w. unfold publish, jetstream_publisher, send.
    case_bool_decide as Hb; [simpl in Hb; lia|reflexivity].
  - done.
  - assert (Hall : map_Forall (λ _ row, 0 ≤ ob_resend_count row ∧ ob_resend_count row + 1 ≤ i32_max)
      (outbox_events (w_db sample_queued))) by (apply (bool_decide_unpack _); vm_compute; exact I). exact Hall.
  - apply (bool_decide_unpack _). vm_compute. exact I.
Defined.
End SystemSamples.
